(** * GeoViz3D: the classification pipeline, elevation sampling, colour
    scales, tag filters and the Overpass retry loop

    A shallow embedding of the Python sources

    - [utils/data_processing.py]   (module [DataProcessing])
    - [services/elevation_service.py] (module [ElevationService])
    - [services/overpass_service.py]  (module [OverpassService])
    - [models/geo_data.py]         (module [GeoData])
    - [utils/visualization.py]     (module [Visualization])

    Conventions.

    - A Python [float] is a binary64 number: Rocq's primitive [float], whose
      operations are the IEEE 754 ones CPython executes.
    - A Python exception is a constructor of [exn]; code that can raise
      returns a [result].  [try: ... except (E1, E2): ...] is [catch].
    - A [dict] with string keys is a [gmap string _]; a JSON object read
      through a fixed set of keys is a record of optional fields.
    - Strings are sequences of 8-bit characters; the Python string
      functions below are modelled on ASCII text. *)

From Stdlib Require Import ZArith QArith Qpower Qround Lqa List String Ascii.
From Stdlib Require Import Bool Lia.
From Stdlib Require Import Floats Uint63 DecimalString.
From stdpp Require Import base option gmap strings list list_numbers.

Local Open Scope string_scope.
Local Open Scope list_scope.
Local Open Scope Z_scope.

(** ** Python exceptions *)

Inductive exn : Set :=
  | KeyError
  | IndexError
  | ValueError
  | OverflowError
  | AttributeError
  | TypeError.

#[global] Instance exn_eq_dec : EqDecision exn.
Proof. solve_decision. Defined.

Inductive result (A : Type) : Type :=
  | Ok (a : A)
  | Raise (e : exn).
Arguments Ok {A} a.
Arguments Raise {A} e.

#[global] Instance result_ret : MRet result := fun A a => Ok a.
#[global] Instance result_bind : MBind result := fun A B f m =>
  match m with
  | Ok a => f a
  | Raise e => Raise e
  end.
#[global] Instance result_fmap : FMap result := fun A B f m =>
  match m with
  | Ok a => Ok (f a)
  | Raise e => Raise e
  end.

(** [try: body except (e1, ..., en): handler] *)
Definition catch {A} (handled : list exn) (body : result A) (handler : result A)
  : result A :=
  match body with
  | Ok a => Ok a
  | Raise e => if bool_decide (e ∈ handled) then handler else Raise e
  end.

(** [except Exception:] handles every exception of [exn]. *)
Definition catch_all {A} (body : result A) (handler : exn -> result A) : result A :=
  match body with
  | Ok a => Ok a
  | Raise e => handler e
  end.

Definition raises {A} (m : result A) : Prop :=
  match m with
  | Ok _ => False
  | Raise _ => True
  end.

(** [d[k]] on a dict and [l[i]] on a list (non-negative [i]). *)
Definition dict_getitem {V} (d : gmap string V) (k : string) : result V :=
  match d !! k with
  | Some v => Ok v
  | None => Raise KeyError
  end.

Definition list_getitem {A} (l : list A) (i : nat) : result A :=
  match l !! i with
  | Some v => Ok v
  | None => Raise IndexError
  end.

(** [d.get(k, default)] *)
Definition dict_get {V} (d : gmap string V) (k : string) (default : V) : V :=
  match d !! k with
  | Some v => v
  | None => default
  end.

(** [k in d] *)
Definition dict_in {V} (k : string) (d : gmap string V) : bool :=
  bool_decide (is_Some (d !! k)).

(** ** Python strings *)

Module PyStr.

Definition chars (s : string) : list ascii := list_ascii_of_string s.
Definition of_chars (l : list ascii) : string := string_of_list_ascii l.

Definition code (c : ascii) : N := N_of_ascii c.

(** [c.isspace()] on ASCII: tab, line feed, vertical tab, form feed,
    carriage return, the four separators 0x1c-0x1f, and space. *)
Definition isspace (c : ascii) : bool :=
  let n := code c in
  ((9 <=? n) && (n <=? 13) || (28 <=? n) && (n <=? 32))%N.

Definition isdigit (c : ascii) : bool :=
  let n := code c in ((48 <=? n) && (n <=? 57))%N.

Definition digit_value (c : ascii) : Z := Z.of_N (code c) - 48.

Definition isupper (c : ascii) : bool :=
  let n := code c in ((65 <=? n) && (n <=? 90))%N.

Definition islower (c : ascii) : bool :=
  let n := code c in ((97 <=? n) && (n <=? 122))%N.

Definition upper_char (c : ascii) : ascii :=
  if islower c then ascii_of_N (code c - 32) else c.

Definition lower_char (c : ascii) : ascii :=
  if isupper c then ascii_of_N (code c + 32) else c.

(** [s.lower()] *)
Definition lower (s : string) : string := of_chars (map lower_char (chars s)).

(** [s.capitalize()]: first character upper-cased, the rest lower-cased. *)
Definition capitalize (s : string) : string :=
  match chars s with
  | [] => ""
  | c :: cs => of_chars (upper_char c :: map lower_char cs)
  end.

(** [s.split()]: the maximal runs of non-whitespace characters, in order.
    [cur] is the run being read, reversed. *)
Fixpoint split_go (cur : list ascii) (l : list ascii) : list string :=
  match l with
  | [] => match cur with [] => [] | _ => [of_chars (rev cur)] end
  | c :: l' =>
      if isspace c
      then match cur with
           | [] => split_go [] l'
           | _ => of_chars (rev cur) :: split_go [] l'
           end
      else split_go (c :: cur) l'
  end.

Definition split (s : string) : list string := split_go [] (chars s).

(** The whitespace [float] and [int] skip around an ASCII numeral (C's
    [isspace]: tab to carriage return, and space; not 0x1c-0x1f). *)
Definition c_isspace (c : ascii) : bool :=
  let n := code c in
  ((9 <=? n) && (n <=? 13) || (n =? 32))%N.

Fixpoint lstrip_chars (l : list ascii) : list ascii :=
  match l with
  | c :: l' => if c_isspace c then lstrip_chars l' else l
  | [] => []
  end.

Definition strip_chars (l : list ascii) : list ascii :=
  rev (lstrip_chars (rev (lstrip_chars l))).

End PyStr.

(** ** Python numbers: binary64 floats and the [float] and [int] parsers *)

Module PyNum.

Abbreviation f64_prec := FloatOps.prec.
Abbreviation f64_emax := FloatOps.emax.

(** [float(z)] for an [int] [z]: the nearest binary64, ties to even. *)
Definition float_of_Z (z : Z) : float :=
  SF2Prim (binary_normalize f64_prec f64_emax z 0 false).

(** The binary64 nearest to [(-1)^neg * m * 10^e10], ties to even (the
    value CPython's correctly rounded [strtod] returns); an overflow gives
    an infinity. *)
Definition float_of_decimal (neg : bool) (m : Z) (e10 : Z) : float :=
  SF2Prim
    match m with
    | Z0 => S754_zero neg
    | Zpos p =>
        if 0 <=? e10
        then binary_normalize f64_prec f64_emax
               (cond_Zopp neg (m * 10 ^ e10)) 0 false
        else SFdiv f64_prec f64_emax
               (S754_finite neg p 0)
               (S754_finite false (Z.to_pos (10 ^ (- e10))) 0)
    | Zneg _ => S754_nan
    end.

(** [math.floor(x)] as an integer; [None] for an infinity or a NaN. *)
Definition floor_float (x : float) : option Z :=
  match Prim2SF x with
  | S754_zero _ => Some 0
  | S754_finite s m e =>
      let v := if s then Z.neg m else Z.pos m in
      Some (if 0 <=? e then v * 2 ^ e else v / 2 ^ (- e))
  | _ => None
  end.

(** The longest prefix of digits, and the rest. *)
Fixpoint span_digits (l : list ascii) : list ascii * list ascii :=
  match l with
  | c :: l' =>
      if PyStr.isdigit c
      then let '(ds, rest) := span_digits l' in (c :: ds, rest)
      else ([], l)
  | [] => ([], [])
  end.

Definition digits_value (ds : list ascii) : Z :=
  fold_left (fun acc c => 10 * acc + PyStr.digit_value c) ds 0.

(** An optional sign: [(negative, rest)]. *)
Definition take_sign (l : list ascii) : bool * list ascii :=
  match l with
  | "-"%char :: l' => (true, l')
  | "+"%char :: l' => (false, l')
  | _ => (false, l)
  end.

(** Underscores in a [float] literal: each between two digits; they are
    dropped before the number is read.  [None] when one is misplaced. *)
Fixpoint drop_underscores (prev : option ascii) (l : list ascii)
  : option (list ascii) :=
  match l with
  | [] => if bool_decide (prev = Some "_"%char) then None else Some []
  | c :: l' =>
      if bool_decide (c = "_"%char)
      then match prev with
           | Some p => if PyStr.isdigit p then drop_underscores (Some c) l' else None
           | None => None
           end
      else if bool_decide (prev = Some "_"%char) && negb (PyStr.isdigit c)
           then None
           else cons c <$> drop_underscores (Some c) l'
  end.

(** The exponent part [e[+-]digits], or nothing; [None] when an [e] is not
    followed by an exponent, or text remains. *)
Definition parse_exponent (l : list ascii) : option Z :=
  match l with
  | [] => Some 0
  | c :: l' =>
      if bool_decide (c = "e"%char) || bool_decide (c = "E"%char)
      then let '(neg, l'') := take_sign l' in
           match span_digits l'' with
           | ((_ :: _) as ds, []) => Some (cond_Zopp neg (digits_value ds))
           | _ => None
           end
      else None
  end.

Definition parse_special (neg : bool) (l : list ascii) : option float :=
  let w := PyStr.of_chars (map PyStr.lower_char l) in
  if bool_decide (w = "inf") || bool_decide (w = "infinity")
  then Some (if neg then neg_infinity else infinity)
  else if bool_decide (w = "nan") then Some nan
  else None.

Definition parse_decimal (neg : bool) (l : list ascii) : option float :=
  let '(ip, l1) := span_digits l in
  let '(fp, l2) :=
    match l1 with
    | "."%char :: l1' => span_digits l1'
    | _ => ([], l1)
    end in
  match (ip ++ fp)%list with
  | [] => None
  | ds =>
      e ← parse_exponent l2;
      Some (float_of_decimal neg (digits_value ds) (e - Z.of_nat (length fp)))
  end.

(** [float(s)] for a string [s]; a [ValueError] when [s] is not a number. *)
Definition py_float (s : string) : result float :=
  match drop_underscores None (PyStr.strip_chars (PyStr.chars s)) with
  | None => Raise ValueError
  | Some l =>
      let '(neg, body) := take_sign l in
      match parse_decimal neg body with
      | Some x => Ok x
      | None =>
          match parse_special neg body with
          | Some x => Ok x
          | None => Raise ValueError
          end
      end
  end.

(** Digits of an [int] literal: digits separated by single underscores. *)
Fixpoint int_digits (acc : Z) (after_digit : bool) (l : list ascii) : option Z :=
  match l with
  | [] => if after_digit then Some acc else None
  | c :: l' =>
      if PyStr.isdigit c then int_digits (10 * acc + PyStr.digit_value c) true l'
      else if bool_decide (c = "_"%char) && after_digit then int_digits acc false l'
      else None
  end.

(** [int(s)] for a string [s], base 10. *)
Definition py_int (s : string) : result Z :=
  let '(neg, body) := take_sign (PyStr.strip_chars (PyStr.chars s)) in
  match int_digits 0 false body with
  | Some n => Ok (cond_Zopp neg n)
  | None => Raise ValueError
  end.

End PyNum.

(** [l[i]] for a possibly negative index, and the slice [l[:k]]. *)
Definition list_getitem_Z {A} (l : list A) (i : Z) : result A :=
  let n := Z.of_nat (length l) in
  if (0 <=? i) && (i <? n) then list_getitem l (Z.to_nat i)
  else if (- n <=? i) && (i <? 0) then list_getitem l (Z.to_nat (n + i))
  else Raise IndexError.

Definition list_slice_to {A} (l : list A) (k : Z) : list A :=
  if 0 <=? k then take (Z.to_nat k) l
  else take (Z.to_nat (Z.of_nat (length l) + k)) l.

(** A decimal numeral for a natural number, zero-padded to [width]. *)
Definition decimal_string (n : N) : string :=
  DecimalString.NilZero.string_of_uint (N.to_uint n).

Definition pad_zeros (width : nat) (s : string) : string :=
  PyStr.of_chars (replicate (width - String.length s) "0"%char) ++ s.

(** Round to the nearest integer, ties to even, the quotient [a / b] of a
    non-negative [a] by a positive [b]. *)
Definition div_round_half_even (a b : Z) : Z :=
  let q := a / b in
  let r := a mod b in
  match (2 * r ?= b) with
  | Lt => q
  | Gt => q + 1
  | Eq => if Z.even q then q else q + 1
  end.

(** The format [f"{x:.5f}"]: the exact binary value of [x] rounded to five
    decimals, ties to even. *)
Definition format_5f (x : float) : string :=
  match Prim2SF x with
  | S754_nan => "nan"
  | S754_infinity s => if s then "-inf" else "inf"
  | S754_zero s => (if s then "-" else "") ++ "0.00000"
  | S754_finite s m e =>
      let scaled :=
        if 0 <=? e then Z.pos m * 2 ^ e * 100000
        else div_round_half_even (Z.pos m * 100000) (2 ^ (- e)) in
      (if s then "-" else "")
      ++ decimal_string (Z.to_N (scaled / 100000)) ++ "."
      ++ pad_zeros 5 (decimal_string (Z.to_N (scaled mod 100000)))
  end.

Import PyNum.

(** ** Configuration ([config/settings.py]) *)

Module Settings.

Record settings := {
  DEFAULT_BUILDING_HEIGHT_FACTOR : float;
  API_TIMEOUT : Z;
  MAX_RETRIES : Z;
  MAX_FEATURES : Z;
  MAX_ELEVATION_POINTS : Z;
  ENABLE_CACHE : bool;
  CACHE_TTL : Z
}.

(** The values used when the environment sets none. *)
Definition defaults : settings := {|
  DEFAULT_BUILDING_HEIGHT_FACTOR := 1.0%float;
  API_TIMEOUT := 30;
  MAX_RETRIES := 3;
  MAX_FEATURES := 1000;
  MAX_ELEVATION_POINTS := 100;
  ENABLE_CACHE := true;
  CACHE_TTL := 3600
|}.

End Settings.
Import Settings.

(** ** [numpy.linspace(start, stop, num, dtype=int)] *)

Module Numpy.

Definition INT64_MIN : Z := - 2 ^ 63.
Definition INT64_MAX : Z := 2 ^ 63 - 1.

(** [y.astype(int)] after [floor]: the integer value; what does not fit
    (an infinity, a NaN, a huge value) becomes the least int64. *)
Definition astype_int (x : float) : Z :=
  match floor_float x with
  | Some z => if (INT64_MIN <=? z) && (z <=? INT64_MAX) then z else INT64_MIN
  | None => INT64_MIN
  end.

(** [arange(0, num)] as floats. *)
Definition arange (num : Z) : list float :=
  map (fun i => float_of_Z (Z.of_nat i)) (seq 0 (Z.to_nat num)).

(** The samples before the conversion to integers: [i * step + start],
    the last one overwritten with [stop]. *)
Definition linspace_float (start stop num : Z) : list float :=
  let div := num - 1 in
  let fstart := float_of_Z start in
  let fstop := float_of_Z stop in
  let delta := (fstop - fstart)%float in
  let y := arange num in
  let y :=
    if 0 <? div then
      let step := (delta / float_of_Z div)%float in
      if (step =? 0)%float
      then map (fun v => (v / float_of_Z div * delta)%float) y
      else map (fun v => (v * step)%float) y
    else map (fun v => (v * delta)%float) y in
  let y := map (fun v => (v + fstart)%float) y in
  if 1 <? num then <[Nat.pred (length y) := fstop]> y else y.

Definition linspace_int (start stop num : Z) : result (list Z) :=
  if num <? 0 then Raise ValueError
  else Ok (map astype_int (linspace_float start stop num)).

End Numpy.

(** ** [services/elevation_service.py] *)

Module ElevationService.

(** A coordinate as the service receives it: [(lon, lat)]. *)
Definition coord : Type := float * float.

(** An elevation slot; [None] is Python's [None]. *)
Definition elevation : Type := option float.

Definition zero : elevation := Some 0%float.

Record location := { latitude : float; longitude : float }.

(** What can go wrong with the request: [requests.post] times out or
    cannot connect, [raise_for_status] finds an error status, or the body
    is not JSON. *)
Inductive request_failure :=
  | Timeout
  | HTTPError (status : Z)
  | NetworkError
  | MalformedBody.

(** One item of the ["results"] list: something that is not a mapping, or
    a mapping whose ["elevation"] key is absent ([None]) or present. *)
Inductive result_item :=
  | NotAMapping
  | Entry (elev : option elevation).

Inductive reply :=
  | RequestFails (f : request_failure)
  | Results (rs : list result_item).

(** The elevation provider, as a function of the posted locations. *)
Definition provider : Type := list location -> reply.

(** The module's state: the process-wide cache, and (for the statements
    below) the payloads posted so far. *)
Record world := {
  elevation_cache : gmap string elevation;
  posted : list (list location)
}.

Definition cache_key (c : coord) : string :=
  format_5f c.1 ++ "," ++ format_5f c.2.

(** Lines 42-47: the list itself, or the [MAX_ELEVATION_POINTS] entries
    picked by [np.linspace(0, len - 1, MAX_ELEVATION_POINTS, dtype=int)]. *)
Definition sample_indices (cfg : settings) (n : nat) : result (list Z) :=
  Numpy.linspace_int 0 (Z.of_nat n - 1) (MAX_ELEVATION_POINTS cfg).

Definition downsample (cfg : settings) (coords_list : list coord)
  : result (list coord) :=
  if MAX_ELEVATION_POINTS cfg <? Z.of_nat (length coords_list) then
    indices ← sample_indices cfg (length coords_list);
    mapM (list_getitem_Z coords_list) indices
  else Ok coords_list.

(** Lines 50-62: one slot per coordinate, filled from the cache or left
    [None] and queued, with its index, for the request. *)
Fixpoint scan_cache (cfg : settings) (cache : gmap string elevation)
    (i : nat) (coords_list : list coord)
  : list elevation * list coord * list nat :=
  match coords_list with
  | [] => ([], [], [])
  | c :: rest =>
      let '(elevations, coords_to_fetch, coords_indices) :=
        scan_cache cfg cache (S i) rest in
      match (if ENABLE_CACHE cfg then cache !! cache_key c else None) with
      | Some e => (e :: elevations, coords_to_fetch, coords_indices)
      | None => (None :: elevations, c :: coords_to_fetch, i :: coords_indices)
      end
  end.

(** Lines 79-88: the loop over the provider's results, from position [i].
    An exception leaves the slots and cache entries written before it. *)
Fixpoint store_results (cfg : settings)
    (coords_to_fetch : list coord) (coords_indices : list nat)
    (i : nat) (results : list result_item)
    (elevations : list elevation) (cache : gmap string elevation)
  : result unit * list elevation * gmap string elevation :=
  match results with
  | [] => (Ok (), elevations, cache)
  | NotAMapping :: _ => (Raise AttributeError, elevations, cache)
  | Entry e :: rest =>
      let elev := default zero e in
      match coords_indices !! i with
      | None => (Raise IndexError, elevations, cache)
      | Some original_idx =>
          if bool_decide (original_idx < length elevations)%nat then
            let elevations := <[original_idx := elev]> elevations in
            if ENABLE_CACHE cfg then
              match coords_to_fetch !! i with
              | None => (Raise IndexError, elevations, cache)
              | Some c =>
                  store_results cfg coords_to_fetch coords_indices (S i) rest
                    elevations (<[cache_key c := elev]> cache)
              end
            else
              store_results cfg coords_to_fetch coords_indices (S i) rest
                elevations cache
          else (Raise IndexError, elevations, cache)
      end
  end.

(** [0 if e is None else e] *)
Definition none_to_zero (e : elevation) : elevation :=
  match e with
  | None => zero
  | Some _ => e
  end.

(** Lines 65-95: the request for the queued coordinates. *)
Definition fetch (cfg : settings) (ask : provider)
    (coords_to_fetch : list coord) (coords_indices : list nat)
    (elevations : list elevation) (w : world)
  : list elevation * world :=
  let locations :=
    map (fun c : coord => {| latitude := c.2; longitude := c.1 |})
        coords_to_fetch in
  let w := {| elevation_cache := elevation_cache w;
              posted := posted w ++ [locations] |} in
  match ask locations with
  | RequestFails _ => (map none_to_zero elevations, w)
  | Results results =>
      let '(r, elevations, cache) :=
        store_results cfg coords_to_fetch coords_indices 0 results
          elevations (elevation_cache w) in
      let w := {| elevation_cache := cache; posted := posted w |} in
      match r with
      | Ok _ => (elevations, w)
      | Raise _ => (map none_to_zero elevations, w)
      end
  end.

Definition get_elevation_data (cfg : settings) (ask : provider) (w : world)
    (coords_list : list coord) : result (list elevation) * world :=
  match coords_list with
  | [] => (Ok [], w)
  | _ =>
      match downsample cfg coords_list with
      | Raise e => (Raise e, w)
      | Ok coords_list =>
          let '(elevations, coords_to_fetch, coords_indices) :=
            scan_cache cfg (elevation_cache w) 0 coords_list in
          let '(elevations, w) :=
            match coords_to_fetch with
            | [] => (elevations, w)
            | _ => fetch cfg ask coords_to_fetch coords_indices elevations w
            end in
          (Ok (map none_to_zero elevations), w)
      end
  end.

End ElevationService.

(** ** [utils/data_processing.py] *)

Module DataProcessing.

Import ElevationService.

(** *** The raw Overpass response

    An element is a JSON object; the code reads it through the keys
    below, each of which may be absent. *)

Record geometry_ref := {
  ref_lat : option float;
  ref_lon : option float
}.

Record member := {
  member_type : string;
  member_ref : Z;
  member_role : string
}.

Record element := {
  el_type : option string;
  el_id : option Z;
  el_tags : option (gmap string string);
  el_lat : option float;
  el_lon : option float;
  el_nodes : option (list Z);
  el_geometry : option (list geometry_ref);
  el_members : option (list member)
}.

Record raw_response := {
  elements : option (list element)
}.

(** *** The processed features (the dictionaries the functions append) *)

Record point := {
  point_coordinates : coord;
  point_name : string;
  point_type : string;
  point_element_id : option Z;
  point_tags : gmap string string
}.

Record building := {
  building_coordinates : list coord;
  building_name : string;
  building_height : float;
  building_element_id : option Z;
  building_color : list Z;
  building_tags : gmap string string
}.

Record road := {
  road_coordinates : list coord;
  road_name : string;
  road_width : float;
  road_element_id : option Z;
  road_type : string;
  road_tags : gmap string string
}.

Record polygon := {
  polygon_coordinates : list coord;
  polygon_name : string;
  polygon_type : string;
  polygon_element_id : option Z;
  polygon_tags : gmap string string
}.

(** The four lists the pipeline fills. *)
Record features := {
  buildings : list building;
  roads : list road;
  points : list point;
  polygons : list polygon
}.

Definition no_features : features :=
  {| buildings := []; roads := []; points := []; polygons := [] |}.

Record processed := {
  features_of : features;
  terrain_elevation : float
}.

(** [element.get("tags", {})] *)
Definition tags_of (e : element) : gmap string string :=
  default ∅ (el_tags e).

(** [a or b] where [a] is [tags.get(k)] and [b] a string: [a] when it is
    a non-empty string, else [b]. *)
Definition py_or (a : option string) (b : string) : string :=
  match a with
  | Some s => if bool_decide (s = "") then b else s
  | None => b
  end.

(** *** Building height, colour and road width *)

Definition base_heights : gmap string Z :=
  list_to_map
    [("apartments", 15); ("residential", 8); ("house", 6); ("detached", 6);
     ("commercial", 10); ("industrial", 8); ("office", 15); ("retail", 6);
     ("warehouse", 8); ("church", 15); ("cathedral", 25); ("mosque", 15);
     ("temple", 15); ("synagogue", 15); ("school", 9); ("university", 12);
     ("hospital", 15); ("hotel", 15); ("train_station", 12); ("stadium", 20);
     ("yes", 8)].

(** Lines 278-284: [Some h] when the [height] tag gives the height. *)
Definition height_from_height_tag (tags : gmap string string)
    (height_factor : float) : result (option float) :=
  if dict_in "height" tags then
    catch [ValueError; IndexError]
      (s ← dict_getitem tags "height";
       height_str ← list_getitem (PyStr.split s) 0;
       h ← py_float height_str;
       Ok (Some (h * height_factor)%float))
      (Ok None)
  else Ok None.

(** Lines 287-293: [Some h] when [building:levels] gives the height. *)
Definition height_from_levels (tags : gmap string string)
    (height_factor : float) : result (option float) :=
  if dict_in "building:levels" tags then
    catch [ValueError]
      (s ← dict_getitem tags "building:levels";
       levels ← py_float s;
       Ok (Some (levels * float_of_Z 3 * height_factor)%float))
      (Ok None)
  else Ok None.

Definition estimate_building_height (tags : gmap string string)
    (height_factor : float) : result float :=
  r ← height_from_height_tag tags height_factor;
  match r with
  | Some h => Ok h
  | None =>
      r ← height_from_levels tags height_factor;
      match r with
      | Some h => Ok h
      | None =>
          let building_type := dict_get tags "building" "yes" in
          let base_height := dict_get base_heights building_type 8 in
          Ok (float_of_Z base_height * height_factor)%float
      end
  end.

Definition color_scheme : gmap string (list Z) :=
  list_to_map
    [("apartments", [102; 102; 156; 200]);
     ("residential", [102; 102; 156; 200]);
     ("house", [119; 119; 165; 200]);
     ("detached", [119; 119; 165; 200]);
     ("commercial", [99; 99; 184; 200]);
     ("industrial", [150; 150; 150; 200]);
     ("office", [74; 140; 247; 200]);
     ("retail", [61; 129; 224; 200]);
     ("warehouse", [150; 150; 150; 200]);
     ("church", [251; 140; 0; 200]);
     ("cathedral", [251; 140; 0; 200]);
     ("mosque", [251; 140; 0; 200]);
     ("temple", [251; 140; 0; 200]);
     ("synagogue", [251; 140; 0; 200]);
     ("school", [255; 128; 128; 200]);
     ("university", [255; 100; 100; 200]);
     ("hospital", [226; 122; 171; 200]);
     ("hotel", [51; 163; 255; 200]);
     ("train_station", [51; 163; 255; 200]);
     ("stadium", [54; 202; 155; 200]);
     ("yes", [74; 140; 247; 200])].

Definition get_building_color (tags : gmap string string) : list Z :=
  let building_type := dict_get tags "building" "yes" in
  dict_get color_scheme building_type [74; 140; 247; 200].

Definition width_scheme : gmap string float :=
  list_to_map
    [("motorway", 4); ("trunk", 3.5); ("primary", 3); ("secondary", 2.5);
     ("tertiary", 2); ("residential", 1.5); ("service", 1);
     ("footway", 0.5); ("cycleway", 0.5); ("path", 0.5); ("track", 1);
     ("unclassified", 1.5); ("road", 1.5)]%float.

Definition get_road_width (highway_type : string) : float :=
  dict_get width_scheme highway_type 1.5%float.

(** *** Nodes *)

Definition point_type_of (tags : gmap string string) : string :=
  py_or (tags !! "amenity")
    (py_or (tags !! "shop")
       (py_or (tags !! "tourism")
          (py_or (tags !! "historic")
             (py_or (tags !! "leisure") "point")))).

(** [element[k]] for the keys read with a subscript. *)
Definition getitem {A} (field : option A) : result A :=
  match field with
  | Some v => Ok v
  | None => Raise KeyError
  end.

Definition process_node (e : element) (points : list point)
  : result (list point) :=
  let tags := tags_of e in
  if bool_decide (tags = ∅) then Ok points
  else
    let point_type := point_type_of tags in
    let name := dict_get tags "name" (PyStr.capitalize point_type) in
    lon ← getitem (el_lon e);
    lat ← getitem (el_lat e);
    Ok (points ++ [{| point_coordinates := (lon, lat);
                      point_name := name;
                      point_type := point_type;
                      point_element_id := el_id e;
                      point_tags := tags |}]).

(** *** Ways *)

Definition process_building (e : element) (coords : list coord)
    (buildings : list building) (building_height_factor : float)
  : result (list building) :=
  let tags := tags_of e in
  height ← estimate_building_height tags building_height_factor;
  let name := dict_get tags "name" "Building" in
  let color := get_building_color tags in
  Ok (buildings ++ [{| building_coordinates := coords;
                       building_name := name;
                       building_height := height;
                       building_element_id := el_id e;
                       building_color := color;
                       building_tags := tags |}]).

Definition process_road (e : element) (coords : list coord)
    (roads : list road) : list road :=
  let tags := tags_of e in
  let highway_type := dict_get tags "highway" "road" in
  let width := get_road_width highway_type in
  let name := dict_get tags "name" (PyStr.capitalize highway_type) in
  roads ++ [{| road_coordinates := coords;
               road_name := name;
               road_width := width;
               road_element_id := el_id e;
               road_type := highway_type;
               road_tags := tags |}].

Definition polygon_type_of (tags : gmap string string) : string :=
  py_or (tags !! "landuse")
    (py_or (tags !! "natural")
       (py_or (tags !! "leisure") "other")).

Definition process_polygon (e : element) (coords : list coord)
    (polygons : list polygon) : list polygon :=
  let tags := tags_of e in
  let polygon_type := polygon_type_of tags in
  let name :=
    dict_get tags "name" (PyStr.capitalize polygon_type ++ " Area")%string in
  polygons ++ [{| polygon_coordinates := coords;
                  polygon_name := name;
                  polygon_type := polygon_type;
                  polygon_element_id := el_id e;
                  polygon_tags := tags |}].

(** Lines 145-148: the [[lon, lat]] pairs of the geometry entries that
    carry both keys. *)
Definition way_coords (e : element) : list coord :=
  omap (fun ref =>
          match ref_lat ref, ref_lon ref with
          | Some lat, Some lon => Some (lon, lat)
          | _, _ => None
          end)
       (default [] (el_geometry e)).

(** [c1 == c2] on two [[lon, lat]] lists: the numbers compare as floats. *)
Definition coord_eqb (c1 c2 : coord) : bool :=
  (c1.1 =? c2.1)%float && (c1.2 =? c2.2)%float.

(** [coords[0] == coords[-1]] on a non-empty list.  With one entry both
    sides are the same list object, which is equal to itself. *)
Definition first_equals_last (coords : list coord) : result bool :=
  match coords with
  | [] => Raise IndexError
  | [_] => Ok true
  | c :: _ => c' ← list_getitem_Z coords (-1); Ok (coord_eqb c c')
  end.

(** The truth value of [element.get("geometry")]. *)
Definition geometry_truthy (e : element) : bool :=
  match el_geometry e with
  | Some (_ :: _) => true
  | _ => false
  end.

(** Line 163: [element.get("geometry") and coords[0] == coords[-1]] *)
Definition closed_way (e : element) (coords : list coord) : result bool :=
  if geometry_truthy e then first_equals_last coords else Ok false.

Definition process_way (e : element) (st : features)
    (building_height_factor : float) : result features :=
  let tags := tags_of e in
  let coords := way_coords e in
  match coords with
  | [] => Ok st
  | _ =>
      if dict_in "building" tags then
        bs ← process_building e coords (buildings st) building_height_factor;
        Ok {| buildings := bs; roads := roads st;
              points := points st; polygons := polygons st |}
      else if dict_in "highway" tags then
        Ok {| buildings := buildings st;
              roads := process_road e coords (roads st);
              points := points st; polygons := polygons st |}
      else
        closed ← closed_way e coords;
        if closed : bool then
          Ok {| buildings := buildings st; roads := roads st;
                points := points st;
                polygons := process_polygon e coords (polygons st) |}
        else Ok st
  end.

(** *** The pipeline *)

(** Lines 55-70: one iteration of the loop over the elements. *)
Definition process_element (e : element) (st : features)
    (building_height_factor : float) : result features :=
  let element_type := el_type e in
  if bool_decide (element_type = Some "node")
     && bool_decide (is_Some (el_lat e))
     && bool_decide (is_Some (el_lon e)) then
    pts ← process_node e (points st);
    Ok {| buildings := buildings st; roads := roads st;
          points := pts; polygons := polygons st |}
  else if bool_decide (element_type = Some "way")
          && bool_decide (is_Some (el_nodes e)) then
    process_way e st building_height_factor
  else if bool_decide (element_type = Some "relation")
          && bool_decide (is_Some (el_members e)) then
    Ok st
  else Ok st.

Fixpoint process_elements (es : list element) (st : features)
    (building_height_factor : float) : result features :=
  match es with
  | [] => Ok st
  | e :: es' =>
      st' ← process_element e st building_height_factor;
      process_elements es' st' building_height_factor
  end.

(** [sum(elevations)]: a [None] among them is a [TypeError]. *)
Fixpoint sum_from (acc : float) (es : list elevation) : result float :=
  match es with
  | [] => Ok acc
  | Some x :: es' => sum_from (acc + x)%float es'
  | None :: _ => Raise TypeError
  end.

(** Line 74: [all(coord for building in buildings for coord in ...)];
    a coordinate is a two-element list, which is true. *)
Definition all_coords_truthy (bs : list building) : bool :=
  forallb (fun b => forallb (fun _ : coord => true) (building_coordinates b)) bs.

Definition process_overpass_results (cfg : settings) (ask : provider)
    (w : world) (data : option raw_response) (building_height_factor : float)
  : result (option processed) * world :=
  match data ≫= elements with
  | None => (Ok None, w)
  | Some elements =>
      let elements :=
        if MAX_FEATURES cfg <? Z.of_nat (length elements)
        then list_slice_to elements (MAX_FEATURES cfg)
        else elements in
      match process_elements elements no_features building_height_factor with
      | Raise e => (Raise e, w)
      | Ok st =>
          let flat := {| features_of := st; terrain_elevation := 0%float |} in
          match buildings st with
          | [] => (Ok (Some flat), w)
          | _ =>
              if all_coords_truthy (buildings st) then
                let all_coords :=
                  flat_map building_coordinates (buildings st) in
                let '(r, w) :=
                  get_elevation_data cfg ask w (list_slice_to all_coords 100) in
                match r with
                | Raise e => (Raise e, w)
                | Ok [] => (Ok (Some flat), w)
                | Ok elevations =>
                    ((total ← sum_from 0%float elevations;
                      Ok (Some {| features_of := st;
                                  terrain_elevation :=
                                    (total / float_of_Z
                                               (Z.of_nat (length elevations)))%float
                               |})), w)
                end
              else (Ok (Some flat), w)
          end
      end
  end.

End DataProcessing.

(** ** [models/geo_data.py] *)

Module GeoData.

Record Coordinate := {
  lon : float;
  lat : float
}.

(** The dataclasses, each with the fields of [GeoFeature] first.  (As
    declared, a subclass adds fields without a default after the inherited
    [tags], which has one, and [dataclass] refuses such a class when the
    module is loaded; the records take the field lists as they are
    written.) *)
Record Point := {
  point_id : string;
  point_name : string;
  point_feature_type : string;
  point_tags : gmap string string;
  point_coordinate : Coordinate
}.

Record Road := {
  road_id : string;
  road_name : string;
  road_feature_type : string;
  road_tags : gmap string string;
  road_coordinates : list Coordinate;
  road_width : float
}.

Record Building := {
  building_id : string;
  building_name : string;
  building_feature_type : string;
  building_tags : gmap string string;
  building_coordinates : list Coordinate;
  building_height : float;
  building_color : list Z
}.

Record Polygon := {
  polygon_id : string;
  polygon_name : string;
  polygon_feature_type : string;
  polygon_tags : gmap string string;
  polygon_coordinates : list Coordinate
}.

Record GeoDataCollection := {
  buildings : list Building;
  roads : list Road;
  points : list Point;
  polygons : list Polygon;
  terrain_elevation : float
}.

(** The helper of [filter_by_tags]: [all(key in feature_tags and
    feature_tags[key] == value for key, value in tags.items())]. *)
Definition matches_tags (tags feature_tags : gmap string string) : bool :=
  forallb
    (fun '(key, value) =>
       dict_in key feature_tags
       && bool_decide (feature_tags !! key = Some value))
    (map_to_list tags).

Definition filter_by_tags (self : GeoDataCollection)
    (tags : gmap string string) : GeoDataCollection :=
  {| buildings :=
       List.filter (fun b => matches_tags tags (building_tags b)) (buildings self);
     roads :=
       List.filter (fun r => matches_tags tags (road_tags r)) (roads self);
     points :=
       List.filter (fun p => matches_tags tags (point_tags p)) (points self);
     polygons :=
       List.filter (fun p => matches_tags tags (polygon_tags p)) (polygons self);
     terrain_elevation := terrain_elevation self |}.

End GeoData.

(** ** [utils/visualization.py]

    The arguments of the colour scale are floats, as annotated: the
    arithmetic is binary64, with its rounding, infinities and NaN.  The
    clamp [max(0, min(1, normalized))] mixes the ints 0 and 1 with the
    float, so the clamped position is a Python number of either type, and
    the rows of the [colors] array are int64. *)

Module Visualization.

(** A row of the [colors] array: an RGB colour, of int64 entries. *)
Record rgb := {
  red : Z;
  green : Z;
  blue : Z
}.

(** A Python number: an [int] or a [float]. *)
Inductive number :=
  | Int (z : Z)
  | Float (x : float).

(** [int(x)] for a float: truncation towards zero; an error for an
    infinity or a NaN. *)
Definition int_of_float (x : float) : result Z :=
  match Prim2SF x with
  | S754_zero _ => Ok 0
  | S754_finite s m e =>
      Ok (cond_Zopp s (if 0 <=? e then Z.pos m * 2 ^ e
                       else Z.pos m / 2 ^ (- e)))
  | S754_infinity _ => Raise OverflowError
  | S754_nan => Raise ValueError
  end.

Definition py_int_of (x : number) : result Z :=
  match x with
  | Int z => Ok z
  | Float x => int_of_float x
  end.

(** [min(1, x)] and [max(0, y)]: the first argument unless the second is
    strictly beyond it (which a NaN never is). *)
Definition min_1 (x : float) : number :=
  if (x <? 1)%float then Float x else Int 1.

Definition max_0 (y : number) : number :=
  match y with
  | Int z => if 0 <? z then y else Int 0
  | Float x => if (0 <? x)%float then y else Int 0
  end.

(** [x * n] and [x - n] for an int [n]: in floats when [x] is one, the
    int converted to the nearest float (the ints here are indices of the
    array, which never overflow a float). *)
Definition mul_int (x : number) (n : Z) : number :=
  match x with
  | Int z => Int (z * n)
  | Float x => Float (x * float_of_Z n)
  end.

Definition sub_int (x : number) (n : Z) : number :=
  match x with
  | Int z => Int (z - n)
  | Float x => Float (x - float_of_Z n)
  end.

(** Arithmetic on int64 entries wraps around. *)
Definition int64 (z : Z) : Z := (z + 2 ^ 63) mod 2 ^ 64 - 2 ^ 63.

(** One entry of [(1 - weight) * lower + weight * upper], through [int]:
    an int64 for an int [weight]; else the entries are converted to
    float64, and the result truncated. *)
Definition mix (weight : number) (a b : Z) : result Z :=
  match weight with
  | Int w => Ok (int64 (int64 ((1 - w) * a) + int64 (w * b)))
  | Float w =>
      int_of_float ((1 - w) * float_of_Z a + w * float_of_Z b)%float
  end.

(** [colors[i]] on the array: negative indices count from the end. *)
Definition colors_getitem (colors : list rgb) (i : Z) : result rgb :=
  list_getitem_Z colors i.

Definition get_color_for_value (value min_value max_value : float)
    (colors : list rgb) : result (list Z) :=
  let value_range := (max_value - min_value)%float in
  let normalized :=
    if (value_range =? 0)%float then 0.5%float
    else ((value - min_value) / value_range)%float in
  let normalized := max_0 (min_1 normalized) in
  let len := Z.of_nat (length colors) in
  let color_index := mul_int normalized (len - 1) in
  lower_idx ← py_int_of color_index;
  let upper_idx := Z.min (lower_idx + 1) (len - 1) in
  let weight := sub_int color_index lower_idx in
  lower ← colors_getitem colors lower_idx;
  upper ← colors_getitem colors upper_idx;
  r ← mix weight (red lower) (red upper);
  g ← mix weight (green lower) (green upper);
  b ← mix weight (blue lower) (blue upper);
  Ok [r; g; b; 255].

Definition default_color_range : list rgb :=
  [ {| red := 65; green := 105; blue := 225 |};
    {| red := 100; green := 149; blue := 237 |};
    {| red := 135; green := 206; blue := 250 |};
    {| red := 176; green := 224; blue := 230 |};
    {| red := 255; green := 255; blue := 255 |};
    {| red := 255; green := 228; blue := 196 |};
    {| red := 255; green := 165; blue := 0 |};
    {| red := 255; green := 69; blue := 0 |};
    {| red := 255; green := 0; blue := 0 |} ].

(** The dictionary [generate_color_scale] returns. *)
Record color_scale := {
  min_value : float;
  max_value : float;
  colors : list rgb;
  normalize : float -> float;
  get_color : float -> result (list Z)
}.

Definition generate_color_scale (min_value max_value : float)
    (color_range : option (list rgb)) : color_scale :=
  let color_range := default default_color_range color_range in
  let colors := color_range in
  let value_range := (max_value - min_value)%float in
  let value_range :=
    if (value_range =? 0)%float then 1%float else value_range in
  {| min_value := min_value;
     max_value := max_value;
     colors := colors;
     normalize := fun x => ((x - min_value) / value_range)%float;
     get_color := fun x => get_color_for_value x min_value max_value colors |}.

End Visualization.

(** ** [services/overpass_service.py] *)

Module OverpassService.

(** *** An insertion-ordered dictionary ([query_cache]) *)

Section OrderedDict.
Context {V : Type}.

Fixpoint odict_lookup (k : string) (d : list (string * V)) : option V :=
  match d with
  | [] => None
  | (k', v) :: d' => if bool_decide (k' = k) then Some v else odict_lookup k d'
  end.

(** [d[k] = v]: in place when [k] is there, else at the end. *)
Fixpoint odict_set (k : string) (v : V) (d : list (string * V))
  : list (string * V) :=
  match d with
  | [] => [(k, v)]
  | (k', v') :: d' =>
      if bool_decide (k' = k) then (k, v) :: d'
      else (k', v') :: odict_set k v d'
  end.

(** [del d[k]] *)
Definition odict_delete (k : string) (d : list (string * V))
  : list (string * V) :=
  List.filter (fun kv => negb (bool_decide (kv.1 = k))) d.

End OrderedDict.

(** *** The service *)

Section Service.

(** The decoded JSON body of a response. *)
Variable data : Type.

(** What one [requests.post] brings: a body; a [Timeout]; an [HTTPError]
    from [raise_for_status], with the status and the [Retry-After] header
    if the response has one; or any other exception (no connection, a
    body that is not JSON, ...). *)
Inductive attempt :=
  | Responds (d : data)
  | TimesOut
  | HTTPError (status_code : Z) (retry_after : option string)
  | Fails.

Record cache_entry := {
  entry_data : data;
  timestamp : Z
}.

(** The clock ([time.time()], in whole seconds), the cache, the number of
    requests posted so far and the durations slept so far. *)
Record world := {
  now : Z;
  query_cache : list (string * cache_entry);
  requests : nat;
  slept : list Z
}.

(** The Overpass server: what the [k]-th request brings. *)
Definition server : Type := nat -> attempt.

(** The longest [time.sleep] accepts (its 64-bit nanosecond clock). *)
Definition SLEEP_MAX : Z := 9223372036.

(** [time.sleep(secs)] for an [int] *)
Definition sleep (secs : Z) (w : world) : result world :=
  if (secs <? - SLEEP_MAX) || (SLEEP_MAX <? secs) then Raise OverflowError
  else if secs <? 0 then Raise ValueError
  else Ok {| now := now w + secs;
             query_cache := query_cache w;
             requests := requests w;
             slept := slept w ++ [secs] |}.

(** [sorted(cache.keys(), key=lambda k: cache[k]["timestamp"])]: a stable
    sort of the entries by timestamp. *)
Fixpoint insert_by_timestamp (kv : string * cache_entry)
    (sorted : list (string * cache_entry)) : list (string * cache_entry) :=
  match sorted with
  | [] => [kv]
  | kv' :: rest =>
      if timestamp kv.2 <? timestamp kv'.2 then kv :: sorted
      else kv' :: insert_by_timestamp kv rest
  end.

Definition sorted_keys (cache : list (string * cache_entry)) : list string :=
  map fst (fold_left (fun acc kv => insert_by_timestamp kv acc) cache []).

(** Lines 61-73 *)
Definition store_in_cache (cfg : settings) (query : string) (d : data)
    (w : world) : world :=
  if ENABLE_CACHE cfg then
    let cache :=
      odict_set query {| entry_data := d; timestamp := now w |}
        (query_cache w) in
    let cache :=
      if 100 <? Z.of_nat (length cache)
      then fold_left (fun c key => odict_delete key c)
             (take 10 (sorted_keys cache)) cache
      else cache in
    {| now := now w; query_cache := cache;
       requests := requests w; slept := slept w |}
  else w.

(** Lines 51-98, with [remaining = MAX_RETRIES - retries] attempts left:
    the loop ends when none is. *)
Fixpoint retry_loop (cfg : settings) (ask : server) (query : string)
    (remaining : nat) (w : world) : result (option data) * world :=
  match remaining with
  | O => (Ok None, w)
  | S remaining' =>
      let retries := MAX_RETRIES cfg - Z.of_nat remaining in
      let response := ask (requests w) in
      let w := {| now := now w; query_cache := query_cache w;
                  requests := S (requests w); slept := slept w |} in
      match response with
      | Responds d => (Ok (Some d), store_in_cache cfg query d w)
      | TimesOut =>
          let retries := retries + 1 in
          if retries <? MAX_RETRIES cfg then
            match sleep (2 ^ retries) w with
            | Ok w' => retry_loop cfg ask query remaining' w'
            | Raise e => (Raise e, w)
            end
          else retry_loop cfg ask query remaining' w
      | HTTPError status_code retry_after =>
          if status_code =? 429 then
            let retries := retries + 1 in
            if retries <? MAX_RETRIES cfg then
              match
                match retry_after with
                | Some hint => py_int hint
                | None => Ok (2 ^ retries)
                end
              with
              | Raise e => (Raise e, w)
              | Ok secs =>
                  match sleep secs w with
                  | Ok w' => retry_loop cfg ask query remaining' w'
                  | Raise e => (Raise e, w)
                  end
              end
            else retry_loop cfg ask query remaining' w
          else (Ok None, w)
      | Fails => (Ok None, w)
      end
  end.

Definition query_overpass (cfg : settings) (ask : server) (w : world)
    (query : string) : result (option data) * world :=
  let cached :=
    if ENABLE_CACHE cfg then
      match odict_lookup query (query_cache w) with
      | Some cache_entry =>
          if now w - timestamp cache_entry <? CACHE_TTL cfg
          then Some (entry_data cache_entry)
          else None
      | None => None
      end
    else None in
  match cached with
  | Some d => (Ok (Some d), w)
  | None => retry_loop cfg ask query (Z.to_nat (MAX_RETRIES cfg)) w
  end.

End Service.

Arguments Responds {data} d.
Arguments TimesOut {data}.
Arguments HTTPError {data} status_code retry_after.
Arguments Fails {data}.
Arguments Build_cache_entry {data} entry_data timestamp.
Arguments entry_data {data} c.
Arguments timestamp {data} c.
Arguments Build_world {data} now query_cache requests slept.
Arguments now {data} w.
Arguments query_cache {data} w.
Arguments requests {data} w.
Arguments slept {data} w.
Arguments sleep {data} secs w.
Arguments sorted_keys {data} cache.
Arguments store_in_cache {data} cfg query d w.
Arguments retry_loop {data} cfg ask query remaining w.
Arguments query_overpass {data} cfg ask w query.

End OverpassService.

(** * Further functions of the same files

    The functions below are not named by the statements of the first part
    of the properties; they are the neighbours of those that are: the grid
    of [services/elevation_service.py], the query extraction of
    [services/overpass_service.py], the bounding boxes of
    [models/geo_data.py] and the palettes of [utils/visualization.py]. *)

(** ** [services/elevation_service.py]: [get_area_elevation_grid] *)

Module ElevationGrid.

Import PyNum Settings ElevationService.

(** [np.linspace(start, stop, num)] for two floats: the samples
    [i * step + start], the last one overwritten with [stop]. *)
Definition linspace_of (start stop : float) (num : Z) : list float :=
  let div := num - 1 in
  let delta := (stop - start)%float in
  let y := Numpy.arange num in
  let y :=
    if 0 <? div then
      let step := (delta / float_of_Z div)%float in
      if (step =? 0)%float
      then map (fun v => (v / float_of_Z div * delta)%float) y
      else map (fun v => (v * step)%float) y
    else map (fun v => (v * delta)%float) y in
  let y := map (fun v => (v + start)%float) y in
  if 1 <? num then <[Nat.pred (length y) := stop]> y else y.

Definition linspace (start stop : float) (num : Z) : result (list float) :=
  if num <? 0 then Raise ValueError else Ok (linspace_of start stop num).

(** [np.array(values).reshape((rows, cols)).tolist()]: a [ValueError]
    unless the array has exactly [rows * cols] entries. *)
Definition reshape_2d {A} (values : list A) (rows cols : Z)
  : result (list (list A)) :=
  if (0 <=? rows) && (0 <=? cols)
     && (rows * cols =? Z.of_nat (length values))
  then Ok (map (fun i => take (Z.to_nat cols) (drop (i * Z.to_nat cols) values))
               (seq 0 (Z.to_nat rows)))
  else Raise ValueError.

(** [a < b] on two elevations; comparing [None] is a [TypeError]. *)
Definition elevation_lt (a b : elevation) : result bool :=
  match a, b with
  | Some x, Some y => Ok (x <? y)%float
  | _, _ => Raise TypeError
  end.

(** [min(values)] and [max(values)]: the first of the least (greatest)
    entries; a [ValueError] on an empty list. *)
Fixpoint min_from (best : elevation) (values : list elevation)
  : result elevation :=
  match values with
  | [] => Ok best
  | v :: rest =>
      lt ← elevation_lt v best;
      min_from (if lt : bool then v else best) rest
  end.

Fixpoint max_from (best : elevation) (values : list elevation)
  : result elevation :=
  match values with
  | [] => Ok best
  | v :: rest =>
      gt ← elevation_lt best v;
      max_from (if gt : bool then v else best) rest
  end.

Definition py_min (values : list elevation) : result elevation :=
  match values with
  | [] => Raise ValueError
  | v :: rest => min_from v rest
  end.

Definition py_max (values : list elevation) : result elevation :=
  match values with
  | [] => Raise ValueError
  | v :: rest => max_from v rest
  end.

(** The bounds [(min_lon, min_lat, max_lon, max_lat)]. *)
Record bounds := {
  min_lon : float;
  min_lat : float;
  max_lon : float;
  max_lat : float
}.

(** The dictionary [get_area_elevation_grid] returns. *)
Record area_grid := {
  grid_bounds : bounds;
  grid_resolution : Z;
  grid_points : list coord;
  grid_elevations : list elevation;
  elevation_grid : list (list elevation);
  min_elevation : elevation;
  max_elevation : elevation
}.

Definition get_area_elevation_grid (cfg : settings) (ask : provider)
    (w : world) (b : bounds) (resolution : Z) : result area_grid * world :=
  match linspace (min_lon b) (max_lon b) resolution with
  | Raise e => (Raise e, w)
  | Ok lons =>
      match linspace (min_lat b) (max_lat b) resolution with
      | Raise e => (Raise e, w)
      | Ok lats =>
          let points :=
            flat_map (fun lat => map (fun lon => (lon, lat)) lons) lats in
          let '(r, w) := get_elevation_data cfg ask w points in
          match r with
          | Raise e => (Raise e, w)
          | Ok elevations =>
              ((grid ← reshape_2d elevations resolution resolution;
                lowest ← py_min elevations;
                highest ← py_max elevations;
                Ok {| grid_bounds := b;
                      grid_resolution := resolution;
                      grid_points := points;
                      grid_elevations := elevations;
                      elevation_grid := grid;
                      min_elevation := lowest;
                      max_elevation := highest |}), w)
          end
      end
  end.

End ElevationGrid.

(** ** [services/overpass_service.py]: [extract_overpass_query]

    The text is a Python [str], a sequence of code points: [str.strip]
    removes Unicode white space, which bytes would not show. *)

Module QueryText.

Import PyNum.

(** A Python [str]: its code points. *)
Definition str : Type := list N.

(** An ASCII literal. *)
Definition lit (s : string) : str := map N_of_ascii (list_ascii_of_string s).

(** The white space [str.strip] removes. *)
Definition is_whitespace (c : N) : bool :=
  ((9 <=? c) && (c <=? 13) || (28 <=? c) && (c <=? 32)
   || (c =? 133) || (c =? 160) || (c =? 5760)
   || (8192 <=? c) && (c <=? 8202)
   || (c =? 8232) || (c =? 8233) || (c =? 8239) || (c =? 8287)
   || (c =? 12288))%N.

Fixpoint lstrip (s : str) : str :=
  match s with
  | c :: s' => if is_whitespace c then lstrip s' else s
  | [] => []
  end.

(** [s.strip()] *)
Definition strip (s : str) : str := rev (lstrip (rev (lstrip s))).

(** [s.startswith(sub)] *)
Fixpoint startswith (sub s : str) : bool :=
  match sub, s with
  | [], _ => true
  | a :: sub', b :: s' => (a =? b)%N && startswith sub' s'
  | _ :: _, [] => false
  end.

(** [s.find(sub)]: the first place where [sub] occurs, if any. *)
Fixpoint find (sub s : str) : option nat :=
  if startswith sub s then Some 0%nat
  else match s with
       | [] => None
       | _ :: s' => S <$> find sub s'
       end.

(** [sub in s] *)
Definition occurs (sub s : str) : bool := bool_decide (is_Some (find sub s)).

(** [s.split(sep)] for a non-empty [sep]: the pieces between the
    occurrences of [sep], found from the left.  Each round consumes at
    least one character, so [length s + 1] rounds are enough. *)
Fixpoint split_rounds (rounds : nat) (sep s : str) : list str :=
  match rounds with
  | O => [s]
  | S rounds' =>
      match find sep s with
      | None => [s]
      | Some i =>
          take i s :: split_rounds rounds' sep (drop (i + length sep) s)
      end
  end.

Definition split_on (sep s : str) : list str :=
  split_rounds (S (length s)) sep s.

(** [re.search(r'\[out:json\];.*?out skel', text, re.DOTALL)]: the match
    starts at the first [[out:json];] that has an [out skel] after it and
    ends with the first such [out skel]. *)
Definition search_out_json (text : str) : option str :=
  i ← find (lit "[out:json];") text;
  j ← find (lit "out skel") (drop (i + 11) text);
  Some (take (11 + j + 8) (drop i text)).

Definition overpass_indicators : list str :=
  [ lit "[out:json]"; lit "out body"; lit "out skel";
    lit "node["; lit "way["; lit "relation[" ].

Definition extract_overpass_query (text : str) : result (option str) :=
  fenced ←
    (if occurs (lit "```overpass") text
     then part ← list_getitem_Z (split_on (lit "```overpass") text) 1;
          Ok (occurs (lit "```") part)
     else Ok false);
  if fenced : bool then
    part ← list_getitem_Z (split_on (lit "```overpass") text) 1;
    block ← list_getitem_Z (split_on (lit "```") part) 0;
    Ok (Some (strip block))
  else
    found ←
      (if occurs (lit "```") text then
         let parts := split_on (lit "```") text in
         if 3 <=? Z.of_nat (length parts) then
           part ← list_getitem_Z parts 1;
           let code_block := strip part in
           if existsb (fun indicator => occurs indicator code_block)
                overpass_indicators
           then Ok (Some code_block)
           else Ok None
         else Ok None
       else Ok None);
    match found with
    | Some code_block => Ok (Some code_block)
    | None => Ok (search_out_json text)
    end.

End QueryText.

(** ** [models/geo_data.py]: [BoundingBox], [get_bounds] and
    [filter_by_bounds] *)

Module GeoBounds.

Import PyNum GeoData.

Record BoundingBox := {
  min_lon : float;
  min_lat : float;
  max_lon : float;
  max_lat : float
}.

(** [BoundingBox.center] *)
Definition center (self : BoundingBox) : Coordinate :=
  {| lon := ((min_lon self + max_lon self) / float_of_Z 2)%float;
     lat := ((min_lat self + max_lat self) / float_of_Z 2)%float |}.

(** [BoundingBox.contains]: two chained comparisons. *)
Definition contains (self : BoundingBox) (coord : Coordinate) : bool :=
  ((min_lon self <=? lon coord)%float && (lon coord <=? max_lon self)%float)
  && ((min_lat self <=? lat coord)%float && (lat coord <=? max_lat self)%float).

(** [min(...)] and [max(...)] over floats, after the first item: an item
    replaces the best one when it is strictly less (greater). *)
Fixpoint float_min_from (best : float) (values : list float) : float :=
  match values with
  | [] => best
  | v :: rest => float_min_from (if (v <? best)%float then v else best) rest
  end.

Fixpoint float_max_from (best : float) (values : list float) : float :=
  match values with
  | [] => best
  | v :: rest => float_max_from (if (best <? v)%float then v else best) rest
  end.

(** Lines 249-259: the coordinates of all features, by kind. *)
Definition all_coords (self : GeoDataCollection) : list Coordinate :=
  flat_map building_coordinates (buildings self)
  ++ flat_map road_coordinates (roads self)
  ++ map point_coordinate (points self)
  ++ flat_map polygon_coordinates (polygons self).

Definition get_bounds (self : GeoDataCollection) : BoundingBox :=
  match all_coords self with
  | [] =>
      {| min_lon := float_of_decimal true 1 (-2);
         min_lat := float_of_decimal true 1 (-2);
         max_lon := float_of_decimal false 1 (-2);
         max_lat := float_of_decimal false 1 (-2) |}
  | coord :: rest =>
      {| min_lon := float_min_from (lon coord) (map lon rest);
         min_lat := float_min_from (lat coord) (map lat rest);
         max_lon := float_max_from (lon coord) (map lon rest);
         max_lat := float_max_from (lat coord) (map lat rest) |}
  end.

Definition get_center (self : GeoDataCollection) : Coordinate :=
  center (get_bounds self).

(** The helpers of [filter_by_bounds]. *)
Definition in_bounds (bounds : BoundingBox) (coord : Coordinate) : bool :=
  contains bounds coord.

Definition any_in_bounds (bounds : BoundingBox) (coords : list Coordinate)
  : bool :=
  existsb (in_bounds bounds) coords.

Definition filter_by_bounds (self : GeoDataCollection) (bounds : BoundingBox)
  : GeoDataCollection :=
  {| buildings :=
       List.filter (fun b => any_in_bounds bounds (building_coordinates b))
         (buildings self);
     roads :=
       List.filter (fun r => any_in_bounds bounds (road_coordinates r))
         (roads self);
     points :=
       List.filter (fun p => in_bounds bounds (point_coordinate p))
         (points self);
     polygons :=
       List.filter (fun p => any_in_bounds bounds (polygon_coordinates p))
         (polygons self);
     terrain_elevation := terrain_elevation self |}.

End GeoBounds.

(** ** [utils/visualization.py]: [elevation_to_color] and
    [generate_heatmap_colors] *)

Module Palettes.

Import PyNum Visualization GeoBounds.

Definition color (r g b : Z) : rgb := {| red := r; green := g; blue := b |}.

(** The terrain colours of [elevation_to_color], from low to high. *)
Definition terrain_colors : list rgb :=
  [ color 0 121 107; color 0 151 131; color 0 188 163;
    color 238 231 176; color 203 166 129; color 166 133 93;
    color 127 98 58; color 102 78 46; color 255 255 255 ].

Definition elevation_to_color (elevation min_elevation max_elevation : float)
  : result (list Z) :=
  get_color_for_value elevation min_elevation max_elevation terrain_colors.

(** [min(data)] and [max(data)]: a [ValueError] on an empty list. *)
Definition py_min_float (values : list float) : result float :=
  match values with
  | [] => Raise ValueError
  | v :: rest => Ok (float_min_from v rest)
  end.

Definition py_max_float (values : list float) : result float :=
  match values with
  | [] => Raise ValueError
  | v :: rest => Ok (float_max_from v rest)
  end.

Definition viridis : list rgb :=
  [ color 68 1 84; color 70 50 126; color 54 92 141; color 39 127 142;
    color 31 161 135; color 74 193 109; color 159 218 57; color 253 231 37 ].

(** The dictionary [color_schemes] of [generate_heatmap_colors]. *)
Definition color_schemes : gmap string (list rgb) :=
  list_to_map
    [ ("viridis", viridis);
      ("plasma",
       [ color 13 8 135; color 75 3 161; color 125 3 168; color 168 34 150;
         color 203 70 121; color 229 107 93; color 248 148 65;
         color 253 195 40; color 240 249 33 ]);
      ("blues",
       [ color 247 251 255; color 222 235 247; color 198 219 239;
         color 158 202 225; color 107 174 214; color 66 146 198;
         color 33 113 181; color 8 81 156; color 8 48 107 ]);
      ("greens",
       [ color 247 252 245; color 229 245 224; color 199 233 192;
         color 161 217 155; color 116 196 118; color 65 171 93;
         color 35 139 69; color 0 109 44; color 0 68 27 ]);
      ("reds",
       [ color 255 245 240; color 254 224 210; color 252 187 161;
         color 252 146 114; color 251 106 74; color 239 59 44;
         color 203 24 29; color 165 15 21; color 103 0 13 ]) ].

Definition generate_heatmap_colors (data : list float) (color_scheme : string)
  : result (list (list Z)) :=
  min_val ← py_min_float data;
  max_val ← py_max_float data;
  let colors := default viridis (color_schemes !! color_scheme) in
  mapM (fun val => get_color_for_value val min_val max_val colors) data.

End Palettes.

(** * The vocabulary of the statements

    What the properties below are stated with: the specification's words
    as definitions, the concrete inputs of the examples, and the value of
    a binary64 number as a rational. *)

(** ** Binary64 numbers as rationals *)

Module Binary64.

Import PyNum.

(** Powers of two, as rationals. *)
Definition bpow (e : Z) : Q := (2 ^ e)%Q.

(** The value of mantissa [m] at exponent [e]. *)
Definition F2Q (m e : Z) : Q := (inject_Z m * bpow e)%Q.

(** A shift record that has lost no bit so far. *)
Definition exact_record (mrs : shr_record) : Prop :=
  shr_r mrs = false /\ shr_s mrs = false.

(** [2^-52]: the relative error of one rounding to a 53-bit mantissa is
    below it. *)
Definition eps52 : Q := 1 # 4503599627370496.

(** The exact position of sample [j] of [num] over [0 .. d], rounded
    down. *)
Definition even_position (d num : Z) (j : nat) : Z :=
  Z.of_nat j * d / (num - 1).

End Binary64.

(** ** Binary64 numbers on a line of integers

    Every finite binary64 number is a whole number of units of [2^-1074].
    Its place is that number; the order of the floats is the order of their
    places, and an operation is exact arithmetic on places followed by one
    rounding. *)

Module Binary64Places.

(** The place of the infinities: beyond every finite number. *)
Definition infinity_place : Z := 2 ^ 2098.

(** The place of a number on the line, counted in units of [2^-1074]
    (every finite binary64 is a whole number of them).  A NaN has no place;
    0 stands for it, and the statements exclude it. *)
Definition place (x : spec_float) : Z :=
  match x with
  | S754_zero _ => 0
  | S754_finite s m e => cond_Zopp s (Z.pos m * 2 ^ (e + 1074))
  | S754_infinity s => cond_Zopp s infinity_place
  | S754_nan => 0
  end.

Definition pl (x : float) : Z := place (Prim2SF x).

(** The largest finite place. *)
Definition max_place : Z := (2 ^ 53 - 1) * 2 ^ 2045.

(** Neither an infinity nor a NaN. *)
Definition finite_SF (x : spec_float) : Prop :=
  match x with
  | S754_zero _ | S754_finite _ _ _ => True
  | _ => False
  end.

Definition finite (x : float) : Prop := finite_SF (Prim2SF x).

Definition not_nan_SF (x : spec_float) : Prop :=
  match x with S754_nan => False | _ => True end.

Definition not_nan (x : float) : Prop := not_nan_SF (Prim2SF x).

(** [X / 2^n] rounded to the nearest integer, ties to even. *)
Definition rne (X n : Z) : Z :=
  let q := X / 2 ^ n in
  let r := X mod 2 ^ n in
  match 2 * r ?= 2 ^ n with
  | Lt => q
  | Gt => q + 1
  | Eq => if Z.even q then q else q + 1
  end.

(** A positive number of units rounded to 53 significant bits. *)
Definition RN (X : Z) : Z :=
  let n := Z.max (Zdigits2 X - 53) 0 in
  rne X n * 2 ^ n.

(** Rounding to binary64, on places: overflow goes to the infinities. *)
Definition RNZ (z : Z) : Z :=
  match z with
  | 0 => 0
  | Z.pos _ => Z.min (RN z) infinity_place
  | Z.neg p => - Z.min (RN (Z.pos p)) infinity_place
  end.

(** The second stage of [binary_round_aux]: the rounded mantissa is
    renormalised (it may have become [2^53]) and the overflow is
    decided. *)
Definition round_stage2 (s : bool) (mr L : Z) : spec_float :=
  let '(mrs, e) := shr_fexp 53 1024 mr L loc_Exact in
  match shr_m mrs with
  | 0 => S754_zero s
  | Z.pos m => if e <=? 1024 - 53 then S754_finite s m e else S754_infinity s
  | Z.neg _ => S754_nan
  end.

End Binary64Places.

(** ** Heights, node types and the branches of a way *)

Module DataProcessingSpec.

Import PyNum Settings ElevationService DataProcessing.

(** The value of a computation that did not raise. *)
Definition to_option {A} (r : result A) : option A :=
  match r with Ok a => Some a | Raise _ => None end.

(** The [height] tag, when [float] accepts its first whitespace-separated
    token: ["12.5 m"] gives [12.5], ["12.5m"] and ["tall"] give nothing. *)
Definition parsed_height (tags : gmap string string) : option float :=
  s ← tags !! "height";
  token ← head (PyStr.split s);
  to_option (py_float token).

(** The [building:levels] tag, when [float] accepts it. *)
Definition parsed_levels (tags : gmap string string) : option float :=
  s ← tags !! "building:levels";
  to_option (py_float s).

(** The base-height table entry of the [building] value; 8 when the tag
    is absent or its value is not in the table. *)
Definition table_height (tags : gmap string string) : Z :=
  match tags !! "building" with
  | Some building_type => default 8 (base_heights !! building_type)
  | None => 8
  end.

(** The ordered fallback chain of the height estimate. *)
Definition height_chain (tags : gmap string string) (factor : float) : float :=
  match parsed_height tags with
  | Some h => (h * factor)%float
  | None =>
      match parsed_levels tags with
      | Some levels => (levels * 3 * factor)%float
      | None => (float_of_Z (table_height tags) * factor)%float
      end
  end.

(** The keys that give a point its type, in priority order. *)
Definition point_type_keys : list string :=
  ["amenity"; "shop"; "tourism"; "historic"; "leisure"].

(** The value of the first key of [keys] that [tags] maps to a non-empty
    string.  ([tags.get(k) or ...] passes over an empty string as it does
    over an absent key.) *)
Fixpoint first_tag (keys : list string) (tags : gmap string string)
  : option string :=
  match keys with
  | [] => None
  | k :: ks =>
      match tags !! k with
      | Some v => if bool_decide (v = "") then first_tag ks tags else Some v
      | None => first_tag ks tags
      end
  end.

(** The branches of [process_way]. *)
Inductive way_class := Building | Road | Polygon | Dropped.

(** The first coordinate equals the last. *)
Definition ring_closed (coords : list coord) : bool :=
  match coords with
  | [] => false
  | [_] => true
  | c :: _ => match last coords with Some c' => coord_eqb c c' | None => false end
  end.

(** The branch a way takes: [building] before [highway] before the closed
    ring. *)
Definition classify_way (e : element) : way_class :=
  if bool_decide (is_Some (tags_of e !! "building")) then Building
  else if bool_decide (is_Some (tags_of e !! "highway")) then Road
  else if ring_closed (way_coords e) then Polygon
  else Dropped.

(** A node tagged [{amenity: "cafe", shop: "bakery"}]. *)
Definition cafe_node : element :=
  {| el_type := Some "node"; el_id := Some 1;
     el_tags := Some (<["amenity" := "cafe"]> {["shop" := "bakery"]});
     el_lat := Some 48.75%float; el_lon := Some 2.25%float;
     el_nodes := None; el_geometry := None; el_members := None |}.

(** A way tagged both [building] and [highway]. *)
Definition both_tags_way : element :=
  {| el_type := Some "way"; el_id := Some 7;
     el_tags := Some (<["building" := "yes"]> {["highway" := "residential"]});
     el_lat := None; el_lon := None;
     el_nodes := Some [1; 2];
     el_geometry := Some [ {| ref_lat := Some 1.0%float; ref_lon := Some 2.0%float |};
                           {| ref_lat := Some 1.5%float; ref_lon := Some 2.5%float |} ];
     el_members := None |}.

(** A way element whose mapping has no ["nodes"] key. *)
Definition way_without_nodes (e : element) : Prop :=
  el_type e = Some "way" /\ el_nodes e = None.

(** A closed building way with a ["geometry"] sequence and no ["nodes"]. *)
Definition geometry_only_way : element :=
  {| el_type := Some "way"; el_id := Some 9;
     el_tags := Some {["building" := "yes"]};
     el_lat := None; el_lon := None;
     el_nodes := None;
     el_geometry := Some [ {| ref_lat := Some 1.0%float; ref_lon := Some 2.0%float |};
                           {| ref_lat := Some 1.5%float; ref_lon := Some 2.5%float |};
                           {| ref_lat := Some 1.0%float; ref_lon := Some 2.0%float |} ];
     el_members := None |}.

End DataProcessingSpec.

(** ** Elevations *)

Module ElevationSpec.

Import PyNum Settings ElevationService.

(** What the cache holds for a coordinate, if the cache is in use. *)
Definition cached (cfg : settings) (w : world) (c : coord) : option elevation :=
  if ENABLE_CACHE cfg then elevation_cache w !! cache_key c else None.

(** A provider whose every request fails (a timeout, an error status, a
    network error, a body that is not JSON). *)
Definition request_fails (ask : provider) : Prop :=
  forall locations, exists f, ask locations = RequestFails f.

(** The function after the sampling step (lines 49-100). *)
Definition elevations_of (cfg : settings) (ask : provider) (w : world)
    (coords_list : list coord) : list elevation * world :=
  let '(elevations, coords_to_fetch, coords_indices) :=
    scan_cache cfg (elevation_cache w) 0 coords_list in
  let '(elevations, w) :=
    match coords_to_fetch with
    | [] => (elevations, w)
    | _ => fetch cfg ask coords_to_fetch coords_indices elevations w
    end in
  (map none_to_zero elevations, w).

(** The payload entry of a coordinate. *)
Definition location_of (c : coord) : location :=
  {| latitude := c.2; longitude := c.1 |}.

(** A provider that answers every location, with [g]'s elevation. *)
Definition answers (ask : provider) (g : location -> elevation) : Prop :=
  forall locations,
    ask locations = Results (map (fun l => Entry (Some (g l))) locations).

(** The slot of a coordinate after a complete answer. *)
Definition filled (cfg : settings) (w : world) (g : location -> elevation)
    (c : coord) : elevation :=
  match cached cfg w c with
  | Some e => e
  | None => g (location_of c)
  end.

(** Every entry is below the entries after it. *)
Definition strictly_increasing (l : list Z) : Prop :=
  forall i j a b, (i < j)%nat -> l !! i = Some a -> l !! j = Some b -> a < b.

(** [n] distinct coordinates. *)
Definition numbered_coords (n : nat) : list coord :=
  map (fun i => (float_of_Z (Z.of_nat i), 0%float)) (seq 0 n).

(** The provider stubbed to time out on every request. *)
Definition always_fails : provider := fun _ => RequestFails Timeout.

(** A process that has made no request yet: nothing cached. *)
Definition cold : world := {| elevation_cache := ∅; posted := [] |}.

End ElevationSpec.

(** ** Tag filters *)

Module GeoDataSpec.

Import GeoData.

(** Every requested key-value pair is a pair of the feature. *)
Definition all_pairs_match (tags feature_tags : gmap string string) : Prop :=
  forall key value, tags !! key = Some value -> feature_tags !! key = Some value.

End GeoDataSpec.

(** ** Colour scales *)

Module VisualizationSpec.

Import Visualization.

(** A colour with the alpha 255 appended. *)
Definition rgba (c : rgb) : list Z := [red c; green c; blue c; 255].

(** A colour whose entries an int64 holds. *)
Definition int64_color (c : rgb) : Prop :=
  - 2 ^ 63 <= red c < 2 ^ 63
  /\ - 2 ^ 63 <= green c < 2 ^ 63
  /\ - 2 ^ 63 <= blue c < 2 ^ 63.

(** Lines 85-97 at a given clamped position. *)
Definition interpolate (normalized : number) (colors : list rgb)
  : result (list Z) :=
  let len := Z.of_nat (length colors) in
  let color_index := mul_int normalized (len - 1) in
  lower_idx ← py_int_of color_index;
  let upper_idx := Z.min (lower_idx + 1) (len - 1) in
  let weight := sub_int color_index lower_idx in
  lower ← colors_getitem colors lower_idx;
  upper ← colors_getitem colors upper_idx;
  r ← mix weight (red lower) (red upper);
  g ← mix weight (green lower) (green upper);
  b ← mix weight (blue lower) (blue upper);
  Ok [r; g; b; 255].

(** Lines 75-82: the clamped position of [value] on the scale. *)
Definition position (value min_value max_value : float) : number :=
  max_0 (min_1 (if (max_value - min_value =? 0)%float then 0.5%float
                else ((value - min_value) / (max_value - min_value))%float)).

End VisualizationSpec.

(** ** The retry loop *)

Module OverpassSpec.

Import PyNum Settings OverpassService.

Section RetryVocabulary.

Context {data : Type}.

(** The failures the loop retries: a timeout and a 429 response. *)
Definition transient (a : attempt data) : Prop :=
  match a with
  | TimesOut => True
  | HTTPError status_code _ => status_code = 429
  | _ => False
  end.

(** The failures that end the loop at once: an HTTP error status other
    than 429, and any other exception of the request. *)
Definition final_failure (a : attempt data) : Prop :=
  match a with
  | Fails => True
  | HTTPError status_code _ => status_code <> 429
  | _ => False
  end.

(** A [Retry-After] header, when present, that [int] reads as a number of
    seconds [time.sleep] accepts. *)
Definition hint_ok (a : attempt data) : Prop :=
  match a with
  | HTTPError _ (Some hint) =>
      exists secs, py_int hint = Ok secs /\ 0 <= secs <= SLEEP_MAX
  | _ => True
  end.

(** The pause after a failed attempt that brought the counter to
    [retries]: the [Retry-After] hint of a 429 response when it has one, the
    backoff [2 ** retries] otherwise. *)
Definition wait_after (a : attempt data) (retries : Z) : Z :=
  match a with
  | HTTPError _ (Some hint) =>
      match py_int hint with
      | Ok secs => secs
      | Raise _ => 2 ^ retries
      end
  | _ => 2 ^ retries
  end.

(** The pauses after the attempts [base .. base + n - 1]. *)
Definition waits (ask : server data) (base : nat) (retries : Z) (n : nat)
  : list Z :=
  map (fun j => wait_after (ask (base + j)%nat) (retries + Z.of_nat j + 1))
      (seq 0 n).

(** The world after [k] more requests and the pauses [ws]. *)
Definition world_after (w : world data) (k : nat) (ws : list Z) : world data :=
  {| now := now w + foldr Z.add 0 ws;
     query_cache := query_cache w;
     requests := (requests w + k)%nat;
     slept := slept w ++ ws |}.

(** The cache does not answer the query: it is off, has no entry, or the
    entry has expired. *)
Definition cache_miss (cfg : settings) (w : world data) (query : string) : Prop :=
  ENABLE_CACHE cfg = false
  \/ odict_lookup query (query_cache w) = None
  \/ exists entry, odict_lookup query (query_cache w) = Some entry
                   /\ CACHE_TTL cfg <= now w - timestamp entry.

End RetryVocabulary.

(** A process at time 1000 with an empty cache. *)
Definition fresh_world : world string :=
  {| now := 1000; query_cache := []; requests := 0; slept := [] |}.

End OverpassSpec.

(** ** The elevation cache and the grid *)

Module ElevationCacheSpec.

Import PyNum Settings ElevationService ElevationSpec ElevationGrid.

(** A coordinate the cache does not serve. *)
Definition uncached (cfg : settings) (w : world) (c : coord) : bool :=
  match cached cfg w c with
  | Some _ => false
  | None => true
  end.

(** The payloads a call adds to the log: none when every coordinate is
    served from the cache, else one with the coordinates that are not. *)
Definition requested (cfg : settings) (w : world) (coords : list coord)
  : list (list location) :=
  match List.filter (uncached cfg w) coords with
  | [] => []
  | misses => [map location_of misses]
  end.

(** The provider's answers agree on coordinates that share a cache key. *)
Definition key_consistent (g : location -> elevation) (coords : list coord)
  : Prop :=
  forall c c', c ∈ coords -> c' ∈ coords -> cache_key c = cache_key c' ->
    g (location_of c) = g (location_of c').

(** The cache after the answers for [misses] have been stored. *)
Definition cache_with (g : location -> elevation) (misses : list coord)
    (cache : gmap string elevation) : gmap string elevation :=
  foldl (fun m c => <[cache_key c := g (location_of c)]> m) cache misses.

(** A provider that gives every location the elevation 5. *)
Definition level_five : provider :=
  fun locations => Results (map (fun _ => Entry (Some (Some 5%float))) locations).

(** The bounding box of the unit square. *)
Definition unit_square : bounds :=
  {| min_lon := 0; min_lat := 0; max_lon := 1; max_lat := 1 |}%float.

End ElevationCacheSpec.

(** ** The pipeline as a whole *)

Module PipelineSpec.

Import PyNum Settings ElevationService DataProcessing.
Import DataProcessingSpec.

(** The number of features in the four lists. *)
Definition feature_count (st : features) : nat :=
  (length (buildings st) + length (roads st)
   + length (points st) + length (polygons st))%nat.

(** The element ids of the features of each list. *)
Definition feature_ids (st : features) : list (list (option Z)) :=
  [map building_element_id (buildings st);
   map road_element_id (roads st);
   map point_element_id (points st);
   map polygon_element_id (polygons st)].

(** The elements the loop passes over. *)
Definition passed_over (e : element) : Prop :=
  (el_type e = Some "node" /\ tags_of e = ∅)
  \/ (el_type e = Some "node" /\ (el_lat e = None \/ el_lon e = None))
  \/ (el_type e = Some "way" /\ way_coords e = [])
  \/ el_type e = Some "relation"
  \/ (el_type e <> Some "node" /\ el_type e <> Some "way").

(** A response of one element. *)
Definition response_of (es : list element) : option raw_response :=
  Some {| elements := Some es |}.

(** One element: nothing changes, or one feature with the element's id is
    appended to one list. *)
Inductive step_of (e : element) (st st' : features) : Prop :=
  | step_none : st' = st -> step_of e st st'
  | step_building b :
      building_element_id b = el_id e ->
      st' = {| buildings := buildings st ++ [b]; roads := roads st;
               points := points st; polygons := polygons st |} ->
      step_of e st st'
  | step_road r :
      road_element_id r = el_id e ->
      st' = {| buildings := buildings st; roads := roads st ++ [r];
               points := points st; polygons := polygons st |} ->
      step_of e st st'
  | step_point p :
      point_element_id p = el_id e ->
      st' = {| buildings := buildings st; roads := roads st;
               points := points st ++ [p]; polygons := polygons st |} ->
      step_of e st st'
  | step_polygon p :
      polygon_element_id p = el_id e ->
      st' = {| buildings := buildings st; roads := roads st;
               points := points st; polygons := polygons st ++ [p] |} ->
      step_of e st st'.

(** The elements the loop sees: the first [MAX_FEATURES] of the response. *)
Definition limited (cfg : settings) (es : list element) : list element :=
  if MAX_FEATURES cfg <? Z.of_nat (length es)
  then list_slice_to es (MAX_FEATURES cfg)
  else es.

(** A node with a tag. *)
Definition tagged_node (id : Z) : element :=
  {| el_type := Some "node"; el_id := Some id;
     el_tags := Some {["amenity" := "cafe"]};
     el_lat := Some 1%float; el_lon := Some 2%float;
     el_nodes := None; el_geometry := None; el_members := None |}.

(** The settings with a limit of two features. *)
Definition two_features : settings :=
  {| DEFAULT_BUILDING_HEIGHT_FACTOR := 1;
     API_TIMEOUT := 30; MAX_RETRIES := 3;
     MAX_FEATURES := 2; MAX_ELEVATION_POINTS := 100;
     ENABLE_CACHE := true; CACHE_TTL := 3600 |}.

(** A node of a way: coordinates and no tags. *)
Definition untagged_node : element :=
  {| el_type := Some "node"; el_id := Some 4; el_tags := None;
     el_lat := Some 1%float; el_lon := Some 2%float;
     el_nodes := None; el_geometry := None; el_members := None |}.

(** An RGBA colour: four components, the first three in [0 .. 255], the
    last one [alpha]. *)
Definition is_rgba (alpha : Z) (c : list Z) : bool :=
  match c with
  | [r; g; b; a] =>
      (0 <=? r) && (r <=? 255) && (0 <=? g) && (g <=? 255)
      && (0 <=? b) && (b <=? 255) && (a =? alpha)
  | _ => false
  end.

End PipelineSpec.

(** ** The query cache *)

Module OverpassCacheSpec.

Import PyNum Settings OverpassService.

Section CacheVocabulary.

Context {data : Type}.

(** A cache as the service keeps it: one entry per query, at most 100 of
    them, none stamped later than the clock. *)
Definition cache_ok (w : world data) : Prop :=
  NoDup (map fst (query_cache w))
  /\ (length (query_cache w) <= 100)%nat
  /\ Forall (fun kv => timestamp kv.2 <= now w) (query_cache w).

End CacheVocabulary.

End OverpassCacheSpec.

(** ** Pieces of a text *)

Module QueryTextSpec.

Import PyNum QueryText.

(** [q] is a stretch of consecutive characters of [text]. *)
Definition piece (q text : str) : Prop := exists a b, text = a ++ q ++ b.

(** No white space at either end. *)
Definition trimmed (q : str) : Prop :=
  forall c, head q = Some c \/ last q = Some c -> is_whitespace c = false.

(** The backtick. *)
Definition backtick : N := 96%N.

End QueryTextSpec.

(** ** Bounding boxes, and the order of binary64 numbers *)

Module GeoBoundsSpec.

Import PyNum GeoData GeoBounds.

(** The place of a number on the line, as three integers compared in
    order: the sign class, then the exponent, then the mantissa. *)
Definition rank (x : spec_float) : option (Z * Z * Z) :=
  match x with
  | S754_nan => None
  | S754_infinity true => Some (-2, 0, 0)
  | S754_finite true m e => Some (-1, - e, Z.neg m)
  | S754_zero _ => Some (0, 0, 0)
  | S754_finite false m e => Some (1, e, Z.pos m)
  | S754_infinity false => Some (2, 0, 0)
  end.

(** The comparison of two places, and the two orders it decides. *)
Definition rank_compare (a b : Z * Z * Z) : comparison :=
  match a.1.1 ?= b.1.1 with
  | Eq => match a.1.2 ?= b.1.2 with
          | Eq => a.2 ?= b.2
          | c => c
          end
  | c => c
  end.

Definition rank_le (a b : Z * Z * Z) : Prop :=
  a.1.1 < b.1.1
  \/ (a.1.1 = b.1.1 /\ (a.1.2 < b.1.2 \/ (a.1.2 = b.1.2 /\ a.2 <= b.2))).

Definition rank_lt (a b : Z * Z * Z) : Prop :=
  a.1.1 < b.1.1
  \/ (a.1.1 = b.1.1 /\ (a.1.2 < b.1.2 \/ (a.1.2 = b.1.2 /\ a.2 < b.2))).

(** No coordinate of the collection is a NaN. *)
Definition no_nan (coords : list Coordinate) : Prop :=
  Forall (fun c => is_nan (lon c) = false /\ is_nan (lat c) = false) coords.

(** The collection with the features that have no coordinate left out. *)
Definition located (c : GeoDataCollection) : GeoDataCollection :=
  {| buildings :=
       List.filter (fun b => negb (bool_decide (building_coordinates b = [])))
         (buildings c);
     roads :=
       List.filter (fun r => negb (bool_decide (road_coordinates r = [])))
         (roads c);
     points := points c;
     polygons :=
       List.filter (fun p => negb (bool_decide (polygon_coordinates p = [])))
         (polygons c);
     terrain_elevation := terrain_elevation c |}.

(** The collection with no feature left. *)
Definition without_features (c : GeoDataCollection) : GeoDataCollection :=
  {| buildings := []; roads := []; points := []; polygons := [];
     terrain_elevation := terrain_elevation c |}.

(** A building with two corners and a point of interest. *)
Definition two_places : GeoDataCollection :=
  {| buildings :=
       [ {| building_id := "1"; building_name := "Hall";
            building_feature_type := "building"; building_tags := ∅;
            building_coordinates :=
              [ {| lon := float_of_Z 4; lat := float_of_Z 52 |};
                {| lon := float_of_Z 5; lat := float_of_Z 51 |} ];
            building_height := float_of_Z 8; building_color := [] |} ];
     roads := [];
     points :=
       [ {| point_id := "2"; point_name := "Well";
            point_feature_type := "poi"; point_tags := ∅;
            point_coordinate := {| lon := float_of_Z 3; lat := float_of_Z 53 |} |} ];
     polygons := [];
     terrain_elevation := float_of_Z 0 |}.

End GeoBoundsSpec.

(** ** Palettes *)

Module PalettesSpec.

Import PyNum Visualization VisualizationSpec Palettes.

(** A colour channel: an integer from 0 to 255. *)
Definition channel (z : Z) : Prop := 0 <= z <= 255.

(** A palette of proper colours. *)
Definition palette (colors : list rgb) : Prop :=
  Forall (fun c => channel (red c) /\ channel (green c) /\ channel (blue c))
         colors.

(** An opaque RGBA colour [[r, g, b, 255]]. *)
Definition opaque_rgba (c : list Z) : Prop :=
  exists r g b, c = [r; g; b; 255] /\ channel r /\ channel g /\ channel b.

(** The names [color_schemes] has. *)
Definition scheme_names : list string :=
  ["viridis"; "plasma"; "blues"; "greens"; "reds"].

(** The palette a scheme name selects. *)
Definition scheme_colors (color_scheme : string) : list rgb :=
  default viridis (color_schemes !! color_scheme).

End PalettesSpec.

(** * Properties *)

(** ** Rounding to binary64, as far as [np.linspace] needs it

    [SpecFloat]'s rounding is faithful: the result of a division or a
    product of two floats is one of the two 53-bit numbers around the exact
    value.  This bounds the samples [i * step] of [linspace] well enough to
    know their integer parts. *)

Module Binary64Facts.

Import PyNum Binary64.

Lemma bpow_pos e : (0 < bpow e)%Q.
Proof. apply Qpower_0_lt. reflexivity. Qed.

Lemma bpow_add a b : (bpow (a + b) == bpow a * bpow b)%Q.
Proof. apply Qpower_plus. discriminate. Qed.

Lemma bpow_of_nonneg e : 0 <= e -> (bpow e == inject_Z (2 ^ e))%Q.
Proof. intros H. unfold bpow. rewrite Zpower_Qpower by exact H. reflexivity. Qed.

Lemma bpow_0 : (bpow 0 == 1)%Q.
Proof. reflexivity. Qed.

Lemma bpow_le a b : a <= b -> (bpow a <= bpow b)%Q.
Proof. intros H. apply Qpower_le_compat_l; [exact H|discriminate]. Qed.

Lemma bpow_lt a b : a < b -> (bpow a < bpow b)%Q.
Proof. intros H. apply Qpower_lt_compat_l; [exact H|reflexivity]. Qed.

Lemma bpow_lt_inv a b : (bpow a < bpow b)%Q -> a < b.
Proof.
  intros H. destruct (Z_lt_le_dec a b) as [Hlt|Hge]; [exact Hlt|].
  apply bpow_le in Hge. lra.
Qed.

Lemma digits2_pos_bounds (p : positive) :
  2 ^ (Z.pos (digits2_pos p) - 1) <= Z.pos p < 2 ^ Z.pos (digits2_pos p).
Proof.
  induction p as [p IH|p IH|]; cbn [digits2_pos].
  - rewrite Pos2Z.inj_succ.
    replace (Z.succ (Z.pos (digits2_pos p)) - 1) with (Z.succ (Z.pos (digits2_pos p) - 1)) by lia.
    rewrite !Z.pow_succ_r by lia. lia.
  - rewrite Pos2Z.inj_succ.
    replace (Z.succ (Z.pos (digits2_pos p)) - 1) with (Z.succ (Z.pos (digits2_pos p) - 1)) by lia.
    rewrite !Z.pow_succ_r by lia. lia.
  - cbn. lia.
Qed.

Lemma digits2_pos_unique (p : positive) (k : Z) :
  2 ^ (k - 1) <= Z.pos p < 2 ^ k -> Z.pos (digits2_pos p) = k.
Proof.
  intros [Hlo Hhi]. pose proof (digits2_pos_bounds p) as [Hlo' Hhi'].
  assert (0 < k).
  { destruct (Z_lt_le_dec 0 k) as [|Hk]; [assumption|].
    assert (2 ^ k <= 2 ^ 0) by (apply Z.pow_le_mono_r; lia).
    change (2 ^ 0) with 1 in *. lia. }
  assert (Z.pos (digits2_pos p) - 1 < k).
  { apply (Z.pow_lt_mono_r_iff 2); lia. }
  assert (k - 1 < Z.pos (digits2_pos p)).
  { apply (Z.pow_lt_mono_r_iff 2); lia. }
  lia.
Qed.

Lemma iter_pos_nat {A} (f : A -> A) (p : positive) (x : A) :
  SpecFloat.iter_pos f p x = Nat.iter (Pos.to_nat p) f x.
Proof.
  revert x. induction p as [p IH|p IH|]; intros x; cbn [SpecFloat.iter_pos].
  - rewrite !IH, Pos2Nat.inj_xI.
    replace (S (2 * Pos.to_nat p)) with (Pos.to_nat p + (Pos.to_nat p + 1))%nat by lia.
    rewrite !Nat.iter_add. reflexivity.
  - rewrite !IH, Pos2Nat.inj_xO.
    replace (2 * Pos.to_nat p)%nat with (Pos.to_nat p + Pos.to_nat p)%nat by lia.
    rewrite Nat.iter_add. reflexivity.
  - reflexivity.
Qed.

Lemma shr_1_spec (mrs : shr_record) :
  0 <= shr_m mrs ->
  shr_m (shr_1 mrs) = shr_m mrs / 2
  /\ (exact_record mrs -> shr_m mrs mod 2 = 0 -> exact_record (shr_1 mrs)).
Proof.
  destruct mrs as [m r s]. cbn [shr_m]. intros Hm. unfold exact_record.
  destruct m as [|[p|p|]|p]; cbn [shr_1 shr_m shr_r shr_s]; try lia.
  - split; [reflexivity|]. intros [-> ->] _. split; reflexivity.
  - split; [rewrite Pos2Z.inj_xI; apply Z.div_unique with 1; lia|].
    intros _ H. rewrite Pos2Z.inj_xI in H.
    rewrite Z.add_comm, Z.mul_comm, Z.mod_add in H by lia. discriminate.
  - split; [rewrite Pos2Z.inj_xO; apply Z.div_unique with 0; lia|].
    intros [-> ->] _. split; reflexivity.
  - split; [reflexivity|]. intros _ H. discriminate.
Qed.

Lemma shr_iter_spec (k : nat) (mrs : shr_record) :
  0 <= shr_m mrs ->
  shr_m (Nat.iter k shr_1 mrs) = shr_m mrs / 2 ^ Z.of_nat k
  /\ (exact_record mrs -> shr_m mrs mod 2 ^ Z.of_nat k = 0 ->
      exact_record (Nat.iter k shr_1 mrs)).
Proof.
  intros Hm. induction k as [|k [IHm IHe]].
  - change (Nat.iter 0 shr_1 mrs) with mrs. change (2 ^ Z.of_nat 0) with 1. rewrite Z.div_1_r. tauto.
  - change (Nat.iter (S k) shr_1 mrs) with (shr_1 (Nat.iter k shr_1 mrs)).
    assert (Hk : 0 <= shr_m (Nat.iter k shr_1 mrs))
      by (rewrite IHm; apply Z.div_pos; lia).
    destruct (shr_1_spec _ Hk) as [Hm1 He1].
    rewrite Nat2Z.inj_succ, Z.pow_succ_r by lia.
    split.
    + rewrite Hm1, IHm, Z.div_div by lia. f_equal. lia.
    + intros Hex Hmod.
      assert (Hdiv : (2 * 2 ^ Z.of_nat k | shr_m mrs))
        by (apply Z.mod_divide; [lia|exact Hmod]).
      destruct Hdiv as [t Ht].
      apply He1.
      * apply IHe; [exact Hex|]. rewrite Ht.
        replace (t * (2 * 2 ^ Z.of_nat k)) with ((t * 2) * 2 ^ Z.of_nat k) by lia.
        apply Z.mod_mul. lia.
      * rewrite IHm, Ht.
        replace (t * (2 * 2 ^ Z.of_nat k)) with ((t * 2) * 2 ^ Z.of_nat k) by lia.
        rewrite Z.div_mul by lia. apply Z.mod_mul. lia.
Qed.

Lemma loc_of_exact_record mrs :
  exact_record mrs -> loc_of_shr_record mrs = loc_Exact.
Proof. destruct mrs as [m r s]. intros [H1 H2]. cbn in *. subst. reflexivity. Qed.

Lemma shr_record_of_loc_m m l : shr_m (shr_record_of_loc m l) = m.
Proof. destruct l as [|[]]; reflexivity. Qed.

Lemma loc_of_shr_record_of_loc m l :
  loc_of_shr_record (shr_record_of_loc m l) = l.
Proof. destruct l as [|[]]; reflexivity. Qed.

Lemma exact_record_of_loc m : exact_record (shr_record_of_loc m loc_Exact).
Proof. split; reflexivity. Qed.

Lemma shr_fexp_spec (m : positive) (e : Z) (l : location) :
  -1074 <= Z.pos (digits2_pos m) + e - 53 ->
  exists mrs,
    shr_fexp 53 1024 (Z.pos m) e l
    = (mrs, e + Z.max (Z.pos (digits2_pos m) - 53) 0)
    /\ shr_m mrs = Z.pos m / 2 ^ Z.max (Z.pos (digits2_pos m) - 53) 0
    /\ (l = loc_Exact ->
        Z.pos m mod 2 ^ Z.max (Z.pos (digits2_pos m) - 53) 0 = 0 ->
        loc_of_shr_record mrs = loc_Exact)
    /\ (Z.pos (digits2_pos m) <= 53 -> loc_of_shr_record mrs = l).
Proof.
  intros Hreg. unfold shr_fexp, fexp, SpecFloat.emin, Zdigits2.
  set (dg := Z.pos (digits2_pos m)) in *.
  replace (Z.max (dg + e - 53) (3 - 1024 - 53) - e) with (dg - 53) by lia.
  destruct (dg - 53) as [|p|p] eqn:Hn.
  - exists (shr_record_of_loc (Z.pos m) l). cbn [shr Z.max].
    change (Z.max 0 0) with 0. change (2 ^ 0) with 1.
    rewrite Z.add_0_r, Z.div_1_r, shr_record_of_loc_m.
    repeat split; intros; try apply loc_of_shr_record_of_loc.
    subst l. reflexivity.
  - exists (SpecFloat.iter_pos shr_1 p (shr_record_of_loc (Z.pos m) l)).
    cbn [shr]. rewrite Z.max_l by lia.
    rewrite iter_pos_nat.
    destruct (shr_iter_spec (Pos.to_nat p) (shr_record_of_loc (Z.pos m) l))
      as [Hm He]; [rewrite shr_record_of_loc_m; lia|].
    rewrite positive_nat_Z, shr_record_of_loc_m in *.
    repeat split; [exact Hm| |lia].
    intros -> Hmod. apply loc_of_exact_record, He;
      [apply exact_record_of_loc|exact Hmod].
  - exists (shr_record_of_loc (Z.pos m) l). cbn [shr].
    rewrite Z.max_r by lia. change (2 ^ 0) with 1.
    rewrite Z.add_0_r, Z.div_1_r, shr_record_of_loc_m.
    repeat split; intros; try apply loc_of_shr_record_of_loc.
    subst l. reflexivity.
Qed.

Lemma round_nearest_even_cases m l :
  (round_nearest_even m l = m \/ round_nearest_even m l = m + 1)
  /\ (l = loc_Exact -> round_nearest_even m l = m).
Proof.
  destruct l as [|[]]; cbn [round_nearest_even];
    (split; [try destruct (Z.even m); auto
            |intros H; first [reflexivity|discriminate H]]).
Qed.

Lemma F2Q_shift m e k :
  0 <= k -> (F2Q (m * 2 ^ k) e == F2Q m (e + k))%Q.
Proof.
  intros Hk. unfold F2Q. rewrite bpow_add, (bpow_of_nonneg k Hk).
  rewrite inject_Z_mult. ring.
Qed.

(** The result of rounding mantissa [m] at exponent [e]: with
    [n] bits dropped, the mantissa [m / 2^n] or the next one. *)
Lemma binary_round_aux_faithful (m : positive) (e : Z) (l : location) :
  let dg := Z.pos (digits2_pos m) in
  let n := Z.max (dg - 53) 0 in
  -1074 <= dg + e - 53 ->
  e + n + 1 <= 971 ->
  exists (m3 : positive) (e3 m2 : Z),
    binary_round_aux 53 1024 false (Z.pos m) e l = S754_finite false m3 e3
    /\ (m2 = Z.pos m / 2 ^ n \/ m2 = Z.pos m / 2 ^ n + 1)
    /\ (l = loc_Exact -> Z.pos m mod 2 ^ n = 0 -> m2 = Z.pos m / 2 ^ n)
    /\ (F2Q (Z.pos m3) e3 == F2Q m2 (e + n))%Q
    /\ e + n <= e3 <= e + n + 1
    /\ Z.pos (digits2_pos m3) <= 53
    /\ (53 <= dg -> Z.pos (digits2_pos m3) = 53).
Proof.
  intros dg n Hreg Hmax.
  pose proof (digits2_pos_bounds m) as [Hlo Hhi]. fold dg in Hlo, Hhi.
  destruct (shr_fexp_spec m e l Hreg) as (mrs1 & Hshr1 & Hm1 & Hex1 & Hsame1).
  fold dg in Hshr1, Hm1, Hex1, Hsame1. fold n in Hshr1, Hm1, Hex1.
  set (m1 := Z.pos m / 2 ^ n) in *.
  assert (Hn0 : 0 <= n) by (unfold n; lia).
  assert (Hm1_lo : 1 <= m1 /\ (53 <= dg -> 2 ^ 52 <= m1)).
  { unfold m1. split.
    - apply Z.div_le_lower_bound; [lia|].
      destruct (Z_le_gt_dec dg 53).
      + replace n with 0 by (unfold n; lia). cbn. lia.
      + replace n with (dg - 53) by (unfold n; lia).
        transitivity (2 ^ (dg - 1)); [|lia].
        rewrite Z.mul_1_r. apply Z.pow_le_mono_r; lia.
    - intros Hdg. apply Z.div_le_lower_bound; [lia|].
      replace n with (dg - 53) by (unfold n; lia).
      rewrite <- Z.pow_add_r by lia.
      replace (dg - 53 + 52) with (dg - 1) by lia. exact Hlo. }
  assert (Hm1_hi : m1 < 2 ^ 53).
  { unfold m1. apply Z.div_lt_upper_bound; [lia|].
    rewrite <- Z.pow_add_r by lia.
    eapply Z.lt_le_trans; [exact Hhi|]. apply Z.pow_le_mono_r; unfold n; lia. }
  unfold binary_round_aux. rewrite Hshr1.
  set (m2 := round_nearest_even (shr_m mrs1) (loc_of_shr_record mrs1)).
  destruct (round_nearest_even_cases (shr_m mrs1) (loc_of_shr_record mrs1))
    as [Hm2 Hm2ex].
  fold m2 in Hm2, Hm2ex. rewrite Hm1 in Hm2, Hm2ex.
  assert (Hm2pos : 1 <= m2 <= 2 ^ 53) by lia.
  destruct m2 as [|p2|p2] eqn:Hp2; try lia.
  pose proof (digits2_pos_bounds p2) as [Hlo2 Hhi2].
  set (dg2 := Z.pos (digits2_pos p2)) in *.
  assert (Hdg2 : dg2 <= 54).
  { destruct (Z_le_gt_dec dg2 54); [assumption|].
    assert (2 ^ 54 <= 2 ^ (dg2 - 1)) by (apply Z.pow_le_mono_r; lia).
    assert (2 ^ 53 < 2 ^ 54) by (apply Z.pow_lt_mono_r; lia). lia. }
  assert (Hdg2_lo : 53 <= dg -> 53 <= dg2).
  { intros Hdg. destruct (Z_le_gt_dec 53 dg2); [assumption|].
    assert (2 ^ dg2 <= 2 ^ 52) by (apply Z.pow_le_mono_r; lia).
    destruct Hm1_lo as [_ Hm1_lo]. specialize (Hm1_lo Hdg). lia. }
  assert (Hdg2_dg : n = 0 -> dg <= dg2).
  { intros Hn. destruct (Z_le_gt_dec dg dg2); [assumption|].
    assert (2 ^ dg2 <= 2 ^ (dg - 1)) by (apply Z.pow_le_mono_r; lia).
    assert (m1 = Z.pos m) by (unfold m1; rewrite Hn; apply Z.div_1_r). lia. }
  destruct (shr_fexp_spec p2 (e + n) loc_Exact) as (mrs2 & Hshr2 & Hm3 & _).
  { fold dg2. destruct (Z_le_gt_dec dg 53).
    - assert (n = 0) by (unfold n; lia). specialize (Hdg2_dg H). lia.
    - assert (n = dg - 53) by (unfold n; lia). specialize (Hdg2_lo ltac:(lia)). lia. }
  fold dg2 in Hshr2, Hm3. rewrite Hshr2.
  set (n' := Z.max (dg2 - 53) 0) in *.
  assert (Hn' : n' = 0 \/ (n' = 1 /\ Z.pos p2 = 2 ^ 53)).
  { unfold n'. destruct (Z_le_gt_dec dg2 53); [left; lia|right].
    assert (dg2 = 54) by lia. split; [lia|].
    replace (dg2 - 1) with 53 in Hlo2 by lia. lia. }
  assert (Hm3val : shr_m mrs2 * 2 ^ n' = Z.pos p2).
  { rewrite Hm3. destruct Hn' as [-> | [-> ->]]; [cbn; rewrite Z.div_1_r; lia|].
    reflexivity. }
  assert (Hm3pos : 0 < shr_m mrs2).
  { destruct Hn' as [Hz | [Hz Hp]]; rewrite Hz in Hm3val; [cbn in Hm3val; lia|].
    rewrite Hp in Hm3val. change (2 ^ 1) with 2 in Hm3val.
    change (2 ^ 53) with 9007199254740992 in Hm3val. lia. }
  destruct (shr_m mrs2) as [|m3|m3] eqn:Hm3e; try lia.
  rewrite (proj2 (Z.leb_le _ _)) by lia.
  exists m3, (e + n + n'), (Z.pos p2).
  split; [reflexivity|]. split; [exact Hm2|]. split.
  { intros Hl Hmod. apply Hm2ex. apply Hex1; assumption. }
  split.
  { rewrite <- Hm3val. symmetry. apply F2Q_shift. lia. }
  split; [lia|].
  pose proof (digits2_pos_bounds m3) as [Hlo3 Hhi3].
  assert (Hm3lt : Z.pos m3 < 2 ^ 53).
  { destruct Hn' as [Hz | [Hz Hp]]; rewrite Hz in Hm3val.
    - cbn in Hm3val. destruct (Z_le_gt_dec dg2 53) as [Hle|Hgt].
      + assert (2 ^ dg2 <= 2 ^ 53) by (apply Z.pow_le_mono_r; lia). lia.
      + unfold n' in Hz. lia.
    - rewrite Hp in Hm3val. change (2 ^ 1) with 2 in Hm3val.
      change (2 ^ 53) with 9007199254740992 in *. lia. }
  split.
  { destruct (Z_le_gt_dec (Z.pos (digits2_pos m3)) 53); [assumption|].
    assert (2 ^ 53 <= 2 ^ (Z.pos (digits2_pos m3) - 1))
      by (apply Z.pow_le_mono_r; lia). lia. }
  intros Hdg. apply digits2_pos_unique. split; [|exact Hm3lt].
  change (53 - 1) with 52.
  destruct Hn' as [Hz | [Hz Hp]]; rewrite Hz in Hm3val.
  - cbn in Hm3val. destruct Hm1_lo as [_ Hm1_lo]. specialize (Hm1_lo Hdg). lia.
  - rewrite Hp in Hm3val. change (2 ^ 1) with 2 in Hm3val.
    change (2 ^ 53) with 9007199254740992 in *.
    change (2 ^ 52) with 4503599627370496. lia.
Qed.

Lemma Pos_iter_xO (p d : positive) :
  Z.pos (Pos.iter xO p d) = Z.pos p * 2 ^ Z.pos d.
Proof.
  induction d as [|d IH] using Pos.peano_ind.
  - cbn. lia.
  - rewrite Pos.iter_succ, Pos2Z.inj_xO, IH, Pos2Z.inj_succ, Z.pow_succ_r by lia.
    lia.
Qed.

Lemma valid_binary_53 (m : positive) (e : Z) :
  Z.pos (digits2_pos m) = 53 -> -1074 <= e <= 971 ->
  valid_binary (S754_finite false m e) = true.
Proof.
  intros Hd He.
  unfold SpecFloat.valid_binary, bounded, canonical_mantissa, fexp, SpecFloat.emin.
  change FloatOps.prec with 53. change FloatOps.emax with 1024.
  rewrite Hd. apply andb_true_intro. split.
  - apply Z.eqb_eq. lia.
  - apply Z.leb_le. lia.
Qed.

Lemma Prim2SF_float_of_Z_0 : Prim2SF (float_of_Z 0) = S754_zero false.
Proof. reflexivity. Qed.

Lemma F2Q_pos m e : 0 < m -> (0 < F2Q m e)%Q.
Proof.
  intros Hm. unfold F2Q. apply Qmult_lt_0_compat; [|apply bpow_pos].
  change 0%Q with (inject_Z 0). rewrite <- Zlt_Qlt. exact Hm.
Qed.

(** A positive integer below [2^53] is a float, with a 53-bit mantissa. *)
Lemma Prim2SF_float_of_Z (z : Z) :
  0 < z < 2 ^ 53 ->
  exists (m : positive) (e : Z),
    Prim2SF (float_of_Z z) = S754_finite false m e
    /\ (F2Q (Z.pos m) e == inject_Z z)%Q
    /\ Z.pos (digits2_pos m) = 53
    /\ -52 <= e <= 1.
Proof.
  intros [Hz0 Hz]. destruct z as [|p|p]; try lia.
  unfold float_of_Z. cbn [binary_normalize]. unfold binary_round.
  change FloatOps.prec with 53. change FloatOps.emax with 1024.
  pose proof (digits2_pos_bounds p) as [Hlo Hhi].
  set (dg := Z.pos (digits2_pos p)) in *.
  assert (Hdg : 1 <= dg <= 53).
  { split; [unfold dg; lia|].
    destruct (Z_le_gt_dec dg 53); [assumption|].
    assert (2 ^ 53 <= 2 ^ (dg - 1)) by (apply Z.pow_le_mono_r; lia). lia. }
  assert (Hfexp : fexp 53 1024 (dg + 0) = dg - 53)
    by (unfold fexp, SpecFloat.emin; lia).
  rewrite Hfexp.
  assert (Halign : exists mz,
            shl_align p 0 (dg - 53) = (mz, dg - 53)
            /\ Z.pos mz = Z.pos p * 2 ^ (53 - dg)).
  { unfold shl_align. rewrite Z.sub_0_r.
    destruct (dg - 53) as [|q|q] eqn:Hq; try lia.
    - exists p. split; [reflexivity|].
      replace (53 - dg) with 0 by lia. cbn. lia.
    - exists (Pos.iter xO p q). split; [reflexivity|].
      rewrite Pos_iter_xO. f_equal. f_equal. lia. }
  destruct Halign as (mz & -> & Hmz).
  assert (Hdgz : Z.pos (digits2_pos mz) = 53).
  { apply digits2_pos_unique. rewrite Hmz. change (53 - 1) with 52. split.
    - replace 52 with ((dg - 1) + (53 - dg)) by lia.
      rewrite Z.pow_add_r by lia. apply Z.mul_le_mono_nonneg_r; [lia|exact Hlo].
    - replace 53 with (dg + (53 - dg)) at 2 by lia.
      rewrite Z.pow_add_r by lia. apply Z.mul_lt_mono_pos_r; [lia|exact Hhi]. }
  destruct (binary_round_aux_faithful mz (dg - 53) loc_Exact)
    as (m3 & e3 & m2 & Hres & Hm2 & Hm2ex & Hval & He3 & _ & Hd3).
  { rewrite Hdgz. lia. }
  { rewrite Hdgz. lia. }
  rewrite Hdgz in *. change (Z.max (53 - 53) 0) with 0 in *.
  change (2 ^ 0) with 1 in *. rewrite Z.div_1_r in *.
  specialize (Hm2ex eq_refl (Z.mod_1_r _)). subst m2.
  specialize (Hd3 ltac:(lia)).
  rewrite Hres. exists m3, e3.
  split; [apply Prim2SF_SF2Prim, valid_binary_53; [exact Hd3|lia]|].
  split; [|split; [exact Hd3|lia]].
  rewrite Hval, Z.add_0_r, Hmz.
  rewrite F2Q_shift by lia.
  replace (dg - 53 + (53 - dg)) with 0 by lia.
  unfold F2Q. rewrite bpow_0. ring.
Qed.

Lemma bpow_opp k : (bpow (- k) == / bpow k)%Q.
Proof. apply Qpower_opp. Qed.

Lemma floor_float_F2Q (x : float) (m : positive) (e : Z) :
  Prim2SF x = S754_finite false m e ->
  exists f,
    floor_float x = Some f
    /\ (inject_Z f <= F2Q (Z.pos m) e)%Q
    /\ (F2Q (Z.pos m) e < inject_Z f + 1)%Q.
Proof.
  intros Hx. unfold floor_float. rewrite Hx.
  destruct (0 <=? e) eqn:He.
  - apply Z.leb_le in He. eexists. split; [reflexivity|].
    unfold F2Q. rewrite (bpow_of_nonneg e He), <- inject_Z_mult. lra.
  - apply Z.leb_gt in He. eexists. split; [reflexivity|].
    set (k := - e). assert (Hk : 0 <= k) by (unfold k; lia).
    assert (Hpow : 0 < 2 ^ k) by (apply Z.pow_pos_nonneg; lia).
    pose proof (Z.div_mod (Z.pos m) (2 ^ k) ltac:(lia)) as Hdm.
    pose proof (Z.mod_pos_bound (Z.pos m) (2 ^ k) Hpow) as Hr.
    set (f := Z.pos m / 2 ^ k) in *. set (r := Z.pos m mod 2 ^ k) in *.
    assert (Hval : (F2Q (Z.pos m) e * inject_Z (2 ^ k) == inject_Z (Z.pos m))%Q).
    { unfold F2Q. replace e with (- k) by (unfold k; lia).
      rewrite bpow_opp, (bpow_of_nonneg k Hk). field.
      change 0%Q with (inject_Z 0). rewrite inject_Z_injective. lia. }
    assert (HpowQ : (0 < inject_Z (2 ^ k))%Q).
    { change 0%Q with (inject_Z 0). rewrite <- Zlt_Qlt. exact Hpow. }
    assert (Hlo : (inject_Z f * inject_Z (2 ^ k) <= inject_Z (Z.pos m))%Q).
    { rewrite <- inject_Z_mult, <- Zle_Qle. lia. }
    assert (Hhi : (inject_Z (Z.pos m) < (inject_Z f + 1) * inject_Z (2 ^ k))%Q).
    { change 1%Q with (inject_Z 1).
      rewrite <- inject_Z_plus, <- inject_Z_mult, <- Zlt_Qlt. nia. }
    set (V := F2Q (Z.pos m) e) in *. set (W := inject_Z (2 ^ k)) in *.
    set (F := inject_Z f) in *.
    split; [|].
    + apply Qnot_lt_le. intros Hc.
      assert (V * W < F * W)%Q by (apply Qmult_lt_compat_r; assumption). lra.
    + apply Qnot_le_lt. intros Hc.
      assert ((F + 1) * W <= V * W)%Q
        by (apply Qmult_le_compat_r; [assumption|lra]). lra.
Qed.

Lemma floor_float_between (x : float) (m : positive) (e : Z) (L U : Z) :
  Prim2SF x = S754_finite false m e ->
  (inject_Z L <= F2Q (Z.pos m) e)%Q ->
  (F2Q (Z.pos m) e < inject_Z U + 1)%Q ->
  exists f, floor_float x = Some f /\ L <= f <= U.
Proof.
  intros Hx HL HU.
  destruct (floor_float_F2Q x m e Hx) as (f & Hf & Hlo & Hhi).
  exists f. split; [exact Hf|].
  assert (H1 : (inject_Z L < inject_Z (f + 1))%Q)
    by (rewrite inject_Z_plus; change (inject_Z 1) with 1%Q; lra).
  assert (H2 : (inject_Z f < inject_Z (U + 1))%Q)
    by (rewrite inject_Z_plus; change (inject_Z 1) with 1%Q; lra).
  rewrite <- Zlt_Qlt in H1, H2. lia.
Qed.

Lemma floor_float_of_Z (z : Z) :
  0 <= z < 2 ^ 53 -> floor_float (float_of_Z z) = Some z.
Proof.
  intros [Hz0 Hz]. destruct (Z.eq_dec z 0) as [->|Hne]; [reflexivity|].
  destruct (Prim2SF_float_of_Z z ltac:(lia)) as (m & e & Hx & Hval & _).
  destruct (floor_float_between (float_of_Z z) m e z z Hx) as (f & Hf & Hb).
  - rewrite Hval. lra.
  - rewrite Hval. lra.
  - rewrite Hf. f_equal. lia.
Qed.

Lemma F2Q_mult x e y f : (F2Q x e * F2Q y f == F2Q (x * y) (e + f))%Q.
Proof. unfold F2Q. rewrite bpow_add, inject_Z_mult. ring. Qed.

Lemma F2Q_le x y e : x <= y -> (F2Q x e <= F2Q y e)%Q.
Proof.
  intros H. unfold F2Q. apply Qmult_le_compat_r; [|apply Qlt_le_weak, bpow_pos].
  rewrite <- Zle_Qle. exact H.
Qed.

Lemma F2Q_lt x y e : x < y -> (F2Q x e < F2Q y e)%Q.
Proof.
  intros H. unfold F2Q. apply Qmult_lt_compat_r; [apply bpow_pos|].
  rewrite <- Zlt_Qlt. exact H.
Qed.

Lemma Prim2SF_div_integers (a b : Z) :
  0 < a < 2 ^ 53 -> 0 < b < 2 ^ 53 ->
  exists (ms : positive) (es : Z),
    Prim2SF (float_of_Z a / float_of_Z b) = S754_finite false ms es
    /\ Z.pos (digits2_pos ms) = 53
    /\ -107 <= es <= 2
    /\ (inject_Z a * (1 - eps52) <= F2Q (Z.pos ms) es * inject_Z b)%Q
    /\ (F2Q (Z.pos ms) es * inject_Z b <= inject_Z a * (1 + eps52))%Q.
Proof.
  intros Ha Hb.
  destruct (Prim2SF_float_of_Z a Ha) as (ma & ea & Hfa & Hva & Hda & Hea).
  destruct (Prim2SF_float_of_Z b Hb) as (mb & eb & Hfb & Hvb & Hdb & Heb).
  rewrite FloatAxioms.div_spec, Hfa, Hfb. unfold SF64div. cbn [SFdiv xorb].
  change FloatOps.prec with 53. change FloatOps.emax with 1024.
  pose proof (digits2_pos_bounds ma) as [Hlo_a Hhi_a].
  pose proof (digits2_pos_bounds mb) as [Hlo_b Hhi_b].
  rewrite Hda in Hlo_a, Hhi_a. rewrite Hdb in Hlo_b, Hhi_b.
  change (53 - 1) with 52 in *.
  set (e' := ea - eb - 53).
  set (q := (Z.pos ma * 2 ^ 53) / Z.pos mb).
  set (r := (Z.pos ma * 2 ^ 53) mod Z.pos mb).
  assert (Hcore : SFdiv_core_binary 53 1024 (Z.pos ma) ea (Z.pos mb) eb
                  = (q, e', new_location (Z.pos mb) r)).
  { unfold SFdiv_core_binary. cbn [Zdigits2]. rewrite Hda, Hdb.
    replace (Z.min (fexp 53 1024 (53 + ea - (53 + eb))) (ea - eb)) with e'
      by (unfold fexp, SpecFloat.emin, e'; lia).
    replace (ea - eb - e') with 53 by (unfold e'; lia).
    rewrite Z.shiftl_mul_pow2 by lia.
    unfold q, r, Z.div, Z.modulo.
    destruct (Z.div_eucl (Z.pos ma * 2 ^ 53) (Z.pos mb)); reflexivity. }
  rewrite Hcore.
  assert (Hq : 2 ^ 52 <= q < 2 ^ 54).
  { unfold q. split.
    - apply Z.div_le_lower_bound; [lia|].
      change (2 ^ 52) with 4503599627370496 in *.
      change (2 ^ 53) with 9007199254740992 in *. nia.
    - apply Z.div_lt_upper_bound; [lia|].
      change (2 ^ 52) with 4503599627370496 in *.
      change (2 ^ 53) with 9007199254740992 in *.
      change (2 ^ 54) with 18014398509481984. nia. }
  assert (Hqr : q * Z.pos mb <= Z.pos ma * 2 ^ 53 < (q + 1) * Z.pos mb).
  { pose proof (Z.div_mod (Z.pos ma * 2 ^ 53) (Z.pos mb) ltac:(lia)) as Hdm.
    pose proof (Z.mod_pos_bound (Z.pos ma * 2 ^ 53) (Z.pos mb) ltac:(lia)) as Hr.
    fold q in Hdm. fold r in Hdm, Hr. nia. }
  destruct q as [|pq|pq] eqn:Hpq; try lia.
  pose proof (digits2_pos_bounds pq) as [Hlo_q Hhi_q].
  set (dgq := Z.pos (digits2_pos pq)) in *.
  assert (Hdgq : 53 <= dgq <= 54).
  { split.
    - destruct (Z_le_gt_dec 53 dgq); [assumption|].
      assert (2 ^ dgq <= 2 ^ 52) by (apply Z.pow_le_mono_r; lia). lia.
    - destruct (Z_le_gt_dec dgq 54); [assumption|].
      assert (2 ^ 54 <= 2 ^ (dgq - 1)) by (apply Z.pow_le_mono_r; lia). lia. }
  destruct (binary_round_aux_faithful pq e' (new_location (Z.pos mb) r))
    as (m3 & e3 & m2 & Hres & Hm2 & _ & Hval & He3 & _ & Hd3).
  { fold dgq. unfold e'. lia. }
  { fold dgq. unfold e'. lia. }
  fold dgq in Hm2, Hval, He3, Hd3.
  set (n := Z.max (dgq - 53) 0) in *.
  assert (Hndef : n = Z.max (dgq - 53) 0) by reflexivity. clearbody n.
  set (m1 := Z.pos pq / 2 ^ n) in *.
  exists m3, e3. split; [exact Hres|]. split; [apply Hd3; lia|].
  split; [unfold e' in *; lia|].
  (* the value *)
  assert (Hn : n = 0 \/ n = 1) by lia.
  assert (Hm1 : m1 * 2 ^ n <= Z.pos pq < (m1 + 1) * 2 ^ n /\ 2 ^ 52 <= m1).
  { unfold m1. destruct Hn as [Hn | Hn]; rewrite Hn.
    - change (2 ^ 0) with 1. rewrite Z.div_1_r. lia.
    - change (2 ^ 1) with 2.
      pose proof (Z.div_mod (Z.pos pq) 2 ltac:(lia)).
      pose proof (Z.mod_pos_bound (Z.pos pq) 2 ltac:(lia)).
      assert (dgq = 54) by lia.
      replace (dgq - 1) with 53 in Hlo_q by lia.
      change (2 ^ 52) with 4503599627370496 in *.
      change (2 ^ 53) with 9007199254740992 in *. lia. }
  destruct Hm1 as [[Hm1lo Hm1hi] Hm1big].
  set (G := bpow (e' + n)).
  set (B := inject_Z b) in *. set (A := inject_Z a) in *.
  set (mu := inject_Z m1).
  assert (HX : (0 < G * B)%Q).
  { apply Qmult_lt_0_compat; [apply bpow_pos|].
    unfold B. change 0%Q with (inject_Z 0). rewrite <- Zlt_Qlt. lia. }
  assert (HloQ : (mu * (G * B) <= A)%Q).
  { unfold mu, G. rewrite <- Hva, <- Hvb.
    apply (Qle_trans _ (F2Q (m1 * 2 ^ n) e' * F2Q (Z.pos mb) eb)%Q).
    - rewrite F2Q_shift by lia. unfold F2Q. apply Qle_lteq. right. ring.
    - rewrite F2Q_mult.
      apply (Qle_trans _ (F2Q (Z.pos ma * 2 ^ 53) (e' + eb))).
      + apply F2Q_le. nia.
      + rewrite F2Q_shift by lia. replace (e' + eb + 53) with ea by (unfold e'; lia).
        apply Qle_refl. }
  assert (HhiQ : (A <= (mu + 1) * (G * B))%Q).
  { unfold mu, G. rewrite <- Hva, <- Hvb.
    apply (Qle_trans _ (F2Q ((m1 + 1) * 2 ^ n) e' * F2Q (Z.pos mb) eb)%Q).
    - rewrite F2Q_mult.
      apply (Qle_trans _ (F2Q (Z.pos ma * 2 ^ 53) (e' + eb))).
      + rewrite F2Q_shift by lia. replace (e' + eb + 53) with ea by (unfold e'; lia).
        apply Qle_refl.
      + apply F2Q_le. nia.
    - rewrite F2Q_shift by lia. unfold F2Q.
      rewrite inject_Z_plus. apply Qle_lteq. right. ring. }
  assert (Hmu : (4503599627370496 <= mu)%Q).
  { unfold mu. change 4503599627370496%Q with (inject_Z (2 ^ 52)).
    rewrite <- Zle_Qle. exact Hm1big. }
  assert (HS : (F2Q (Z.pos m3) e3 * B == mu * (G * B)
                \/ F2Q (Z.pos m3) e3 * B == (mu + 1) * (G * B))%Q).
  { rewrite Hval. unfold F2Q, mu, G.
    destruct Hm2 as [-> | ->]; [left; ring|right].
    rewrite inject_Z_plus. ring. }
  set (X := (G * B)%Q) in *. set (SB := (F2Q (Z.pos m3) e3 * B)%Q) in *.
  assert (HmuX : (4503599627370496 * X <= mu * X)%Q)
    by (apply Qmult_le_compat_r; lra).
  unfold eps52.
  destruct HS as [HS | HS]; rewrite HS; split; lra.
Qed.

Lemma faithful_relative (mu X A V : Q) :
  (4503599627370496 <= mu)%Q -> (0 < X)%Q ->
  (mu * X <= A)%Q -> (A <= (mu + 1) * X)%Q ->
  (V == mu * X \/ V == (mu + 1) * X)%Q ->
  (A * (1 - eps52) <= V)%Q /\ (V <= A * (1 + eps52))%Q.
Proof.
  intros Hmu HX Hlo Hhi HV.
  assert (HmuX : (4503599627370496 * X <= mu * X)%Q)
    by (apply Qmult_le_compat_r; lra).
  unfold eps52. destruct HV as [HV | HV]; rewrite HV; split; lra.
Qed.

Lemma Prim2SF_mul_integer (j : Z) (s : float) (ms : positive) (es : Z) :
  0 < j < 2 ^ 53 ->
  Prim2SF s = S754_finite false ms es ->
  Z.pos (digits2_pos ms) = 53 ->
  -107 <= es <= 2 ->
  exists (m3 : positive) (e3 : Z),
    Prim2SF (float_of_Z j * s) = S754_finite false m3 e3
    /\ (inject_Z j * F2Q (Z.pos ms) es * (1 - eps52) <= F2Q (Z.pos m3) e3)%Q
    /\ (F2Q (Z.pos m3) e3 <= inject_Z j * F2Q (Z.pos ms) es * (1 + eps52))%Q.
Proof.
  intros Hj Hs Hds Hes.
  destruct (Prim2SF_float_of_Z j Hj) as (mj & ej & Hfj & Hvj & Hdj & Hej).
  rewrite FloatAxioms.mul_spec, Hfj, Hs. unfold SF64mul. cbn [SFmul xorb].
  change FloatOps.prec with 53. change FloatOps.emax with 1024.
  pose proof (digits2_pos_bounds mj) as [Hlo_j Hhi_j].
  pose proof (digits2_pos_bounds ms) as [Hlo_s Hhi_s].
  rewrite Hdj in Hlo_j, Hhi_j. rewrite Hds in Hlo_s, Hhi_s.
  change (53 - 1) with 52 in *.
  pose proof (digits2_pos_bounds (mj * ms)) as [Hlo_p Hhi_p].
  set (dg := Z.pos (digits2_pos (mj * ms))) in *.
  rewrite Pos2Z.inj_mul in Hlo_p, Hhi_p.
  assert (Hprod : 2 ^ 104 <= Z.pos mj * Z.pos ms < 2 ^ 106).
  { change (2 ^ 52) with 4503599627370496 in *.
    change (2 ^ 53) with 9007199254740992 in *.
    change (2 ^ 104) with (4503599627370496 * 4503599627370496).
    change (2 ^ 106) with (9007199254740992 * 9007199254740992). nia. }
  assert (Hdg : 105 <= dg <= 106).
  { split.
    - destruct (Z_le_gt_dec 105 dg); [assumption|].
      assert (2 ^ dg <= 2 ^ 104) by (apply Z.pow_le_mono_r; lia). lia.
    - destruct (Z_le_gt_dec dg 106); [assumption|].
      assert (2 ^ 106 <= 2 ^ (dg - 1)) by (apply Z.pow_le_mono_r; lia). lia. }
  destruct (binary_round_aux_faithful (mj * ms) (ej + es) loc_Exact)
    as (m3 & e3 & m2 & Hres & Hm2 & _ & Hval & He3 & _).
  { fold dg. lia. }
  { fold dg. lia. }
  fold dg in Hm2, Hval, He3. rewrite Pos2Z.inj_mul in Hm2.
  replace (Z.max (dg - 53) 0) with (dg - 53) in * by lia.
  set (n := dg - 53) in *.
  set (m1 := Z.pos mj * Z.pos ms / 2 ^ n) in *.
  exists m3, e3. split; [exact Hres|].
  assert (Hpow : 0 < 2 ^ n) by (apply Z.pow_pos_nonneg; unfold n; lia).
  pose proof (Z.div_mod (Z.pos mj * Z.pos ms) (2 ^ n) ltac:(lia)) as Hdm.
  pose proof (Z.mod_pos_bound (Z.pos mj * Z.pos ms) (2 ^ n) Hpow) as Hr.
  fold m1 in Hdm.
  assert (Hm1big : 2 ^ 52 <= m1).
  { unfold m1. apply Z.div_le_lower_bound; [lia|].
    rewrite <- Z.pow_add_r by (unfold n; lia).
    replace (n + 52) with (dg - 1) by (unfold n; lia). exact Hlo_p. }
  apply (faithful_relative (inject_Z m1) (bpow (ej + es + n))).
  - change 4503599627370496%Q with (inject_Z (2 ^ 52)).
    rewrite <- Zle_Qle. exact Hm1big.
  - apply bpow_pos.
  - rewrite <- Hvj, F2Q_mult.
    apply (Qle_trans _ (F2Q (m1 * 2 ^ n) (ej + es))).
    + rewrite F2Q_shift by (unfold n; lia). apply Qle_refl.
    + apply F2Q_le. lia.
  - rewrite <- Hvj, F2Q_mult.
    apply (Qle_trans _ (F2Q ((m1 + 1) * 2 ^ n) (ej + es))).
    + apply F2Q_le. lia.
    + rewrite F2Q_shift by (unfold n; lia). unfold F2Q.
      rewrite inject_Z_plus. apply Qle_refl.
  - rewrite Hval. unfold F2Q. destruct Hm2 as [-> | ->]; [left; reflexivity|right].
    rewrite inject_Z_plus. reflexivity.
Qed.

Lemma add_float_of_Z_0 (x : float) (m : positive) (e : Z) :
  Prim2SF x = S754_finite false m e ->
  Prim2SF (x + float_of_Z 0) = S754_finite false m e.
Proof.
  intros Hx. rewrite FloatAxioms.add_spec, Hx, Prim2SF_float_of_Z_0. reflexivity.
Qed.

Lemma inject_Z_pos z : 0 < z -> (0 < inject_Z z)%Q.
Proof. intros H. change 0%Q with (inject_Z 0). rewrite <- Zlt_Qlt. exact H. Qed.

(** The [j]-th sample [j * step + 0.0], floored: the exact position
    [j * d / dv] rounded down, or one less when that position is an
    integer that the product just misses. *)
Lemma linspace_sample (d dv j : Z) :
  1 <= dv <= d ->
  3 * d * dv <= 2 ^ 52 ->
  0 <= j <= dv ->
  exists k,
    floor_float (float_of_Z j * (float_of_Z d / float_of_Z dv) + float_of_Z 0)
    = Some k
    /\ j * d / dv - 1 <= k <= j * d / dv
    /\ ((j * d) mod dv <> 0 -> k = j * d / dv)
    /\ (j = 0 -> k = 0).
Proof.
  intros Hdv Hbound Hj.
  assert (Hd53 : d < 2 ^ 53).
  { change (2 ^ 52) with 4503599627370496 in Hbound.
    change (2 ^ 53) with 9007199254740992. nia. }
  destruct (Prim2SF_div_integers d dv ltac:(lia) ltac:(lia))
    as (ms & es & Hstep & Hds & Hes & Hslo & Hshi).
  set (step := (float_of_Z d / float_of_Z dv)%float) in *.
  destruct (Z.eq_dec j 0) as [->|Hj0].
  - exists 0. split.
    + unfold floor_float.
      rewrite FloatAxioms.add_spec, FloatAxioms.mul_spec, Hstep, Prim2SF_float_of_Z_0. reflexivity.
    + rewrite Z.mul_0_l, Z.div_0_l, Z.mod_0_l by lia. lia.
  - destruct (Prim2SF_mul_integer j step ms es ltac:(lia) Hstep Hds Hes)
      as (m3 & e3 & Hmul & Hvlo & Hvhi).
    pose proof (add_float_of_Z_0 _ _ _ Hmul) as Hy.
    set (U := j * d / dv). set (r := (j * d) mod dv).
    pose proof (Z.div_mod (j * d) dv ltac:(lia)) as Hdm.
    pose proof (Z.mod_pos_bound (j * d) dv ltac:(lia)) as Hr.
    fold U in Hdm. fold r in Hdm, Hr.
    set (V := F2Q (Z.pos m3) e3) in *. set (S := F2Q (Z.pos ms) es) in *.
    set (A := inject_Z d) in *. set (B := inject_Z dv) in *.
    set (J := inject_Z j) in *.
    assert (HB : (0 < B)%Q) by (apply inject_Z_pos; lia).
    assert (HJ : (0 < J)%Q) by (apply inject_Z_pos; lia).
    set (N := inject_Z (j * d)).
    assert (HN : (N == J * A)%Q)
      by (unfold N, J, A; rewrite inject_Z_mult; reflexivity).
    assert (HNdm : (N == B * inject_Z U + inject_Z r)%Q).
    { unfold N, B. rewrite <- inject_Z_mult, <- inject_Z_plus.
      rewrite Hdm. reflexivity. }
    assert (HNbound : (3 * N <= 4503599627370496)%Q).
    { unfold N. change 3%Q with (inject_Z 3).
      change 4503599627370496%Q with (inject_Z (2 ^ 52)).
      rewrite <- inject_Z_mult, <- Zle_Qle. nia. }
    assert (HN0 : (0 <= N)%Q).
    { unfold N. change 0%Q with (inject_Z 0). rewrite <- Zle_Qle. nia. }
    (* W = J S B *)
    set (W := (J * (S * B))%Q).
    assert (HWlo : (N * (1 - eps52) <= W)%Q).
    { unfold W. rewrite HN.
      assert (Hre : ((J * A * (1 - eps52)) == (J * (A * (1 - eps52))))%Q) by ring.
      rewrite Hre; clear Hre.
      apply (proj2 (Qmult_le_l _ _ _ HJ)); assumption. }
    assert (HWhi : (W <= N * (1 + eps52))%Q).
    { unfold W. rewrite HN.
      assert (Hre : ((J * A * (1 + eps52)) == (J * (A * (1 + eps52))))%Q) by ring.
      rewrite Hre; clear Hre.
      apply (proj2 (Qmult_le_l _ _ _ HJ)); assumption. }
    assert (HVBlo : (W * (1 - eps52) <= V * B)%Q).
    { unfold W.
      assert (Hre : ((J * (S * B) * (1 - eps52)) == ((J * S * (1 - eps52)) * B))%Q) by ring.
      rewrite Hre; clear Hre.
      apply Qmult_le_compat_r; [assumption|lra]. }
    assert (HVBhi : (V * B <= W * (1 + eps52))%Q).
    { unfold W.
      assert (Hre : ((J * (S * B) * (1 + eps52)) == ((J * S * (1 + eps52)) * B))%Q) by ring.
      rewrite Hre; clear Hre.
      apply Qmult_le_compat_r; [assumption|lra]. }
    assert (Hr0 : (0 <= inject_Z r)%Q /\ (inject_Z r <= B - 1)%Q).
    { unfold B. change 0%Q with (inject_Z 0). change 1%Q with (inject_Z 1).
      unfold Qminus. rewrite <- inject_Z_opp, <- inject_Z_plus, <- !Zle_Qle. lia. }
    unfold eps52 in *.
    assert (HVup : (V * B < (inject_Z U + 1) * B)%Q) by lra.
    assert (HVlow : ((inject_Z U - 1) * B <= V * B)%Q) by lra.
    assert (HVu : (V < inject_Z U + 1)%Q) by (apply (Qmult_lt_r _ _ B HB); exact HVup).
    assert (HVl : (inject_Z (U - 1) <= V)%Q).
    { apply (Qmult_le_r _ _ B HB). unfold Zminus.
      rewrite inject_Z_plus, inject_Z_opp. exact HVlow. }
    destruct (floor_float_between _ m3 e3 (U - 1) U Hy HVl HVu) as (k & Hk & Hkb).
    exists k. split; [exact Hk|]. split; [lia|]. split; [|lia].
    intros Hrne.
    assert (Hr1 : (1 <= inject_Z r)%Q).
    { change 1%Q with (inject_Z 1). rewrite <- Zle_Qle. lia. }
    assert (HVlow' : (inject_Z U * B <= V * B)%Q) by lra.
    assert (HVl' : (inject_Z U <= V)%Q) by (apply (Qmult_le_r _ _ B HB); exact HVlow').
    destruct (floor_float_between _ m3 e3 U U Hy HVl' HVu) as (k' & Hk' & Hkb').
    rewrite Hk in Hk'. injection Hk' as ->. lia.
Qed.

Lemma lookup_map {A B} (f : A -> B) (l : list A) (i : nat) :
  map f l !! i = f <$> (l !! i).
Proof.
  revert i. induction l as [|x l IH]; intros [|i]; cbn; try reflexivity.
  apply IH.
Qed.

Lemma lookup_arange (num : Z) (i : nat) :
  (i < Z.to_nat num)%nat ->
  Numpy.arange num !! i = Some (float_of_Z (Z.of_nat i)).
Proof.
  intros Hi. unfold Numpy.arange. rewrite lookup_map.
  rewrite lookup_seq_lt by exact Hi. reflexivity.
Qed.

Lemma length_arange (num : Z) : length (Numpy.arange num) = Z.to_nat num.
Proof. unfold Numpy.arange. rewrite length_map, length_seq. reflexivity. Qed.

Lemma float_sub_0 (d : Z) :
  0 < d < 2 ^ 53 -> (float_of_Z d - float_of_Z 0)%float = float_of_Z d.
Proof.
  intros Hd. apply Prim2SF_inj.
  destruct (Prim2SF_float_of_Z d Hd) as (m & e & Hx & _).
  rewrite FloatAxioms.sub_spec, Hx, Prim2SF_float_of_Z_0. reflexivity.
Qed.

Lemma step_nonzero (d dv : Z) :
  0 < d < 2 ^ 53 -> 0 < dv < 2 ^ 53 ->
  (float_of_Z d / float_of_Z dv =? 0)%float = false.
Proof.
  intros Hd Hdv.
  destruct (Prim2SF_div_integers d dv Hd Hdv) as (ms & es & Hstep & _).
  rewrite FloatAxioms.eqb_spec, Hstep. reflexivity.
Qed.

(** With at least two samples over [0 .. d]: the samples before the
    conversion to integers. *)
Lemma linspace_float_lookup (d num : Z) (j : nat) :
  2 <= num -> 0 < d < 2 ^ 53 -> num - 1 < 2 ^ 53 ->
  (j < Z.to_nat num)%nat ->
  Numpy.linspace_float 0 d num !! j
  = Some (if bool_decide (Z.of_nat j = num - 1) then float_of_Z d
          else (float_of_Z (Z.of_nat j) * (float_of_Z d / float_of_Z (num - 1))
                + float_of_Z 0)%float).
Proof.
  intros Hnum Hd Hdv Hj. unfold Numpy.linspace_float.
  rewrite (proj2 (Z.ltb_lt 0 (num - 1))) by lia.
  rewrite (proj2 (Z.ltb_lt 1 num)) by lia.
  rewrite float_sub_0 by exact Hd.
  rewrite step_nonzero by lia.
  rewrite !length_map, length_arange.
  destruct (decide (Z.of_nat j = num - 1)) as [Hlast|Hlast].
  - rewrite bool_decide_eq_true_2 by exact Hlast.
    replace (Nat.pred (Z.to_nat num)) with j by lia.
    apply list_lookup_insert_eq. rewrite !length_map, length_arange. exact Hj.
  - rewrite bool_decide_eq_false_2 by exact Hlast.
    rewrite list_lookup_insert_ne by lia.
    rewrite !lookup_map, lookup_arange by exact Hj. reflexivity.
Qed.

Lemma astype_int_floor (x : float) (k : Z) :
  floor_float x = Some k -> 0 <= k < 2 ^ 53 -> Numpy.astype_int x = k.
Proof.
  intros Hk Hb. unfold Numpy.astype_int. rewrite Hk.
  assert (H53 : 2 ^ 53 < Numpy.INT64_MAX) by (vm_compute; reflexivity).
  assert (Hmin : Numpy.INT64_MIN < 0) by (vm_compute; reflexivity).
  rewrite (proj2 (Z.leb_le _ _)) by lia.
  rewrite (proj2 (Z.leb_le _ _)) by lia. reflexivity.
Qed.

(** [np.linspace(0, d, num, dtype=int)] for [2 <= num <= d]: [num] indices;
    the [j]-th one is the even position rounded down, or one less where
    that position is a whole number; the first is 0 and the last is [d]. *)
Lemma linspace_int_even (d num : Z) :
  2 <= num <= d ->
  3 * d * (num - 1) <= 2 ^ 52 ->
  exists idxs,
    Numpy.linspace_int 0 d num = Ok idxs
    /\ length idxs = Z.to_nat num
    /\ forall j, (j < Z.to_nat num)%nat ->
         exists k,
           idxs !! j = Some k
           /\ even_position d num j - 1 <= k <= even_position d num j
           /\ ((Z.of_nat j * d) mod (num - 1) <> 0 -> k = even_position d num j)
           /\ (j = 0%nat -> k = 0)
           /\ (Z.of_nat j = num - 1 -> k = d).
Proof.
  intros Hnum Hbound.
  assert (Hd53 : d < 2 ^ 53).
  { change (2 ^ 52) with 4503599627370496 in Hbound.
    change (2 ^ 53) with 9007199254740992. nia. }
  unfold Numpy.linspace_int. rewrite (proj2 (Z.ltb_ge num 0)) by lia.
  eexists. split; [reflexivity|]. split.
  - rewrite length_map. unfold Numpy.linspace_float.
    rewrite (proj2 (Z.ltb_lt 1 num)) by lia.
    rewrite length_insert, length_map.
    destruct (0 <? num - 1); [destruct (_ =? _)%float|];
      rewrite !length_map; apply length_arange.
  - intros j Hj. rewrite lookup_map.
    rewrite linspace_float_lookup by lia. cbn [fmap option_fmap option_map].
    unfold even_position.
    destruct (decide (Z.of_nat j = num - 1)) as [Hlast|Hlast].
    + rewrite bool_decide_eq_true_2 by exact Hlast.
      exists d. rewrite (astype_int_floor _ d) by (try apply floor_float_of_Z; lia).
      split; [reflexivity|]. rewrite Hlast.
      rewrite Z.mul_comm, Z.div_mul by lia. repeat split; lia.
    + rewrite bool_decide_eq_false_2 by exact Hlast.
      destruct (linspace_sample d (num - 1) (Z.of_nat j)) as (k & Hk & Hkb & Hkr & Hk0);
        [lia|lia|lia|].
      assert (Hkd : 0 <= k <= d).
      { split.
        - destruct (Z.eq_dec (Z.of_nat j) 0) as [Hz|Hz]; [rewrite (Hk0 Hz); lia|].
          destruct (Z.eq_dec ((Z.of_nat j * d) mod (num - 1)) 0) as [Hm|Hm].
          + assert (1 <= Z.of_nat j * d / (num - 1)).
            { apply Z.div_le_lower_bound; nia. }
            lia.
          + rewrite (Hkr Hm). apply Z.div_pos; nia.
        - assert (Z.of_nat j * d / (num - 1) <= d).
          { apply Z.div_le_upper_bound; [lia|]. nia. }
          lia. }
      exists k. rewrite (astype_int_floor _ k Hk) by lia.
      split; [reflexivity|]. split; [exact Hkb|]. split; [exact Hkr|].
      split; [intros ->; apply Hk0; reflexivity|]. intros; lia.
Qed.

End Binary64Facts.

(** ** [utils/data_processing.py] *)

Module DataProcessingFacts.

Import PyNum Settings ElevationService DataProcessing.
Import DataProcessingSpec.

Lemma py_float_raises_ValueError s e : py_float s = Raise e -> e = ValueError.
Proof.
  unfold py_float.
  destruct (drop_underscores _ _); [|congruence].
  destruct (take_sign _) as [neg body].
  destruct (parse_decimal _ _); [congruence|].
  destruct (parse_special _ _); congruence.
Qed.

Lemma height_from_height_tag_spec tags factor :
  height_from_height_tag tags factor
  = Ok ((fun h => (h * factor)%float) <$> parsed_height tags).
Proof.
  unfold height_from_height_tag, parsed_height, dict_in, dict_getitem.
  destruct (tags !! "height") as [s|] eqn:Hs; [|reflexivity].
  rewrite bool_decide_eq_true_2 by eauto.
  cbn [mbind result_bind option_bind].
  unfold list_getitem. rewrite <- head_lookup.
  destruct (head (PyStr.split s)) as [token|]; [|reflexivity].
  cbn [mbind result_bind option_bind].
  destruct (py_float token) as [h|e] eqn:Hf; [reflexivity|].
  apply py_float_raises_ValueError in Hf as ->. reflexivity.
Qed.

Lemma height_from_levels_spec tags factor :
  height_from_levels tags factor
  = Ok ((fun l => (l * float_of_Z 3 * factor)%float) <$> parsed_levels tags).
Proof.
  unfold height_from_levels, parsed_levels, dict_in, dict_getitem.
  destruct (tags !! "building:levels") as [s|] eqn:Hs; [|reflexivity].
  rewrite bool_decide_eq_true_2 by eauto.
  cbn [mbind result_bind option_bind].
  destruct (py_float s) as [h|e] eqn:Hf; [reflexivity|].
  apply py_float_raises_ValueError in Hf as ->. reflexivity.
Qed.

Lemma table_height_get tags :
  dict_get base_heights (dict_get tags "building" "yes") 8 = table_height tags.
Proof.
  unfold table_height, dict_get. destruct (tags !! "building") as [b|]; [|reflexivity].
  destruct (base_heights !! b); reflexivity.
Qed.

(** The height estimate never raises: it is the fallback chain. *)
Lemma estimate_building_height_chain tags factor :
  estimate_building_height tags factor = Ok (height_chain tags factor).
Proof.
  unfold estimate_building_height, height_chain.
  rewrite height_from_height_tag_spec.
  cbn [mbind result_bind].
  destruct (parsed_height tags) as [h|]; [reflexivity|].
  cbn [fmap option_fmap option_map].
  rewrite height_from_levels_spec.
  cbn [mbind result_bind].
  destruct (parsed_levels tags) as [l|]; [reflexivity|].
  cbn [fmap option_fmap option_map].
  rewrite table_height_get. reflexivity.
Qed.


Lemma py_or_first_tag k ks tags fallback :
  py_or (tags !! k) (default fallback (first_tag ks tags))
  = default fallback (first_tag (k :: ks) tags).
Proof.
  unfold py_or. cbn [first_tag].
  destruct (tags !! k) as [v|]; [|reflexivity].
  destruct (bool_decide (v = "")); reflexivity.
Qed.

Lemma point_type_of_first_tag tags :
  point_type_of tags = default "point" (first_tag point_type_keys tags).
Proof.
  unfold point_type_of, point_type_keys.
  rewrite <- !py_or_first_tag. reflexivity.
Qed.

(** C4.  A node that carries at least one tag (and the coordinates that
    bring it to [process_node]) yields one point whose type is resolved in
    the fixed order amenity, shop, tourism, historic, leisure: the value of
    the first of these keys that has one (an empty string counts as none),
    and the literal ["point"] when none has. *)
Theorem process_node_type_priority (e : element) (points : list point) :
  tags_of e <> ∅ ->
  is_Some (el_lon e) ->
  is_Some (el_lat e) ->
  exists p,
    process_node e points = Ok (points ++ [p])
    /\ point_type p = default "point" (first_tag point_type_keys (tags_of e)).
Proof.
  intros Htags [lon Hlon] [lat Hlat].
  unfold process_node. rewrite bool_decide_eq_false_2 by exact Htags.
  rewrite Hlon, Hlat. cbn [getitem mbind result_bind].
  eexists. split; [reflexivity|]. cbn [point_type].
  apply point_type_of_first_tag.
Qed.

(** The node [{amenity: "cafe", shop: "bakery"}] gets the type ["cafe"]. *)
Lemma process_node_type_priority_witness :
  exists p, process_node cafe_node [] = Ok ([] ++ [p]) /\ point_type p = "cafe".
Proof.
  apply (process_node_type_priority cafe_node []).
  - intros H. apply (f_equal (fun m => m !! "amenity")) in H.
    vm_compute in H. discriminate H.
  - eexists; reflexivity.
  - eexists; reflexivity.
Defined.

Lemma list_getitem_Z_last {A} (l : list A) (x : A) :
  last l = Some x -> list_getitem_Z l (-1) = Ok x.
Proof.
  intros Hlast. unfold list_getitem_Z.
  assert (Hlen : (0 < length l)%nat).
  { destruct l; [discriminate|simpl; lia]. }
  replace (0 <=? -1) with false by reflexivity.
  cbn [andb].
  rewrite (proj2 (Z.leb_le _ _)) by lia.
  replace (-1 <? 0) with true by reflexivity.
  cbn [andb]. unfold list_getitem.
  rewrite last_lookup in Hlast.
  replace (Z.to_nat (Z.of_nat (length l) + -1)) with (Nat.pred (length l)) by lia.
  rewrite Hlast. reflexivity.
Qed.

Lemma first_equals_last_ring_closed coords :
  coords <> [] -> first_equals_last coords = Ok (ring_closed coords).
Proof.
  destruct coords as [|c [|c' rest]]; [congruence|reflexivity|].
  intros _. unfold first_equals_last, ring_closed.
  destruct (last (c :: c' :: rest)) as [x|] eqn:Hlast.
  - rewrite (list_getitem_Z_last _ _ Hlast). reflexivity.
  - apply last_None in Hlast. discriminate.
Qed.

Lemma geometry_truthy_of_coords e :
  way_coords e <> [] -> geometry_truthy e = true.
Proof.
  unfold way_coords, geometry_truthy.
  destruct (el_geometry e) as [[|r g]|]; intros H;
    try reflexivity; exfalso; apply H; reflexivity.
Qed.

Lemma closed_way_ring_closed e :
  way_coords e <> [] -> closed_way e (way_coords e) = Ok (ring_closed (way_coords e)).
Proof.
  intros H. unfold closed_way. rewrite geometry_truthy_of_coords by exact H.
  apply first_equals_last_ring_closed, H.
Qed.

Lemma estimate_building_height_ok tags factor :
  exists h, estimate_building_height tags factor = Ok h.
Proof. eexists. apply estimate_building_height_chain. Qed.

(** C2.  A way whose derived coordinate sequence is not empty takes exactly
    one branch, in the fixed order of [classify_way]: with a [building] key
    (whether or not [highway] is there too) one building is appended and
    nothing else changes; else with a [highway] key one road; else, when
    the first coordinate equals the last, one polygon; else the four lists
    are returned as they were. *)
Theorem process_way_one_branch (e : element) (st : features) (factor : float) :
  way_coords e <> [] ->
  match classify_way e with
  | Building =>
      exists b,
        building_coordinates b = way_coords e
        /\ process_way e st factor
           = Ok {| buildings := buildings st ++ [b]; roads := roads st;
                   points := points st; polygons := polygons st |}
  | Road =>
      exists r,
        road_coordinates r = way_coords e
        /\ process_way e st factor
           = Ok {| buildings := buildings st; roads := roads st ++ [r];
                   points := points st; polygons := polygons st |}
  | Polygon =>
      exists p,
        polygon_coordinates p = way_coords e
        /\ process_way e st factor
           = Ok {| buildings := buildings st; roads := roads st;
                   points := points st; polygons := polygons st ++ [p] |}
  | Dropped => process_way e st factor = Ok st
  end.
Proof.
  intros Hcoords. unfold classify_way, process_way, dict_in.
  destruct (way_coords e) as [|c0 cs] eqn:Hc; [congruence|].
  rewrite <- Hc in *.
  destruct (bool_decide (is_Some (tags_of e !! "building"))).
  - unfold process_building.
    destruct (estimate_building_height_ok (tags_of e) factor) as [h ->].
    cbn [mbind result_bind]. eexists. split; [|reflexivity]. reflexivity.
  - destruct (bool_decide (is_Some (tags_of e !! "highway"))).
    + unfold process_road. eexists. split; [|reflexivity]. reflexivity.
    + rewrite closed_way_ring_closed by exact Hcoords.
      cbn [mbind result_bind].
      destruct (ring_closed (way_coords e)).
      * unfold process_polygon. eexists. split; [|reflexivity]. reflexivity.
      * reflexivity.
Qed.

(** A way tagged both [building] and [highway] becomes a building only. *)
Lemma process_way_one_branch_witness :
  exists b,
    building_coordinates b = [(2.0, 1.0); (2.5, 1.5)]%float
    /\ process_way both_tags_way no_features 1.0%float
       = Ok {| buildings := [b]; roads := []; points := []; polygons := [] |}.
Proof.
  apply (process_way_one_branch both_tags_way no_features 1.0%float).
  vm_compute. discriminate.
Defined.

Lemma process_element_way_without_nodes e st factor :
  way_without_nodes e -> process_element e st factor = Ok st.
Proof.
  intros [Hty Hn]. unfold process_element. rewrite Hty, Hn.
  reflexivity.
Qed.

Lemma process_elements_app l1 l2 st factor :
  process_elements (l1 ++ l2) st factor
  = st' ← process_elements l1 st factor; process_elements l2 st' factor.
Proof.
  revert st. induction l1 as [|e l1 IH]; intros st; [reflexivity|].
  cbn [app process_elements].
  destruct (process_element e st factor) as [st'|err]; cbn [mbind result_bind];
    [apply IH|reflexivity].
Qed.

Lemma process_elements_skip l1 e l2 st factor :
  way_without_nodes e ->
  process_elements (l1 ++ e :: l2) st factor
  = process_elements (l1 ++ l2) st factor.
Proof.
  intros He. rewrite !process_elements_app.
  destruct (process_elements l1 st factor) as [st'|err]; cbn [mbind result_bind];
    [|reflexivity].
  cbn [process_elements]. rewrite (process_element_way_without_nodes _ _ _ He).
  reflexivity.
Qed.

Lemma list_slice_to_short {A} (l : list A) (k : Z) :
  Z.of_nat (length l) <= k -> list_slice_to l k = l.
Proof.
  intros H. unfold list_slice_to.
  rewrite (proj2 (Z.leb_le 0 k)) by lia.
  apply take_ge. lia.
Qed.

(** C10.  A way element without a ["nodes"] key produces no feature,
    whatever its ["geometry"] holds: [process_element] returns the lists as
    they were, the pipeline's result is the same as without the element,
    and a response of this one element gives four empty lists. *)
Theorem way_without_nodes_dropped (e : element) :
  el_type e = Some "way" ->
  el_nodes e = None ->
  (forall st factor, process_element e st factor = Ok st)
  /\ (forall l1 l2 st factor,
        process_elements (l1 ++ e :: l2) st factor
        = process_elements (l1 ++ l2) st factor)
  /\ (forall cfg ask w factor,
        process_overpass_results cfg ask w
          (Some {| elements := Some [e] |}) factor
        = (Ok (Some {| features_of := no_features;
                       terrain_elevation := 0%float |}), w)).
Proof.
  intros Hty Hn. assert (He : way_without_nodes e) by (split; assumption).
  split; [|split].
  - intros. apply process_element_way_without_nodes, He.
  - intros. apply process_elements_skip, He.
  - intros. unfold process_overpass_results.
    cbn [mbind option_bind elements length].
    assert (Hrun : forall l, (l = [e] \/ l = []) ->
              process_elements l no_features factor = Ok no_features).
    { intros l [-> | ->]; [|reflexivity].
      cbn [process_elements].
      rewrite (process_element_way_without_nodes _ _ _ He). reflexivity. }
    rewrite Hrun; [reflexivity|].
    destruct (MAX_FEATURES cfg <? Z.of_nat 1) eqn:Hlt; [|left; reflexivity].
    apply Z.ltb_lt in Hlt. unfold list_slice_to.
    destruct (0 <=? MAX_FEATURES cfg) eqn:H0.
    + apply Z.leb_le in H0. right.
      replace (MAX_FEATURES cfg) with 0 by lia. reflexivity.
    + right. apply Z.leb_gt in H0. cbn [length].
      replace (Z.to_nat (Z.of_nat 1 + MAX_FEATURES cfg)) with 0%nat by lia.
      reflexivity.
Qed.

(** A closed building way with three ["geometry"] points and no ["nodes"]:
    it has coordinates, and it is dropped. *)
Lemma way_without_nodes_dropped_witness :
  way_coords geometry_only_way <> []
  /\ process_element geometry_only_way no_features 1.0%float = Ok no_features.
Proof.
  split; [vm_compute; discriminate|].
  apply (way_without_nodes_dropped geometry_only_way); reflexivity.
Defined.

End DataProcessingFacts.

(** ** [services/elevation_service.py] *)

Module ElevationFacts.

Import PyNum Settings ElevationService.
Import Binary64 Binary64Facts ElevationSpec.

Lemma scan_cache_length cfg cache coords : forall i,
  length (scan_cache cfg cache i coords).1.1 = length coords
  /\ length (scan_cache cfg cache i coords).1.2 = length (scan_cache cfg cache i coords).2.
Proof.
  induction coords as [|c rest IH]; intros i; [split; reflexivity|].
  cbn [scan_cache]. specialize (IH (S i)).
  destruct (scan_cache cfg cache (S i) rest) as [[es fs] idx].
  cbn [fst snd] in IH. destruct IH as [IH1 IH2].
  destruct (if ENABLE_CACHE cfg then cache !! cache_key c else None);
    cbn [fst snd length]; split; congruence.
Qed.

Lemma scan_cache_slots cfg cache coords : forall i,
  (scan_cache cfg cache i coords).1.1
  = map (fun c => default None
                    (if ENABLE_CACHE cfg then cache !! cache_key c else None))
        coords.
Proof.
  induction coords as [|c rest IH]; intros i; [reflexivity|].
  cbn [scan_cache map]. specialize (IH (S i)).
  destruct (scan_cache cfg cache (S i) rest) as [[es fs] idx].
  cbn [fst snd] in IH. rewrite <- IH.
  destruct (if ENABLE_CACHE cfg then cache !! cache_key c else None); reflexivity.
Qed.

Lemma store_results_length cfg fs idx rs : forall i es cache,
  length (store_results cfg fs idx i rs es cache).1.2 = length es.
Proof.
  induction rs as [|r rs IH]; intros i es cache; [reflexivity|].
  cbn [store_results]. destruct r as [|e]; [reflexivity|].
  destruct (idx !! i) as [q|]; [|reflexivity].
  destruct (bool_decide (q < length es)%nat); [|reflexivity].
  destruct (ENABLE_CACHE cfg).
  - destruct (fs !! i); [|cbn; apply length_insert].
    rewrite IH. apply length_insert.
  - rewrite IH. apply length_insert.
Qed.

Lemma fetch_length cfg ask fs idx es w :
  length (fetch cfg ask fs idx es w).1 = length es.
Proof.
  unfold fetch. cbn [elevation_cache posted].
  destruct (ask _) as [f|rs]; cbn [fst]; [apply length_map|].
  pose proof (store_results_length cfg fs idx rs 0 es (elevation_cache w)) as H.
  destruct (store_results cfg fs idx 0 rs es (elevation_cache w)) as [[r es'] cache'].
  cbn [fst snd] in H. destruct r; cbn [fst]; [|rewrite length_map]; exact H.
Qed.

Lemma fetch_fails cfg ask fs idx es w :
  request_fails ask ->
  (fetch cfg ask fs idx es w).1 = map none_to_zero es.
Proof.
  intros Hfail. unfold fetch.
  destruct (Hfail (map (fun c : coord => {| latitude := c.2; longitude := c.1 |}) fs))
    as [f ->]. reflexivity.
Qed.

Lemma none_to_zero_is_Some e : is_Some (none_to_zero e).
Proof. destruct e; cbn; eauto. Qed.

Lemma none_to_zero_idemp e : none_to_zero (none_to_zero e) = none_to_zero e.
Proof. destruct e; reflexivity. Qed.

Lemma get_elevation_data_sampled cfg ask w coords sampled :
  downsample cfg coords = Ok sampled ->
  get_elevation_data cfg ask w coords
  = (Ok (elevations_of cfg ask w sampled).1, (elevations_of cfg ask w sampled).2).
Proof.
  intros Hs. unfold get_elevation_data, elevations_of.
  destruct coords as [|c coords].
  - unfold downsample in Hs. cbn [length] in Hs.
    destruct (MAX_ELEVATION_POINTS cfg <? Z.of_nat 0) eqn:Hlt.
    + unfold sample_indices, Numpy.linspace_int in Hs.
      assert (Hneg : (MAX_ELEVATION_POINTS cfg <? 0) = true)
        by (apply Z.ltb_lt; apply Z.ltb_lt in Hlt; lia).
      rewrite Hneg in Hs. discriminate.
    + injection Hs as <-. reflexivity.
  - rewrite Hs.
    destruct (scan_cache cfg (elevation_cache w) 0 sampled) as [[es fs] idx].
    destruct fs; [reflexivity|].
    destruct (fetch _ _ _ _ _ _); reflexivity.
Qed.

Lemma elevations_of_length cfg ask w sampled :
  length (elevations_of cfg ask w sampled).1 = length sampled.
Proof.
  unfold elevations_of.
  pose proof (scan_cache_length cfg (elevation_cache w) sampled 0) as [H _].
  destruct (scan_cache cfg (elevation_cache w) 0 sampled) as [[es fs] idx].
  cbn [fst snd] in H.
  destruct fs as [|c fs].
  - cbn [fst]. rewrite length_map. exact H.
  - pose proof (fetch_length cfg ask (c :: fs) idx es w) as Hf.
    destruct (fetch _ _ _ _ _ _) as [es' w']. cbn [fst] in *.
    rewrite length_map. congruence.
Qed.

Lemma elevations_of_not_None cfg ask w sampled :
  Forall is_Some (elevations_of cfg ask w sampled).1.
Proof.
  unfold elevations_of.
  destruct (scan_cache cfg (elevation_cache w) 0 sampled) as [[es fs] idx].
  destruct (match fs with [] => _ | _ => _ end) as [es' w'].
  cbn [fst]. apply Forall_forall. intros e He.
  apply list_elem_of_fmap in He as (e0 & -> & _). apply none_to_zero_is_Some.
Qed.

Lemma elevations_of_fails cfg ask w sampled :
  request_fails ask ->
  (elevations_of cfg ask w sampled).1
  = map (fun c => none_to_zero (default None (cached cfg w c))) sampled.
Proof.
  intros Hfail. unfold elevations_of.
  pose proof (scan_cache_slots cfg (elevation_cache w) sampled 0) as Hslots.
  destruct (scan_cache cfg (elevation_cache w) 0 sampled) as [[es fs] idx].
  cbn [fst snd] in Hslots. subst es.
  destruct fs as [|c fs].
  - cbn [fst]. rewrite map_map. reflexivity.
  - pose proof (fetch_fails cfg ask (c :: fs) idx
                  (map (fun c0 => default None
                     (if ENABLE_CACHE cfg then elevation_cache w !! cache_key c0 else None))
                     sampled) w Hfail) as Hf.
    destruct (fetch _ _ _ _ _ _) as [es' w']. cbn [fst] in *. subst es'.
    rewrite !map_map. apply map_ext. intros c0. apply none_to_zero_idemp.
Qed.

Lemma store_results_scan cfg (w : world) g coords :
  forall i pre fs0 idx0 cache1,
    length pre = i ->
    length fs0 = length idx0 ->
    exists cache2,
      store_results cfg
        (fs0 ++ (scan_cache cfg (elevation_cache w) i coords).1.2)
        (idx0 ++ (scan_cache cfg (elevation_cache w) i coords).2)
        (length idx0)
        (map (fun l => Entry (Some (g l)))
           (map location_of (scan_cache cfg (elevation_cache w) i coords).1.2))
        (pre ++ (scan_cache cfg (elevation_cache w) i coords).1.1)
        cache1
      = (Ok (), pre ++ map (filled cfg w g) coords, cache2).
Proof.
  induction coords as [|c rest IH]; intros i pre fs0 idx0 cache1 Hpre Hlen.
  - cbn. eauto.
  - cbn [scan_cache].
    pose proof (scan_cache_length cfg (elevation_cache w) rest (S i)) as [Hl1 Hl2].
    specialize (IH (S i)).
    destruct (scan_cache cfg (elevation_cache w) (S i) rest) as [[es fs] idx].
    cbn [fst snd] in *.
    destruct (if ENABLE_CACHE cfg then elevation_cache w !! cache_key c else None)
      as [e|] eqn:Hc; cbn [fst snd map].
    + assert (Hf : filled cfg w g c = e)
        by (unfold filled, cached; rewrite Hc; reflexivity).
      rewrite Hf.
      destruct (IH (pre ++ [e]) fs0 idx0 cache1) as [cache2 H];
        [rewrite length_app; cbn; lia|assumption|].
      rewrite <- !app_assoc in H. cbn [app] in H. eauto.
    + assert (Hf : filled cfg w g c = g (location_of c))
        by (unfold filled, cached; rewrite Hc; reflexivity).
      rewrite Hf.
      cbn [store_results default from_option]. unfold id.
      rewrite lookup_app_r, Nat.sub_diag by lia. cbn [lookup list_lookup].
      rewrite bool_decide_eq_true_2 by (rewrite length_app; cbn; lia).
      assert (Hins : <[i := g (location_of c)]> (pre ++ None :: es)
                     = (pre ++ [g (location_of c)]) ++ es).
      { rewrite insert_app_r_alt by lia. rewrite Hpre, Nat.sub_diag.
        rewrite <- app_assoc. reflexivity. }
      rewrite Hins.
      assert (Hfs : (fs0 ++ c :: fs) !! length idx0 = Some c).
      { rewrite lookup_app_r by lia. rewrite Hlen, Nat.sub_diag. reflexivity. }
      rewrite Hfs.
      assert (Hstep : forall cache',
        exists cache2,
          store_results cfg (fs0 ++ c :: fs) (idx0 ++ i :: idx) (S (length idx0))
            (map (fun l => Entry (Some (g l))) (map location_of fs))
            ((pre ++ [g (location_of c)]) ++ es) cache'
          = (Ok (), pre ++ g (location_of c) :: map (filled cfg w g) rest, cache2)).
      { intros cache'.
        destruct (IH (pre ++ [g (location_of c)]) (fs0 ++ [c]) (idx0 ++ [i]) cache')
          as [cache2 H].
        - rewrite length_app; cbn; lia.
        - rewrite !length_app; cbn; lia.
        - rewrite <- !app_assoc in H. cbn [app] in H.
          rewrite length_app in H. cbn [length] in H.
          replace (length idx0 + 1)%nat with (S (length idx0)) in H by lia.
          rewrite <- app_assoc. cbn [app]. eauto. }
      destruct (ENABLE_CACHE cfg); apply Hstep.
Qed.

Lemma scan_cache_fetch_nil cfg (w : world) sampled :
  (scan_cache cfg (elevation_cache w) 0 sampled).1.2 = [] ->
  forall c, c ∈ sampled -> is_Some (cached cfg w c).
Proof.
  unfold cached. generalize 0%nat.
  induction sampled as [|c0 rest IH]; intros i Hnil c Hc; [inversion Hc|].
  cbn [scan_cache] in Hnil. specialize (IH (S i)).
  destruct (scan_cache cfg (elevation_cache w) (S i) rest) as [[es fs] idx].
  cbn [fst snd] in *.
  destruct (if ENABLE_CACHE cfg then elevation_cache w !! cache_key c0 else None)
    as [e|] eqn:Hc0; cbn [fst snd] in Hnil; [|discriminate].
  apply elem_of_cons in Hc as [->|Hc]; [rewrite Hc0; eauto|].
  apply IH; assumption.
Qed.

Lemma elevations_of_answers cfg ask w sampled g :
  answers ask g ->
  (elevations_of cfg ask w sampled).1
  = map (fun c => none_to_zero (filled cfg w g c)) sampled.
Proof.
  intros Hans. unfold elevations_of.
  pose proof (scan_cache_slots cfg (elevation_cache w) sampled 0) as Hslots.
  pose proof (scan_cache_fetch_nil cfg w sampled) as Hnil.
  pose proof (store_results_scan cfg w g sampled 0 [] [] []) as Hstore.
  destruct (scan_cache cfg (elevation_cache w) 0 sampled) as [[es fs] idx].
  cbn [fst snd app length] in *.
  destruct fs as [|c fs].
  - cbn [fst]. subst es. rewrite map_map. apply map_ext_in.
    intros c Hc. apply list_elem_of_In in Hc.
    destruct (Hnil eq_refl c Hc) as [e He].
    assert (Hf : filled cfg w g c = e) by (unfold filled; rewrite He; reflexivity).
    rewrite Hf.
    change (if ENABLE_CACHE cfg then elevation_cache w !! cache_key c else None)
      with (cached cfg w c).
    rewrite He. reflexivity.
  - unfold fetch. cbn [elevation_cache posted].
    rewrite Hans.
    destruct (Hstore (elevation_cache w) eq_refl eq_refl) as [cache2 H].
    change (map (fun c0 : coord => {| latitude := c0.2; longitude := c0.1 |}) (c :: fs))
      with (map location_of (c :: fs)).
    rewrite H. cbn [fst]. rewrite map_map. reflexivity.
Qed.

Lemma linspace_int_zero d : Numpy.linspace_int 0 d 0 = Ok [].
Proof. reflexivity. Qed.

Lemma linspace_int_one d :
  0 <= d < 2 ^ 53 -> Numpy.linspace_int 0 d 1 = Ok [0].
Proof.
  intros Hd. destruct (Z.eq_dec d 0) as [->|Hne]; [vm_compute; reflexivity|].
  unfold Numpy.linspace_int, Numpy.linspace_float.
  change (1 <? 0) with false. change (0 <? 1 - 1) with false.
  change (1 <? 1) with false. cbv iota.
  change (Numpy.arange 1) with [float_of_Z 0].
  cbn [map]. rewrite float_sub_0 by lia.
  destruct (Prim2SF_float_of_Z d) as (m & e & Hx & _); [lia|].
  assert (H : (float_of_Z 0 * float_of_Z d + float_of_Z 0)%float = float_of_Z 0).
  { apply Prim2SF_inj.
    rewrite FloatAxioms.add_spec, FloatAxioms.mul_spec, Hx, Prim2SF_float_of_Z_0. reflexivity. }
  rewrite H. reflexivity.
Qed.

Lemma list_getitem_Z_in_range {A} (l : list A) (i : Z) (x : A) :
  0 <= i -> l !! Z.to_nat i = Some x -> list_getitem_Z l i = Ok x.
Proof.
  intros Hi Hx. unfold list_getitem_Z. cbv zeta.
  assert (Hlt : (Z.to_nat i < length l)%nat) by (apply lookup_lt_Some with x; exact Hx).
  rewrite (proj2 (Z.leb_le 0 i)) by lia.
  rewrite (proj2 (Z.ltb_lt i _)) by lia. cbn [andb].
  unfold list_getitem. rewrite Hx. reflexivity.
Qed.

Lemma mapM_list_getitem_Z {A} (l : list A) (idxs : list Z) :
  (forall j k, idxs !! j = Some k -> 0 <= k < Z.of_nat (length l)) ->
  exists sampled,
    mapM (list_getitem_Z l) idxs = Ok sampled
    /\ length sampled = length idxs
    /\ forall j k, idxs !! j = Some k -> sampled !! j = l !! Z.to_nat k.
Proof.
  induction idxs as [|i idxs IH]; intros Hin.
  - exists []. repeat split. intros j k Hj. destruct j; discriminate Hj.
  - destruct IH as (rest & Hrest & Hlen & Hlook).
    { intros j k Hj. apply (Hin (S j)). exact Hj. }
    pose proof (Hin 0%nat i eq_refl) as Hi.
    destruct (lookup_lt_is_Some_2 l (Z.to_nat i)) as [x Hx]; [lia|].
    exists (x :: rest). split; [|split].
    + cbn [mapM]. rewrite (list_getitem_Z_in_range l i x) by (lia || exact Hx).
      cbn [mbind result_bind]. rewrite Hrest. reflexivity.
    + cbn [length]. rewrite Hlen. reflexivity.
    + intros [|j] k Hj.
      * injection Hj as <-. rewrite Hx. reflexivity.
      * apply Hlook. exact Hj.
Qed.

Lemma downsample_within cfg (coords : list coord) :
  Z.of_nat (length coords) <= MAX_ELEVATION_POINTS cfg ->
  downsample cfg coords = Ok coords.
Proof.
  intros H. unfold downsample. rewrite (proj2 (Z.ltb_ge _ _)) by lia. reflexivity.
Qed.

Lemma downsample_even cfg (coords : list coord) :
  2 <= MAX_ELEVATION_POINTS cfg < Z.of_nat (length coords) ->
  3 * (Z.of_nat (length coords) - 1) * (MAX_ELEVATION_POINTS cfg - 1) <= 2 ^ 52 ->
  exists indices sampled,
    sample_indices cfg (length coords) = Ok indices
    /\ downsample cfg coords = Ok sampled
    /\ length indices = Z.to_nat (MAX_ELEVATION_POINTS cfg)
    /\ length sampled = Z.to_nat (MAX_ELEVATION_POINTS cfg)
    /\ forall j, (j < Z.to_nat (MAX_ELEVATION_POINTS cfg))%nat ->
         exists k,
           indices !! j = Some k
           /\ sampled !! j = coords !! Z.to_nat k
           /\ 0 <= k < Z.of_nat (length coords)
           /\ even_position (Z.of_nat (length coords) - 1) (MAX_ELEVATION_POINTS cfg) j - 1
              <= k
              <= even_position (Z.of_nat (length coords) - 1) (MAX_ELEVATION_POINTS cfg) j
           /\ ((Z.of_nat j * (Z.of_nat (length coords) - 1))
                 mod (MAX_ELEVATION_POINTS cfg - 1) <> 0 ->
               k = even_position (Z.of_nat (length coords) - 1)
                     (MAX_ELEVATION_POINTS cfg) j)
           /\ (j = 0%nat -> k = 0)
           /\ (Z.of_nat j = MAX_ELEVATION_POINTS cfg - 1 ->
               k = Z.of_nat (length coords) - 1).
Proof.
  intros Hnum Hbound.
  set (n := Z.of_nat (length coords)) in *.
  set (num := MAX_ELEVATION_POINTS cfg) in *.
  destruct (linspace_int_even (n - 1) num) as (idxs & Hidx & Hlen & Hj);
    [lia|exact Hbound|].
  assert (Hrange : forall j k, idxs !! j = Some k -> 0 <= k < n).
  { intros j k Hk.
    assert (Hjn : (j < Z.to_nat num)%nat).
    { rewrite <- Hlen. apply lookup_lt_Some with k. exact Hk. }
    destruct (Hj j Hjn) as (k' & Hk' & Hb & Hr & H0 & Hl).
    rewrite Hk in Hk'. injection Hk' as <-.
    unfold even_position in *.
    assert (Hup : Z.of_nat j * (n - 1) / (num - 1) <= n - 1).
    { apply Z.div_le_upper_bound; [lia|]. nia. }
    split; [|lia].
    destruct (Z.eq_dec (Z.of_nat j) 0) as [Hz|Hz].
    { rewrite H0 by lia. lia. }
    destruct (Z.eq_dec ((Z.of_nat j * (n - 1)) mod (num - 1)) 0) as [Hm|Hm].
    - assert (1 <= Z.of_nat j * (n - 1) / (num - 1)).
      { apply Z.div_le_lower_bound; nia. }
      lia.
    - rewrite (Hr Hm). apply Z.div_pos; nia. }
  destruct (mapM_list_getitem_Z coords idxs Hrange) as (sampled & Hs & Hslen & Hslook).
  exists idxs, sampled. split; [exact Hidx|]. split.
  { unfold downsample. fold n. fold num. rewrite (proj2 (Z.ltb_lt _ _)) by lia.
    unfold sample_indices in *. fold n num. rewrite Hidx.
    cbn [mbind result_bind]. exact Hs. }
  split; [exact Hlen|]. split; [rewrite Hslen; exact Hlen|].
  intros j Hjn. destruct (Hj j Hjn) as (k & Hk & Hb & Hr & H0 & Hl).
  exists k. split; [exact Hk|]. split; [apply Hslook; exact Hk|].
  split; [apply (Hrange j); exact Hk|]. repeat split; try tauto; lia.
Qed.

Lemma downsample_total cfg (coords : list coord) :
  0 <= MAX_ELEVATION_POINTS cfg ->
  (MAX_ELEVATION_POINTS cfg < Z.of_nat (length coords) ->
   3 * Z.of_nat (length coords) * MAX_ELEVATION_POINTS cfg <= 2 ^ 52) ->
  exists sampled,
    downsample cfg coords = Ok sampled
    /\ length sampled
       = Z.to_nat (Z.min (Z.of_nat (length coords)) (MAX_ELEVATION_POINTS cfg))
    /\ (Z.of_nat (length coords) <= MAX_ELEVATION_POINTS cfg -> sampled = coords).
Proof.
  intros Hnum Hbound.
  destruct (Z_lt_le_dec (MAX_ELEVATION_POINTS cfg) (Z.of_nat (length coords)))
    as [Hlt|Hle].
  - specialize (Hbound Hlt).
    change (2 ^ 52) with 4503599627370496 in Hbound.
    destruct (Z.eq_dec (MAX_ELEVATION_POINTS cfg) 0) as [H0|H0];
      [|destruct (Z.eq_dec (MAX_ELEVATION_POINTS cfg) 1) as [H1|H1]].
    + exists []. unfold downsample, sample_indices.
      rewrite (proj2 (Z.ltb_lt _ _)) by lia. rewrite H0, linspace_int_zero.
      split; [reflexivity|]. split; [|lia].
      rewrite Z.min_r by lia. reflexivity.
    + destruct coords as [|c coords]; [cbn [length] in Hlt; lia|].
      exists [c]. unfold downsample, sample_indices.
      rewrite (proj2 (Z.ltb_lt _ _)) by lia. rewrite H1.
      rewrite linspace_int_one
        by (change (2 ^ 53) with 9007199254740992; cbn [length] in *; lia).
      split; [reflexivity|]. split; [|lia].
      rewrite Z.min_r by lia. reflexivity.
    + destruct (downsample_even cfg coords) as (idxs & sampled & _ & Hs & _ & Hlen & _).
      { lia. }
      { change (2 ^ 52) with 4503599627370496. nia. }
      exists sampled. split; [exact Hs|]. split; [|lia].
      rewrite Z.min_r by lia. exact Hlen.
  - exists coords. split; [apply downsample_within; exact Hle|].
    split; [|reflexivity]. rewrite Z.min_l by lia. rewrite Nat2Z.id. reflexivity.
Qed.

Lemma scan_cache_uncached cfg (w : world) coords : forall i,
  (forall c, c ∈ coords -> cached cfg w c = None) ->
  (scan_cache cfg (elevation_cache w) i coords).1.2 = coords.
Proof.
  induction coords as [|c rest IH]; intros i Hun; [reflexivity|].
  cbn [scan_cache]. specialize (IH (S i)).
  destruct (scan_cache cfg (elevation_cache w) (S i) rest) as [[es fs] idx].
  cbn [fst snd] in IH.
  pose proof (Hun c ltac:(left)) as Hc. unfold cached in Hc. rewrite Hc.
  cbn [fst snd]. rewrite IH; [reflexivity|].
  intros c' Hc'. apply Hun. right. exact Hc'.
Qed.

Lemma fetch_posted cfg ask fs idx es w :
  posted (fetch cfg ask fs idx es w).2 = posted w ++ [map location_of fs].
Proof.
  unfold fetch. cbn [elevation_cache posted].
  destruct (ask _) as [f|rs]; [reflexivity|].
  destruct (store_results _ _ _ _ _ _ _) as [[r es'] cache'].
  destruct r; reflexivity.
Qed.

Lemma elevations_of_posted cfg ask w sampled :
  sampled <> [] ->
  (forall c, c ∈ sampled -> cached cfg w c = None) ->
  posted (elevations_of cfg ask w sampled).2
  = posted w ++ [map location_of sampled].
Proof.
  intros Hne Hun. unfold elevations_of.
  pose proof (scan_cache_uncached cfg w sampled 0 Hun) as Hfs.
  destruct (scan_cache cfg (elevation_cache w) 0 sampled) as [[es fs] idx].
  cbn [fst snd] in Hfs. subst fs.
  destruct sampled as [|c rest]; [contradiction|].
  pose proof (fetch_posted cfg ask (c :: rest) idx es w) as Hp.
  destruct (fetch _ _ _ _ _ _) as [es' w']. exact Hp.
Qed.

Lemma uncached_zeros cfg (w : world) sampled :
  (forall c, c ∈ sampled -> cached cfg w c = None) ->
  map (fun c => none_to_zero (default None (cached cfg w c))) sampled
  = replicate (length sampled) zero.
Proof.
  induction sampled as [|c rest IH]; intros Hun; [reflexivity|].
  cbn [map length replicate]. rewrite (Hun c) by left.
  rewrite IH; [reflexivity|]. intros c' Hc'. apply Hun. right. exact Hc'.
Qed.

Lemma even_positions_increase (d dv : Z) (j : Z) (k k' : Z) :
  1 <= dv < d -> 0 <= j ->
  j * d / dv - 1 <= k <= j * d / dv ->
  ((j + 1) * d / dv - 1 <= k' <= (j + 1) * d / dv) ->
  (((j + 1) * d) mod dv <> 0 -> k' = (j + 1) * d / dv) ->
  k < k'.
Proof.
  intros Hdv Hj Hk Hk' Hr.
  assert (Hstep : j * d / dv + 1 <= (j + 1) * d / dv).
  { replace (j * d / dv + 1) with ((j * d + 1 * dv) / dv)
      by (rewrite Z.div_add by lia; reflexivity).
    apply Z.div_le_mono; lia. }
  destruct (Z.eq_dec (((j + 1) * d) mod dv) 0) as [Hm|Hm].
  - assert (Hex : (j + 1) * d = dv * ((j + 1) * d / dv)).
    { pose proof (Z.div_mod ((j + 1) * d) dv ltac:(lia)). lia. }
    assert (Hlt : j * d / dv < (j + 1) * d / dv - 1).
    { apply Z.div_lt_upper_bound; [lia|]. nia. }
    lia.
  - rewrite (Hr Hm). lia.
Qed.

Lemma increasing_steps (l : list Z) :
  (forall i a b, l !! i = Some a -> l !! (S i) = Some b -> a < b) ->
  strictly_increasing l.
Proof.
  intros Hstep i j. revert i.
  induction j as [|j IH]; intros i a b Hij Ha Hb; [lia|].
  destruct (lookup_lt_is_Some_2 l j) as [c Hc].
  { apply lookup_lt_Some in Hb. lia. }
  pose proof (Hstep j c b Hc Hb) as Hcb.
  destruct (decide (i = j)) as [->|Hne].
  - rewrite Ha in Hc. injection Hc as ->. exact Hcb.
  - pose proof (IH i a c ltac:(lia) Ha Hc). lia.
Qed.

(** C5.  An input longer than [MAX_ELEVATION_POINTS] (at least 2) is
    downsampled by even index selection over its whole span: exactly
    [MAX_ELEVATION_POINTS] indices, the first one 0, the last one the last
    index of the input, strictly increasing, the [j]-th one the even
    position [j * (len - 1) / (MAX_ELEVATION_POINTS - 1)] rounded down (or,
    where that position is a whole number that the binary64 product just
    misses, one less); the coordinates at these indices are the ones kept,
    answered and, when none of them is cached, posted to the provider. *)
Theorem get_elevation_data_even_selection cfg ask w (coords : list coord) :
  2 <= MAX_ELEVATION_POINTS cfg < Z.of_nat (length coords) ->
  3 * (Z.of_nat (length coords) - 1) * (MAX_ELEVATION_POINTS cfg - 1) <= 2 ^ 52 ->
  exists indices sampled es w',
    sample_indices cfg (length coords) = Ok indices
    /\ downsample cfg coords = Ok sampled
    /\ length indices = Z.to_nat (MAX_ELEVATION_POINTS cfg)
    /\ head indices = Some 0
    /\ last indices = Some (Z.of_nat (length coords) - 1)
    /\ strictly_increasing indices
    /\ (forall j k, indices !! j = Some k ->
          even_position (Z.of_nat (length coords) - 1) (MAX_ELEVATION_POINTS cfg) j - 1
          <= k
          <= even_position (Z.of_nat (length coords) - 1) (MAX_ELEVATION_POINTS cfg) j
          /\ ((Z.of_nat j * (Z.of_nat (length coords) - 1))
                mod (MAX_ELEVATION_POINTS cfg - 1) <> 0 ->
              k = even_position (Z.of_nat (length coords) - 1)
                    (MAX_ELEVATION_POINTS cfg) j))
    /\ length sampled = length indices
    /\ (forall j k, indices !! j = Some k -> sampled !! j = coords !! Z.to_nat k)
    /\ get_elevation_data cfg ask w coords = (Ok es, w')
    /\ length es = Z.to_nat (MAX_ELEVATION_POINTS cfg)
    /\ ((forall c, c ∈ sampled -> cached cfg w c = None) ->
        posted w' = posted w ++ [map location_of sampled]).
Proof.
  intros Hnum Hbound.
  destruct (downsample_even cfg coords Hnum Hbound)
    as (indices & sampled & Hidx & Hs & Hlen & Hslen & Hj).
  set (n := Z.of_nat (length coords)) in *.
  set (num := MAX_ELEVATION_POINTS cfg) in *.
  assert (Hget : forall j k, indices !! j = Some k ->
            (j < Z.to_nat num)%nat).
  { intros j k Hk. rewrite <- Hlen. apply lookup_lt_Some with k. exact Hk. }
  exists indices, sampled, (elevations_of cfg ask w sampled).1,
    (elevations_of cfg ask w sampled).2.
  split; [exact Hidx|]. split; [exact Hs|]. split; [exact Hlen|].
  split.
  { destruct (Hj 0%nat ltac:(lia)) as (k & Hk & _ & _ & _ & _ & H0 & _).
    rewrite (H0 eq_refl) in Hk. rewrite head_lookup. exact Hk. }
  split.
  { destruct (Hj (Z.to_nat (num - 1)) ltac:(lia)) as (k & Hk & _ & _ & _ & _ & _ & Hl).
    rewrite Hl in Hk by lia. rewrite last_lookup, Hlen.
    replace (Nat.pred (Z.to_nat num)) with (Z.to_nat (num - 1)) by lia. exact Hk. }
  split.
  { apply increasing_steps. intros i a b Ha Hb.
    destruct (Hj i (Hget i a Ha)) as (k & Hk & _ & _ & Hkb & _).
    destruct (Hj (S i) (Hget (S i) b Hb)) as (k' & Hk' & _ & _ & Hkb' & Hkr' & _).
    rewrite Ha in Hk. injection Hk as <-. rewrite Hb in Hk'. injection Hk' as <-.
    unfold even_position in *.
    replace (Z.of_nat (S i)) with (Z.of_nat i + 1) in * by lia.
    apply (even_positions_increase (n - 1) (num - 1) (Z.of_nat i));
      [lia|lia|exact Hkb|exact Hkb'|exact Hkr']. }
  split.
  { intros j k Hk. destruct (Hj j (Hget j k Hk)) as (k' & Hk' & _ & _ & Hkb & Hkr & _).
    rewrite Hk in Hk'. injection Hk' as <-. split; [exact Hkb|exact Hkr]. }
  split; [rewrite Hslen, Hlen; reflexivity|].
  split.
  { intros j k Hk. destruct (Hj j (Hget j k Hk)) as (k' & Hk' & Hsk & _).
    rewrite Hk in Hk'. injection Hk' as <-. exact Hsk. }
  split; [apply get_elevation_data_sampled; exact Hs|].
  split; [rewrite elevations_of_length; exact Hslen|].
  intros Hun. apply elevations_of_posted; [|exact Hun].
  intros ->. cbn [length] in Hslen. lia.
Qed.

Lemma sample_indices_250 :
  sample_indices defaults 250
  = Ok [0; 2; 5; 7; 10; 12; 15; 17; 20; 22; 25; 27; 30; 32; 35; 37; 40; 42; 45;
        47; 50; 52; 55; 57; 60; 62; 65; 67; 70; 72; 75; 77; 80; 83; 85; 88; 90;
        93; 95; 98; 100; 103; 105; 108; 110; 113; 115; 118; 120; 123; 125; 128;
        130; 133; 135; 138; 140; 143; 145; 148; 150; 153; 155; 158; 160; 163;
        166; 168; 171; 173; 176; 178; 181; 183; 186; 188; 191; 193; 196; 198;
        201; 203; 206; 208; 211; 213; 216; 218; 221; 223; 226; 228; 231; 233;
        236; 238; 241; 243; 246; 249].
Proof. vm_compute. reflexivity. Qed.

(** 250 coordinates and the default maximum: 100 indices from 0 to 249. *)
Lemma get_elevation_data_even_selection_witness :
  2 <= MAX_ELEVATION_POINTS defaults < Z.of_nat (length (numbered_coords 250))
  /\ exists indices es w',
       sample_indices defaults (length (numbered_coords 250)) = Ok indices
       /\ length indices = 100%nat
       /\ head indices = Some 0
       /\ last indices = Some 249
       /\ strictly_increasing indices
       /\ get_elevation_data defaults always_fails cold (numbered_coords 250)
          = (Ok es, w')
       /\ length es = 100%nat.
Proof.
  assert (H1 : 2 <= MAX_ELEVATION_POINTS defaults
               < Z.of_nat (length (numbered_coords 250)))
    by (vm_compute; split; [discriminate|reflexivity]).
  assert (H2 : 3 * (Z.of_nat (length (numbered_coords 250)) - 1)
               * (MAX_ELEVATION_POINTS defaults - 1) <= 2 ^ 52)
    by (vm_compute; discriminate).
  split; [exact H1|].
  destruct (get_elevation_data_even_selection defaults always_fails cold
              (numbered_coords 250) H1 H2)
    as (indices & sampled & es & w' & Hi & _ & Hl & Hh & Hla & Hinc & _ & _ & _
        & Hg & Hes & _).
  exists indices, es, w'. repeat split; assumption.
Defined.

(** C3, as amended.  With a non-negative [MAX_ELEVATION_POINTS] (and an
    input short enough for its indices to be exact in binary64),
    [get_elevation_data] never raises.  It returns one elevation per
    coordinate of the list it keeps after the sampling step, in that order
    and never [None]: the input itself when it has at most
    [MAX_ELEVATION_POINTS] entries, [MAX_ELEVATION_POINTS] sampled entries
    otherwise.  When the request fails, for whatever reason, every slot that
    the cache does not serve is 0, so that with nothing cached the result is
    a list of zeros; when the provider answers, every such slot holds the
    provider's answer. *)
Theorem get_elevation_data_degrades cfg ask w (coords : list coord) :
  0 <= MAX_ELEVATION_POINTS cfg ->
  (MAX_ELEVATION_POINTS cfg < Z.of_nat (length coords) ->
   3 * Z.of_nat (length coords) * MAX_ELEVATION_POINTS cfg <= 2 ^ 52) ->
  exists sampled es w',
    downsample cfg coords = Ok sampled
    /\ length sampled
       = Z.to_nat (Z.min (Z.of_nat (length coords)) (MAX_ELEVATION_POINTS cfg))
    /\ (Z.of_nat (length coords) <= MAX_ELEVATION_POINTS cfg -> sampled = coords)
    /\ get_elevation_data cfg ask w coords = (Ok es, w')
    /\ length es = length sampled
    /\ Forall is_Some es
    /\ (request_fails ask ->
        es = map (fun c => none_to_zero (default None (cached cfg w c))) sampled)
    /\ (request_fails ask ->
        (forall c, c ∈ sampled -> cached cfg w c = None) ->
        es = replicate (length sampled) zero)
    /\ (forall g, answers ask g ->
        es = map (fun c => none_to_zero (filled cfg w g c)) sampled).
Proof.
  intros Hnum Hbound.
  destruct (downsample_total cfg coords Hnum Hbound) as (sampled & Hs & Hlen & Hsame).
  exists sampled, (elevations_of cfg ask w sampled).1,
    (elevations_of cfg ask w sampled).2.
  split; [exact Hs|]. split; [exact Hlen|]. split; [exact Hsame|].
  split; [apply get_elevation_data_sampled; exact Hs|].
  split; [apply elevations_of_length|].
  split; [apply elevations_of_not_None|].
  split; [apply elevations_of_fails|].
  split.
  - intros Hfail Hun. rewrite elevations_of_fails by exact Hfail.
    apply uncached_zeros. exact Hun.
  - intros g Hg. apply elevations_of_answers. exact Hg.
Qed.

(** Three coordinates, a provider that always fails: three zeros. *)
Lemma get_elevation_data_degrades_witness :
  0 <= MAX_ELEVATION_POINTS defaults
  /\ exists es w',
       get_elevation_data defaults always_fails cold (numbered_coords 3)
       = (Ok es, w')
       /\ es = [zero; zero; zero].
Proof.
  assert (H1 : 0 <= MAX_ELEVATION_POINTS defaults) by (vm_compute; discriminate).
  assert (H2 : MAX_ELEVATION_POINTS defaults < Z.of_nat (length (numbered_coords 3)) ->
               3 * Z.of_nat (length (numbered_coords 3))
               * MAX_ELEVATION_POINTS defaults <= 2 ^ 52)
    by (intros _; vm_compute; discriminate).
  split; [exact H1|].
  destruct (get_elevation_data_degrades defaults always_fails cold
              (numbered_coords 3) H1 H2)
    as (sampled & es & w' & _ & Hlen & Hsame & Hg & _ & _ & _ & Hz & _).
  exists es, w'. split; [exact Hg|].
  rewrite Hz.
  - rewrite Hlen. reflexivity.
  - intros locations. exists Timeout. reflexivity.
  - intros c _. unfold cached, cold. cbn [elevation_cache].
    destruct (ENABLE_CACHE defaults); [apply lookup_empty|reflexivity].
Defined.

(** C3 as stated fails: for 101 coordinates and the default maximum of 100
    the result has 100 entries, not 101. *)
Lemma get_elevation_data_not_same_length :
  length (numbered_coords 101) = 101%nat
  /\ length <$> (get_elevation_data defaults always_fails cold
                   (numbered_coords 101)).1
     = Ok 100%nat.
Proof. split; vm_compute; reflexivity. Qed.

End ElevationFacts.

(** ** [models/geo_data.py] *)

Module GeoDataFacts.

Import GeoData GeoDataSpec.

Lemma matches_tags_spec tags feature_tags :
  matches_tags tags feature_tags = true <-> all_pairs_match tags feature_tags.
Proof.
  unfold matches_tags, all_pairs_match. rewrite forallb_forall. split.
  - intros H key value Hkv.
    apply elem_of_map_to_list, list_elem_of_In in Hkv.
    specialize (H _ Hkv). cbn in H.
    apply andb_prop in H as [_ H]. apply bool_decide_eq_true in H. exact H.
  - intros H [key value] Hin.
    apply list_elem_of_In, elem_of_map_to_list in Hin.
    specialize (H _ _ Hin). unfold dict_in. rewrite H.
    rewrite !bool_decide_eq_true_2 by eauto. reflexivity.
Qed.

Lemma matches_tags_empty feature_tags : matches_tags ∅ feature_tags = true.
Proof. unfold matches_tags. rewrite map_to_list_empty. reflexivity. Qed.

Lemma filter_all_true {A} (f : A -> bool) (l : list A) :
  (forall x, f x = true) -> List.filter f l = l.
Proof.
  intros H. induction l as [|x l IH]; [reflexivity|].
  cbn. rewrite H, IH. reflexivity.
Qed.

Lemma elem_of_filter_matches {A} (get : A -> gmap string string) tags (l : list A) x :
  x ∈ List.filter (fun y => matches_tags tags (get y)) l
  <-> x ∈ l /\ all_pairs_match tags (get x).
Proof.
  rewrite !list_elem_of_In, filter_In, matches_tags_spec. reflexivity.
Qed.

Lemma filter_sublist {A} (f : A -> bool) (l : list A) :
  List.filter f l `sublist_of` l.
Proof.
  induction l as [|x l IH]; [constructor|].
  cbn. destruct (f x); constructor; exact IH.
Qed.

(** C8.  [filter_by_tags] with an empty tag mapping returns the collection
    itself, terrain elevation included.  In general it keeps the terrain
    elevation and, of each of the four lists, exactly the features for
    which every requested key-value pair is a tag of the feature with that
    very value, in their original order. *)
Theorem filter_by_tags_laws :
  (forall c, filter_by_tags c ∅ = c)
  /\ (forall c tags,
        terrain_elevation (filter_by_tags c tags) = terrain_elevation c
        /\ (forall b, b ∈ buildings (filter_by_tags c tags)
              <-> b ∈ buildings c /\ all_pairs_match tags (building_tags b))
        /\ (forall r, r ∈ roads (filter_by_tags c tags)
              <-> r ∈ roads c /\ all_pairs_match tags (road_tags r))
        /\ (forall p, p ∈ points (filter_by_tags c tags)
              <-> p ∈ points c /\ all_pairs_match tags (point_tags p))
        /\ (forall p, p ∈ polygons (filter_by_tags c tags)
              <-> p ∈ polygons c /\ all_pairs_match tags (polygon_tags p))
        /\ buildings (filter_by_tags c tags) `sublist_of` buildings c
        /\ roads (filter_by_tags c tags) `sublist_of` roads c
        /\ points (filter_by_tags c tags) `sublist_of` points c
        /\ polygons (filter_by_tags c tags) `sublist_of` polygons c).
Proof.
  split.
  - intros [bs rs ps gs t]. unfold filter_by_tags. cbn.
    rewrite !filter_all_true by (intros; apply matches_tags_empty).
    reflexivity.
  - intros c tags. unfold filter_by_tags.
    cbn [terrain_elevation buildings roads points polygons].
    split; [reflexivity|].
    split; [intros b; apply (elem_of_filter_matches building_tags)|].
    split; [intros r; apply (elem_of_filter_matches road_tags)|].
    split; [intros p; apply (elem_of_filter_matches point_tags)|].
    split; [intros p; apply (elem_of_filter_matches polygon_tags)|].
    repeat split; apply filter_sublist.
Qed.

End GeoDataFacts.

(** ** Rounding to binary64, on places

    The order of two floats is the order of their places; a difference of
    two finite floats is the rounding of the difference of their places,
    a rounding that is monotone and leaves the places of floats where they
    are; a quotient is on the same side of 1 as the exact one. *)

Module Binary64Rounding.

Import PyNum Binary64 Binary64Facts Binary64Places.

(** *** Integers rounded to 53 bits *)

Lemma Zdigits2_bounds X :
  0 < X -> 2 ^ (Zdigits2 X - 1) <= X < 2 ^ Zdigits2 X.
Proof.
  destruct X as [|p|p]; try lia. intros _. apply digits2_pos_bounds.
Qed.

Lemma Zdigits2_pos X : 0 < X -> 0 < Zdigits2 X.
Proof. destruct X; cbn; lia. Qed.

Lemma Zdigits2_unique X k : 2 ^ (k - 1) <= X < 2 ^ k -> 0 < X -> Zdigits2 X = k.
Proof.
  destruct X as [|p|p]; try lia. intros H _. apply digits2_pos_unique. exact H.
Qed.

Lemma pow2_lt_inv a b : 0 <= b -> 2 ^ a < 2 ^ b -> a < b.
Proof.
  intros Hb H. destruct (Z_lt_le_dec a b) as [Hlt|Hge]; [exact Hlt|].
  exfalso. assert (2 ^ b <= 2 ^ a) by (apply Z.pow_le_mono_r; lia). lia.
Qed.

Lemma Zdigits2_mono X Y : 0 < X -> X <= Y -> Zdigits2 X <= Zdigits2 Y.
Proof.
  intros HX HXY.
  pose proof (Zdigits2_bounds X HX) as [H1 _].
  pose proof (Zdigits2_bounds Y ltac:(lia)) as [_ H2].
  pose proof (Zdigits2_pos Y ltac:(lia)).
  assert (2 ^ (Zdigits2 X - 1) < 2 ^ Zdigits2 Y) by lia.
  apply pow2_lt_inv in H0; lia.
Qed.

Lemma Zdigits2_shift X k :
  0 < X -> 0 <= k -> Zdigits2 (X * 2 ^ k) = Zdigits2 X + k.
Proof.
  intros HX Hk. pose proof (Zdigits2_bounds X HX) as [H1 H2].
  pose proof (Zdigits2_pos X HX).
  assert (0 < 2 ^ k) by (apply Z.pow_pos_nonneg; lia).
  apply Zdigits2_unique; [|nia].
  replace (Zdigits2 X + k - 1) with (Zdigits2 X - 1 + k) by lia.
  rewrite !Z.pow_add_r by lia. nia.
Qed.

Lemma rne_bounds X n :
  0 <= n ->
  X / 2 ^ n <= rne X n <= X / 2 ^ n + 1
  /\ (X mod 2 ^ n = 0 -> rne X n = X / 2 ^ n).
Proof.
  intros Hn. unfold rne.
  assert (Hp : 0 < 2 ^ n) by (apply Z.pow_pos_nonneg; lia).
  pose proof (Z.mod_pos_bound X (2 ^ n) Hp).
  destruct (Z.compare_spec (2 * (X mod 2 ^ n)) (2 ^ n));
    try destruct (Z.even _); split; try lia; intros; lia.
Qed.

Lemma rne_below X n k : 0 <= n -> X <= k * 2 ^ n -> rne X n <= k.
Proof.
  intros Hn HX. destruct (rne_bounds X n Hn) as [[_ Hup] Hex].
  assert (Hp : 0 < 2 ^ n) by (apply Z.pow_pos_nonneg; lia).
  assert (Hq : X / 2 ^ n <= k).
  { apply Z.div_le_upper_bound; lia. }
  destruct (Z.eq_dec (X / 2 ^ n) k) as [Heq|Hne]; [|lia].
  rewrite Hex; [lia|].
  pose proof (Z.div_mod X (2 ^ n) ltac:(lia)).
  pose proof (Z.mod_pos_bound X (2 ^ n) Hp). nia.
Qed.

Lemma rne_above X n k : 0 <= n -> k * 2 ^ n <= X -> k <= rne X n.
Proof.
  intros Hn HX. destruct (rne_bounds X n Hn) as [[Hlo _] _].
  assert (Hp : 0 < 2 ^ n) by (apply Z.pow_pos_nonneg; lia).
  assert (k <= X / 2 ^ n) by (apply Z.div_le_lower_bound; lia). lia.
Qed.

Lemma rne_mono X Y n : 0 <= n -> X <= Y -> rne X n <= rne Y n.
Proof.
  intros Hn HXY.
  assert (Hp : 0 < 2 ^ n) by (apply Z.pow_pos_nonneg; lia).
  assert (Hq : X / 2 ^ n <= Y / 2 ^ n) by (apply Z.div_le_mono; lia).
  destruct (rne_bounds X n Hn) as [[HX1 HX2] _].
  destruct (rne_bounds Y n Hn) as [[HY1 HY2] _].
  destruct (Z.eq_dec (X / 2 ^ n) (Y / 2 ^ n)) as [Heq|Hne]; [|lia].
  assert (Hr : X mod 2 ^ n <= Y mod 2 ^ n).
  { pose proof (Z.div_mod X (2 ^ n) ltac:(lia)).
    pose proof (Z.div_mod Y (2 ^ n) ltac:(lia)). nia. }
  unfold rne. rewrite <- Heq.
  destruct (Z.compare_spec (2 * (X mod 2 ^ n)) (2 ^ n)),
           (Z.compare_spec (2 * (Y mod 2 ^ n)) (2 ^ n));
    destruct (Z.even (X / 2 ^ n)); lia.
Qed.

Lemma rne_shift X n k :
  0 <= n -> 0 <= k -> rne (X * 2 ^ k) (n + k) = rne X n.
Proof.
  intros Hn Hk. unfold rne.
  assert (Hp : 0 < 2 ^ n) by (apply Z.pow_pos_nonneg; lia).
  assert (Hpk : 0 < 2 ^ k) by (apply Z.pow_pos_nonneg; lia).
  rewrite Z.pow_add_r by lia.
  rewrite Z.div_mul_cancel_r by lia.
  rewrite Zmult_mod_distr_r.
  replace (2 * (X mod 2 ^ n * 2 ^ k)) with (2 * (X mod 2 ^ n) * 2 ^ k) by ring.
  rewrite <- (Zmult_compare_compat_r _ _ (2 ^ k)) by lia.
  reflexivity.
Qed.

Lemma RN_exact X :
  0 < X -> X mod 2 ^ Z.max (Zdigits2 X - 53) 0 = 0 -> RN X = X.
Proof.
  intros HX Hmod. unfold RN.
  destruct (rne_bounds X (Z.max (Zdigits2 X - 53) 0) ltac:(lia)) as [_ Hex].
  rewrite (Hex Hmod).
  pose proof (Z.div_mod X (2 ^ Z.max (Zdigits2 X - 53) 0)) as Hdm.
  assert (0 < 2 ^ Z.max (Zdigits2 X - 53) 0) by (apply Z.pow_pos_nonneg; lia).
  specialize (Hdm ltac:(lia)). lia.
Qed.

Lemma RN_small X : 0 < X -> Zdigits2 X <= 53 -> RN X = X.
Proof.
  intros HX Hd. apply RN_exact; [exact HX|].
  replace (Z.max (Zdigits2 X - 53) 0) with 0 by lia. apply Z.mod_1_r.
Qed.

Lemma RN_mono X Y : 0 < X -> X <= Y -> RN X <= RN Y.
Proof.
  intros HX HXY. unfold RN.
  pose proof (Zdigits2_mono X Y HX HXY) as Hd.
  set (nX := Z.max (Zdigits2 X - 53) 0).
  set (nY := Z.max (Zdigits2 Y - 53) 0).
  destruct (Z.eq_dec nX nY) as [Heq|Hne].
  - rewrite <- Heq.
    apply Z.mul_le_mono_nonneg_r; [apply Z.pow_nonneg; lia|].
    apply rne_mono; [unfold nX; lia|exact HXY].
  - assert (HnXY : nX < nY) by (unfold nX, nY in *; lia).
    assert (HnY : nY = Zdigits2 Y - 53) by (unfold nX, nY in *; lia).
    pose proof (Zdigits2_bounds X HX) as [_ HXu].
    pose proof (Zdigits2_bounds Y ltac:(lia)) as [HYl _].
    assert (H1 : rne X nX * 2 ^ nX <= 2 ^ (53 + nX)).
    { rewrite Z.pow_add_r by (unfold nX; lia).
      apply Z.mul_le_mono_nonneg_r; [apply Z.pow_nonneg; lia|].
      apply rne_below; [unfold nX; lia|].
      rewrite <- Z.pow_add_r by (unfold nX; lia).
      assert (2 ^ Zdigits2 X <= 2 ^ (53 + nX))
        by (apply Z.pow_le_mono_r; unfold nX; lia).
      lia. }
    assert (H2 : 2 ^ (52 + nY) <= rne Y nY * 2 ^ nY).
    { rewrite Z.pow_add_r by (unfold nY; lia).
      apply Z.mul_le_mono_nonneg_r; [apply Z.pow_nonneg; lia|].
      apply rne_above; [unfold nY; lia|].
      rewrite <- Z.pow_add_r by (unfold nY; lia).
      replace (52 + nY) with (Zdigits2 Y - 1) by lia. exact HYl. }
    assert (2 ^ (53 + nX) <= 2 ^ (52 + nY))
      by (apply Z.pow_le_mono_r; unfold nX in *; lia).
    lia.
Qed.

Lemma RN_pos X : 0 < X -> 0 < RN X.
Proof.
  intros HX. assert (H1 : RN 1 <= RN X) by (apply RN_mono; lia).
  rewrite (RN_small 1) in H1 by (cbn; lia). lia.
Qed.

Lemma RN_le_representable X F :
  0 < X -> X <= F -> RN F = F -> RN X <= F.
Proof. intros HX HXF HF. rewrite <- HF. apply RN_mono; assumption. Qed.

Lemma RN_ge_representable X F :
  0 < F -> F <= X -> RN F = F -> F <= RN X.
Proof. intros HF HFX HR. rewrite <- HR. apply RN_mono; assumption. Qed.

Lemma RNZ_mono x y : x <= y -> RNZ x <= RNZ y.
Proof.
  intros Hxy. assert (Ht : 0 < infinity_place) by (unfold infinity_place; apply Z.pow_pos_nonneg; lia).
  destruct x as [|p|p], y as [|q|q]; cbn [RNZ]; try lia.
  - pose proof (RN_pos (Z.pos q) ltac:(lia)). lia.
  - pose proof (RN_mono (Z.pos p) (Z.pos q) ltac:(lia) Hxy). lia.
  - pose proof (RN_pos (Z.pos p) ltac:(lia)). lia.
  - pose proof (RN_pos (Z.pos p) ltac:(lia)).
    pose proof (RN_pos (Z.pos q) ltac:(lia)). lia.
  - pose proof (RN_mono (Z.pos q) (Z.pos p) ltac:(lia) ltac:(lia)). lia.
Qed.

Lemma RNZ_sign z :
  (0 < z -> 0 < RNZ z) /\ (z < 0 -> RNZ z < 0) /\ (z = 0 -> RNZ z = 0).
Proof.
  assert (Ht : 0 < infinity_place) by (unfold infinity_place; apply Z.pow_pos_nonneg; lia).
  destruct z as [|p|p]; cbn [RNZ]; repeat split; try lia; intros _.
  - pose proof (RN_pos (Z.pos p) ltac:(lia)). lia.
  - pose proof (RN_pos (Z.pos p) ltac:(lia)). lia.
Qed.

Lemma RNZ_opp z : RNZ (- z) = - RNZ z.
Proof.
  destruct z as [|p|p]; try reflexivity.
  change (- Z.neg p) with (Z.pos p). cbn [RNZ].
  generalize (Z.min (RN (Z.pos p)) infinity_place). intros. lia.
Qed.

(** *** Places and the order *)

Lemma fexp_eq x : fexp 53 1024 x = Z.max (x - 53) (-1074).
Proof. reflexivity. Qed.

(** What [valid_binary] says of a finite number. *)
Lemma valid_finite s m e :
  SpecFloat.valid_binary 53 1024 (S754_finite s m e) = true ->
  -1074 <= e <= 971
  /\ Z.pos (digits2_pos m) <= 53
  /\ (Z.pos (digits2_pos m) = 53 \/ e = -1074).
Proof.
  cbn [SpecFloat.valid_binary]. unfold bounded, canonical_mantissa.
  rewrite andb_true_iff, Z.eqb_eq, Z.leb_le, fexp_eq. lia.
Qed.

Lemma mantissa_bounds m :
  2 ^ (Z.pos (digits2_pos m) - 1) <= Z.pos m < 2 ^ Z.pos (digits2_pos m).
Proof. apply digits2_pos_bounds. Qed.

Lemma finite_place_bounds s m e :
  SpecFloat.valid_binary 53 1024 (S754_finite s m e) = true ->
  0 < Z.pos m * 2 ^ (e + 1074) < infinity_place.
Proof.
  intros (He & Hd & _)%valid_finite.
  assert (0 < 2 ^ (e + 1074)) by (apply Z.pow_pos_nonneg; lia).
  split; [apply Z.mul_pos_pos; lia|].
  pose proof (mantissa_bounds m) as [_ Hm].
  assert (2 ^ Z.pos (digits2_pos m) <= 2 ^ 53) by (apply Z.pow_le_mono_r; lia).
  assert (2 ^ (e + 1074) <= 2 ^ 2045) by (apply Z.pow_le_mono_r; lia).
  unfold infinity_place. replace 2098 with (53 + 2045) by lia.
  rewrite (Z.pow_add_r 2 53 2045) by lia.
  assert (Z.pos m * 2 ^ (e + 1074) < 2 ^ 53 * 2 ^ (e + 1074))
    by (apply Z.mul_lt_mono_pos_r; lia).
  assert (2 ^ 53 * 2 ^ (e + 1074) <= 2 ^ 53 * 2 ^ 2045)
    by (apply Z.mul_le_mono_nonneg_l; lia).
  lia.
Qed.

Lemma place_lt_of_exponent m1 e1 m2 e2 :
  SpecFloat.valid_binary 53 1024 (S754_finite false m1 e1) = true ->
  SpecFloat.valid_binary 53 1024 (S754_finite false m2 e2) = true ->
  e1 < e2 ->
  Z.pos m1 * 2 ^ (e1 + 1074) < Z.pos m2 * 2 ^ (e2 + 1074).
Proof.
  intros (He1 & Hd1 & _)%valid_finite (He2 & Hd2 & Hc2)%valid_finite Hlt.
  pose proof (mantissa_bounds m1) as [_ Hm1].
  pose proof (mantissa_bounds m2) as [Hm2 _].
  assert (Hd : Z.pos (digits2_pos m2) = 53) by lia. rewrite Hd in Hm2.
  assert (2 ^ Z.pos (digits2_pos m1) <= 2 ^ 53) by (apply Z.pow_le_mono_r; lia).
  assert (Ha : 0 < 2 ^ (e1 + 1074)) by (apply Z.pow_pos_nonneg; lia).
  assert (Hb : 0 < 2 ^ (e2 + 1074)) by (apply Z.pow_pos_nonneg; lia).
  assert (Hstep : 2 ^ 53 * 2 ^ (e1 + 1074) <= 2 ^ (53 - 1) * 2 ^ (e2 + 1074)).
  { rewrite <- !Z.pow_add_r by lia. apply Z.pow_le_mono_r; lia. }
  assert (Z.pos m1 * 2 ^ (e1 + 1074) < 2 ^ 53 * 2 ^ (e1 + 1074))
    by (apply Z.mul_lt_mono_pos_r; lia).
  assert (2 ^ (53 - 1) * 2 ^ (e2 + 1074) <= Z.pos m2 * 2 ^ (e2 + 1074))
    by (apply Z.mul_le_mono_pos_r; lia).
  lia.
Qed.

Lemma magnitude_compare m1 e1 m2 e2 :
  SpecFloat.valid_binary 53 1024 (S754_finite false m1 e1) = true ->
  SpecFloat.valid_binary 53 1024 (S754_finite false m2 e2) = true ->
  match e1 ?= e2 with
  | Eq => Pos.compare_cont Eq m1 m2
  | Lt => Lt
  | Gt => Gt
  end
  = (Z.pos m1 * 2 ^ (e1 + 1074) ?= Z.pos m2 * 2 ^ (e2 + 1074)).
Proof.
  intros H1 H2. destruct (Z.compare_spec e1 e2) as [-> | Hlt | Hgt].
  - apply valid_finite in H2 as (He & _).
    rewrite <- Zmult_compare_compat_r
      by (apply Z.lt_gt, Z.pow_pos_nonneg; lia).
    reflexivity.
  - symmetry. apply Z.compare_lt_iff.
    apply place_lt_of_exponent; assumption.
  - symmetry. apply Z.compare_gt_iff.
    apply place_lt_of_exponent; assumption.
Qed.

(** The comparison of two numbers is the comparison of their places. *)
Lemma SFcompare_place x y :
  SpecFloat.valid_binary 53 1024 x = true ->
  SpecFloat.valid_binary 53 1024 y = true ->
  not_nan_SF x -> not_nan_SF y ->
  SFcompare x y = Some (place x ?= place y).
Proof.
  assert (Ht : 0 < infinity_place) by (unfold infinity_place; apply Z.pow_pos_nonneg; lia).
  intros Hx Hy Nx Ny.
  destruct x as [sx|sx| |sx mx ex], y as [sy|sy| |sy my ey];
    try contradiction; cbn [SFcompare place].
  - reflexivity.
  - f_equal. symmetry. destruct sy; cbn [cond_Zopp];
      [apply Z.compare_gt_iff|apply Z.compare_lt_iff]; lia.
  - pose proof (finite_place_bounds _ _ _ Hy).
    f_equal. symmetry. destruct sy; cbn [cond_Zopp];
      [apply Z.compare_gt_iff|apply Z.compare_lt_iff]; lia.
  - f_equal. symmetry. destruct sx; cbn [cond_Zopp];
      [apply Z.compare_lt_iff|apply Z.compare_gt_iff]; lia.
  - f_equal. symmetry. destruct sx, sy; cbn [cond_Zopp];
      first [apply Z.compare_eq_iff | apply Z.compare_lt_iff
            | apply Z.compare_gt_iff]; lia.
  - pose proof (finite_place_bounds _ _ _ Hy).
    f_equal. symmetry. destruct sx, sy; cbn [cond_Zopp];
      first [apply Z.compare_lt_iff | apply Z.compare_gt_iff]; lia.
  - pose proof (finite_place_bounds _ _ _ Hx).
    f_equal. symmetry. destruct sx; cbn [cond_Zopp];
      [apply Z.compare_lt_iff|apply Z.compare_gt_iff]; lia.
  - pose proof (finite_place_bounds _ _ _ Hx).
    f_equal. symmetry. destruct sx, sy; cbn [cond_Zopp];
      first [apply Z.compare_lt_iff | apply Z.compare_gt_iff]; lia.
  - pose proof (finite_place_bounds _ _ _ Hx).
    pose proof (finite_place_bounds _ _ _ Hy).
    f_equal. destruct sx, sy; cbn [cond_Zopp].
    + rewrite Z.compare_opp.
      rewrite (Z.compare_antisym (Z.pos mx * 2 ^ (ex + 1074))).
      rewrite <- (magnitude_compare mx ex my ey Hx Hy).
      destruct (ex ?= ey); reflexivity.
    + symmetry. apply Z.compare_lt_iff. lia.
    + symmetry. apply Z.compare_gt_iff. lia.
    + apply (magnitude_compare mx ex my ey Hx Hy).
Qed.

(** *** One rounding, step by step *)

Lemma shr_1_nonneg m r s :
  0 <= m ->
  shr_1 {| shr_m := m; shr_r := r; shr_s := s |}
  = {| shr_m := m / 2; shr_r := Z.odd m; shr_s := r || s |}.
Proof.
  intros Hm. rewrite <- Z.div2_div.
  destruct m as [|[p|p|]|]; try lia; reflexivity.
Qed.

Lemma mod_pow2_succ m k :
  0 <= k ->
  m mod 2 ^ (k + 1)
  = m mod 2 ^ k + 2 ^ k * (if Z.odd (m / 2 ^ k) then 1 else 0).
Proof.
  intros Hk. rewrite Z.pow_add_r by lia. change (2 ^ 1) with 2.
  assert (Hp : 0 < 2 ^ k) by (apply Z.pow_pos_nonneg; lia).
  rewrite Z.rem_mul_r by lia. rewrite Zmod_odd. reflexivity.
Qed.

(** Shifting [k >= 1] bits out of an exact mantissa: what is left, the
    last bit shifted out, and whether any lower bit was set. *)
Lemma shr_iter_exact (k : nat) m :
  0 <= m ->
  Nat.iter (S k) shr_1 {| shr_m := m; shr_r := false; shr_s := false |}
  = {| shr_m := m / 2 ^ Z.of_nat (S k);
       shr_r := Z.odd (m / 2 ^ Z.of_nat k);
       shr_s := negb (m mod 2 ^ Z.of_nat k =? 0) |}.
Proof.
  intros Hm. induction k as [|k IH].
  - cbn [Nat.iter]. rewrite shr_1_nonneg by exact Hm.
    change (2 ^ Z.of_nat 1) with 2. change (2 ^ Z.of_nat 0) with 1.
    rewrite Z.div_1_r, Z.mod_1_r. reflexivity.
  - change (Nat.iter (S (S k)) shr_1 ?x) with (shr_1 (Nat.iter (S k) shr_1 x)).
    rewrite IH.
    assert (Hp : 0 < 2 ^ Z.of_nat (S k)) by (apply Z.pow_pos_nonneg; lia).
    rewrite shr_1_nonneg by (apply Z.div_pos; lia).
    f_equal.
    + rewrite Z.div_div by lia.
      replace (Z.of_nat (S (S k))) with (Z.of_nat (S k) + 1) by lia.
      rewrite Z.pow_add_r by lia. reflexivity.
    + replace (Z.of_nat (S k)) with (Z.of_nat k + 1) by lia.
      rewrite (mod_pow2_succ m (Z.of_nat k)) by lia.
      assert (Hq : 0 < 2 ^ Z.of_nat k) by (apply Z.pow_pos_nonneg; lia).
      pose proof (Z.mod_pos_bound m (2 ^ Z.of_nat k) Hq).
      destruct (Z.odd (m / 2 ^ Z.of_nat k)); cbn [orb].
      * symmetry. apply negb_true_iff, Z.eqb_neq. lia.
      * rewrite Z.mul_0_r, Z.add_0_r. reflexivity.
Qed.

Lemma round_after_shift (k : nat) m :
  0 <= m ->
  let mrs := Nat.iter k shr_1 {| shr_m := m; shr_r := false; shr_s := false |} in
  shr_m mrs = m / 2 ^ Z.of_nat k
  /\ round_nearest_even (shr_m mrs) (loc_of_shr_record mrs) = rne m (Z.of_nat k).
Proof.
  intros Hm. destruct k as [|k].
  - cbn [Nat.iter shr_m loc_of_shr_record round_nearest_even].
    change (2 ^ Z.of_nat 0) with 1. rewrite Z.div_1_r. split; [reflexivity|].
    unfold rne. change (2 ^ Z.of_nat 0) with 1.
    rewrite Z.mod_1_r, Z.div_1_r. reflexivity.
  - cbv zeta. rewrite (shr_iter_exact k m Hm). cbn [shr_m].
    split; [reflexivity|].
    unfold rne.
    replace (Z.of_nat (S k)) with (Z.of_nat k + 1) by lia.
    rewrite (mod_pow2_succ m (Z.of_nat k)) by lia.
    assert (Hq : 0 < 2 ^ Z.of_nat k) by (apply Z.pow_pos_nonneg; lia).
    pose proof (Z.mod_pos_bound m (2 ^ Z.of_nat k) Hq) as Hlow.
    rewrite (Z.pow_add_r 2 (Z.of_nat k) 1) by lia. change (2 ^ 1) with 2.
    destruct (Z.odd (m / 2 ^ Z.of_nat k)) eqn:Hodd;
      destruct (m mod 2 ^ Z.of_nat k =? 0) eqn:Hz;
      cbn [negb loc_of_shr_record round_nearest_even].
    + apply Z.eqb_eq in Hz. rewrite Hz.
      replace (2 * (0 + 2 ^ Z.of_nat k * 1)) with (2 ^ Z.of_nat k * 2) by ring.
      rewrite Z.compare_refl. reflexivity.
    + apply Z.eqb_neq in Hz.
      assert (Hc : (2 * (m mod 2 ^ Z.of_nat k + 2 ^ Z.of_nat k * 1)
                    ?= 2 ^ Z.of_nat k * 2) = Gt)
        by (apply Z.compare_gt_iff; lia).
      rewrite Hc. reflexivity.
    + apply Z.eqb_eq in Hz. rewrite Hz.
      assert (Hc : (2 * (0 + 2 ^ Z.of_nat k * 0) ?= 2 ^ Z.of_nat k * 2) = Lt)
        by (apply Z.compare_lt_iff; lia).
      rewrite Hc. reflexivity.
    + apply Z.eqb_neq in Hz.
      assert (Hc : (2 * (m mod 2 ^ Z.of_nat k + 2 ^ Z.of_nat k * 0)
                    ?= 2 ^ Z.of_nat k * 2) = Lt)
        by (apply Z.compare_lt_iff; lia).
      rewrite Hc. reflexivity.
Qed.

Lemma shr_general mrs e n :
  0 <= shr_m mrs -> 0 <= n ->
  fst (shr mrs e n) = Nat.iter (Z.to_nat n) shr_1 mrs
  /\ snd (shr mrs e n) = e + n.
Proof.
  intros Hm Hn. unfold shr. destruct n as [|p|p]; try lia.
  - cbn. split; [reflexivity|lia].
  - cbn [fst snd]. rewrite iter_pos_nat. split; reflexivity.
Qed.

(** The first stage of a rounding: the mantissa is shifted to the
    exponent [fexp (digits + e)] and rounded there. *)
Lemma round_stage1 M e l :
  0 <= M ->
  e <= fexp 53 1024 (Zdigits2 M + e) ->
  let L := fexp 53 1024 (Zdigits2 M + e) in
  let '(mrs, e') := shr_fexp 53 1024 M e l in
  let mr := round_nearest_even (shr_m mrs) (loc_of_shr_record mrs) in
  e' = L
  /\ (mr = M / 2 ^ (L - e) \/ mr = M / 2 ^ (L - e) + 1)
  /\ (l = loc_Exact -> mr = rne M (L - e)).
Proof.
  intros HM HL. cbv zeta. unfold shr_fexp.
  set (L := fexp 53 1024 (Zdigits2 M + e)) in *.
  set (start := shr_record_of_loc M l).
  assert (Hstart : 0 <= shr_m start)
    by (unfold start; rewrite shr_record_of_loc_m; exact HM).
  destruct (shr_general start e (L - e) Hstart ltac:(lia)) as [H1 H2].
  destruct (shr start e (L - e)) as [mrs e'] eqn:Hshr. cbn [fst snd] in H1, H2.
  split; [lia|].
  destruct (shr_iter_spec (Z.to_nat (L - e)) start Hstart) as [Hm _].
  rewrite Z2Nat.id in Hm by lia. rewrite <- H1 in Hm.
  unfold start in Hm. rewrite shr_record_of_loc_m in Hm.
  split.
  - rewrite <- Hm. apply round_nearest_even_cases.
  - intros ->. subst mrs. unfold start. cbn [shr_record_of_loc].
    destruct (round_after_shift (Z.to_nat (L - e)) M HM) as [_ Hr].
    rewrite Z2Nat.id in Hr by lia. exact Hr.
Qed.

Lemma round_stage2_place s mr L :
  0 <= mr <= 2 ^ 53 -> -1074 <= L ->
  mr = 0 \/ L = -1074 \/ 2 ^ 52 <= mr ->
  not_nan_SF (round_stage2 s mr L)
  /\ place (round_stage2 s mr L)
     = cond_Zopp s (Z.min (mr * 2 ^ (L + 1074)) infinity_place).
Proof.
  intros Hmr HL Hcan.
  assert (Ht : 0 < infinity_place) by (unfold infinity_place; apply Z.pow_pos_nonneg; lia).
  assert (Hp : 0 < 2 ^ (L + 1074)) by (apply Z.pow_pos_nonneg; lia).
  unfold round_stage2, shr_fexp. cbn [shr_record_of_loc].
  destruct (Z.eq_dec mr 0) as [-> | Hnz].
  { cbn [Zdigits2]. rewrite fexp_eq.
    replace (shr _ L (Z.max (0 + L - 53) (-1074) - L))
      with ({| shr_m := 0; shr_r := false; shr_s := false |}, L).
    2:{ unfold shr. destruct (Z.max (0 + L - 53) (-1074) - L) eqn:E;
          try reflexivity. lia. }
    cbn [shr_m not_nan_SF place]. split; [exact I|].
    rewrite Z.mul_0_l, Z.min_l by lia. destruct s; reflexivity. }
  assert (Hpos : 0 < mr) by lia.
  pose proof (Zdigits2_bounds mr Hpos) as [Hd1 Hd2].
  pose proof (Zdigits2_pos mr Hpos) as Hd0.
  destruct (Z.eq_dec mr (2 ^ 53)) as [Heq | Hne].
  - assert (Hd : Zdigits2 mr = 54).
    { apply Zdigits2_unique; [|exact Hpos]. rewrite Heq.
      split; [reflexivity|]. apply Z.pow_lt_mono_r; lia. }
    rewrite Hd, fexp_eq.
    replace (Z.max (54 + L - 53) (-1074) - L) with 1 by lia.
    unfold shr. cbn [SpecFloat.iter_pos]. rewrite shr_1_nonneg by lia.
    cbn [shr_m]. rewrite Heq. change (2 ^ 53 / 2) with (2 ^ 52).
    change (2 ^ 52) with (Z.pos (2 ^ 52)%positive) at 1.
    cbv iota.
    assert (Hval : 2 ^ 53 * 2 ^ (L + 1074) = 2 ^ 52 * 2 ^ (L + 1 + 1074)).
    { replace (L + 1 + 1074) with (L + 1074 + 1) by lia.
      rewrite (Z.pow_add_r 2 (L + 1074) 1) by lia.
      change (2 ^ 53) with (2 ^ 52 * 2). change (2 ^ 1) with 2. ring. }
    destruct (Z.leb_spec (L + 1) (1024 - 53)) as [Hfin | Hinf];
      cbn [not_nan_SF place]; (split; [exact I|]); f_equal.
    + rewrite Z.min_l.
      * rewrite Hval. reflexivity.
      * assert (2 ^ (L + 1074) <= 2 ^ 2044) by (apply Z.pow_le_mono_r; lia).
        unfold infinity_place. replace 2098 with (53 + 2045) by lia.
        rewrite (Z.pow_add_r 2 53 2045) by lia.
        assert (2 ^ 2044 <= 2 ^ 2045) by (apply Z.pow_le_mono_r; lia).
        apply Z.mul_le_mono_nonneg_l; lia.
    + rewrite Z.min_r; [reflexivity|].
      unfold infinity_place. replace 2098 with (53 + 2045) by lia.
      rewrite (Z.pow_add_r 2 53 2045) by lia.
      assert (2 ^ 2045 <= 2 ^ (L + 1074)) by (apply Z.pow_le_mono_r; lia).
      apply Z.mul_le_mono_nonneg_l; lia.
  - assert (Hd : Zdigits2 mr <= 53).
    { assert (2 ^ (Zdigits2 mr - 1) < 2 ^ 53) by lia.
      apply pow2_lt_inv in H; lia. }
    rewrite fexp_eq.
    replace (shr _ L (Z.max (Zdigits2 mr + L - 53) (-1074) - L))
      with ({| shr_m := mr; shr_r := false; shr_s := false |}, L).
    2:{ unfold shr.
        destruct (Z.max (Zdigits2 mr + L - 53) (-1074) - L) eqn:E;
          try reflexivity. lia. }
    cbn [shr_m]. destruct mr as [|m|m]; try lia.
    destruct (Z.leb_spec L (1024 - 53)) as [Hfin | Hinf];
      cbn [not_nan_SF place]; (split; [exact I|]); f_equal.
    + rewrite Z.min_l; [reflexivity|].
      assert (2 ^ (L + 1074) <= 2 ^ 2045) by (apply Z.pow_le_mono_r; lia).
      unfold infinity_place. replace 2098 with (53 + 2045) by lia.
      rewrite (Z.pow_add_r 2 53 2045) by lia.
      assert (Z.pos m * 2 ^ (L + 1074) <= 2 ^ 53 * 2 ^ (L + 1074))
        by (apply Z.mul_le_mono_nonneg_r; lia).
      assert (2 ^ 53 * 2 ^ (L + 1074) <= 2 ^ 53 * 2 ^ 2045)
        by (apply Z.mul_le_mono_nonneg_l; lia).
      lia.
    + rewrite Z.min_r; [reflexivity|].
      assert (Hm52 : 2 ^ 52 <= Z.pos m) by lia.
      unfold infinity_place. replace 2098 with (52 + 2046) by lia.
      rewrite (Z.pow_add_r 2 52 2046) by lia.
      assert (2 ^ 2046 <= 2 ^ (L + 1074)) by (apply Z.pow_le_mono_r; lia).
      assert (2 ^ 52 * 2 ^ 2046 <= 2 ^ 52 * 2 ^ (L + 1074))
        by (apply Z.mul_le_mono_nonneg_l; lia).
      assert (2 ^ 52 * 2 ^ (L + 1074) <= Z.pos m * 2 ^ (L + 1074))
        by (apply Z.mul_le_mono_nonneg_r; lia).
      lia.
Qed.

(** A rounding, on places: the mantissa is rounded at the exponent
    [fexp (digits + e)], to one of its two neighbours there (the nearest one when the
    mantissa is exact), and an overflow goes to infinity. *)
Lemma round_aux_place s M e l :
  0 <= M ->
  e <= fexp 53 1024 (Zdigits2 M + e) ->
  let L := fexp 53 1024 (Zdigits2 M + e) in
  exists mr,
    (mr = M / 2 ^ (L - e) \/ mr = M / 2 ^ (L - e) + 1)
    /\ (l = loc_Exact -> mr = rne M (L - e))
    /\ not_nan_SF (binary_round_aux 53 1024 s M e l)
    /\ place (binary_round_aux 53 1024 s M e l)
       = cond_Zopp s (Z.min (mr * 2 ^ (L + 1074)) infinity_place).
Proof.
  intros HM HL L.
  pose proof (round_stage1 M e l HM HL) as H1. cbv zeta in H1. fold L in H1.
  unfold binary_round_aux.
  destruct (shr_fexp 53 1024 M e l) as [mrs e'] eqn:Hs.
  destruct H1 as (-> & Hmr & Hex).
  set (mr := round_nearest_even (shr_m mrs) (loc_of_shr_record mrs)) in *.
  exists mr. split; [exact Hmr|]. split; [exact Hex|].
  change (not_nan_SF (round_stage2 s mr L)
          /\ place (round_stage2 s mr L)
             = cond_Zopp s (Z.min (mr * 2 ^ (L + 1074)) infinity_place)).
  assert (HLmin : -1074 <= L) by (unfold L; rewrite fexp_eq; lia).
  assert (Hp : 0 < 2 ^ (L - e)) by (apply Z.pow_pos_nonneg; lia).
  assert (Hq0 : 0 <= M / 2 ^ (L - e)) by (apply Z.div_pos; lia).
  apply round_stage2_place; [|exact HLmin|].
  - split; [lia|].
    destruct (Z.eq_dec M 0) as [-> | Hnz].
    { rewrite Z.div_0_l in Hmr by lia.
      assert (1 <= 2 ^ 53) by (change 1 with (2 ^ 0); apply Z.pow_le_mono_r; lia).
      lia. }
    pose proof (Zdigits2_bounds M ltac:(lia)) as [_ Hd].
    assert (HLe : Zdigits2 M - 53 <= L - e) by (unfold L; rewrite fexp_eq; lia).
    assert (Hlt : M / 2 ^ (L - e) < 2 ^ 53).
    { apply Z.div_lt_upper_bound; [lia|].
      rewrite <- Z.pow_add_r by lia.
      assert (2 ^ Zdigits2 M <= 2 ^ (L - e + 53))
        by (apply Z.pow_le_mono_r; lia).
      lia. }
    lia.
  - destruct (Z.eq_dec L (-1074)) as [HL74 | HLn]; [right; left; exact HL74|].
    assert (HLd : L = Zdigits2 M + e - 53) by (unfold L in *; rewrite fexp_eq in *; lia).
    destruct (Z.eq_dec M 0) as [-> | Hnz]; [cbn [Zdigits2] in HLd; lia|].
    right. right.
    pose proof (Zdigits2_bounds M ltac:(lia)) as [Hd _].
    assert (H52 : 2 ^ 52 <= M / 2 ^ (L - e)).
    { apply Z.div_le_lower_bound; [lia|].
      rewrite <- Z.pow_add_r by lia.
      replace (L - e + 52) with (Zdigits2 M - 1) by lia. exact Hd. }
    lia.
Qed.

(** *** Differences *)

Lemma RN_multiple m k :
  0 < m -> 0 <= k -> Zdigits2 m <= 53 -> RN (m * 2 ^ k) = m * 2 ^ k.
Proof.
  intros Hm Hk Hd.
  assert (Hp : 0 < 2 ^ k) by (apply Z.pow_pos_nonneg; lia).
  apply RN_exact; [apply Z.mul_pos_pos; lia|].
  rewrite Zdigits2_shift by lia.
  set (n := Z.max (Zdigits2 m + k - 53) 0).
  assert (Hn : 0 <= n <= k) by (unfold n; lia).
  replace k with (k - n + n) by lia.
  rewrite Z.pow_add_r by lia. rewrite Z.mul_assoc. apply Z.mod_mul.
  assert (0 < 2 ^ n) by (apply Z.pow_pos_nonneg; lia). lia.
Qed.

(** The place of a finite number is representable. *)
Lemma RNZ_place x :
  SpecFloat.valid_binary 53 1024 x = true -> finite_SF x ->
  RNZ (place x) = place x.
Proof.
  intros Hv Hf. destruct x as [s|s| |s m e]; try contradiction; [reflexivity|].
  pose proof (finite_place_bounds s m e Hv) as [Hlo Hhi].
  apply valid_finite in Hv as (He & Hd & _).
  cbn [place].
  assert (HRN : RN (Z.pos m * 2 ^ (e + 1074)) = Z.pos m * 2 ^ (e + 1074))
    by (apply RN_multiple; cbn [Zdigits2]; lia).
  destruct s; cbn [cond_Zopp].
  - rewrite RNZ_opp. f_equal.
    destruct (Z.pos m * 2 ^ (e + 1074)) as [|p|p] eqn:E; try lia.
    cbn [RNZ]. lia.
  - destruct (Z.pos m * 2 ^ (e + 1074)) as [|p|p] eqn:E; try lia.
    cbn [RNZ]. lia.
Qed.

Lemma RNZ_pos_eq X : 0 < X -> RNZ X = Z.min (RN X) infinity_place.
Proof. destruct X; try lia. reflexivity. Qed.

Lemma shl_align_place m e ez :
  ez <= e -> -1074 <= ez ->
  Z.pos (fst (shl_align m e ez)) * 2 ^ (ez + 1074) = Z.pos m * 2 ^ (e + 1074).
Proof.
  intros Hle Hez. unfold shl_align.
  destruct (ez - e) as [|d|d] eqn:Hd; cbn [fst].
  - replace ez with e by lia. reflexivity.
  - lia.
  - rewrite Pos_iter_xO.
    replace (e + 1074) with (Z.pos d + (ez + 1074)) by lia.
    rewrite (Z.pow_add_r 2 (Z.pos d)) by lia. ring.
Qed.

(** The sum of two aligned mantissas, normalised: the rounding of its
    place. *)
Lemma normalize_place M ez :
  -1074 <= ez ->
  not_nan_SF (binary_normalize 53 1024 M ez false)
  /\ place (binary_normalize 53 1024 M ez false) = RNZ (M * 2 ^ (ez + 1074)).
Proof.
  intros Hez.
  assert (Hk : 0 < 2 ^ (ez + 1074)) by (apply Z.pow_pos_nonneg; lia).
  assert (Hpos : forall s m,
    not_nan_SF (binary_round 53 1024 s m ez)
    /\ place (binary_round 53 1024 s m ez)
       = cond_Zopp s (RNZ (Z.pos m * 2 ^ (ez + 1074)))).
  { intros s m. unfold binary_round.
    set (F := fexp 53 1024 (Z.pos (digits2_pos m) + ez)).
    assert (HF : F = Z.max (Z.pos (digits2_pos m) + ez - 53) (-1074))
      by (unfold F; apply fexp_eq).
    assert (HX : 0 < Z.pos m * 2 ^ (ez + 1074)) by (apply Z.mul_pos_pos; lia).
    rewrite (RNZ_pos_eq _ HX).
    unfold shl_align. destruct (F - ez) as [|d|d] eqn:Hd.
    - (* already at the right exponent *)
      destruct (round_aux_place s (Z.pos m) ez loc_Exact ltac:(lia))
        as (mr & _ & Hmr & Hnn & Hpl).
      { cbn [Zdigits2]. fold F. lia. }
      cbn [Zdigits2] in Hmr, Hpl. fold F in Hmr, Hpl.
      split; [exact Hnn|]. rewrite Hpl. f_equal. f_equal.
      rewrite (Hmr eq_refl). unfold RN.
      rewrite Zdigits2_shift by lia. cbn [Zdigits2].
      replace (Z.max (Z.pos (digits2_pos m) + (ez + 1074) - 53) 0)
        with (F - ez + (ez + 1074)) by lia.
      rewrite rne_shift by lia. f_equal. f_equal. lia.
    - (* the mantissa is shifted out *)
      destruct (round_aux_place s (Z.pos m) ez loc_Exact ltac:(lia))
        as (mr & _ & Hmr & Hnn & Hpl).
      { cbn [Zdigits2]. fold F. lia. }
      cbn [Zdigits2] in Hmr, Hpl. fold F in Hmr, Hpl.
      split; [exact Hnn|]. rewrite Hpl. f_equal. f_equal.
      rewrite (Hmr eq_refl). unfold RN.
      rewrite Zdigits2_shift by lia. cbn [Zdigits2].
      replace (Z.max (Z.pos (digits2_pos m) + (ez + 1074) - 53) 0)
        with (F - ez + (ez + 1074)) by lia.
      rewrite rne_shift by lia. f_equal. f_equal. lia.
    - (* the mantissa is shifted in: nothing is lost *)
      set (mz := Pos.iter xO m d).
      assert (Hmz : Z.pos mz = Z.pos m * 2 ^ Z.pos d) by apply Pos_iter_xO.
      assert (Hdz : Zdigits2 (Z.pos mz) = Z.pos (digits2_pos m) + Z.pos d).
      { rewrite Hmz. rewrite Zdigits2_shift by lia. reflexivity. }
      destruct (round_aux_place s (Z.pos mz) F loc_Exact ltac:(lia))
        as (mr & _ & Hmr & Hnn & Hpl).
      { rewrite Hdz, fexp_eq. lia. }
      rewrite Hdz in Hmr, Hpl.
      replace (fexp 53 1024 (Z.pos (digits2_pos m) + Z.pos d + F)) with F
        in Hmr, Hpl by (rewrite fexp_eq; lia).
      split; [exact Hnn|]. rewrite Hpl. f_equal. f_equal.
      rewrite (Hmr eq_refl). rewrite Z.sub_diag.
      unfold rne at 1. change (2 ^ 0) with 1.
      rewrite Z.mod_1_r, Z.div_1_r. change (2 * 0 ?= 1) with Lt. cbv iota.
      rewrite RN_multiple by (cbn [Zdigits2]; lia).
      rewrite Hmz. replace (ez + 1074) with (Z.pos d + (F + 1074)) by lia.
      rewrite (Z.pow_add_r 2 (Z.pos d)) by lia. ring. }
  destruct M as [|m|m]; cbn [binary_normalize].
  - split; [exact I|]. reflexivity.
  - destruct (Hpos false m) as [H1 H2]. split; [exact H1|exact H2].
  - destruct (Hpos true m) as [H1 H2]. split; [exact H1|].
    rewrite H2. cbn [cond_Zopp].
    change (Z.neg m * 2 ^ (ez + 1074)) with (- (Z.pos m) * 2 ^ (ez + 1074)).
    rewrite Z.mul_opp_l, RNZ_opp. reflexivity.
Qed.

Lemma SFsub_place x y :
  SpecFloat.valid_binary 53 1024 x = true ->
  SpecFloat.valid_binary 53 1024 y = true ->
  finite_SF x -> finite_SF y ->
  not_nan_SF (SFsub 53 1024 x y)
  /\ place (SFsub 53 1024 x y) = RNZ (place x - place y).
Proof.
  intros Hx Hy Fx Fy.
  destruct x as [sx|sx| |sx mx ex], y as [sy|sy| |sy my ey];
    try contradiction.
  - cbn [SFsub place]. destruct sx, sy; split; try exact I; reflexivity.
  - cbn [SFsub]. split; [exact I|].
    change (place (S754_zero sx)) with 0. rewrite Z.sub_0_l, RNZ_opp.
    rewrite (RNZ_place _ Hy I). cbn [place]. destruct sy; cbn; lia.
  - cbn [SFsub]. split; [exact I|].
    change (place (S754_zero sy)) with 0. rewrite Z.sub_0_r.
    symmetry. apply (RNZ_place _ Hx I).
  - cbn [SFsub].
    pose proof (valid_finite _ _ _ Hx) as (Hex & _).
    pose proof (valid_finite _ _ _ Hy) as (Hey & _).
    destruct (normalize_place
                (cond_Zopp sx (Z.pos (fst (shl_align mx ex (Z.min ex ey))))
                 - cond_Zopp sy (Z.pos (fst (shl_align my ey (Z.min ex ey)))))
                (Z.min ex ey) ltac:(lia)) as [H1 H2].
    split; [exact H1|]. rewrite H2. f_equal. cbn [place].
    rewrite Z.mul_sub_distr_r.
    pose proof (shl_align_place mx ex (Z.min ex ey) ltac:(lia) ltac:(lia)) as Ax.
    pose proof (shl_align_place my ey (Z.min ex ey) ltac:(lia) ltac:(lia)) as Ay.
    destruct sx, sy; cbn [cond_Zopp];
      rewrite ?Z.mul_opp_l, Ax, Ay; reflexivity.
Qed.

(** *** Quotients *)

Lemma new_location_exact nb : new_location nb 0 = loc_Exact.
Proof.
  unfold new_location, new_location_even, new_location_odd.
  destruct (Z.even nb); reflexivity.
Qed.

(** The quotient of two finite numbers: the mantissa of the dividend is
    shifted by some [s], divided with remainder, and the quotient rounded
    at the exponent [L], to one of its neighbours there, the nearest one
    when the division is exact. *)
Lemma SFdiv_finite sx mx ex sy my ey :
  SpecFloat.valid_binary 53 1024 (S754_finite sx mx ex) = true ->
  SpecFloat.valid_binary 53 1024 (S754_finite sy my ey) = true ->
  exists e' q r mr L,
    0 <= ex - ey - e'
    /\ Z.pos mx * 2 ^ (ex - ey - e') = q * Z.pos my + r
    /\ 0 <= r < Z.pos my
    /\ 0 <= q
    /\ L = Z.max (Zdigits2 q + e' - 53) (-1074)
    /\ e' <= L
    /\ (mr = q / 2 ^ (L - e') \/ mr = q / 2 ^ (L - e') + 1)
    /\ (r = 0 -> mr = rne q (L - e'))
    /\ not_nan_SF (SFdiv 53 1024 (S754_finite sx mx ex) (S754_finite sy my ey))
    /\ place (SFdiv 53 1024 (S754_finite sx mx ex) (S754_finite sy my ey))
       = cond_Zopp (xorb sx sy) (Z.min (mr * 2 ^ (L + 1074)) infinity_place).
Proof.
  intros Hx Hy.
  pose proof (valid_finite _ _ _ Hx) as (Hex & Hdx & _).
  pose proof (valid_finite _ _ _ Hy) as (Hey & Hdy & _).
  pose proof (mantissa_bounds mx) as [Hmx1 Hmx2].
  pose proof (mantissa_bounds my) as [Hmy1 Hmy2].
  assert (Hd2 : 0 < Z.pos (digits2_pos my)) by lia.
  cbn [SFdiv]. unfold SFdiv_core_binary. cbn [Zdigits2].
  set (D := Z.pos (digits2_pos mx) + ex - (Z.pos (digits2_pos my) + ey)).
  set (e' := Z.min (fexp 53 1024 D) (ex - ey)).
  assert (He' : e' = Z.min (Z.max (D - 53) (-1074)) (ex - ey))
    by (unfold e'; rewrite fexp_eq; reflexivity).
  set (s := ex - ey - e').
  assert (Hs : 0 <= s) by (unfold s; lia).
  set (m' := match s with
             | 0 => Z.pos mx
             | Z.pos _ => Z.shiftl (Z.pos mx) s
             | Z.neg _ => 0
             end).
  assert (Hm' : m' = Z.pos mx * 2 ^ s).
  { unfold m'. destruct s as [|p|p] eqn:Es; try lia.
    rewrite Z.shiftl_mul_pow2 by lia. reflexivity. }
  pose proof (Z_div_mod m' (Z.pos my) ltac:(lia)) as Hdm.
  destruct (Z.div_eucl m' (Z.pos my)) as [q r] eqn:Hqr.
  destruct Hdm as [Hdm Hr].
  assert (Hps : 0 < 2 ^ s) by (apply Z.pow_pos_nonneg; lia).
  assert (Hm'pos : 0 < m') by (rewrite Hm'; apply Z.mul_pos_pos; lia).
  assert (Hq : 0 <= q) by nia.
  assert (Hqdiv : q = m' / Z.pos my).
  { apply (Z.div_unique m' (Z.pos my) q r); [left; lia|exact Hdm]. }
  assert (HL : e' <= fexp 53 1024 (Zdigits2 q + e')).
  { rewrite fexp_eq.
    destruct (Z_le_gt_dec e' (-1074)) as [Hle|Hgt]; [lia|].
    assert (He'' : e' = D - 53) by (unfold D in *; lia).
    assert (Hsd : s = 53 - Z.pos (digits2_pos mx) + Z.pos (digits2_pos my))
      by (unfold s, D in *; lia).
    assert (H52 : 2 ^ 52 <= q).
    { rewrite Hqdiv. apply Z.div_le_lower_bound; [lia|].
      assert (2 ^ (52 + Z.pos (digits2_pos my)) <= m').
      { rewrite Hm'.
        replace (52 + Z.pos (digits2_pos my))
          with (Z.pos (digits2_pos mx) - 1 + s) by lia.
        rewrite Z.pow_add_r by lia.
        apply Z.mul_le_mono_nonneg_r; lia. }
      assert (Z.pos my * 2 ^ 52 <= 2 ^ Z.pos (digits2_pos my) * 2 ^ 52)
        by (apply Z.mul_le_mono_nonneg_r; lia).
      rewrite (Z.pow_add_r 2 52) in H by lia. lia. }
    assert (53 <= Zdigits2 q).
    { change 53 with (Zdigits2 (2 ^ 52)). apply Zdigits2_mono; [reflexivity|exact H52]. }
    lia. }
  destruct (round_aux_place (xorb sx sy) q e' (new_location (Z.pos my) r) Hq HL)
    as (mr & Hmr & Hexact & Hnn & Hpl).
  exists e', q, r, mr, (Z.max (Zdigits2 q + e' - 53) (-1074)).
  rewrite fexp_eq in Hmr, Hexact, Hpl, HL.
  fold s. rewrite <- Hm'.
  split; [exact Hs|]. split; [lia|]. split; [exact Hr|]. split; [exact Hq|].
  split; [reflexivity|]. split; [exact HL|]. split; [exact Hmr|].
  split; [|split; [exact Hnn|exact Hpl]].
  intros ->. apply Hexact, new_location_exact.
Qed.

(** The magnitude of the quotient of two finite numbers is on the same
    side of 1 as the exact quotient. *)
Lemma SFdiv_magnitude sx mx ex sy my ey :
  SpecFloat.valid_binary 53 1024 (S754_finite sx mx ex) = true ->
  SpecFloat.valid_binary 53 1024 (S754_finite sy my ey) = true ->
  exists Qm,
    0 <= Qm
    /\ not_nan_SF (SFdiv 53 1024 (S754_finite sx mx ex) (S754_finite sy my ey))
    /\ place (SFdiv 53 1024 (S754_finite sx mx ex) (S754_finite sy my ey))
       = cond_Zopp (xorb sx sy) Qm
    /\ (Z.pos my * 2 ^ (ey + 1074) <= Z.pos mx * 2 ^ (ex + 1074)
        -> 2 ^ 1074 <= Qm)
    /\ (Z.pos mx * 2 ^ (ex + 1074) <= Z.pos my * 2 ^ (ey + 1074)
        -> Qm <= 2 ^ 1074).
Proof.
  intros Hx Hy.
  destruct (SFdiv_finite sx mx ex sy my ey Hx Hy)
    as (e' & q & r & mr & L & Hs & Hdm & Hr & Hq & HL & HeL & Hmr & Hexact
        & Hnn & Hpl).
  pose proof (valid_finite _ _ _ Hx) as (Hex & Hdx & _).
  pose proof (valid_finite _ _ _ Hy) as (Hey & Hdy & _).
  pose proof (mantissa_bounds mx) as [Hmx1 Hmx2].
  pose proof (mantissa_bounds my) as [Hmy1 Hmy2].
  set (s := ex - ey - e') in *.
  set (u := ex + 1074). set (t := ey + 1074).
  set (n := L - e') in *.
  assert (Hn : 0 <= n) by (unfold n; lia).
  assert (Hpn : 0 < 2 ^ n) by (apply Z.pow_pos_nonneg; lia).
  assert (Hps : 0 < 2 ^ s) by (apply Z.pow_pos_nonneg; lia).
  assert (Hpu : 0 < 2 ^ u) by (apply Z.pow_pos_nonneg; unfold u; lia).
  assert (Hpt : 0 < 2 ^ t) by (apply Z.pow_pos_nonneg; unfold t; lia).
  assert (HLmin : -1074 <= L) by lia.
  assert (HpL : 0 < 2 ^ (L + 1074)) by (apply Z.pow_pos_nonneg; lia).
  assert (Hqq : 0 <= q / 2 ^ n) by (apply Z.div_pos; lia).
  assert (Hmr0 : 0 <= mr) by lia.
  assert (Htop : 2 ^ 1074 <= infinity_place)
    by (unfold infinity_place; apply Z.pow_le_mono_r; lia).
  exists (Z.min (mr * 2 ^ (L + 1074)) infinity_place).
  split; [unfold infinity_place in *; nia|].
  split; [exact Hnn|]. split; [exact Hpl|]. split.
  - (* the quotient is at least 1 *)
    intros Hge. apply Z.min_glb; [|exact Htop].
    destruct (Z_le_gt_dec L 0) as [HL0|HL0].
    + assert (He0 : e' <= 0) by lia.
      assert (Hq' : 2 ^ (- e') <= q).
      { assert (Hm : Z.pos my * 2 ^ (- e') <= Z.pos mx * 2 ^ s).
        { apply (Z.mul_le_mono_pos_r _ _ (2 ^ u)); [lia|].
          rewrite <- !Z.mul_assoc, <- !Z.pow_add_r by (unfold u; lia).
          replace (- e' + u) with (t + s) by (unfold u, t, s; lia).
          replace (s + u) with (u + s) by lia.
          rewrite !Z.pow_add_r by (unfold u, t; lia).
          rewrite !Z.mul_assoc. apply Z.mul_le_mono_nonneg_r; lia. }
        assert (2 ^ (- e') <= (q * Z.pos my + r) / Z.pos my).
        { apply Z.div_le_lower_bound; lia. }
        rewrite Z.div_add_l, (Z.div_small r) in H by lia. lia. }
      assert (Hk : 2 ^ (- L) <= q / 2 ^ n).
      { apply Z.div_le_lower_bound; [lia|].
        rewrite <- Z.pow_add_r by lia.
        replace (n + - L) with (- e') by (unfold n; lia). exact Hq'. }
      assert (2 ^ (- L) * 2 ^ (L + 1074) <= mr * 2 ^ (L + 1074))
        by (apply Z.mul_le_mono_nonneg_r; lia).
      rewrite <- Z.pow_add_r in H by lia.
      replace (- L + (L + 1074)) with 1074 in H by lia. exact H.
    + assert (HLd : L = Zdigits2 q + e' - 53) by lia.
      destruct (Z.eq_dec q 0) as [Hq0|Hq0].
      { rewrite Hq0 in HLd. cbn [Zdigits2] in HLd. lia. }
      pose proof (Zdigits2_bounds q ltac:(lia)) as [Hd _].
      assert (H1 : 1 <= q / 2 ^ n).
      { apply Z.div_le_lower_bound; [lia|]. rewrite Z.mul_1_r.
        assert (2 ^ n <= 2 ^ (Zdigits2 q - 1))
          by (apply Z.pow_le_mono_r; unfold n; lia).
        lia. }
      assert (2 ^ 1074 <= 2 ^ (L + 1074)) by (apply Z.pow_le_mono_r; lia).
      nia.
  - (* the quotient is at most 1 *)
    intros Hle. etransitivity; [apply Z.le_min_l|].
    assert (HD : Z.pos (digits2_pos mx) + u <= Z.pos (digits2_pos my) + t).
    { assert (2 ^ (Z.pos (digits2_pos mx) - 1 + u)
              < 2 ^ (Z.pos (digits2_pos my) + t)).
      { rewrite !Z.pow_add_r by (unfold u, t; lia).
        assert (2 ^ (Z.pos (digits2_pos mx) - 1) * 2 ^ u <= Z.pos mx * 2 ^ u)
          by (apply Z.mul_le_mono_nonneg_r; lia).
        assert (Z.pos my * 2 ^ t < 2 ^ Z.pos (digits2_pos my) * 2 ^ t)
          by (apply Z.mul_lt_mono_pos_r; lia).
        unfold u, t in *. lia. }
      apply pow2_lt_inv in H; [lia|unfold t; lia]. }
    assert (He0 : e' <= 0).
    { destruct (Z.eq_dec q 0) as [Hq0|Hq0].
      - rewrite Hq0 in HL. cbn [Zdigits2] in HL. lia.
      - (* a non-zero quotient: the shift is positive *)
        destruct (Z_le_gt_dec e' 0) as [?|Hgt]; [assumption|exfalso].
        assert (s < u - t) by (unfold s, u, t; lia).
        assert (Hlt : Z.pos mx * 2 ^ s < Z.pos my).
        { apply (Z.mul_lt_mono_pos_r (2 ^ t)); [lia|].
          assert (Z.pos mx * 2 ^ s * 2 ^ t < Z.pos mx * 2 ^ u).
          { rewrite <- Z.mul_assoc, <- Z.pow_add_r by (unfold t; lia).
            apply Z.mul_lt_mono_pos_l; [lia|].
            apply Z.pow_lt_mono_r; unfold u, t in *; lia. }
          lia. }
        assert (q * Z.pos my <= Z.pos mx * 2 ^ s) by lia.
        assert (1 <= q) by lia. nia. }
    assert (Hm : Z.pos mx * 2 ^ s <= Z.pos my * 2 ^ (- e')).
    { apply (Z.mul_le_mono_pos_r _ _ (2 ^ u)); [lia|].
      rewrite <- !Z.mul_assoc, <- !Z.pow_add_r by (unfold u; lia).
      replace (- e' + u) with (t + s) by (unfold u, t, s; lia).
      replace (s + u) with (u + s) by lia.
      rewrite !Z.pow_add_r by (unfold u, t; lia).
      rewrite !Z.mul_assoc. apply Z.mul_le_mono_nonneg_r; lia. }
    assert (Hpe : 0 < 2 ^ (- e')) by (apply Z.pow_pos_nonneg; lia).
    assert (Hq' : q <= 2 ^ (- e')) by nia.
    assert (HL0 : L <= 0).
    { destruct (Z.eq_dec q 0) as [Hq0|Hq0].
      - rewrite Hq0 in HL. cbn [Zdigits2] in HL. lia.
      - pose proof (Zdigits2_bounds q ltac:(lia)) as [Hd _].
        assert (2 ^ (Zdigits2 q - 1) < 2 ^ (- e' + 1)).
        { rewrite (Z.pow_add_r 2 (- e') 1) by lia. lia. }
        apply pow2_lt_inv in H; lia. }
    assert (Hsplit : 2 ^ (- e') = 2 ^ (- L) * 2 ^ n).
    { rewrite <- Z.pow_add_r by lia. f_equal. unfold n. lia. }
    assert (HpK : 0 < 2 ^ (- L)) by (apply Z.pow_pos_nonneg; lia).
    assert (Hmrle : mr <= 2 ^ (- L)).
    { destruct (Z.eq_dec r 0) as [Hr0|Hr0].
      - rewrite (Hexact Hr0). apply rne_below; [lia|]. lia.
      - assert (q < 2 ^ (- L) * 2 ^ n) by nia.
        assert (q / 2 ^ n < 2 ^ (- L)).
        { apply Z.div_lt_upper_bound; lia. }
        lia. }
    assert (mr * 2 ^ (L + 1074) <= 2 ^ (- L) * 2 ^ (L + 1074))
      by (apply Z.mul_le_mono_nonneg_r; lia).
    rewrite <- Z.pow_add_r in H by lia.
    replace (- L + (L + 1074)) with 1074 in H by lia. exact H.
Qed.

(** *** The primitive floats *)

Lemma finite_not_nan x : finite x -> not_nan x.
Proof. unfold finite, not_nan. destruct (Prim2SF x); cbn; tauto. Qed.

Lemma compare_place x y :
  not_nan x -> not_nan y ->
  SFcompare (Prim2SF x) (Prim2SF y) = Some (pl x ?= pl y).
Proof.
  intros Hx Hy. apply SFcompare_place; auto using FloatAxioms.Prim2SF_valid.
Qed.

Lemma ltb_place x y :
  not_nan x -> not_nan y -> (x <? y)%float = (pl x <? pl y).
Proof.
  intros Hx Hy. rewrite FloatAxioms.ltb_spec. unfold SFltb.
  rewrite (compare_place x y Hx Hy). unfold Z.ltb.
  destruct (pl x ?= pl y); reflexivity.
Qed.

Lemma leb_place x y :
  not_nan x -> not_nan y -> (x <=? y)%float = (pl x <=? pl y).
Proof.
  intros Hx Hy. rewrite FloatAxioms.leb_spec. unfold SFleb.
  rewrite (compare_place x y Hx Hy). unfold Z.leb.
  destruct (pl x ?= pl y); reflexivity.
Qed.

Lemma eqb_place x y :
  not_nan x -> not_nan y -> (x =? y)%float = (pl x =? pl y).
Proof.
  intros Hx Hy. rewrite FloatAxioms.eqb_spec. unfold SFeqb.
  rewrite (compare_place x y Hx Hy).
  destruct (Z.compare_spec (pl x) (pl y)) as [H|H|H]; symmetry.
  - apply Z.eqb_eq, H.
  - apply Z.eqb_neq. lia.
  - apply Z.eqb_neq. lia.
Qed.

Lemma SFcompare_not_nan x y c :
  SFcompare x y = Some c -> not_nan_SF x /\ not_nan_SF y.
Proof.
  destruct x as [sx|sx| |sx mx ex], y as [sy|sy| |sy my ey]; cbn;
    try discriminate; auto.
Qed.

Lemma ltb_true x y :
  (x <? y)%float = true -> not_nan x /\ not_nan y /\ pl x < pl y.
Proof.
  intros H. assert (Hn : not_nan x /\ not_nan y).
  { rewrite FloatAxioms.ltb_spec in H. unfold SFltb in H.
    destruct (SFcompare (Prim2SF x) (Prim2SF y)) as [c|] eqn:E; [|discriminate].
    exact (SFcompare_not_nan _ _ _ E). }
  destruct Hn as [Hx Hy]. rewrite (ltb_place x y Hx Hy) in H.
  split; [exact Hx|]. split; [exact Hy|]. lia.
Qed.

Lemma leb_true x y :
  (x <=? y)%float = true -> not_nan x /\ not_nan y /\ pl x <= pl y.
Proof.
  intros H. assert (Hn : not_nan x /\ not_nan y).
  { rewrite FloatAxioms.leb_spec in H. unfold SFleb in H.
    destruct (SFcompare (Prim2SF x) (Prim2SF y)) as [c|] eqn:E; [|discriminate].
    exact (SFcompare_not_nan _ _ _ E). }
  destruct Hn as [Hx Hy]. rewrite (leb_place x y Hx Hy) in H.
  split; [exact Hx|]. split; [exact Hy|]. lia.
Qed.

Lemma ltb_nan_l x y : ~ not_nan x -> (x <? y)%float = false.
Proof.
  intros Hx. destruct (x <? y)%float eqn:E; [|reflexivity].
  apply ltb_true in E. tauto.
Qed.

Lemma sub_finite x y :
  finite x -> finite y ->
  not_nan (x - y) /\ pl (x - y) = RNZ (pl x - pl y).
Proof.
  intros Hx Hy. unfold not_nan, pl. rewrite FloatAxioms.sub_spec.
  apply SFsub_place; auto using FloatAxioms.Prim2SF_valid.
Qed.

Lemma sub_infinity x y s :
  Prim2SF x = S754_infinity s -> finite y ->
  Prim2SF (x - y) = S754_infinity s.
Proof.
  intros Hx Hy. rewrite FloatAxioms.sub_spec, Hx. unfold finite in Hy.
  destruct (Prim2SF y); try contradiction; reflexivity.
Qed.

(** Places of the numbers: the finite ones are strictly inside, the
    infinities at the ends, and only zeros are at 0. *)
Lemma place_range x :
  SpecFloat.valid_binary 53 1024 x = true ->
  match x with
  | S754_zero _ => place x = 0
  | S754_finite s _ _ =>
      if s then - infinity_place < place x < 0 else 0 < place x < infinity_place
  | S754_infinity s => place x = cond_Zopp s infinity_place
  | S754_nan => True
  end.
Proof.
  intros Hv. destruct x as [s|s| |s m e]; [reflexivity|reflexivity|exact I|].
  pose proof (finite_place_bounds s m e Hv). cbn [place].
  destruct s; cbn [cond_Zopp]; lia.
Qed.

Lemma infinity_place_pos : 0 < infinity_place.
Proof. unfold infinity_place. apply Z.pow_pos_nonneg; lia. Qed.

Lemma pl_one : pl 1 = 2 ^ 1074.
Proof. reflexivity. Qed.

Lemma pl_zero : pl 0 = 0.
Proof. reflexivity. Qed.

Lemma one_lt_infinity_place : 2 ^ 1074 < infinity_place.
Proof. unfold infinity_place. apply Z.pow_lt_mono_r; lia. Qed.

(** A quotient by a positive divisor, the two not both infinite: it is a
    number, with the sign of the dividend, and on the same side of 1 as the
    exact quotient. *)
Lemma SFdiv_pos_divisor a r :
  SpecFloat.valid_binary 53 1024 a = true ->
  SpecFloat.valid_binary 53 1024 r = true ->
  not_nan_SF a -> not_nan_SF r -> 0 < place r ->
  finite_SF a \/ finite_SF r ->
  not_nan_SF (SFdiv 53 1024 a r)
  /\ (place a <= 0 -> place (SFdiv 53 1024 a r) <= 0)
  /\ (0 <= place a -> 0 <= place (SFdiv 53 1024 a r))
  /\ (place r <= place a -> 2 ^ 1074 <= place (SFdiv 53 1024 a r))
  /\ (place a <= place r -> place (SFdiv 53 1024 a r) <= 2 ^ 1074).
Proof.
  intros Va Vr Na Nr Hr Hfin.
  pose proof (place_range a Va) as Pa. pose proof (place_range r Vr) as Pr.
  pose proof infinity_place_pos. pose proof one_lt_infinity_place.
  assert (H1 : 0 < 2 ^ 1074) by (apply Z.pow_pos_nonneg; lia).
  destruct r as [sr|sr| |sr mr er]; try contradiction.
  - cbn [place] in Hr. lia.
  - (* an infinite divisor *)
    destruct sr; cbn [place cond_Zopp] in *; [lia|].
    destruct a as [sa|sa| |sa ma ea]; try contradiction.
    + cbn [SFdiv place]. repeat split; auto; lia.
    + cbn in Hfin. tauto.
    + cbn [SFdiv place] in *.
      destruct sa; cbn [cond_Zopp] in *; repeat split; auto; lia.
  - (* a finite divisor *)
    destruct sr; [cbn [place cond_Zopp] in *; lia|].
    destruct a as [sa|sa| |sa ma ea]; try contradiction.
    + cbn [SFdiv place] in *. repeat split; auto; lia.
    + cbn [SFdiv place] in *. rewrite xorb_false_r.
      destruct sa; cbn [cond_Zopp] in *; repeat split; auto; lia.
    + destruct (SFdiv_magnitude sa ma ea false mr er Va Vr)
        as (Qm & HQ0 & Hnn & Hpl & Hge & Hle).
      rewrite xorb_false_r in Hpl. split; [exact Hnn|]. rewrite Hpl.
      cbn [place] in *.
      destruct sa; cbn [cond_Zopp] in *; repeat split; intros; lia.
Qed.

Lemma pl_classify x :
  not_nan x ->
  (finite x /\ - infinity_place < pl x < infinity_place)
  \/ (~ finite x /\ (pl x = infinity_place \/ pl x = - infinity_place)).
Proof.
  unfold not_nan, finite, pl. intros Hn.
  pose proof (place_range _ (FloatAxioms.Prim2SF_valid x)) as P.
  pose proof infinity_place_pos.
  destruct (Prim2SF x) as [s|s| |s m e]; try contradiction.
  - left. split; [exact I|]. lia.
  - right. split; [tauto|]. rewrite P. destruct s; cbn; lia.
  - left. split; [exact I|]. destruct s; lia.
Qed.

Lemma div_pos_divisor a r :
  not_nan a -> not_nan r -> 0 < pl r -> finite a \/ finite r ->
  not_nan (a / r)
  /\ (pl a <= 0 -> pl (a / r) <= 0)
  /\ (0 <= pl a -> 0 <= pl (a / r))
  /\ (pl r <= pl a -> 2 ^ 1074 <= pl (a / r))
  /\ (pl a <= pl r -> pl (a / r) <= 2 ^ 1074).
Proof.
  intros Na Nr Hr Hfin. unfold not_nan, pl. rewrite FloatAxioms.div_spec.
  apply SFdiv_pos_divisor; auto using FloatAxioms.Prim2SF_valid.
Qed.

(** A quotient that is at least 1 in exact arithmetic is not below 1. *)
Lemma div_not_below_1 a r :
  not_nan a -> not_nan r -> 0 < pl r -> pl r <= pl a ->
  (a / r <? 1)%float = false.
Proof.
  intros Na Nr Hr Hle.
  destruct (pl_classify a Na) as [[Fa _]|[Fa Ia]].
  - destruct (div_pos_divisor a r Na Nr Hr (or_introl Fa)) as (Nq & _ & _ & Hge & _).
    rewrite ltb_place, pl_one by (auto; exact I). apply Z.ltb_ge, Hge, Hle.
  - destruct (pl_classify r Nr) as [[Fr _]|[Fr Ir]].
    + destruct (div_pos_divisor a r Na Nr Hr (or_intror Fr)) as (Nq & _ & _ & Hge & _).
      rewrite ltb_place, pl_one by (auto; exact I). apply Z.ltb_ge, Hge, Hle.
    + (* infinity over infinity *)
      apply ltb_nan_l. unfold not_nan. rewrite FloatAxioms.div_spec.
      unfold finite, not_nan in *.
      destruct (Prim2SF a) as [sa|sa| |sa ma ea]; cbn in Fa; try tauto;
      destruct (Prim2SF r) as [sr|sr| |sr mr er]; cbn in Fr; try tauto.
Qed.

Lemma max_place_eq : max_place = infinity_place - 2 ^ 2045.
Proof. reflexivity. Qed.

Lemma finite_place_le x :
  finite x -> - max_place <= pl x <= max_place.
Proof.
  unfold finite, pl. intros Hf.
  pose proof (FloatAxioms.Prim2SF_valid x) as Hv.
  assert (0 < max_place) by reflexivity.
  destruct (Prim2SF x) as [s|s| |s m e]; try contradiction; cbn [place]; [lia|].
  pose proof (valid_finite _ _ _ Hv) as (He & Hd & _).
  pose proof (mantissa_bounds m) as [_ Hm].
  assert (Z.pos m * 2 ^ (e + 1074) <= max_place).
  { unfold max_place.
    assert (2 ^ Z.pos (digits2_pos m) <= 2 ^ 53) by (apply Z.pow_le_mono_r; lia).
    assert (0 < 2 ^ (e + 1074)) by (apply Z.pow_pos_nonneg; lia).
    assert (2 ^ (e + 1074) <= 2 ^ 2045) by (apply Z.pow_le_mono_r; lia).
    assert (Z.pos m * 2 ^ (e + 1074) <= (2 ^ 53 - 1) * 2 ^ (e + 1074))
      by (apply Z.mul_le_mono_nonneg_r; lia).
    assert ((2 ^ 53 - 1) * 2 ^ (e + 1074) <= (2 ^ 53 - 1) * 2 ^ 2045)
      by (apply Z.mul_le_mono_nonneg_l; lia).
    lia. }
  destruct s; cbn [cond_Zopp]; lia.
Qed.

Lemma RN_max_place : RN max_place = max_place.
Proof.
  unfold max_place. apply RN_multiple; [reflexivity|lia|].
  reflexivity.
Qed.

(** A difference that overflows is beyond the largest finite place. *)
Lemma RNZ_overflow X : 0 < X -> RNZ X = infinity_place -> max_place < X.
Proof.
  intros HX Htop. destruct (Z_le_gt_dec X max_place) as [Hle|]; [|lia].
  exfalso. rewrite RNZ_pos_eq in Htop by lia.
  pose proof (RN_le_representable X max_place HX Hle RN_max_place).
  rewrite max_place_eq in *. assert (0 < 2 ^ 2045) by reflexivity. lia.
Qed.

Lemma pl_infinity_inv x : not_nan x -> pl x = infinity_place -> Prim2SF x = S754_infinity false.
Proof.
  unfold not_nan, pl. intros Hn Hp.
  pose proof (place_range _ (FloatAxioms.Prim2SF_valid x)) as P.
  pose proof infinity_place_pos.
  destruct (Prim2SF x) as [s|s| |s m e]; try contradiction.
  - cbn [place] in Hp. lia.
  - destruct s; [cbn in Hp; lia|reflexivity].
  - destruct s; lia.
Qed.

Lemma pl_neg_infinity_inv x :
  not_nan x -> pl x = - infinity_place -> Prim2SF x = S754_infinity true.
Proof.
  unfold not_nan, pl. intros Hn Hp.
  pose proof (place_range _ (FloatAxioms.Prim2SF_valid x)) as P.
  pose proof infinity_place_pos.
  destruct (Prim2SF x) as [s|s| |s m e]; try contradiction.
  - cbn [place] in Hp. lia.
  - destruct s; [reflexivity|cbn in Hp; lia].
  - destruct s; lia.
Qed.

Lemma pl_infinity x s : Prim2SF x = S754_infinity s -> pl x = cond_Zopp s infinity_place.
Proof. unfold pl. intros ->. reflexivity. Qed.

Lemma infinity_not_nan x s : Prim2SF x = S754_infinity s -> not_nan x.
Proof. unfold not_nan. intros ->. exact I. Qed.

(** Two differences over consecutive parts of the finite range do not
    both overflow. *)
Lemma differences_overflow a b c :
  finite a -> finite b -> finite c -> pl a <= pl b -> pl b <= pl c ->
  ~ (RNZ (pl b - pl a) = infinity_place /\ RNZ (pl c - pl b) = infinity_place).
Proof.
  intros Fa Fb Fc Hab Hbc [H1 H2].
  pose proof (finite_place_le a Fa). pose proof (finite_place_le c Fc).
  pose proof infinity_place_pos.
  assert (0 < pl b - pl a).
  { destruct (Z.eq_dec (pl b - pl a) 0) as [E|]; [|lia].
    rewrite E in H1. cbn in H1. lia. }
  assert (0 < pl c - pl b).
  { destruct (Z.eq_dec (pl c - pl b) 0) as [E|]; [|lia].
    rewrite E in H2. cbn in H2. lia. }
  apply RNZ_overflow in H1; [|lia]. apply RNZ_overflow in H2; [|lia]. lia.
Qed.

Lemma max_place_lt_infinity : max_place < infinity_place.
Proof. reflexivity. Qed.

(** Subtracting the same finite number keeps the order, also from an
    infinity. *)
Lemma sub_mono v w m :
  not_nan v -> not_nan w -> finite m -> pl v <= pl w ->
  (finite v \/ finite w) ->
  not_nan (v - m) /\ not_nan (w - m) /\ pl (v - m) <= pl (w - m).
Proof.
  intros Nv Nw Fm Hle Hfin.
  pose proof infinity_place_pos. pose proof max_place_lt_infinity.
  assert (Hrange : forall u, finite u ->
            not_nan (u - m) /\ - infinity_place <= pl (u - m) <= infinity_place).
  { intros u Fu. destruct (sub_finite u m Fu Fm) as [Nu Pu].
    split; [exact Nu|]. destruct (pl_classify _ Nu) as [[_ ?]|[_ ?]]; lia. }
  destruct (pl_classify v Nv) as [[Fv Rv]|[Iv Pv]],
           (pl_classify w Nw) as [[Fw Rw]|[Iw Pw]].
  - destruct (sub_finite v m Fv Fm) as [Na Pa], (sub_finite w m Fw Fm) as [Nb Pb].
    split; [exact Na|]. split; [exact Nb|]. rewrite Pa, Pb. apply RNZ_mono. lia.
  - (* [w] is the positive infinity *)
    assert (Hw : pl w = infinity_place) by lia.
    pose proof (sub_infinity w m false (pl_infinity_inv w Nw Hw) Fm) as Hs.
    destruct (Hrange v Fv) as [Na Ra].
    split; [exact Na|]. split; [exact (infinity_not_nan _ _ Hs)|].
    rewrite (pl_infinity _ _ Hs). cbn [cond_Zopp]. lia.
  - (* [v] is the negative infinity *)
    assert (Hv : pl v = - infinity_place) by lia.
    pose proof (sub_infinity v m true (pl_neg_infinity_inv v Nv Hv) Fm) as Hs.
    destruct (Hrange w Fw) as [Nb Rb].
    split; [exact (infinity_not_nan _ _ Hs)|]. split; [exact Nb|].
    rewrite (pl_infinity _ _ Hs). cbn [cond_Zopp]. lia.
  - tauto.
Qed.

Lemma place_finite x : not_nan x -> - infinity_place < pl x < infinity_place -> finite x.
Proof.
  intros Nx Hr. destruct (pl_classify x Nx) as [[F _]|[_ ?]]; [exact F|lia].
Qed.

(** *** Sums, products and the error of a rounding *)

Lemma SFadd_place x y :
  SpecFloat.valid_binary 53 1024 x = true ->
  SpecFloat.valid_binary 53 1024 y = true ->
  finite_SF x -> finite_SF y ->
  not_nan_SF (SFadd 53 1024 x y)
  /\ place (SFadd 53 1024 x y) = RNZ (place x + place y).
Proof.
  intros Hx Hy Fx Fy.
  destruct x as [sx|sx| |sx mx ex], y as [sy|sy| |sy my ey];
    try contradiction.
  - cbn [SFadd place]. destruct sx, sy; split; try exact I; reflexivity.
  - cbn [SFadd]. split; [exact I|].
    change (place (S754_zero sx)) with 0. rewrite Z.add_0_l.
    symmetry. apply (RNZ_place _ Hy I).
  - cbn [SFadd]. split; [exact I|].
    change (place (S754_zero sy)) with 0. rewrite Z.add_0_r.
    symmetry. apply (RNZ_place _ Hx I).
  - cbn [SFadd].
    pose proof (valid_finite _ _ _ Hx) as (Hex & _).
    pose proof (valid_finite _ _ _ Hy) as (Hey & _).
    destruct (normalize_place
                (cond_Zopp sx (Z.pos (fst (shl_align mx ex (Z.min ex ey))))
                 + cond_Zopp sy (Z.pos (fst (shl_align my ey (Z.min ex ey)))))
                (Z.min ex ey) ltac:(lia)) as [H1 H2].
    split; [exact H1|]. rewrite H2. f_equal. cbn [place].
    rewrite Z.mul_add_distr_r.
    pose proof (shl_align_place mx ex (Z.min ex ey) ltac:(lia) ltac:(lia)) as Ax.
    pose proof (shl_align_place my ey (Z.min ex ey) ltac:(lia) ltac:(lia)) as Ay.
    destruct sx, sy; cbn [cond_Zopp];
      rewrite ?Z.mul_opp_l, Ax, Ay; reflexivity.
Qed.

Lemma add_finite x y :
  finite x -> finite y ->
  not_nan (x + y) /\ pl (x + y) = RNZ (pl x + pl y).
Proof.
  intros Hx Hy. unfold not_nan, pl. rewrite FloatAxioms.add_spec.
  apply SFadd_place; auto using FloatAxioms.Prim2SF_valid.
Qed.

Lemma Zdigits2_mul_pow2 X Y a b :
  0 < X -> 0 < Y -> 0 <= a -> 0 <= b -> X * 2 ^ a = Y * 2 ^ b ->
  Zdigits2 X + a = Zdigits2 Y + b.
Proof.
  intros HX HY Ha Hb Heq.
  rewrite <- (Zdigits2_shift X a), <- (Zdigits2_shift Y b) by lia.
  rewrite Heq. reflexivity.
Qed.

(** A product of two finite numbers whose exact value is a whole number
    [Z] of units: the rounding of [Z]. *)
Lemma SFmul_place x y Z :
  SpecFloat.valid_binary 53 1024 x = true ->
  SpecFloat.valid_binary 53 1024 y = true ->
  finite_SF x -> finite_SF y ->
  place x * place y = Z * 2 ^ 1074 ->
  not_nan_SF (SFmul 53 1024 x y)
  /\ place (SFmul 53 1024 x y) = RNZ Z.
Proof.
  intros Hx Hy Fx Fy HZ.
  assert (Hone : 0 < 2 ^ 1074) by (apply Z.pow_pos_nonneg; lia).
  assert (Hzero : place x * place y = 0 -> RNZ Z = 0).
  { intros H0. rewrite H0 in HZ. symmetry in HZ.
    apply Z.mul_eq_0_l in HZ; [|lia]. subst Z. reflexivity. }
  destruct x as [sx|sx| |sx mx ex], y as [sy|sy| |sy my ey];
    try contradiction;
    try (cbn [SFmul place]; split; [exact I|];
         symmetry; apply Hzero; cbn [place]; lia).
  cbn [SFmul].
  pose proof (valid_finite _ _ _ Hx) as (Hex & Hdx & Hnx).
  pose proof (valid_finite _ _ _ Hy) as (Hey & Hdy & Hny).
  pose proof (finite_place_bounds sx mx ex Hx) as [HX0 _].
  pose proof (finite_place_bounds sy my ey Hy) as [HY0 _].
  pose proof (mantissa_bounds mx) as [Hmx1 Hmx2].
  pose proof (mantissa_bounds my) as [Hmy1 Hmy2].
  set (M := Z.pos (mx * my)).
  assert (HM : M = Z.pos mx * Z.pos my) by reflexivity.
  set (e := ex + ey).
  set (X := Z.pos mx * 2 ^ (ex + 1074)) in *.
  set (Y := Z.pos my * 2 ^ (ey + 1074)) in *.
  assert (HXY : X * Y = M * 2 ^ (e + 2148)).
  { unfold X, Y, e. rewrite HM.
    replace (ex + ey + 2148) with ((ex + 1074) + (ey + 1074)) by lia.
    rewrite (Z.pow_add_r 2 (ex + 1074) (ey + 1074)) by lia. ring. }
  (* the digits of the product *)
  assert (HdM : Z.pos (digits2_pos mx) + Z.pos (digits2_pos my) - 1
                <= Zdigits2 M).
  { assert (2 ^ (Z.pos (digits2_pos mx) + Z.pos (digits2_pos my) - 2) <= M).
    { rewrite HM.
      replace (Z.pos (digits2_pos mx) + Z.pos (digits2_pos my) - 2)
        with ((Z.pos (digits2_pos mx) - 1) + (Z.pos (digits2_pos my) - 1)) by lia.
      rewrite Z.pow_add_r by lia.
      apply Z.mul_le_mono_nonneg; try lia; apply Z.pow_nonneg; lia. }
    pose proof (Zdigits2_bounds M ltac:(lia)) as [_ Hhi].
    assert (2 ^ (Z.pos (digits2_pos mx) + Z.pos (digits2_pos my) - 2)
            < 2 ^ Zdigits2 M) by lia.
    apply pow2_lt_inv in H0; [lia|].
    pose proof (Zdigits2_pos M ltac:(lia)). lia. }
  assert (HL : e <= fexp 53 1024 (Zdigits2 M + e)).
  { rewrite fexp_eq. unfold e. lia. }
  destruct (round_aux_place (xorb sx sy) M e loc_Exact ltac:(lia) HL)
    as (mr & _ & Hmr & Hnn & Hpl).
  specialize (Hmr eq_refl). rewrite fexp_eq in Hmr, Hpl.
  set (L := Z.max (Zdigits2 M + e - 53) (-1074)) in *.
  split; [exact Hnn|]. rewrite Hpl.
  (* the sign *)
  assert (Hsign : place (S754_finite sx mx ex) * place (S754_finite sy my ey)
                  = cond_Zopp (xorb sx sy) (X * Y)).
  { cbn [place]. fold X Y. destruct sx, sy; cbn [cond_Zopp xorb]; ring. }
  rewrite Hsign in HZ.
  assert (HXYpos : 0 < X * Y) by (apply Z.mul_pos_pos; lia).
  set (Z' := cond_Zopp (xorb sx sy) Z).
  assert (HZ' : X * Y = Z' * 2 ^ 1074).
  { unfold Z'. destruct (xorb sx sy); cbn [cond_Zopp] in *; lia. }
  assert (HZ'pos : 0 < Z').
  { destruct (Z_le_gt_dec Z' 0) as [Hle|]; [exfalso|lia].
    assert (Z' * 2 ^ 1074 <= 0) by (apply Z.mul_nonpos_nonneg; lia). lia. }
  assert (HRN : mr * 2 ^ (L + 1074) = RN Z').
  { unfold RN.
    assert (Hdig : Zdigits2 Z' + 1074 = Zdigits2 M + (e + 2148)).
    { apply Zdigits2_mul_pow2; lia. }
    replace (Z.max (Zdigits2 Z' - 53) 0) with (L + 1074) by (unfold L; lia).
    f_equal. rewrite Hmr.
    destruct (Z_le_gt_dec 0 (e + 1074)) as [He|He].
    - assert (Z' = M * 2 ^ (e + 1074)).
      { apply (Z.mul_cancel_r _ _ (2 ^ 1074)); [lia|].
        rewrite <- HZ', HXY, <- Z.mul_assoc, <- Z.pow_add_r by lia.
        do 2 f_equal. lia. }
      subst Z'. rewrite H.
      replace (L + 1074) with ((L - e) + (e + 1074)) by lia.
      rewrite rne_shift by lia. reflexivity.
    - assert (M = Z' * 2 ^ (- e - 1074)).
      { apply (Z.mul_cancel_r _ _ (2 ^ (e + 2148))); [|].
        { assert (0 < 2 ^ (e + 2148)) by (apply Z.pow_pos_nonneg; unfold e; lia). lia. }
        rewrite <- HXY, HZ', <- Z.mul_assoc, <- Z.pow_add_r by (unfold e; lia).
        do 2 f_equal. lia. }
      rewrite H.
      replace (L - e) with ((L + 1074) + (- e - 1074)) by lia.
      rewrite rne_shift by (unfold L; lia). reflexivity. }
  rewrite HRN.
  replace Z with (cond_Zopp (xorb sx sy) Z')
    by (unfold Z'; destruct (xorb sx sy); cbn [cond_Zopp]; lia).
  destruct (xorb sx sy); cbn [cond_Zopp].
  - rewrite RNZ_opp. f_equal. symmetry. apply RNZ_pos_eq, HZ'pos.
  - symmetry. apply RNZ_pos_eq, HZ'pos.
Qed.

Lemma mul_finite x y Z :
  finite x -> finite y -> pl x * pl y = Z * 2 ^ 1074 ->
  not_nan (x * y) /\ pl (x * y) = RNZ Z.
Proof.
  intros Hx Hy HZ. unfold not_nan, pl. rewrite FloatAxioms.mul_spec.
  apply SFmul_place; auto using FloatAxioms.Prim2SF_valid.
Qed.

(** One rounding adds at most [2^-53] of the value. *)
Lemma RN_relative X : 0 < X -> 2 ^ 53 * RN X <= (2 ^ 53 + 1) * X.
Proof.
  intros HX. unfold RN.
  set (n := Z.max (Zdigits2 X - 53) 0).
  assert (Hn : 0 <= n) by (unfold n; lia).
  assert (Hp : 0 < 2 ^ n) by (apply Z.pow_pos_nonneg; lia).
  pose proof (Zdigits2_bounds X HX) as [Hlo Hhi].
  destruct (Z.eq_dec n 0) as [Hn0|Hn0].
  - rewrite Hn0. unfold rne. change (2 ^ 0) with 1.
    rewrite Z.mod_1_r, Z.div_1_r. change (2 * 0 ?= 1) with Lt. cbv iota. lia.
  - assert (Hnd : n = Zdigits2 X - 53) by (unfold n in *; lia).
    pose proof (Z.div_mod X (2 ^ n) ltac:(lia)) as Hdm.
    pose proof (Z.mod_pos_bound X (2 ^ n) Hp) as Hr.
    assert (Hr2 : 2 * (rne X n * 2 ^ n) <= 2 * X + 2 ^ n).
    { unfold rne.
      destruct (Z.compare_spec (2 * (X mod 2 ^ n)) (2 ^ n)) as [E|E|E];
        [destruct (Z.even (X / 2 ^ n))| |]; nia. }
    assert (H54 : 2 ^ 53 * 2 ^ n <= 2 * X).
    { rewrite <- Z.pow_add_r by lia.
      replace (53 + n) with (1 + (Zdigits2 X - 1)) by lia.
      rewrite Z.pow_add_r by lia. change (2 ^ 1) with 2. lia. }
    nia.
Qed.

Lemma RNZ_relative X : 0 <= X -> 0 <= RNZ X /\ 2 ^ 53 * RNZ X <= (2 ^ 53 + 1) * X.
Proof.
  intros HX. destruct (Z.eq_dec X 0) as [->|Hne]; [cbn; lia|].
  rewrite RNZ_pos_eq by lia.
  pose proof (RN_relative X ltac:(lia)). pose proof (RN_pos X ltac:(lia)).
  pose proof infinity_place_pos. lia.
Qed.

(** The float of a small integer. *)
Lemma pl_float_of_Z z :
  0 <= z < 2 ^ 53 ->
  finite (float_of_Z z) /\ pl (float_of_Z z) = z * 2 ^ 1074.
Proof.
  intros Hz. destruct (Z.eq_dec z 0) as [->|Hne].
  { split; [exact I|reflexivity]. }
  destruct (Prim2SF_float_of_Z z ltac:(lia)) as (m & e & Hx & Hval & _ & He).
  unfold finite, pl. rewrite Hx. split; [exact I|]. cbn [place cond_Zopp].
  assert (Hq : (inject_Z (Z.pos m * 2 ^ (e + 1074))
                == inject_Z (z * 2 ^ 1074))%Q).
  { rewrite !inject_Z_mult, <- !bpow_of_nonneg by lia.
    rewrite <- Hval. unfold F2Q. rewrite bpow_add. ring. }
  unfold Qeq in Hq. cbn in Hq. lia.
Qed.

Lemma RNZ_pl x : finite x -> RNZ (pl x) = pl x.
Proof.
  intros Hx. apply RNZ_place; [apply FloatAxioms.Prim2SF_valid|exact Hx].
Qed.

(** A rounding stays between the places of two floats around the exact
    value. *)
Lemma RNZ_between lo hi X :
  finite lo -> finite hi -> pl lo <= X <= pl hi ->
  pl lo <= RNZ X <= pl hi.
Proof.
  intros Flo Fhi [H1 H2].
  rewrite <- (RNZ_pl lo Flo), <- (RNZ_pl hi Fhi).
  split; apply RNZ_mono; assumption.
Qed.

Lemma finite_between lo hi x :
  finite lo -> finite hi -> not_nan x -> pl lo <= pl x <= pl hi -> finite x.
Proof.
  intros Flo Fhi Nx H. apply place_finite; [exact Nx|].
  pose proof (finite_place_le lo Flo). pose proof (finite_place_le hi Fhi).
  pose proof max_place_lt_infinity. lia.
Qed.

Lemma eqb_true x y : (x =? y)%float = true -> pl x = pl y.
Proof.
  intros H. assert (Hn : not_nan x /\ not_nan y).
  { rewrite FloatAxioms.eqb_spec in H. unfold SFeqb in H.
    destruct (SFcompare (Prim2SF x) (Prim2SF y)) as [c|] eqn:E; [|discriminate].
    exact (SFcompare_not_nan _ _ _ E). }
  destruct Hn as [Hx Hy]. rewrite (eqb_place x y Hx Hy) in H.
  apply Z.eqb_eq, H.
Qed.

End Binary64Rounding.

(** ** [utils/visualization.py] *)

Module VisualizationFacts.

Import PyNum Visualization VisualizationSpec.
Import Binary64Places Binary64Rounding.

Lemma get_color_for_value_unfold value min_value max_value colors :
  get_color_for_value value min_value max_value colors
  = interpolate (position value min_value max_value) colors.
Proof. reflexivity. Qed.

Lemma int64_id z : - 2 ^ 63 <= z < 2 ^ 63 -> int64 z = z.
Proof.
  intros H. unfold int64. rewrite Z.mod_small; lia.
Qed.

Lemma mix_Int_0 a b : - 2 ^ 63 <= a < 2 ^ 63 -> mix (Int 0) a b = Ok a.
Proof.
  intros H. cbn [mix]. f_equal.
  replace ((1 - 0) * a) with a by lia. replace (0 * b) with 0 by lia.
  rewrite (int64_id a H). change (int64 0) with 0.
  rewrite Z.add_0_r. apply int64_id, H.
Qed.

Lemma colors_getitem_0 colors c :
  head colors = Some c -> colors_getitem colors 0 = Ok c.
Proof.
  destruct colors as [|c' colors]; [discriminate|]. intros [= ->].
  unfold colors_getitem, list_getitem_Z. cbn [length].
  replace ((0 <=? 0) && (0 <? Z.of_nat (S (length colors)))) with true
    by (symmetry; apply andb_true_iff; split; [reflexivity|apply Z.ltb_lt; lia]).
  reflexivity.
Qed.

Lemma colors_getitem_last colors c :
  last colors = Some c ->
  colors_getitem colors (Z.of_nat (length colors) - 1) = Ok c.
Proof.
  intros Hl.
  assert (Hn : colors <> []) by (intros ->; discriminate).
  assert (Hlen : (0 < length colors)%nat) by (destruct colors; [congruence|cbn; lia]).
  unfold colors_getitem, list_getitem_Z.
  replace ((0 <=? Z.of_nat (length colors) - 1)
           && (Z.of_nat (length colors) - 1 <? Z.of_nat (length colors)))
    with true
    by (symmetry; apply andb_true_iff; split;
        [apply Z.leb_le; lia|apply Z.ltb_lt; lia]).
  unfold list_getitem.
  replace (Z.to_nat (Z.of_nat (length colors) - 1))
    with (Nat.pred (length colors)) by lia.
  rewrite <- last_lookup, Hl. reflexivity.
Qed.

Lemma interpolate_0 colors c :
  head colors = Some c -> int64_color c ->
  interpolate (Int 0) colors = Ok (rgba c).
Proof.
  intros Hh (Hr & Hg & Hb). unfold interpolate.
  cbn [mul_int py_int_of mbind result_bind sub_int].
  replace (0 * (Z.of_nat (length colors) - 1)) with 0 by lia.
  cbn [mbind result_bind]. rewrite (colors_getitem_0 colors c Hh).
  cbn [mbind result_bind].
  assert (Hup : exists u, colors_getitem colors
                  (Z.min (0 + 1) (Z.of_nat (length colors) - 1)) = Ok u).
  { destruct colors as [|c0 [|c1 colors]]; [discriminate| |].
    - exists c0. reflexivity.
    - exists c1. unfold colors_getitem, list_getitem_Z. cbn [length].
      replace (Z.min (0 + 1) (Z.of_nat (S (S (length colors))) - 1)) with 1 by lia.
      replace ((0 <=? 1) && (1 <? Z.of_nat (S (S (length colors))))) with true
        by (symmetry; apply andb_true_iff; split;
            [reflexivity|apply Z.ltb_lt; lia]).
      reflexivity. }
  destruct Hup as [u ->]. cbn [mbind result_bind].
  replace (0 - 0) with 0 by lia.
  rewrite !mix_Int_0 by assumption. reflexivity.
Qed.

Lemma interpolate_1 colors c :
  last colors = Some c -> int64_color c ->
  interpolate (Int 1) colors = Ok (rgba c).
Proof.
  intros Hl (Hr & Hg & Hb). unfold interpolate.
  cbn [mul_int py_int_of mbind result_bind sub_int].
  replace (1 * (Z.of_nat (length colors) - 1))
    with (Z.of_nat (length colors) - 1) by lia.
  cbn [mbind result_bind].
  replace (Z.min (Z.of_nat (length colors) - 1 + 1) (Z.of_nat (length colors) - 1))
    with (Z.of_nat (length colors) - 1) by lia.
  rewrite (colors_getitem_last colors c Hl). cbn [mbind result_bind].
  replace (Z.of_nat (length colors) - 1 - (Z.of_nat (length colors) - 1))
    with 0 by lia.
  rewrite !mix_Int_0 by assumption. reflexivity.
Qed.

(** The width of a proper domain: a positive number. *)
Lemma width_positive min_value max_value :
  finite min_value -> finite max_value -> pl min_value < pl max_value ->
  not_nan (max_value - min_value)
  /\ pl (max_value - min_value) = RNZ (pl max_value - pl min_value)
  /\ 0 < pl (max_value - min_value)
  /\ (max_value - min_value =? 0)%float = false.
Proof.
  intros Fm FM Hlt.
  destruct (sub_finite max_value min_value FM Fm) as [Nr Pr].
  assert (Hpos : 0 < pl (max_value - min_value)).
  { rewrite Pr. apply RNZ_sign. lia. }
  split; [exact Nr|]. split; [exact Pr|]. split; [exact Hpos|].
  rewrite eqb_place, pl_zero by (auto; exact I). apply Z.eqb_neq. lia.
Qed.

Lemma position_low value min_value max_value :
  finite min_value -> finite max_value -> finite value ->
  pl min_value < pl max_value -> pl value <= pl min_value ->
  position value min_value max_value = Int 0.
Proof.
  intros Fm FM Fv Hlt Hle.
  destruct (width_positive min_value max_value Fm FM Hlt) as (Nr & Pr & Hpos & Hz).
  destruct (sub_finite value min_value Fv Fm) as [Na Pa].
  assert (Ha : pl (value - min_value) <= 0).
  { rewrite Pa. change 0 with (RNZ 0). apply RNZ_mono. lia. }
  assert (Hfin : finite (value - min_value) \/ finite (max_value - min_value)).
  { destruct (pl_classify _ Na) as [[F _]|[_ Ia]]; [left; exact F|].
    destruct (pl_classify _ Nr) as [[F _]|[_ Ir]]; [right; exact F|].
    exfalso. pose proof infinity_place_pos.
    apply (differences_overflow value min_value max_value Fv Fm FM Hle
             ltac:(lia)).
    split.
    - replace (pl min_value - pl value) with (- (pl value - pl min_value)) by lia.
      rewrite RNZ_opp, <- Pa. lia.
    - rewrite <- Pr. lia. }
  destruct (div_pos_divisor _ _ Na Nr Hpos Hfin) as (Nq & Hneg & _).
  specialize (Hneg Ha).
  unfold position. rewrite Hz. unfold min_1.
  rewrite ltb_place, pl_one by (auto; exact I).
  assert (0 < 2 ^ 1074) by (apply Z.pow_pos_nonneg; lia).
  replace (_ <? 2 ^ 1074) with true by (symmetry; apply Z.ltb_lt; lia).
  cbn [max_0]. rewrite ltb_place, pl_zero by (auto; exact I).
  replace (0 <? _) with false by (symmetry; apply Z.ltb_ge; lia).
  reflexivity.
Qed.

Lemma position_high value min_value max_value :
  finite min_value -> finite max_value -> not_nan value ->
  pl min_value < pl max_value -> pl max_value <= pl value ->
  position value min_value max_value = Int 1.
Proof.
  intros Fm FM Nv Hlt Hle.
  destruct (width_positive min_value max_value Fm FM Hlt) as (Nr & Pr & Hpos & Hz).
  assert (Ha : not_nan (value - min_value)
               /\ pl (max_value - min_value) <= pl (value - min_value)).
  { destruct (pl_classify value Nv) as [[Fv _]|[_ Iv]].
    - destruct (sub_finite value min_value Fv Fm) as [Na Pa].
      split; [exact Na|]. rewrite Pa, Pr. apply RNZ_mono. lia.
    - pose proof infinity_place_pos. pose proof (finite_place_le max_value FM).
      assert (max_place < infinity_place) by (rewrite max_place_eq; assert (0 < 2 ^ 2045) by reflexivity; lia).
      assert (Hv : pl value = infinity_place) by lia.
      pose proof (sub_infinity value min_value false (pl_infinity_inv value Nv Hv) Fm) as Hs.
      split; [exact (infinity_not_nan _ _ Hs)|].
      rewrite (pl_infinity _ _ Hs). cbn [cond_Zopp].
      destruct (pl_classify _ Nr) as [[_ ?]|[_ ?]]; lia. }
  destruct Ha as [Na Hge].
  unfold position. rewrite Hz. unfold min_1.
  rewrite (div_not_below_1 _ _ Na Nr Hpos Hge). reflexivity.
Qed.

Lemma position_equal value min_value max_value :
  finite min_value -> finite max_value -> pl min_value = pl max_value ->
  position value min_value max_value = Float 0.5.
Proof.
  intros Fm FM Heq.
  destruct (sub_finite max_value min_value FM Fm) as [Nr Pr].
  unfold position.
  replace (max_value - min_value =? 0)%float with true; [reflexivity|].
  symmetry. rewrite eqb_place, pl_zero by (auto; exact I).
  apply Z.eqb_eq. rewrite Pr. replace (pl max_value - pl min_value) with 0 by lia.
  reflexivity.
Qed.

Lemma position_middle : position 0.5 0 1 = Float 0.5.
Proof. vm_compute. reflexivity. Qed.

(** C6.  For a non-empty array of anchor colours (int64 entries) and a
    domain of finite bounds with [min_value < max_value]: [min_value] gets
    the first anchor colour with alpha 255, [max_value] the last one, every
    value above [max_value] (the infinity too) the last one and every
    finite value below [min_value] the first one (clamping); and when the
    two bounds are finite and equal, every value gets the colour of the
    mid-scale position 0.5, the one 0.5 has on the domain [[0, 1]]. *)
Theorem get_color_for_value_boundaries
    (colors : list rgb) (first_color last_color : rgb)
    (min_value max_value : float) :
  head colors = Some first_color ->
  last colors = Some last_color ->
  int64_color first_color ->
  int64_color last_color ->
  finite min_value ->
  finite max_value ->
  (min_value <? max_value)%float = true ->
  get_color_for_value min_value min_value max_value colors
    = Ok [red first_color; green first_color; blue first_color; 255]
  /\ get_color_for_value max_value min_value max_value colors
    = Ok [red last_color; green last_color; blue last_color; 255]
  /\ (forall value, (max_value <? value)%float = true ->
        get_color_for_value value min_value max_value colors
        = Ok [red last_color; green last_color; blue last_color; 255])
  /\ (forall value, finite value -> (value <? min_value)%float = true ->
        get_color_for_value value min_value max_value colors
        = Ok [red first_color; green first_color; blue first_color; 255])
  /\ (forall value lo hi,
        finite lo -> finite hi -> (lo =? hi)%float = true ->
        get_color_for_value value lo hi colors
        = get_color_for_value 0.5 0 1 colors).
Proof.
  intros Hhead Hlast Hfirst64 Hlast64 Fm FM Hdom.
  apply ltb_true in Hdom as (Nm & NM & Hlt).
  rewrite !get_color_for_value_unfold.
  split; [|split; [|split; [|split]]].
  - rewrite position_low by (auto; lia). apply interpolate_0; assumption.
  - rewrite position_high by (auto; lia). apply interpolate_1; assumption.
  - intros value Hv. apply ltb_true in Hv as (_ & Nv & Hv).
    rewrite get_color_for_value_unfold, position_high by (auto; lia).
    apply interpolate_1; assumption.
  - intros value Fv Hv. apply ltb_true in Hv as (_ & _ & Hv).
    rewrite get_color_for_value_unfold, position_low by (auto; lia).
    apply interpolate_0; assumption.
  - intros value lo hi Flo Fhi Heq.
    rewrite eqb_place in Heq by (apply finite_not_nan; assumption).
    apply Z.eqb_eq in Heq.
    rewrite !get_color_for_value_unfold, position_middle.
    rewrite (position_equal value lo hi Flo Fhi Heq). reflexivity.
Qed.

(** The ends of the default blue-to-red scale over [[0, 10]]. *)
Lemma get_color_for_value_boundaries_witness :
  get_color_for_value 0 0 10 default_color_range = Ok [65; 105; 225; 255]
  /\ get_color_for_value 10 0 10 default_color_range = Ok [255; 0; 0; 255].
Proof.
  destruct (get_color_for_value_boundaries default_color_range
              {| red := 65; green := 105; blue := 225 |}
              {| red := 255; green := 0; blue := 0 |} 0 10)
    as (H1 & H2 & _);
    [reflexivity|reflexivity|vm_compute; intuition discriminate
    |vm_compute; intuition discriminate|exact I|exact I|reflexivity|].
  split; [exact H1|exact H2].
Defined.

(** C7 as stated fails: on the domain [[0, 10]] the value 20 is normalized
    to 2, outside [[0, 1]]. *)
Lemma normalize_not_clamped :
  normalize (generate_color_scale 0 10 None) 20 = 2%float
  /\ (normalize (generate_color_scale 0 10 None) 20 <=? 1)%float = false.
Proof. split; vm_compute; reflexivity. Qed.

(** The divisor of [normalize]: the width of the domain, or 1 when the
    width is zero; a positive finite number when the width is finite. *)
Lemma normalize_divisor min_value max_value :
  finite min_value -> finite max_value ->
  finite (max_value - min_value) -> pl min_value <= pl max_value ->
  exists d,
    (forall color_range x,
       normalize (generate_color_scale min_value max_value color_range) x
       = ((x - min_value) / d)%float)
    /\ finite d /\ 0 < pl d
    /\ (forall X, X <= pl max_value - pl min_value -> RNZ X <= pl d)
    /\ (pl min_value < pl max_value ->
        pl d = RNZ (pl max_value - pl min_value)).
Proof.
  intros Fm FM Fr Hle.
  destruct (sub_finite max_value min_value FM Fm) as [Nr Pr].
  assert (H0 : 0 <= pl (max_value - min_value)).
  { rewrite Pr. change 0 with (RNZ 0). apply RNZ_mono. lia. }
  destruct (max_value - min_value =? 0)%float eqn:Hz.
  - exists 1%float. split.
    { intros color_range x. cbn [normalize generate_color_scale]. rewrite Hz.
      reflexivity. }
    rewrite eqb_place, pl_zero in Hz by (auto; exact I).
    apply Z.eqb_eq in Hz. rewrite Pr in Hz.
    assert (Heq : pl max_value - pl min_value = 0).
    { destruct (Z.eq_dec (pl max_value - pl min_value) 0) as [|Hne]; [assumption|].
      pose proof (RNZ_sign (pl max_value - pl min_value)) as (Hp & _). lia. }
    split; [exact I|]. rewrite pl_one.
    assert (0 < 2 ^ 1074) by (apply Z.pow_pos_nonneg; lia).
    split; [lia|]. split; [|intros; lia].
    intros X HX. transitivity (RNZ 0); [apply RNZ_mono; lia|cbn; lia].
  - exists (max_value - min_value)%float. split.
    { intros color_range x. cbn [normalize generate_color_scale]. rewrite Hz.
      reflexivity. }
    rewrite eqb_place, pl_zero in Hz by (auto; exact I).
    apply Z.eqb_neq in Hz.
    split; [exact Fr|]. split; [lia|]. split; [|intros; exact Pr].
    intros X HX. rewrite Pr. apply RNZ_mono, HX.
Qed.

(** C7, as amended.  On a domain of finite bounds [min_value <= max_value]
    whose width [max_value - min_value] is finite, the [normalize] function
    of [generate_color_scale] gives a result in [[0, 1]] for every value of
    the domain; outside the domain nothing is clamped: below [min_value] the
    result is at most 0 and, when [min_value < max_value], above
    [max_value] it is at least 1. *)
Theorem normalize_within_domain
    (min_value max_value : float) (color_range : option (list rgb))
    (x : float) :
  finite min_value ->
  finite max_value ->
  finite (max_value - min_value) ->
  (min_value <=? max_value)%float = true ->
  let scale := generate_color_scale min_value max_value color_range in
  ((min_value <=? x)%float = true -> (x <=? max_value)%float = true ->
     (0 <=? normalize scale x)%float = true
     /\ (normalize scale x <=? 1)%float = true)
  /\ ((x <? min_value)%float = true ->
      (normalize scale x <=? 0)%float = true)
  /\ ((min_value <? max_value)%float = true ->
      (max_value <? x)%float = true ->
      (1 <=? normalize scale x)%float = true).
Proof.
  intros Fm FM Fr Hdom scale.
  apply leb_true in Hdom as (Nm & NM & Hle).
  destruct (normalize_divisor min_value max_value Fm FM Fr Hle)
    as (d & Hn & Fd & Hd & Hbelow & Hwidth).
  unfold scale. rewrite Hn.
  pose proof (finite_not_nan d Fd) as Nd.
  pose proof infinity_place_pos. pose proof max_place_lt_infinity.
  pose proof (finite_place_le min_value Fm).
  pose proof (finite_place_le max_value FM).
  assert (Hone : 0 < 2 ^ 1074) by (apply Z.pow_pos_nonneg; lia).
  split; [|split].
  - intros Hlo Hhi.
    apply leb_true in Hlo as (_ & Nx & Hlo). apply leb_true in Hhi as (_ & _ & Hhi).
    assert (Fx : finite x) by (apply place_finite; [exact Nx|lia]).
    destruct (sub_finite x min_value Fx Fm) as [Na Pa].
    assert (Ha0 : 0 <= pl (x - min_value)).
    { rewrite Pa. change 0 with (RNZ 0). apply RNZ_mono. lia. }
    assert (Had : pl (x - min_value) <= pl d).
    { rewrite Pa. apply Hbelow. lia. }
    destruct (div_pos_divisor _ _ Na Nd Hd (or_intror Fd))
      as (Nq & _ & Hq0 & _ & Hq1).
    rewrite !leb_place, pl_zero, pl_one by (auto; exact I).
    split; apply Z.leb_le; auto.
  - intros Hlo. apply ltb_true in Hlo as (Nx & _ & Hlo).
    destruct (sub_mono x min_value min_value Nx Nm Fm ltac:(lia) (or_intror Fm))
      as (Na & _ & Hle0).
    destruct (sub_finite min_value min_value Fm Fm) as [_ P0].
    rewrite Z.sub_diag in P0. change (RNZ 0) with 0 in P0. rewrite P0 in Hle0.
    destruct (div_pos_divisor _ _ Na Nd Hd (or_intror Fd))
      as (Nq & Hneg & _).
    rewrite leb_place, pl_zero by (auto; exact I).
    apply Z.leb_le; auto.
  - intros Hlt Hhi.
    apply ltb_true in Hlt as (_ & _ & Hlt). apply ltb_true in Hhi as (_ & Nx & Hhi).
    destruct (sub_mono max_value x min_value NM Nx Fm ltac:(lia) (or_introl FM))
      as (_ & Na & Hge).
    destruct (sub_finite max_value min_value FM Fm) as [_ Pr].
    rewrite Pr, <- (Hwidth Hlt) in Hge.
    destruct (div_pos_divisor _ _ Na Nd Hd (or_intror Fd))
      as (Nq & _ & _ & Hq1 & _).
    rewrite leb_place, pl_one by (auto; exact I).
    apply Z.leb_le; auto.
Qed.

(** The middle of [[0, 10]] is normalized into [[0, 1]]. *)
Lemma normalize_within_domain_witness :
  (0 <=? normalize (generate_color_scale 0 10 None) 5)%float = true
  /\ (normalize (generate_color_scale 0 10 None) 5 <=? 1)%float = true.
Proof.
  apply (normalize_within_domain 0 10 None 5);
    [exact I|exact I|exact I|reflexivity|reflexivity|reflexivity].
Defined.

End VisualizationFacts.

(** ** [services/overpass_service.py] *)

Module OverpassFacts.

Import PyNum Settings OverpassService OverpassSpec.

Section Retry.

Context {data : Type}.

Lemma sleep_ok (secs : Z) (w : world data) :
  0 <= secs <= SLEEP_MAX ->
  sleep secs w = Ok (world_after w 0 [secs]).
Proof.
  intros [Hlo Hhi]. unfold sleep, world_after.
  rewrite (proj2 (Z.ltb_ge _ _)) by (unfold SLEEP_MAX in *; lia).
  rewrite (proj2 (Z.ltb_ge _ _)) by lia.
  rewrite (proj2 (Z.ltb_ge _ _)) by lia.
  cbn [orb foldr]. rewrite Nat.add_0_r, Z.add_0_r. reflexivity.
Qed.

Lemma pow2_sleepable (retries : Z) :
  0 <= retries <= 33 -> 0 <= 2 ^ retries <= SLEEP_MAX.
Proof.
  intros [Hlo Hhi]. split; [apply Z.pow_nonneg; lia|].
  transitivity (2 ^ 33); [apply Z.pow_le_mono_r; lia|].
  unfold SLEEP_MAX. vm_compute. discriminate.
Qed.

Lemma wait_after_sleepable (a : attempt data) (retries : Z) :
  hint_ok a -> 0 <= retries <= 33 -> 0 <= wait_after a retries <= SLEEP_MAX.
Proof.
  intros Hok Hr. unfold wait_after.
  destruct a as [d| |status_code [hint|]|]; try (apply pow2_sleepable, Hr).
  destruct Hok as (secs & -> & Hsecs). exact Hsecs.
Qed.

Lemma world_after_after (w : world data) k1 ws1 k2 ws2 :
  world_after (world_after w k1 ws1) k2 ws2
  = world_after w (k1 + k2) (ws1 ++ ws2).
Proof.
  unfold world_after. cbn [now query_cache requests slept].
  f_equal.
  - rewrite foldr_app. 
    assert (H : forall (l : list Z) a, foldr Z.add a l = foldr Z.add 0 l + a).
    { induction l as [|x l IH]; intros a; cbn [foldr]; [lia|]. rewrite IH. lia. }
    rewrite (H ws1 (foldr Z.add 0 ws2)). lia.
  - lia.
  - rewrite app_assoc. reflexivity.
Qed.

(** One failed attempt of a transient kind. *)
Lemma retry_loop_transient_step cfg ask query r (w : world data) :
  transient (ask (requests w)) ->
  hint_ok (ask (requests w)) ->
  Z.of_nat (S r) <= MAX_RETRIES cfg <= 34 ->
  retry_loop cfg ask query (S r) w
  = retry_loop cfg ask query r
      (world_after w 1
         (match r with
          | O => []
          | S _ => [wait_after (ask (requests w))
                      (MAX_RETRIES cfg - Z.of_nat (S r) + 1)]
          end)).
Proof.
  intros Htr Hok Hmax. cbn [retry_loop].
  set (retries := MAX_RETRIES cfg - Z.of_nat (S r)).
  assert (Hw1 : {| now := now w; query_cache := query_cache w;
                   requests := S (requests w); slept := slept w |}
                = world_after w 1 []).
  { unfold world_after. cbn [foldr]. f_equal; [lia|lia|].
    rewrite app_nil_r. reflexivity. }
  rewrite Hw1.
  destruct r as [|r'].
  - assert (Hlast : (retries + 1 <? MAX_RETRIES cfg) = false)
      by (apply Z.ltb_ge; unfold retries; lia).
    destruct (ask (requests w)) as [d| |status_code hint|]; cbn in Htr;
      try contradiction.
    + rewrite Hlast. reflexivity.
    + subst status_code. cbn [Z.eqb Pos.eqb]. rewrite Hlast. reflexivity.
  - assert (Hmore : (retries + 1 <? MAX_RETRIES cfg) = true)
      by (apply Z.ltb_lt; unfold retries; lia).
    assert (Hr : 0 <= retries + 1 <= 33) by (unfold retries; lia).
    pose proof (wait_after_sleepable _ _ Hok Hr) as Hwait.
    destruct (ask (requests w)) as [d| |status_code hint|] eqn:Ha; cbn in Htr;
      try contradiction.
    + rewrite Hmore. cbn [wait_after] in *.
      rewrite (sleep_ok _ _ Hwait), world_after_after. reflexivity.
    + subst status_code. cbn [Z.eqb Pos.eqb]. rewrite Hmore.
      destruct hint as [hint|].
      * cbn [hint_ok] in Hok. destruct Hok as (secs & Hint & Hsecs).
        cbn [wait_after] in *. rewrite Hint in *.
        rewrite (sleep_ok _ _ Hwait), world_after_after. reflexivity.
      * cbn [wait_after] in *.
        rewrite (sleep_ok _ _ Hwait), world_after_after. reflexivity.
Qed.

Lemma waits_S (ask : server data) base retries n :
  waits ask base retries (S n)
  = wait_after (ask base) (retries + 1)
    :: waits ask (S base) (retries + 1) n.
Proof.
  unfold waits. cbn [seq map]. rewrite Nat.add_0_r. f_equal; [f_equal; lia|].
  rewrite <- seq_shift, map_map. apply map_ext. intros j.
  f_equal; [f_equal; lia|lia].
Qed.

(** [k] failed attempts of a transient kind, [r] attempts left after
    them: the loop has posted [k] requests and slept after each failure
    but the last of all. *)
Lemma retry_loop_transient_prefix cfg ask query k : forall r (w : world data),
  (forall j, (j < k)%nat ->
     transient (ask (requests w + j)%nat) /\ hint_ok (ask (requests w + j)%nat)) ->
  Z.of_nat (k + r) <= MAX_RETRIES cfg <= 34 ->
  retry_loop cfg ask query (k + r) w
  = retry_loop cfg ask query r
      (world_after w k
         (waits ask (requests w) (MAX_RETRIES cfg - Z.of_nat (k + r))
            (match r with O => Nat.pred k | S _ => k end))).
Proof.
  induction k as [|k IH]; intros r w Hall Hmax.
  - cbn [Nat.add]. unfold waits, world_after.
    replace (match r with O => Nat.pred 0 | S _ => 0%nat end) with 0%nat
      by (destruct r; reflexivity).
    cbn [seq map foldr].
    rewrite app_nil_r, Z.add_0_r, Nat.add_0_r. destruct w; reflexivity.
  - cbn [Nat.add].
    destruct (Hall 0%nat ltac:(lia)) as [Htr Hok]. rewrite Nat.add_0_r in Htr, Hok.
    rewrite retry_loop_transient_step by (try assumption; cbn [Nat.add] in Hmax; lia).
    rewrite IH; cycle 1.
    { intros j Hj. cbn [world_after requests].
      replace (requests w + 1 + j)%nat with (requests w + S j)%nat by lia.
      apply Hall. lia. }
    { cbn [Nat.add] in Hmax. lia. }
    rewrite world_after_after. f_equal. f_equal.
    cbn [world_after requests].
    destruct r as [|r'].
    + rewrite Nat.add_0_r. destruct k as [|k']; [reflexivity|].
      cbn [Nat.pred]. rewrite waits_S. cbn [app]. f_equal; f_equal; lia.
    + rewrite waits_S. replace (k + S r')%nat with (S (k + r')) by lia.
      cbn [app]. f_equal; f_equal; lia.
Qed.

Lemma retry_loop_never_raises cfg ask query remaining : forall (w : world data),
  (forall j, hint_ok (ask j)) ->
  Z.of_nat remaining <= MAX_RETRIES cfg <= 34 ->
  exists r w', retry_loop cfg ask query remaining w = (Ok r, w').
Proof.
  induction remaining as [|r IH]; intros w Hok Hmax; [cbn; eauto|].
  destruct (ask (requests w)) as [d| |status_code hint|] eqn:Ha.
  - cbn [retry_loop]. rewrite Ha. eauto.
  - rewrite retry_loop_transient_step; [apply IH; [assumption|lia]|..];
      try (rewrite Ha); try exact I; try apply Hok; assumption.
  - destruct (decide (status_code = 429)) as [->|Hne].
    + rewrite retry_loop_transient_step; [apply IH; [assumption|lia]|..];
        try (rewrite Ha; reflexivity); try apply Hok; assumption.
    + cbn [retry_loop]. rewrite Ha.
      rewrite (proj2 (Z.eqb_neq _ _) Hne). eauto.
  - cbn [retry_loop]. rewrite Ha. eauto.
Qed.

Lemma query_overpass_cache_miss cfg ask (w : world data) query :
  cache_miss cfg w query ->
  query_overpass cfg ask w query
  = retry_loop cfg ask query (Z.to_nat (MAX_RETRIES cfg)) w.
Proof.
  unfold cache_miss, query_overpass. intros [Hoff | [Hnone | (entry & Hsome & Hold)]].
  - rewrite Hoff. reflexivity.
  - rewrite Hnone. destruct (ENABLE_CACHE cfg); reflexivity.
  - rewrite Hsome. rewrite (proj2 (Z.ltb_ge _ _)) by lia.
    destruct (ENABLE_CACHE cfg); reflexivity.
Qed.

Lemma world_after_request (w : world data) k ws :
  {| now := now (world_after w k ws);
     query_cache := query_cache (world_after w k ws);
     requests := S (requests (world_after w k ws));
     slept := slept (world_after w k ws) |}
  = world_after w (S k) ws.
Proof. unfold world_after. cbn. f_equal. lia. Qed.

Lemma requests_world_after (w : world data) k ws :
  requests (world_after w k ws) = (requests w + k)%nat.
Proof. reflexivity. Qed.

Lemma query_overpass_never_raises cfg ask (w : world data) query :
  (forall j, hint_ok (ask j)) ->
  MAX_RETRIES cfg <= 34 ->
  exists r w', query_overpass cfg ask w query = (Ok r, w').
Proof.
  intros Hok Hmax. unfold query_overpass.
  match goal with |- context [match ?c with Some _ => _ | None => _ end] =>
    destruct c as [d|] end; [eauto|].
  destruct (Z.to_nat (MAX_RETRIES cfg)) as [|r] eqn:Hr; [cbn; eauto|].
  apply retry_loop_never_raises; [assumption|lia].
Qed.

(** C9, as amended.  On a cache miss, while the provider times out or
    answers 429 the request is repeated, up to [MAX_RETRIES] attempts in
    all, with the pause [2 ** retries] before the next attempt, or the
    [Retry-After] hint of a 429 response in its place; no pause follows
    the last attempt.  After [k] such failures: when [k] is [MAX_RETRIES]
    the result is [None]; when the next attempt succeeds the result is its
    data, stored in the cache; when it fails in any other way (an HTTP
    error status other than 429, so also a 5xx one, or another exception)
    the result is [None] at once, with no retry.  With [Retry-After] hints
    that are non-negative integers, nothing is raised. *)
Theorem query_overpass_retry_policy
    cfg (ask : server data) (w : world data) (query : string) (k : nat) :
  cache_miss cfg w query ->
  MAX_RETRIES cfg <= 34 ->
  Z.of_nat k <= MAX_RETRIES cfg ->
  (forall j, (j < k)%nat ->
     transient (ask (requests w + j)%nat) /\ hint_ok (ask (requests w + j)%nat)) ->
  (Z.of_nat k = MAX_RETRIES cfg ->
     query_overpass cfg ask w query
     = (Ok None, world_after w k (waits ask (requests w) 0 (Nat.pred k))))
  /\ (Z.of_nat k < MAX_RETRIES cfg ->
      forall d, ask (requests w + k)%nat = Responds d ->
        query_overpass cfg ask w query
        = (Ok (Some d),
           store_in_cache cfg query d
             (world_after w (S k) (waits ask (requests w) 0 k))))
  /\ (Z.of_nat k < MAX_RETRIES cfg ->
      final_failure (ask (requests w + k)%nat) ->
        query_overpass cfg ask w query
        = (Ok None, world_after w (S k) (waits ask (requests w) 0 k)))
  /\ ((forall j, hint_ok (ask j)) ->
      exists r w', query_overpass cfg ask w query = (Ok r, w')).
Proof.
  intros Hmiss Hmax Hk Hall. rewrite (query_overpass_cache_miss _ _ _ _ Hmiss).
  split; [|split; [|split]].
  - intros Hlast.
    replace (Z.to_nat (MAX_RETRIES cfg)) with (k + 0)%nat by lia.
    rewrite retry_loop_transient_prefix by (try assumption; lia).
    cbn [retry_loop].
    replace (MAX_RETRIES cfg - Z.of_nat (k + 0)) with 0 by lia. reflexivity.
  - intros Hlt d Hd.
    replace (Z.to_nat (MAX_RETRIES cfg))
      with (k + S (Z.to_nat (MAX_RETRIES cfg) - S k))%nat by lia.
    rewrite retry_loop_transient_prefix by (try assumption; lia).
    match goal with |- context [waits ask (requests w) ?z k] =>
      replace z with 0 by lia end.
    cbn [retry_loop]. rewrite world_after_request, requests_world_after, Hd.
    reflexivity.
  - intros Hlt Hfin.
    replace (Z.to_nat (MAX_RETRIES cfg))
      with (k + S (Z.to_nat (MAX_RETRIES cfg) - S k))%nat by lia.
    rewrite retry_loop_transient_prefix by (try assumption; lia).
    match goal with |- context [waits ask (requests w) ?z k] =>
      replace z with 0 by lia end.
    cbn [retry_loop]. rewrite world_after_request, requests_world_after.
    destruct (ask (requests w + k)%nat) as [d| |status_code hint|];
      cbn in Hfin; try contradiction.
    + rewrite (proj2 (Z.eqb_neq _ _) Hfin). reflexivity.
    + reflexivity.
  - intros Hok. rewrite <- (query_overpass_cache_miss _ _ _ _ Hmiss).
    apply query_overpass_never_raises; assumption.
Qed.

End Retry.

(** Three timeouts with the default settings: three requests, pauses of 2
    and 4 seconds, [None]. *)
Lemma query_overpass_retry_policy_witness :
  query_overpass defaults (fun _ => TimesOut) fresh_world "[out:json];node(1);out;"
  = (Ok None, {| now := 1006; query_cache := []; requests := 3; slept := [2; 4] |}).
Proof.
  refine (proj1 (query_overpass_retry_policy defaults (fun _ => TimesOut) fresh_world
            "[out:json];node(1);out;" 3 _ _ _ _) _).
  - right. left. reflexivity.
  - vm_compute. discriminate.
  - vm_compute. discriminate.
  - intros j _. split; exact I.
  - reflexivity.
Defined.

(** C9 as stated fails: a 503 response is not retried (one request, no
    pause, [None]); and a 429 response whose [Retry-After] is an HTTP date
    makes [int] raise [ValueError] out of [query_overpass]. *)
Lemma query_overpass_5xx_not_retried :
  query_overpass defaults (fun _ => HTTPError 503 None) fresh_world "q"
  = (Ok None, {| now := 1000; query_cache := []; requests := 1; slept := [] |})
  /\ query_overpass defaults
       (fun _ => HTTPError 429 (Some "Wed, 21 Oct 2015 07:28:00 GMT"))
       fresh_world "q"
     = (Raise ValueError,
        {| now := 1000; query_cache := []; requests := 1; slept := [] |}).
Proof. split; vm_compute; reflexivity. Qed.

End OverpassFacts.

(** * Further properties

    What the code shows beyond the statements above: caches, limits,
    orders, error cases and round trips. *)

(** ** [services/elevation_service.py]: the cache and the grid *)

Module ElevationCacheFacts.

Import ElevationGrid.
Import PyNum Settings ElevationService.
Import Binary64 Binary64Facts ElevationSpec ElevationFacts.
Import ElevationCacheSpec.

Lemma scan_cache_misses cfg (w : world) coords : forall i,
  (scan_cache cfg (elevation_cache w) i coords).1.2
  = List.filter (uncached cfg w) coords.
Proof.
  induction coords as [|c rest IH]; intros i; [reflexivity|].
  cbn [scan_cache List.filter]. specialize (IH (S i)).
  destruct (scan_cache cfg (elevation_cache w) (S i) rest) as [[es fs] idx].
  cbn [fst snd] in IH.
  unfold uncached at 1, cached.
  destruct (if ENABLE_CACHE cfg then elevation_cache w !! cache_key c else None)
    as [e|]; cbn [fst snd]; rewrite IH; reflexivity.
Qed.

Lemma elevations_of_requested cfg ask w sampled :
  posted (elevations_of cfg ask w sampled).2
  = posted w ++ requested cfg w sampled.
Proof.
  unfold elevations_of, requested.
  pose proof (scan_cache_misses cfg w sampled 0) as Hfs.
  destruct (scan_cache cfg (elevation_cache w) 0 sampled) as [[es fs] idx].
  cbn [fst snd] in Hfs. rewrite <- Hfs.
  destruct fs as [|c fs]; [cbn [snd]; rewrite app_nil_r; reflexivity|].
  pose proof (fetch_posted cfg ask (c :: fs) idx es w) as Hp.
  destruct (fetch _ _ _ _ _ _) as [es' w']. exact Hp.
Qed.

Lemma fetch_cache_on_failure cfg ask fs idx es w :
  request_fails ask \/ ENABLE_CACHE cfg = false ->
  elevation_cache (fetch cfg ask fs idx es w).2 = elevation_cache w.
Proof.
  intros H. unfold fetch. cbn [elevation_cache posted].
  destruct (ask _) as [f|rs] eqn:Hask; [reflexivity|].
  destruct H as [Hfail|Hoff].
  { destruct (Hfail (map (fun c : coord => {| latitude := c.2; longitude := c.1 |}) fs))
      as [f Hf]. congruence. }
  assert (Hst : forall rs i es cache,
             (store_results cfg fs idx i rs es cache).2 = cache).
  { clear -Hoff. induction rs as [|r rs IH]; intros i es cache; [reflexivity|].
    cbn [store_results]. destruct r as [|e]; [reflexivity|].
    destruct (idx !! i) as [q|]; [|reflexivity].
    destruct (bool_decide (q < length es)%nat); [|reflexivity].
    rewrite Hoff. apply IH. }
  specialize (Hst rs 0%nat es (elevation_cache w)).
  destruct (store_results _ _ _ _ _ _ _) as [[r es'] cache'].
  cbn [snd] in Hst. subst cache'. destruct r; reflexivity.
Qed.

(** X3.  A failed request stores nothing: when the request fails, or when
    the cache is off, the cache after the call is the cache before it (the
    zeros that fill the result are not cached). *)
Theorem get_elevation_data_failure_not_cached cfg ask w (coords : list coord) :
  request_fails ask \/ ENABLE_CACHE cfg = false ->
  elevation_cache (get_elevation_data cfg ask w coords).2 = elevation_cache w.
Proof.
  intros H. unfold get_elevation_data.
  destruct coords as [|c coords]; [reflexivity|].
  destruct (downsample cfg (c :: coords)) as [sampled|e]; [|reflexivity].
  destruct (scan_cache cfg (elevation_cache w) 0 sampled) as [[es fs] idx].
  destruct fs as [|c' fs]; [reflexivity|].
  pose proof (fetch_cache_on_failure cfg ask (c' :: fs) idx es w H) as Hf.
  destruct (fetch _ _ _ _ _ _) as [es' w']. exact Hf.
Qed.

(** Three coordinates, a provider that always fails: the cache stays
    empty. *)
Lemma get_elevation_data_failure_not_cached_witness :
  elevation_cache
    (get_elevation_data defaults always_fails cold (numbered_coords 3)).2
  = ∅.
Proof.
  apply (get_elevation_data_failure_not_cached defaults always_fails cold
           (numbered_coords 3)).
  left. intros locations. exists Timeout. reflexivity.
Defined.

(** X1.  For a list within the limit, a call posts at most one request,
    and it asks for exactly the coordinates the cache does not serve, in
    the order of the list; when the cache serves all of them nothing is
    posted. *)
Theorem get_elevation_data_requests_misses cfg ask w (coords : list coord) :
  Z.of_nat (length coords) <= MAX_ELEVATION_POINTS cfg ->
  posted (get_elevation_data cfg ask w coords).2
  = posted w ++ requested cfg w coords.
Proof.
  intros Hlen.
  rewrite (get_elevation_data_sampled cfg ask w coords coords)
    by (apply downsample_within; exact Hlen).
  cbn [snd]. apply elevations_of_requested.
Qed.

(** Two coordinates, nothing cached: one request for both. *)
Lemma get_elevation_data_requests_misses_witness :
  posted (get_elevation_data defaults always_fails cold (numbered_coords 2)).2
  = [[{| latitude := 0; longitude := 0 |};
      {| latitude := 0; longitude := 1 |}]]%float.
Proof.
  rewrite (get_elevation_data_requests_misses defaults always_fails cold
             (numbered_coords 2)) by (vm_compute; discriminate).
  vm_compute. reflexivity.
Defined.

Lemma store_results_cache cfg g idx : forall (suf pre : list coord) es cache es' cache',
  store_results cfg (pre ++ suf) idx (length pre)
    (map (fun c => Entry (Some (g (location_of c)))) suf) es cache
  = (Ok (), es', cache') ->
  cache' = if ENABLE_CACHE cfg then cache_with g suf cache else cache.
Proof.
  induction suf as [|c suf IH]; intros pre es cache es' cache' H.
  - cbn in H. injection H as _ <-. destruct (ENABLE_CACHE cfg); reflexivity.
  - cbn [map store_results] in H. cbn [default from_option] in H. unfold id in H.
    destruct (idx !! length pre) as [q|]; [|discriminate H].
    destruct (bool_decide (q < length es)%nat); [|discriminate H].
    replace (pre ++ c :: suf) with ((pre ++ [c]) ++ suf) in H
      by (rewrite <- app_assoc; reflexivity).
    replace (S (length pre)) with (length (pre ++ [c])) in H
      by (rewrite length_app; cbn; lia).
    destruct (ENABLE_CACHE cfg) eqn:Hon.
    + assert (Hc : ((pre ++ [c]) ++ suf) !! length pre = Some c).
      { rewrite <- app_assoc. cbn [app]. rewrite lookup_app_r by lia.
        rewrite Nat.sub_diag. reflexivity. }
      rewrite Hc in H. apply IH in H. exact H.
    + apply IH in H. exact H.
Qed.

Lemma elevations_of_cache cfg ask w sampled g :
  answers ask g ->
  elevation_cache (elevations_of cfg ask w sampled).2
  = if ENABLE_CACHE cfg
    then cache_with g (List.filter (uncached cfg w) sampled) (elevation_cache w)
    else elevation_cache w.
Proof.
  intros Hans. unfold elevations_of.
  pose proof (scan_cache_misses cfg w sampled 0) as Hfs.
  pose proof (store_results_scan cfg w g sampled 0 [] [] []
                (elevation_cache w) eq_refl eq_refl) as [cache2 Hst].
  destruct (scan_cache cfg (elevation_cache w) 0 sampled) as [[es fs] idx].
  cbn [fst snd app length] in *. subst fs.
  destruct (List.filter (uncached cfg w) sampled) as [|c fs] eqn:Hm.
  { cbn [snd]. destruct (ENABLE_CACHE cfg); reflexivity. }
  unfold fetch. cbn [elevation_cache posted].
  rewrite Hans.
  change (map (fun c0 : coord => {| latitude := c0.2; longitude := c0.1 |}) (c :: fs))
    with (map location_of (c :: fs)).
  rewrite map_map in Hst |- *.
  rewrite Hst. cbn [snd elevation_cache].
  apply (store_results_cache cfg g idx (c :: fs) [] es (elevation_cache w)
           (map (filled cfg w g) sampled) cache2).
  exact Hst.
Qed.

Lemma cache_with_snoc g misses c cache :
  cache_with g (misses ++ [c]) cache
  = <[cache_key c := g (location_of c)]> (cache_with g misses cache).
Proof. unfold cache_with. rewrite foldl_app. reflexivity. Qed.

Lemma cache_with_lookup_other g misses cache k :
  (forall c, c ∈ misses -> cache_key c <> k) ->
  cache_with g misses cache !! k = cache !! k.
Proof.
  induction misses as [|c misses IH] using rev_ind; intros Hk; [reflexivity|].
  rewrite cache_with_snoc, lookup_insert_ne.
  - apply IH. intros c' Hc'. apply Hk. apply elem_of_app. left. exact Hc'.
  - apply Hk. apply elem_of_app. right. apply list_elem_of_singleton. reflexivity.
Qed.

Lemma cache_with_lookup_miss g misses cache c :
  c ∈ misses ->
  (forall c', c' ∈ misses -> cache_key c' = cache_key c ->
     g (location_of c') = g (location_of c)) ->
  cache_with g misses cache !! cache_key c = Some (g (location_of c)).
Proof.
  induction misses as [|c0 misses IH] using rev_ind; intros Hin Hcons;
    [inversion Hin|].
  rewrite cache_with_snoc.
  destruct (decide (cache_key c0 = cache_key c)) as [Heq|Hne].
  - rewrite Heq, lookup_insert_eq. f_equal. apply Hcons; [|exact Heq].
    apply elem_of_app. right. apply list_elem_of_singleton. reflexivity.
  - rewrite lookup_insert_ne by exact Hne. apply IH.
    + apply elem_of_app in Hin as [Hin|Hin]; [exact Hin|].
      apply list_elem_of_singleton in Hin. subst c0. contradiction.
    + intros c' Hc'. apply Hcons. apply elem_of_app. left. exact Hc'.
Qed.

Lemma elevations_of_all_cached cfg ask w sampled (v : coord -> elevation) :
  (forall c, c ∈ sampled -> cached cfg w c = Some (v c)) ->
  elevations_of cfg ask w sampled
  = (map (fun c => none_to_zero (v c)) sampled, w).
Proof.
  intros Hall. unfold elevations_of.
  pose proof (scan_cache_misses cfg w sampled 0) as Hfs.
  pose proof (scan_cache_slots cfg (elevation_cache w) sampled 0) as Hslots.
  destruct (scan_cache cfg (elevation_cache w) 0 sampled) as [[es fs] idx].
  cbn [fst snd] in *. subst es.
  assert (Hnil : fs = []).
  { rewrite Hfs. clear Hfs. induction sampled as [|c rest IH]; [reflexivity|].
    cbn [List.filter]. unfold uncached at 1. rewrite (Hall c) by left.
    apply IH. intros c' Hc'. apply Hall. right. exact Hc'. }
  rewrite Hnil. f_equal. rewrite map_map.
  apply map_ext_in. intros c Hc. apply list_elem_of_In in Hc.
  specialize (Hall c Hc). unfold cached in Hall. cbv beta.
  f_equal. transitivity (default None (Some (v c))); [f_equal; exact Hall|reflexivity].
Qed.

Lemma uncached_filter_elem cfg w (coords : list coord) c :
  c ∈ List.filter (uncached cfg w) coords <-> c ∈ coords /\ cached cfg w c = None.
Proof.
  rewrite !list_elem_of_In, filter_In. unfold uncached.
  destruct (cached cfg w c); split; intros [H1 H2]; (split; [exact H1|]);
    try reflexivity; discriminate.
Qed.

(** X2.  With the cache on and a provider whose answers agree on
    coordinates that share a cache key, a second call for the same list
    (within the limit) is served from the cache: it returns the elevations
    of the first call, posts nothing and leaves the cache as it is,
    whatever the provider would answer now. *)
Theorem get_elevation_data_cache_round_trip
    cfg ask ask' g w (coords : list coord) :
  ENABLE_CACHE cfg = true ->
  Z.of_nat (length coords) <= MAX_ELEVATION_POINTS cfg ->
  answers ask g ->
  key_consistent g coords ->
  get_elevation_data cfg ask' (get_elevation_data cfg ask w coords).2 coords
  = get_elevation_data cfg ask w coords.
Proof.
  intros Hon Hlen Hans Hcons.
  pose proof (downsample_within cfg coords Hlen) as Hs.
  rewrite (get_elevation_data_sampled cfg ask w coords coords Hs).
  cbn [snd].
  rewrite (get_elevation_data_sampled cfg ask' _ coords coords Hs).
  set (w1 := (elevations_of cfg ask w coords).2).
  assert (Hcached : forall c, c ∈ coords ->
            cached cfg w1 c = Some (filled cfg w g c)).
  { intros c Hc. unfold cached at 1. rewrite Hon. unfold w1.
    rewrite (elevations_of_cache cfg ask w coords g Hans), Hon.
    unfold filled. destruct (cached cfg w c) as [e|] eqn:Hold.
    - rewrite cache_with_lookup_other.
      + unfold cached in Hold. rewrite Hon in Hold. exact Hold.
      + intros c' Hc' Hkey. apply uncached_filter_elem in Hc' as [_ Hnone].
        unfold cached in Hold, Hnone. rewrite Hon in Hold, Hnone.
        rewrite Hkey in Hnone. congruence.
    - apply cache_with_lookup_miss.
      + apply uncached_filter_elem. split; assumption.
      + intros c' Hc' Hkey. apply uncached_filter_elem in Hc' as [Hc' _].
        apply Hcons; assumption. }
  rewrite (elevations_of_all_cached cfg ask' w1 coords _ Hcached).
  cbn [fst snd]. f_equal. f_equal.
  symmetry. apply elevations_of_answers. exact Hans.
Qed.

(** Three coordinates answered once; the second call is served although
    the provider now fails. *)
Lemma get_elevation_data_cache_round_trip_witness :
  get_elevation_data defaults always_fails
    (get_elevation_data defaults level_five cold (numbered_coords 3)).2
    (numbered_coords 3)
  = get_elevation_data defaults level_five cold (numbered_coords 3).
Proof.
  apply (get_elevation_data_cache_round_trip defaults level_five always_fails
           (fun _ => Some 5%float)).
  - reflexivity.
  - vm_compute. discriminate.
  - intros locations. reflexivity.
  - intros c c' _ _ _. reflexivity.
Defined.

Lemma get_elevation_data_ok cfg ask w (coords : list coord) :
  0 <= MAX_ELEVATION_POINTS cfg ->
  (MAX_ELEVATION_POINTS cfg < Z.of_nat (length coords) ->
   3 * Z.of_nat (length coords) * MAX_ELEVATION_POINTS cfg <= 2 ^ 52) ->
  exists es w',
    get_elevation_data cfg ask w coords = (Ok es, w')
    /\ length es
       = Z.to_nat (Z.min (Z.of_nat (length coords)) (MAX_ELEVATION_POINTS cfg))
    /\ Forall is_Some es.
Proof.
  intros Hnum Hbound.
  destruct (downsample_total cfg coords Hnum Hbound) as (sampled & Hs & Hlen & _).
  exists (elevations_of cfg ask w sampled).1, (elevations_of cfg ask w sampled).2.
  split; [apply get_elevation_data_sampled; exact Hs|].
  split; [rewrite elevations_of_length; exact Hlen|apply elevations_of_not_None].
Qed.

Lemma length_linspace_of start stop num :
  length (linspace_of start stop num) = Z.to_nat num.
Proof.
  unfold linspace_of.
  destruct (1 <? num); rewrite ?length_insert, length_map;
    (destruct (0 <? num - 1); [destruct (_ =? _)%float|]);
    rewrite !length_map; apply length_arange.
Qed.

Lemma length_grid {A B C} (f : A -> B -> C) (xs : list A) (ys : list B) :
  length (flat_map (fun y => map (fun x => f x y) xs) ys)
  = (length ys * length xs)%nat.
Proof.
  induction ys as [|y ys IH]; [reflexivity|].
  cbn [flat_map length]. rewrite length_app, length_map, IH. lia.
Qed.

Lemma min_from_ok values : forall best,
  is_Some best -> Forall is_Some values ->
  exists m, min_from best values = Ok m /\ m ∈ best :: values.
Proof.
  induction values as [|v rest IH]; intros best Hb Hv.
  - exists best. split; [reflexivity|left].
  - apply Forall_cons in Hv as [[x Hx] Hrest]. destruct Hb as [y Hy]. subst.
    cbn [min_from elevation_lt mbind result_bind].
    destruct (IH (if (x <? y)%float then Some x else Some y)) as (m & Hm & Hin).
    { destruct (x <? y)%float; eauto. }
    { exact Hrest. }
    exists m. split; [exact Hm|].
    apply elem_of_cons in Hin as [->|Hin].
    + destruct (x <? y)%float; [right; left|left].
    + right. right. exact Hin.
Qed.

Lemma max_from_ok values : forall best,
  is_Some best -> Forall is_Some values ->
  exists m, max_from best values = Ok m /\ m ∈ best :: values.
Proof.
  induction values as [|v rest IH]; intros best Hb Hv.
  - exists best. split; [reflexivity|left].
  - apply Forall_cons in Hv as [[x Hx] Hrest]. destruct Hb as [y Hy]. subst.
    cbn [max_from elevation_lt mbind result_bind].
    destruct (IH (if (y <? x)%float then Some x else Some y)) as (m & Hm & Hin).
    { destruct (y <? x)%float; eauto. }
    { exact Hrest. }
    exists m. split; [exact Hm|].
    apply elem_of_cons in Hin as [->|Hin].
    + destruct (y <? x)%float; [right; left|left].
    + right. right. exact Hin.
Qed.

(** X5.  [get_area_elevation_grid] raises [ValueError] for a resolution
    of 0 or less, and whenever the square of the resolution exceeds
    [MAX_ELEVATION_POINTS]: the elevations are then downsampled to
    [MAX_ELEVATION_POINTS] entries and cannot be reshaped to the grid.  With
    the defaults (resolution 20, limit 100) every call raises. *)
Theorem get_area_elevation_grid_size_error cfg ask w b (resolution : Z) :
  resolution <= 0
  \/ (0 <= MAX_ELEVATION_POINTS cfg < resolution * resolution
      /\ 3 * (resolution * resolution) * MAX_ELEVATION_POINTS cfg <= 2 ^ 52) ->
  (get_area_elevation_grid cfg ask w b resolution).1 = Raise ValueError.
Proof.
  intros H. unfold get_area_elevation_grid, linspace.
  destruct (resolution <? 0) eqn:Hneg; [reflexivity|].
  apply Z.ltb_ge in Hneg.
  set (points := flat_map _ _).
  assert (Hlen : Z.of_nat (length (A:=coord) points) = resolution * resolution).
  { unfold points. rewrite length_grid, !length_linspace_of. lia. }
  destruct H as [Hzero|[Hmax Hbound]].
  - assert (resolution = 0) by lia. subst resolution.
    destruct points; [|cbn [length] in Hlen; lia]. reflexivity.
  - destruct (get_elevation_data_ok cfg ask w points) as (es & w' & -> & Hes & _).
    + lia.
    + rewrite Hlen. intros _. exact Hbound.
    + cbv beta iota zeta. unfold reshape_2d.
      rewrite Hlen in Hes. rewrite Z.min_r in Hes by lia.
      destruct (resolution * resolution =? _) eqn:E;
        [apply Z.eqb_eq in E; lia|].
      rewrite andb_false_r. reflexivity.
Qed.

(** The default resolution 20 with the default limit of 100 points. *)
Lemma get_area_elevation_grid_size_error_witness :
  (get_area_elevation_grid defaults always_fails cold unit_square 20).1
  = Raise ValueError.
Proof.
  apply (get_area_elevation_grid_size_error defaults always_fails cold
           unit_square 20).
  right. vm_compute. repeat split; discriminate.
Defined.

Lemma concat_chunks {A} (cols : nat) : forall rows (values : list A),
  length values = (rows * cols)%nat ->
  concat (map (fun i => take cols (drop (i * cols) values)) (seq 0 rows))
  = values.
Proof.
  induction rows as [|rows IH]; intros values Hlen.
  - cbn in *. destruct values; [reflexivity|discriminate].
  - rewrite seq_S, map_app, concat_app. cbn [map concat Nat.add].
    rewrite app_nil_r.
    transitivity (take (rows * cols) values ++ drop (rows * cols) values);
      [|apply take_drop].
    f_equal.
    + rewrite <- (IH (take (rows * cols) values))
        by (rewrite length_take; lia).
      f_equal. apply map_ext_in. intros i Hi. apply in_seq in Hi.
      rewrite !take_drop_commute, take_take. f_equal. f_equal. nia.
    + apply take_ge. rewrite length_drop. lia.
Qed.

(** X4.  For a resolution of at least 1 whose square is within
    [MAX_ELEVATION_POINTS], [get_area_elevation_grid] returns a grid:
    [resolution * resolution] points, one elevation for each and none of
    them [None], laid out as [resolution] rows of [resolution] elevations
    in the order of the points, with a least and a greatest elevation that
    are elevations of the grid. *)
Theorem get_area_elevation_grid_shape cfg ask w b (resolution : Z) :
  1 <= resolution ->
  resolution * resolution <= MAX_ELEVATION_POINTS cfg ->
  exists g w',
    get_area_elevation_grid cfg ask w b resolution = (Ok g, w')
    /\ Z.of_nat (length (grid_points g)) = resolution * resolution
    /\ length (grid_elevations g) = length (grid_points g)
    /\ Z.of_nat (length (elevation_grid g)) = resolution
    /\ Forall (fun row => Z.of_nat (length row) = resolution) (elevation_grid g)
    /\ concat (elevation_grid g) = grid_elevations g
    /\ Forall is_Some (grid_elevations g)
    /\ min_elevation g ∈ grid_elevations g
    /\ max_elevation g ∈ grid_elevations g.
Proof.
  intros Hres Hmax. unfold get_area_elevation_grid, linspace.
  rewrite (proj2 (Z.ltb_ge resolution 0)) by lia.
  set (points := flat_map _ _).
  assert (Hlen : Z.of_nat (length (A:=coord) points) = resolution * resolution).
  { unfold points. rewrite length_grid, !length_linspace_of. lia. }
  destruct (get_elevation_data_ok cfg ask w points) as (es & w' & -> & Hes & Hsome);
    [lia|lia|].
  rewrite Hlen, Z.min_l in Hes by lia.
  assert (Hes' : length es = (Z.to_nat resolution * Z.to_nat resolution)%nat) by lia.
  cbv beta iota zeta. unfold reshape_2d.
  rewrite (proj2 (Z.leb_le 0 resolution)) by lia.
  destruct (resolution * resolution =? _) eqn:E;
    [|apply Z.eqb_neq in E; lia].
  cbn [andb mbind result_bind].
  destruct es as [|e es]; [cbn [length] in Hes'; lia|].
  apply Forall_cons in Hsome as [He Hrest].
  cbn [py_min py_max].
  destruct (min_from_ok es e He Hrest) as (lo & -> & Hlo).
  destruct (max_from_ok es e He Hrest) as (hi & -> & Hhi).
  cbn [mbind result_bind].
  eexists _, w'. split; [reflexivity|].
  cbn [grid_points grid_elevations elevation_grid min_elevation max_elevation].
  split; [exact Hlen|]. split; [lia|].
  split; [rewrite length_map, length_seq; lia|].
  split.
  { apply Forall_forall. intros row Hrow.
    apply list_elem_of_fmap in Hrow as (i & -> & Hi).
    apply elem_of_seq in Hi. rewrite length_take, length_drop. nia. }
  split; [apply concat_chunks; exact Hes'|].
  split; [apply Forall_cons; split; assumption|].
  split; assumption.
Qed.

(** A 2 by 2 grid over the unit square. *)
Lemma get_area_elevation_grid_shape_witness :
  exists g w',
    get_area_elevation_grid defaults always_fails cold unit_square 2
    = (Ok g, w')
    /\ elevation_grid g = [[zero; zero]; [zero; zero]].
Proof.
  destruct (get_area_elevation_grid_shape defaults always_fails cold
              unit_square 2) as (g & w' & Hg & _);
    [vm_compute; discriminate|vm_compute; discriminate|].
  exists g, w'. split; [exact Hg|].
  vm_compute in Hg. injection Hg as <- _. reflexivity.
Defined.

End ElevationCacheFacts.

(** ** [utils/data_processing.py]: the pipeline as a whole *)

Module PipelineFacts.

Import ElevationGrid ElevationCacheSpec ElevationCacheFacts.
Import PyNum Settings ElevationService DataProcessing.
Import Binary64 Binary64Facts DataProcessingSpec DataProcessingFacts.
Import ElevationSpec ElevationFacts PipelineSpec.

Lemma process_node_ok e pts :
  is_Some (el_lat e) -> is_Some (el_lon e) ->
  process_node e pts = Ok pts
  \/ exists p, process_node e pts = Ok (pts ++ [p]) /\ point_element_id p = el_id e.
Proof.
  intros [lat Hlat] [lon Hlon]. unfold process_node.
  destruct (bool_decide (tags_of e = ∅)); [left; reflexivity|].
  rewrite Hlat, Hlon. cbn [getitem mbind result_bind].
  right. eexists. split; [reflexivity|]. reflexivity.
Qed.

Lemma process_way_ok e st f :
  process_way e st f = Ok st
  \/ (exists b, building_element_id b = el_id e
        /\ process_way e st f
           = Ok {| buildings := buildings st ++ [b]; roads := roads st;
                   points := points st; polygons := polygons st |})
  \/ (exists r, road_element_id r = el_id e
        /\ process_way e st f
           = Ok {| buildings := buildings st; roads := roads st ++ [r];
                   points := points st; polygons := polygons st |})
  \/ (exists p, polygon_element_id p = el_id e
        /\ process_way e st f
           = Ok {| buildings := buildings st; roads := roads st;
                   points := points st; polygons := polygons st ++ [p] |}).
Proof.
  unfold process_way.
  destruct (way_coords e) as [|c0 cs] eqn:Hc; [left; reflexivity|].
  assert (Hne : way_coords e <> []) by (rewrite Hc; discriminate).
  rewrite <- Hc.
  destruct (dict_in "building" (tags_of e)).
  - right. left. unfold process_building.
    destruct (estimate_building_height_ok (tags_of e) f) as [h ->].
    cbn [mbind result_bind]. eexists. split; [|reflexivity]. reflexivity.
  - destruct (dict_in "highway" (tags_of e)).
    + right. right. left. unfold process_road. eexists. split; [|reflexivity]. reflexivity.
    + rewrite closed_way_ring_closed by exact Hne. cbn [mbind result_bind].
      destruct (ring_closed (way_coords e)); [|left; reflexivity].
      right. right. right. unfold process_polygon. eexists. split; [|reflexivity]. reflexivity.
Qed.

Lemma features_eta (st : features) :
  {| buildings := buildings st; roads := roads st;
     points := points st; polygons := polygons st |} = st.
Proof. destruct st; reflexivity. Qed.

Lemma process_element_step e st f :
  exists st', process_element e st f = Ok st' /\ step_of e st st'.
Proof.
  unfold process_element.
  destruct (bool_decide (el_type e = Some "node")
            && bool_decide (is_Some (el_lat e))
            && bool_decide (is_Some (el_lon e))) eqn:Hnode.
  - apply andb_prop in Hnode as [Hnode Hlon].
    apply andb_prop in Hnode as [_ Hlat].
    apply bool_decide_eq_true in Hlon, Hlat.
    destruct (process_node_ok e (points st) Hlat Hlon) as [->|(p & -> & Hp)];
      cbn [mbind result_bind]; eexists; (split; [reflexivity|]).
    + apply step_none. apply features_eta.
    + apply (step_point _ _ _ p); [exact Hp|reflexivity].
  - destruct (bool_decide (el_type e = Some "way")
              && bool_decide (is_Some (el_nodes e))).
    + destruct (process_way_ok e st f)
        as [->|[(b & Hb & ->)|[(r & Hr & ->)|(p & Hp & ->)]]];
        eexists; (split; [reflexivity|]).
      * apply step_none. reflexivity.
      * apply (step_building _ _ _ b); [exact Hb|reflexivity].
      * apply (step_road _ _ _ r); [exact Hr|reflexivity].
      * apply (step_polygon _ _ _ p); [exact Hp|reflexivity].
    + exists st. split; [|apply step_none; reflexivity].
      destruct (bool_decide (el_type e = Some "relation") && _); reflexivity.
Qed.

Lemma process_elements_ok es : forall st f,
  exists st', process_elements es st f = Ok st'.
Proof.
  induction es as [|e es IH]; intros st f; [eexists; reflexivity|].
  cbn [process_elements].
  destruct (process_element_step e st f) as (st1 & -> & _).
  cbn [mbind result_bind]. apply IH.
Qed.

Lemma step_of_count e st st' :
  step_of e st st' ->
  (feature_count st <= feature_count st' <= feature_count st + 1)%nat.
Proof.
  intros [->|b _ ->|r _ ->|p _ ->|p _ ->]; unfold feature_count;
    cbn [buildings roads points polygons]; rewrite ?length_app; cbn [length]; lia.
Qed.

Lemma process_elements_count es : forall st st' f,
  process_elements es st f = Ok st' ->
  (feature_count st <= feature_count st' <= feature_count st + length es)%nat.
Proof.
  induction es as [|e es IH]; intros st st' f H.
  - cbn in H. injection H as <-. cbn [length]. lia.
  - cbn [process_elements] in H.
    destruct (process_element_step e st f) as (st1 & H1 & Hs). rewrite H1 in H.
    cbn [mbind result_bind] in H. apply IH in H.
    apply step_of_count in Hs. cbn [length]. lia.
Qed.

Lemma sum_from_ok es : forall acc,
  Forall is_Some es -> exists total, sum_from acc es = Ok total.
Proof.
  induction es as [|e es IH]; intros acc H; [eexists; reflexivity|].
  apply Forall_cons in H as [[x ->] H]. cbn [sum_from]. apply IH, H.
Qed.

Lemma length_list_slice_to {A} (l : list A) (k : Z) :
  0 <= k -> (length (list_slice_to l k) <= Z.to_nat k)%nat.
Proof.
  intros Hk. unfold list_slice_to. rewrite (proj2 (Z.leb_le 0 k)) by lia.
  rewrite length_take. lia.
Qed.

Lemma process_overpass_results_unfold cfg ask w data factor :
  0 <= MAX_ELEVATION_POINTS cfg ->
  match data ≫= elements with
  | None => process_overpass_results cfg ask w data factor = (Ok None, w)
  | Some es =>
      exists st p w',
        process_elements (limited cfg es) no_features factor = Ok st
        /\ process_overpass_results cfg ask w data factor = (Ok (Some p), w')
        /\ features_of p = st
        /\ (buildings st = [] -> terrain_elevation p = 0%float /\ w' = w)
        /\ (w' = w
            \/ w' = (get_elevation_data cfg ask w
                       (list_slice_to (flat_map building_coordinates (buildings st))
                          100)).2)
  end.
Proof.
  intros Hmax. unfold process_overpass_results.
  destruct (data ≫= elements) as [es|]; [|reflexivity].
  fold (limited cfg es).
  destruct (process_elements_ok (limited cfg es) no_features factor) as [st Hst].
  rewrite Hst. exists st.
  destruct (buildings st) as [|b bs] eqn:Hb.
  { eexists _, w. repeat split; try reflexivity. left. reflexivity. }
  destruct (all_coords_truthy (b :: bs));
    [|eexists _, w; repeat split; try reflexivity; try discriminate; left; reflexivity].
  set (cs := list_slice_to _ 100).
  destruct (get_elevation_data_ok cfg ask w cs) as (els & w' & Hget & _ & Hsome).
  { exact Hmax. }
  { intros Hlt.
    pose proof (length_list_slice_to
                  (flat_map building_coordinates (b :: bs)) 100 ltac:(lia)) as Hl.
    fold cs in Hl. change (2 ^ 52) with 4503599627370496. nia. }
  rewrite Hget.
  destruct els as [|e els].
  { eexists _, w'. repeat split; try reflexivity; try discriminate.
    right. reflexivity. }
  destruct (sum_from_ok (e :: els) 0%float Hsome) as [total ->].
  cbn [mbind result_bind].
  eexists _, w'. repeat split; try reflexivity; try discriminate.
  right. reflexivity.
Qed.



Lemma process_overpass_results_features cfg ask w es factor p w' :
  process_overpass_results cfg ask w (response_of es) factor = (Ok (Some p), w') ->
  process_elements (limited cfg es) no_features factor = Ok (features_of p).
Proof.
  unfold process_overpass_results, response_of.
  cbn [mbind option_bind elements]. fold (limited cfg es).
  destruct (process_elements (limited cfg es) no_features factor) as [st|e];
    [|discriminate].
  destruct (buildings st) as [|b bs]; [intros H; injection H as <- _; reflexivity|].
  destruct (all_coords_truthy (b :: bs));
    [|intros H; injection H as <- _; reflexivity].
  destruct (get_elevation_data _ _ _ _) as [[els|e] w1]; [|discriminate].
  destruct els as [|e els]; [intros H; injection H as <- _; reflexivity|].
  destruct (sum_from _ _) as [total|e']; [|discriminate].
  cbn [mbind result_bind]. intros H; injection H as <- _; reflexivity.
Qed.

Lemma limited_take cfg (es : list element) :
  0 <= MAX_FEATURES cfg ->
  limited cfg es = take (Z.to_nat (MAX_FEATURES cfg)) es.
Proof.
  intros Hmax. unfold limited, list_slice_to.
  destruct (MAX_FEATURES cfg <? Z.of_nat (length es)) eqn:Hlt.
  - rewrite (proj2 (Z.leb_le 0 _)) by lia. reflexivity.
  - apply Z.ltb_ge in Hlt. symmetry. apply take_ge. lia.
Qed.

Lemma limited_prefix cfg (es : list element) : limited cfg es `prefix_of` es.
Proof.
  unfold limited, list_slice_to.
  destruct (_ <? _); [|reflexivity].
  destruct (0 <=? _); apply prefix_take.
Qed.

(** X7.  With a non-negative [MAX_FEATURES], only the first
    [MAX_FEATURES] elements of a response count: the result is the result
    for the response cut to them.  Each element gives at most one feature,
    so the four lists hold at most as many features as the response has
    elements, and at most [MAX_FEATURES]. *)
Theorem process_overpass_results_feature_limit cfg ask w es factor :
  0 <= MAX_FEATURES cfg ->
  process_overpass_results cfg ask w (response_of es) factor
  = process_overpass_results cfg ask w
      (response_of (take (Z.to_nat (MAX_FEATURES cfg)) es)) factor
  /\ forall p w',
       process_overpass_results cfg ask w (response_of es) factor
       = (Ok (Some p), w') ->
       (feature_count (features_of p) <= length es)%nat
       /\ Z.of_nat (feature_count (features_of p)) <= MAX_FEATURES cfg.
Proof.
  intros Hmax. split.
  - unfold process_overpass_results, response_of.
    cbn [mbind option_bind elements].
    fold (limited cfg es).
    fold (limited cfg (take (Z.to_nat (MAX_FEATURES cfg)) es)).
    rewrite !limited_take, take_take by exact Hmax.
    rewrite Nat.min_id. reflexivity.
  - intros p w' H. apply process_overpass_results_features in H.
    apply process_elements_count in H.
    rewrite (limited_take cfg es Hmax), length_take in H.
    change (feature_count no_features) with 0%nat in H.
    lia.
Qed.

(** Three nodes and a limit of two: the third one does not count. *)
Lemma process_overpass_results_feature_limit_witness :
  process_overpass_results two_features always_fails cold
    (response_of [tagged_node 1; tagged_node 2; tagged_node 3]) 1%float
  = process_overpass_results two_features always_fails cold
      (response_of [tagged_node 1; tagged_node 2]) 1%float.
Proof.
  apply (process_overpass_results_feature_limit two_features always_fails cold
           [tagged_node 1; tagged_node 2; tagged_node 3] 1%float).
  vm_compute. discriminate.
Defined.

Lemma process_elements_ids es : forall st st' f,
  process_elements es st f = Ok st' ->
  exists lb lr lp lg,
    (lb `sublist_of` map el_id es /\ lr `sublist_of` map el_id es
     /\ lp `sublist_of` map el_id es /\ lg `sublist_of` map el_id es)
    /\ map building_element_id (buildings st')
       = map building_element_id (buildings st) ++ lb
    /\ map road_element_id (roads st') = map road_element_id (roads st) ++ lr
    /\ map point_element_id (points st') = map point_element_id (points st) ++ lp
    /\ map polygon_element_id (polygons st')
       = map polygon_element_id (polygons st) ++ lg.
Proof.
  induction es as [|e es IH]; intros st st' f H.
  - cbn in H. injection H as <-. exists [], [], [], [].
    rewrite !app_nil_r. repeat split; constructor.
  - cbn [process_elements] in H.
    destruct (process_element_step e st f) as (st1 & H1 & Hs). rewrite H1 in H.
    cbn [mbind result_bind] in H.
    destruct (IH _ _ _ H) as (lb & lr & lp & lg & (Sb & Sr & Sp & Sg) & Eb & Er & Ep & Eg).
    cbn [map].
    destruct Hs as [->|b Hb ->|r Hr ->|p Hp ->|p Hp ->];
      cbn [buildings roads points polygons] in Eb, Er, Ep, Eg;
      rewrite ?List.map_app in Eb; rewrite ?List.map_app in Er;
      rewrite ?List.map_app in Ep; rewrite ?List.map_app in Eg;
      cbn [map] in Eb, Er, Ep, Eg;
      rewrite <- ?app_assoc in Eb; rewrite <- ?app_assoc in Er;
      rewrite <- ?app_assoc in Ep; rewrite <- ?app_assoc in Eg;
      cbn [app] in Eb, Er, Ep, Eg.
    + exists lb, lr, lp, lg. repeat split; try assumption; apply sublist_cons; assumption.
    + exists (el_id e :: lb), lr, lp, lg. rewrite Hb in Eb.
      repeat split; try assumption;
        first [apply sublist_skip; assumption|apply sublist_cons; assumption].
    + exists lb, (el_id e :: lr), lp, lg. rewrite Hr in Er.
      repeat split; try assumption;
        first [apply sublist_skip; assumption|apply sublist_cons; assumption].
    + exists lb, lr, (el_id e :: lp), lg. rewrite Hp in Ep.
      repeat split; try assumption;
        first [apply sublist_skip; assumption|apply sublist_cons; assumption].
    + exists lb, lr, lp, (el_id e :: lg). rewrite Hp in Eg.
      repeat split; try assumption;
        first [apply sublist_skip; assumption|apply sublist_cons; assumption].
Qed.

(** X8.  Every feature comes from an element of the response and
    carries its id, and each of the four lists keeps the order of the
    response: its ids are a subsequence of the ids of the elements. *)
Theorem process_overpass_results_in_order cfg ask w es factor p w' :
  process_overpass_results cfg ask w (response_of es) factor = (Ok (Some p), w') ->
  Forall (fun ids => ids `sublist_of` map el_id es) (feature_ids (features_of p)).
Proof.
  intros H. apply process_overpass_results_features in H.
  destruct (process_elements_ids _ _ _ _ H)
    as (lb & lr & lp & lg & (Sb & Sr & Sp & Sg) & Eb & Er & Ep & Eg).
  cbn [no_features buildings roads points polygons map app] in Eb, Er, Ep, Eg.
  assert (Hpre : map el_id (limited cfg es) `sublist_of` map el_id es).
  { destruct (limited_prefix cfg es) as [k Hk]. rewrite Hk at 2.
    rewrite List.map_app. apply sublist_inserts_r. reflexivity. }
  unfold feature_ids. rewrite Eb, Er, Ep, Eg.
  apply Forall_cons_2;
    [|apply Forall_cons_2;
       [|apply Forall_cons_2; [|apply Forall_cons_2; [|apply Forall_nil_2]]]];
    cbv beta; (etransitivity; [|exact Hpre]); assumption.
Qed.

(** A node, a way and a node: the points are the nodes 3 and 1, in this
    order. *)
Lemma process_overpass_results_in_order_witness :
  exists p w',
    process_overpass_results defaults always_fails cold
      (response_of [tagged_node 3; both_tags_way; tagged_node 1]) 1%float
    = (Ok (Some p), w')
    /\ map point_element_id (points (features_of p)) = [Some 3; Some 1]
    /\ Forall (fun ids => ids `sublist_of` [Some 3; Some 7; Some 1])
         (feature_ids (features_of p)).
Proof.
  eexists _, _. split; [vm_compute; reflexivity|].
  split; [vm_compute; reflexivity|].
  eapply (process_overpass_results_in_order defaults always_fails cold
            [tagged_node 3; both_tags_way; tagged_node 1] 1%float).
  vm_compute. reflexivity.
Defined.

Lemma process_element_passed_over e st f :
  passed_over e -> process_element e st f = Ok st.
Proof.
  intros H. unfold process_element.
  destruct H as [[Hty Htags]|[[Hty Hmiss]|[[Hty Hcoords]|[Hty|[Hn Hw]]]]].
  - rewrite Hty. rewrite bool_decide_eq_true_2 by reflexivity.
    destruct (bool_decide (is_Some (el_lat e)) && bool_decide (is_Some (el_lon e)))
      eqn:Hll; cbn [andb]; rewrite Hll.
    + unfold process_node. rewrite bool_decide_eq_true_2 by exact Htags.
      cbn [mbind result_bind]. rewrite features_eta. reflexivity.
    + reflexivity.
  - rewrite Hty.
    assert (Hll : bool_decide (is_Some (el_lat e)) && bool_decide (is_Some (el_lon e))
                  = false).
    { destruct Hmiss as [-> | ->];
        [|rewrite andb_comm]; rewrite bool_decide_eq_false_2;
        try reflexivity; intros [x Hx]; discriminate. }
    rewrite bool_decide_eq_true_2 by reflexivity. cbn [andb]. rewrite Hll.
    reflexivity.
  - rewrite Hty. rewrite (bool_decide_eq_false_2 (Some "way" = Some "node"))
      by discriminate.
    cbn [andb]. rewrite bool_decide_eq_true_2 by reflexivity. cbn [andb].
    destruct (bool_decide (is_Some (el_nodes e))); [|reflexivity].
    unfold process_way. rewrite Hcoords. reflexivity.
  - rewrite Hty. rewrite (bool_decide_eq_false_2 (Some "relation" = Some "node"))
      by discriminate.
    rewrite (bool_decide_eq_false_2 (Some "relation" = Some "way"))
      by discriminate.
    cbn [andb]. destruct (_ && _); reflexivity.
  - rewrite (bool_decide_eq_false_2 _ Hn), (bool_decide_eq_false_2 _ Hw).
    cbn [andb]. destruct (_ && _); reflexivity.
Qed.

(** X9.  A node without tags or without a coordinate, a way without
    usable coordinates, a relation, and an element of any other type
    produce nothing: the lists come back as they were, and removing the
    element from a response changes no result. *)
Theorem passed_over_elements_yield_nothing (e : element) :
  passed_over e ->
  (forall st f, process_element e st f = Ok st)
  /\ (forall l1 l2 st f,
        process_elements (l1 ++ e :: l2) st f = process_elements (l1 ++ l2) st f).
Proof.
  intros He. split; [intros; apply process_element_passed_over, He|].
  intros l1 l2 st f. rewrite !process_elements_app.
  destruct (process_elements l1 st f) as [st'|err]; cbn [mbind result_bind];
    [|reflexivity].
  cbn [process_elements]. rewrite (process_element_passed_over _ _ _ He).
  reflexivity.
Qed.

(** A node without tags between two tagged nodes. *)
Lemma passed_over_elements_yield_nothing_witness :
  process_elements [tagged_node 1; untagged_node; tagged_node 2] no_features 1%float
  = process_elements [tagged_node 1; tagged_node 2] no_features 1%float.
Proof.
  apply (proj2 (passed_over_elements_yield_nothing untagged_node
                  ltac:(left; split; reflexivity))
           [tagged_node 1] [tagged_node 2]).
Defined.

(** X12.  Whatever the tags, the colour of a building is a list of four
    integers: red, green and blue from 0 to 255, and the alpha 200. *)
Theorem get_building_color_is_rgba (tags : gmap string string) :
  is_rgba 200 (get_building_color tags) = true.
Proof.
  unfold get_building_color, dict_get at 1.
  destruct (color_scheme !! _) as [c|] eqn:Hc; [|reflexivity].
  assert (Hall : map_Forall (fun _ v => is_rgba 200 v = true) color_scheme).
  { apply map_Forall_to_list. vm_compute. repeat constructor. }
  exact (Hall _ _ Hc).
Qed.

(** X13.  Whatever the highway type, known or not, the width of a road is
    between 0.5 and 4. *)
Theorem get_road_width_range (highway_type : string) :
  ((0.5 <=? get_road_width highway_type)
   && (get_road_width highway_type <=? 4))%float = true.
Proof.
  unfold get_road_width, dict_get.
  destruct (width_scheme !! highway_type) as [x|] eqn:Hx; [|reflexivity].
  assert (Hall : map_Forall (fun _ v => ((0.5 <=? v) && (v <=? 4))%float = true)
                   width_scheme).
  { apply map_Forall_to_list. vm_compute. repeat constructor. }
  exact (Hall _ _ Hx).
Qed.

Lemma sum_from_zeros n : sum_from 0%float (replicate n zero) = Ok 0%float.
Proof.
  induction n as [|n IH]; [reflexivity|].
  cbn [replicate sum_from]. unfold zero at 1.
  change (0 + 0)%float with 0%float. exact IH.
Qed.

Lemma zero_div_float_of_Z (n : Z) :
  0 < n < 2 ^ 53 -> (0 / float_of_Z n)%float = 0%float.
Proof.
  intros Hn. apply Prim2SF_inj.
  destruct (Prim2SF_float_of_Z n Hn) as (m & e & Hx & _).
  rewrite FloatAxioms.div_spec, Hx. reflexivity.
Qed.

Lemma requested_length cfg w (coords : list coord) :
  requested cfg w coords = []
  \/ exists locations,
       requested cfg w coords = [locations]
       /\ (0 < length locations <= length coords)%nat.
Proof.
  unfold requested.
  pose proof (filter_length (uncached cfg w) coords) as Hl.
  destruct (List.filter (uncached cfg w) coords) as [|c fs]; [left; reflexivity|].
  right. eexists. split; [reflexivity|]. rewrite length_map. cbn [length] in *. lia.
Qed.

Lemma get_elevation_data_posted cfg ask w (coords : list coord) :
  0 <= MAX_ELEVATION_POINTS cfg ->
  (MAX_ELEVATION_POINTS cfg < Z.of_nat (length coords) ->
   3 * Z.of_nat (length coords) * MAX_ELEVATION_POINTS cfg <= 2 ^ 52) ->
  posted (get_elevation_data cfg ask w coords).2 = posted w
  \/ exists locations,
       posted (get_elevation_data cfg ask w coords).2 = posted w ++ [locations]
       /\ (0 < length locations <= length coords)%nat
       /\ Z.of_nat (length locations) <= MAX_ELEVATION_POINTS cfg.
Proof.
  intros Hmax Hbound.
  destruct (downsample_total cfg coords Hmax Hbound) as (sampled & Hs & Hlen & _).
  rewrite (get_elevation_data_sampled cfg ask w coords sampled Hs). cbn [snd].
  rewrite elevations_of_requested.
  destruct (requested_length cfg w sampled) as [->|(locations & -> & Hl)].
  - left. apply app_nil_r.
  - right. exists locations. split; [reflexivity|]. lia.
Qed.

(** X10.  One response costs at most one elevation request, of at least
    one and at most 100 locations; a response that yields no building costs
    none, leaves the cache alone and has the terrain elevation 0. *)
Theorem process_overpass_results_one_request cfg ask w data factor :
  0 <= MAX_ELEVATION_POINTS cfg ->
  (posted (process_overpass_results cfg ask w data factor).2 = posted w
   \/ exists locations,
        posted (process_overpass_results cfg ask w data factor).2
        = posted w ++ [locations]
        /\ (0 < length locations <= 100)%nat)
  /\ (forall p w',
        process_overpass_results cfg ask w data factor = (Ok (Some p), w') ->
        buildings (features_of p) = [] ->
        w' = w /\ terrain_elevation p = 0%float).
Proof.
  intros Hmax.
  pose proof (process_overpass_results_unfold cfg ask w data factor Hmax) as H.
  destruct (data ≫= elements) as [es|]; [|rewrite H; split; [left; reflexivity|discriminate]].
  destruct H as (st & p & w' & _ & Hres & Hst & Hflat & Hw). rewrite Hres.
  split.
  - cbn [snd]. destruct Hw as [-> | ->]; [left; reflexivity|].
    set (cs := list_slice_to _ 100).
    pose proof (length_list_slice_to
                  (flat_map building_coordinates (buildings st)) 100 ltac:(lia)) as Hl.
    fold cs in Hl.
    destruct (get_elevation_data_posted cfg ask w cs Hmax)
      as [Hp|(locations & Hp & Hlen & _)].
    + intros Hlt. change (2 ^ 52) with 4503599627370496. nia.
    + left. exact Hp.
    + right. exists locations. split; [exact Hp|]. lia.
  - intros p0 w0 Heq Hb. injection Heq as <- <-. rewrite Hst in Hb.
    destruct (Hflat Hb) as [Ht ->]. split; [reflexivity|exact Ht].
Qed.

(** One building. *)
Lemma process_overpass_results_one_request_witness :
  posted (process_overpass_results defaults always_fails cold
            (response_of [both_tags_way]) 1%float).2 = posted cold
  \/ exists locations,
       posted (process_overpass_results defaults always_fails cold
                 (response_of [both_tags_way]) 1%float).2
       = posted cold ++ [locations]
       /\ (0 < length locations <= 100)%nat.
Proof.
  apply (proj1 (process_overpass_results_one_request defaults always_fails cold
                  (response_of [both_tags_way]) 1%float
                  ltac:(vm_compute; discriminate))).
Defined.

(** X11.  When the elevation request fails and nothing is cached, the
    terrain elevation of the result is 0. *)
Theorem process_overpass_results_flat_on_failure cfg ask w data factor p w' :
  0 <= MAX_ELEVATION_POINTS cfg ->
  request_fails ask ->
  (forall c, cached cfg w c = None) ->
  process_overpass_results cfg ask w data factor = (Ok (Some p), w') ->
  terrain_elevation p = 0%float.
Proof.
  intros Hmax Hfail Hcold. unfold process_overpass_results.
  destruct (data ≫= elements) as [es|]; [|discriminate].
  destruct (process_elements _ _ _) as [st|e]; [|discriminate].
  destruct (buildings st) as [|b bs]; [intros H; injection H as <- _; reflexivity|].
  destruct (all_coords_truthy (b :: bs));
    [|intros H; injection H as <- _; reflexivity].
  set (cs := list_slice_to _ 100).
  pose proof (length_list_slice_to
                (flat_map building_coordinates (b :: bs)) 100 ltac:(lia)) as Hl.
  fold cs in Hl.
  destruct (downsample_total cfg cs Hmax) as (sampled & Hs & Hlen & _).
  { intros Hlt. change (2 ^ 52) with 4503599627370496. nia. }
  rewrite (get_elevation_data_sampled cfg ask w cs sampled Hs).
  rewrite (elevations_of_fails cfg ask w sampled Hfail).
  rewrite uncached_zeros by (intros; apply Hcold).
  destruct sampled as [|c sampled]; [intros H; injection H as <- _; reflexivity|].
  cbn [length replicate].
  change (zero :: replicate (length sampled) zero)
    with (replicate (S (length sampled)) zero).
  rewrite sum_from_zeros. cbn [mbind result_bind].
  intros H; injection H as <- _. cbn [terrain_elevation].
  rewrite length_replicate. apply zero_div_float_of_Z.
  cbn [length] in Hlen. change (2 ^ 53) with 9007199254740992. lia.
Qed.

(** One building, a provider that always fails. *)
Lemma process_overpass_results_flat_on_failure_witness :
  exists p w',
    process_overpass_results defaults always_fails cold
      (response_of [both_tags_way]) 1%float = (Ok (Some p), w')
    /\ terrain_elevation p = 0%float.
Proof.
  eexists _, _. split; [vm_compute; reflexivity|].
  eapply (process_overpass_results_flat_on_failure defaults always_fails cold
            (response_of [both_tags_way]) 1%float).
  - vm_compute. discriminate.
  - intros locations. exists Timeout. reflexivity.
  - intros c. unfold cached, cold. cbn [elevation_cache].
    destruct (ENABLE_CACHE defaults); [apply lookup_empty|reflexivity].
  - vm_compute. reflexivity.
Defined.

End PipelineFacts.

(** ** [services/overpass_service.py]: the query cache *)

Module OverpassCacheFacts.

Import PyNum Settings OverpassService OverpassSpec OverpassFacts.
Import OverpassCacheSpec.

Section Cache.

Context {data : Type}.

Lemma sleep_later secs (w w' : world data) :
  sleep secs w = Ok w' ->
  now w <= now w' /\ query_cache w' = query_cache w
  /\ requests w' = requests w /\ slept w' = slept w ++ [secs].
Proof.
  unfold sleep. destruct (_ || _); [discriminate|].
  destruct (secs <? 0) eqn:Hneg; [discriminate|].
  apply Z.ltb_ge in Hneg. intros H. injection H as <-.
  cbn [now query_cache requests slept]. repeat split. lia.
Qed.

(** The loop: how many requests and pauses, and what happens to the
    cache. *)
Lemma retry_loop_effects cfg (ask : server data) query : forall remaining w r w',
  retry_loop cfg ask query remaining w = (r, w') ->
  now w <= now w'
  /\ (requests w <= requests w' <= requests w + remaining)%nat
  /\ (exists ws, slept w' = slept w ++ ws
        /\ (remaining = 0%nat -> ws = [] /\ requests w' = requests w)
        /\ (remaining <> 0%nat -> (length ws + 1 <= requests w' - requests w)%nat))
  /\ match r with
     | Ok (Some d) =>
         exists w0, query_cache w0 = query_cache w /\ now w0 = now w'
                    /\ w' = store_in_cache cfg query d w0
     | _ => query_cache w' = query_cache w
     end.
Proof.
  induction remaining as [|rem IH]; intros w r w' H.
  - cbn in H. injection H as <- <-.
    split; [lia|]. split; [lia|]. split; [|reflexivity].
    exists []. rewrite app_nil_r. repeat split; intros; congruence.
  - cbn [retry_loop] in H.
    set (w1 := {| now := now w; query_cache := query_cache w;
                  requests := S (requests w); slept := slept w |}) in *.
    assert (Hterm : forall r0, (r0, w1) = (r, w') ->
              match r0 with Ok (Some _) => False | _ => True end ->
              now w <= now w'
              /\ (requests w <= requests w' <= requests w + S rem)%nat
              /\ (exists ws, slept w' = slept w ++ ws
                    /\ (S rem = 0%nat -> ws = [] /\ requests w' = requests w)
                    /\ (S rem <> 0%nat ->
                        (length ws + 1 <= requests w' - requests w)%nat))
              /\ match r with
                 | Ok (Some d) =>
                     exists w0, query_cache w0 = query_cache w /\ now w0 = now w'
                                /\ w' = store_in_cache cfg query d w0
                 | _ => query_cache w' = query_cache w
                 end).
    { intros r0 Heq Hr0. injection Heq as <- <-. cbn [now requests slept query_cache w1].
      split; [lia|]. split; [lia|]. split.
      - exists []. rewrite app_nil_r. repeat split; [discriminate|cbn; lia].
      - destruct r0 as [[d|]|e]; [contradiction|reflexivity|reflexivity]. }
    assert (Hrec : forall w2,
              now w <= now w2 -> query_cache w2 = query_cache w ->
              requests w2 = S (requests w) ->
              (exists ws, slept w2 = slept w ++ ws /\ (length ws <= 1)%nat
                          /\ (rem = 0%nat -> ws = [])) ->
              retry_loop cfg ask query rem w2 = (r, w') ->
              now w <= now w'
              /\ (requests w <= requests w' <= requests w + S rem)%nat
              /\ (exists ws, slept w' = slept w ++ ws
                    /\ (S rem = 0%nat -> ws = [] /\ requests w' = requests w)
                    /\ (S rem <> 0%nat ->
                        (length ws + 1 <= requests w' - requests w)%nat))
              /\ match r with
                 | Ok (Some d) =>
                     exists w0, query_cache w0 = query_cache w /\ now w0 = now w'
                                /\ w' = store_in_cache cfg query d w0
                 | _ => query_cache w' = query_cache w
                 end).
    { intros w2 Hnow Hcache Hreq (ws2 & Hs2 & Hl2 & Hz2) Hloop.
      destruct (IH _ _ _ Hloop) as (Hn & Hr & (ws & Hs & Hz & Hnz) & Hc).
      split; [lia|]. split; [lia|]. split.
      - exists (ws2 ++ ws). rewrite Hs, Hs2, app_assoc.
        split; [reflexivity|]. split; [discriminate|]. intros _.
        rewrite length_app.
        destruct rem as [|rem'].
        + destruct (Hz eq_refl) as [-> Hrq]. rewrite (Hz2 eq_refl). cbn. lia.
        + specialize (Hnz ltac:(discriminate)). lia.
      - destruct r as [[d|]|e]; [|congruence|congruence].
        destruct Hc as (w0 & Hc0 & Hn0 & Hw0). exists w0.
        split; [congruence|]. split; assumption. }
    destruct (ask (requests w)) as [d| |status_code retry_after|].
    + injection H as <- <-. split; [|split; [|split]].
      * unfold store_in_cache. destruct (ENABLE_CACHE cfg); cbn; lia.
      * unfold store_in_cache. destruct (ENABLE_CACHE cfg); cbn; lia.
      * exists []. rewrite app_nil_r.
        split; [unfold store_in_cache; destruct (ENABLE_CACHE cfg); reflexivity|].
        split; [discriminate|]. intros _.
        unfold store_in_cache. destruct (ENABLE_CACHE cfg); cbn; lia.
      * exists w1. split; [reflexivity|]. split; [|reflexivity].
        unfold store_in_cache. destruct (ENABLE_CACHE cfg); reflexivity.
    + destruct (_ <? _) eqn:Hlt.
      * destruct (sleep _ w1) as [w2|e] eqn:Hsl.
        -- apply sleep_later in Hsl as (Hn2 & Hc2 & Hr2 & Hs2).
           apply (Hrec w2); [exact Hn2|exact Hc2|exact Hr2| |exact H].
           eexists. split; [exact Hs2|]. split; [cbn; lia|].
           intros ->. apply Z.ltb_lt in Hlt. lia.
        -- apply (Hterm (Raise e)); [exact H|exact I].
      * apply (Hrec w1); [cbn; lia|reflexivity|reflexivity| |exact H].
        exists []. rewrite app_nil_r. repeat split. cbn. lia.
    + destruct (status_code =? 429).
      * destruct (_ <? _) eqn:Hlt.
        -- destruct (match retry_after with Some hint => py_int hint | None => _ end)
             as [secs|e]; [|apply (Hterm (Raise e)); [exact H|exact I]].
           destruct (sleep secs w1) as [w2|e] eqn:Hsl.
           ++ apply sleep_later in Hsl as (Hn2 & Hc2 & Hr2 & Hs2).
              apply (Hrec w2); [exact Hn2|exact Hc2|exact Hr2| |exact H].
              eexists. split; [exact Hs2|]. split; [cbn; lia|].
              intros ->. apply Z.ltb_lt in Hlt. lia.
           ++ apply (Hterm (Raise e)); [exact H|exact I].
        -- apply (Hrec w1); [cbn; lia|reflexivity|reflexivity| |exact H].
           exists []. rewrite app_nil_r. repeat split. cbn. lia.
      * apply (Hterm (Ok None)); [exact H|exact I].
    + apply (Hterm (Ok None)); [exact H|exact I].
Qed.

Lemma odict_lookup_None {V} k (d : list (string * V)) :
  odict_lookup k d = None <-> k ∉ map fst d.
Proof.
  induction d as [|[k' v] d IH]; cbn [odict_lookup map fst].
  - split; [intros _ H; inversion H|reflexivity].
  - rewrite not_elem_of_cons. destruct (decide (k' = k)) as [->|Hne].
    + rewrite bool_decide_eq_true_2 by reflexivity.
      split; [discriminate|intros [H _]; congruence].
    + rewrite bool_decide_eq_false_2 by exact Hne. rewrite IH.
      split; [intros H; split; [congruence|exact H]|intros [_ H]; exact H].
Qed.

Lemma odict_set_new {V} k (v : V) d :
  odict_lookup k d = None -> odict_set k v d = d ++ [(k, v)].
Proof.
  induction d as [|[k' v'] d IH]; cbn [odict_lookup odict_set app]; [reflexivity|].
  destruct (bool_decide (k' = k)); [discriminate|].
  intros H. rewrite IH by exact H. reflexivity.
Qed.

Lemma odict_set_old {V} k (v : V) d :
  odict_lookup k d <> None ->
  map fst (odict_set k v d) = map fst d
  /\ length (odict_set k v d) = length d.
Proof.
  induction d as [|[k' v'] d IH]; cbn [odict_lookup odict_set]; [congruence|].
  destruct (bool_decide (k' = k)) eqn:Hk.
  - apply bool_decide_eq_true in Hk. subst k'. intros _. split; reflexivity.
  - intros H. destruct (IH H) as [H1 H2]. cbn [map fst length].
    rewrite H1, H2. split; reflexivity.
Qed.

Lemma odict_lookup_set_eq {V} k (v : V) d :
  odict_lookup k (odict_set k v d) = Some v.
Proof.
  induction d as [|[k' v'] d IH]; cbn [odict_set odict_lookup].
  - rewrite bool_decide_eq_true_2 by reflexivity. reflexivity.
  - destruct (bool_decide (k' = k)) eqn:Hk; cbn [odict_lookup].
    + rewrite bool_decide_eq_true_2 by reflexivity. reflexivity.
    + rewrite Hk. exact IH.
Qed.

Lemma odict_lookup_set_ne {V} k k' (v : V) d :
  k <> k' -> odict_lookup k' (odict_set k v d) = odict_lookup k' d.
Proof.
  intros Hne. induction d as [|[k0 v0] d IH]; cbn [odict_set odict_lookup].
  - rewrite bool_decide_eq_false_2 by exact Hne. reflexivity.
  - destruct (bool_decide (k0 = k)) eqn:Hk; cbn [odict_lookup].
    + apply bool_decide_eq_true in Hk. subst k0.
      rewrite !bool_decide_eq_false_2 by exact Hne. reflexivity.
    + destruct (bool_decide (k0 = k')); [reflexivity|exact IH].
Qed.

Lemma odict_lookup_delete_ne {V} k k' (d : list (string * V)) :
  k <> k' -> odict_lookup k' (odict_delete k d) = odict_lookup k' d.
Proof.
  intros Hne. unfold odict_delete.
  induction d as [|[k0 v0] d IH]; [reflexivity|].
  cbn [List.filter fst odict_lookup].
  destruct (bool_decide (k0 = k)) eqn:Hk; cbn [negb odict_lookup].
  - apply bool_decide_eq_true in Hk. subst k0.
    rewrite bool_decide_eq_false_2 by exact Hne. exact IH.
  - rewrite IH. reflexivity.
Qed.

Lemma odict_delete_keys {V} k (d : list (string * V)) :
  map fst (odict_delete k d) = List.filter (fun k' => negb (bool_decide (k' = k))) (map fst d).
Proof.
  unfold odict_delete. induction d as [|[k0 v0] d IH]; [reflexivity|].
  cbn [List.filter map fst]. destruct (bool_decide (k0 = k)); cbn [negb map fst];
    rewrite IH; reflexivity.
Qed.

Lemma filter_ne_NoDup (k : string) (ks : list string) :
  NoDup ks ->
  NoDup (List.filter (fun k' => negb (bool_decide (k' = k))) ks)
  /\ (k ∈ ks ->
      S (length (List.filter (fun k' => negb (bool_decide (k' = k))) ks)) = length ks)
  /\ (forall k', k' ∈ List.filter (fun k' => negb (bool_decide (k' = k))) ks
               <-> k' ∈ ks /\ k' <> k).
Proof.
  intros Hnd. split; [|split].
  - induction Hnd as [|k0 ks Hk0 Hnd IH]; [constructor|].
    cbn [List.filter]. destruct (bool_decide (k0 = k)); cbn [negb]; [exact IH|].
    constructor; [|exact IH].
    rewrite list_elem_of_In, filter_In, <- list_elem_of_In. tauto.
  - induction Hnd as [|k0 ks Hk0 Hnd IH]; intros Hin; [inversion Hin|].
    cbn [List.filter length]. destruct (decide (k0 = k)) as [->|Hne].
    + rewrite bool_decide_eq_true_2 by reflexivity. cbn [negb].
      f_equal. clear IH Hin Hnd.
      induction ks as [|k1 ks IH]; [reflexivity|].
      apply not_elem_of_cons in Hk0 as [Hne Hk0]. cbn [List.filter length].
      rewrite bool_decide_eq_false_2 by congruence. cbn [negb length].
      rewrite IH by exact Hk0. reflexivity.
    + rewrite bool_decide_eq_false_2 by exact Hne. cbn [negb length].
      rewrite IH; [reflexivity|].
      apply elem_of_cons in Hin as [->|Hin]; [contradiction|exact Hin].
  - intros k'. rewrite !list_elem_of_In, filter_In.
    destruct (decide (k' = k)) as [->|Hne].
    + rewrite bool_decide_eq_true_2 by reflexivity. cbn. intuition congruence.
    + rewrite bool_decide_eq_false_2 by exact Hne. cbn. intuition.
Qed.

(** Deleting distinct keys that are all there. *)
Lemma delete_keys {V} (ks : list string) : forall (d : list (string * V)),
  NoDup (map fst d) -> NoDup ks -> (forall k, k ∈ ks -> k ∈ map fst d) ->
  NoDup (map fst (fold_left (fun c key => odict_delete key c) ks d))
  /\ (length (fold_left (fun c key => odict_delete key c) ks d) + length ks
      = length d)%nat
  /\ (forall k', k' ∉ ks ->
        odict_lookup k' (fold_left (fun c key => odict_delete key c) ks d)
        = odict_lookup k' d)
  /\ (forall kv, kv ∈ fold_left (fun c key => odict_delete key c) ks d -> kv ∈ d).
Proof.
  induction ks as [|k ks IH]; intros d Hd Hks Hin.
  - cbn. repeat split; [exact Hd|lia|].
    intros kv H; exact H.
  - cbn [fold_left]. apply NoDup_cons in Hks as [Hk Hks].
    destruct (filter_ne_NoDup k (map fst d) Hd) as (Hnd' & Hlen' & Hmem').
    rewrite <- odict_delete_keys in Hnd', Hlen', Hmem'.
    destruct (IH (odict_delete k d)) as (H1 & H2 & H3 & H4).
    + exact Hnd'.
    + exact Hks.
    + intros k' Hk'. apply Hmem'. split; [apply Hin; right; exact Hk'|].
      intros ->. contradiction.
    + split; [exact H1|]. split; [|split].
      * specialize (Hlen' (Hin k ltac:(left))).
        rewrite !length_map in Hlen'. cbn [length]. lia.
      * intros k' Hk'. apply not_elem_of_cons in Hk' as [Hne Hk'].
        rewrite H3 by exact Hk'. apply odict_lookup_delete_ne. congruence.
      * intros kv Hkv. apply H4 in Hkv. unfold odict_delete in Hkv.
        apply list_elem_of_In, filter_In in Hkv as [Hkv _].
        apply list_elem_of_In. exact Hkv.
Qed.

Lemma insert_by_timestamp_perm (kv : string * cache_entry data) l :
  insert_by_timestamp data kv l ≡ₚ kv :: l.
Proof.
  induction l as [|kv' l IH]; cbn [insert_by_timestamp]; [reflexivity|].
  destruct (_ <? _); [reflexivity|].
  rewrite IH. apply Permutation_swap.
Qed.

Lemma sort_perm (cache : list (string * cache_entry data)) : forall acc,
  fold_left (fun acc kv => insert_by_timestamp data kv acc) cache acc
  ≡ₚ acc ++ cache.
Proof.
  induction cache as [|kv cache IH]; intros acc; cbn [fold_left].
  - rewrite app_nil_r. reflexivity.
  - rewrite IH, insert_by_timestamp_perm.
    rewrite (Permutation_middle acc cache kv). reflexivity.
Qed.

Lemma insert_by_timestamp_last (kv : string * cache_entry data) l :
  Forall (fun kv' => timestamp kv'.2 <= timestamp kv.2) l ->
  insert_by_timestamp data kv l = l ++ [kv].
Proof.
  induction 1 as [|kv' l Hle _ IH]; cbn [insert_by_timestamp app]; [reflexivity|].
  destruct (_ <? _) eqn:Hlt; [apply Z.ltb_lt in Hlt; lia|].
  rewrite IH. reflexivity.
Qed.

Lemma sorted_keys_perm (cache : list (string * cache_entry data)) :
  sorted_keys cache ≡ₚ map fst cache.
Proof.
  unfold sorted_keys. apply fmap_Permutation. apply (sort_perm cache []).
Qed.

Lemma sorted_keys_newest (cache : list (string * cache_entry data)) kv :
  Forall (fun kv' => timestamp kv'.2 <= timestamp kv.2) cache ->
  sorted_keys (cache ++ [kv]) = sorted_keys cache ++ [kv.1].
Proof.
  intros Hle. unfold sorted_keys. rewrite fold_left_app. cbn [fold_left].
  rewrite insert_by_timestamp_last.
  - rewrite List.map_app. reflexivity.
  - rewrite (sort_perm cache []). exact Hle.
Qed.

Lemma store_in_cache_frame cfg query (d : data) w :
  now (store_in_cache cfg query d w) = now w
  /\ requests (store_in_cache cfg query d w) = requests w
  /\ slept (store_in_cache cfg query d w) = slept w.
Proof.
  unfold store_in_cache. destruct (ENABLE_CACHE cfg); repeat split.
Qed.

Lemma store_in_cache_off cfg query (d : data) w :
  ENABLE_CACHE cfg = false -> store_in_cache cfg query d w = w.
Proof. unfold store_in_cache. intros ->. reflexivity. Qed.

Lemma odict_set_ok query (e : cache_entry data) cache t :
  NoDup (map fst cache) ->
  Forall (fun kv => timestamp kv.2 <= t) cache -> timestamp e <= t ->
  NoDup (map fst (odict_set query e cache))
  /\ (length (odict_set query e cache) <= S (length cache))%nat
  /\ Forall (fun kv => timestamp kv.2 <= t) (odict_set query e cache)
  /\ ((length cache < length (odict_set query e cache))%nat ->
      odict_set query e cache = cache ++ [(query, e)]
      /\ query ∉ map fst cache).
Proof.
  intros Hnd Hts He.
  destruct (odict_lookup query cache) as [e0|] eqn:Hlook.
  - destruct (odict_set_old query e cache) as [Hk Hl]; [congruence|].
    rewrite Hk, Hl. split; [exact Hnd|]. split; [lia|]. split; [|lia].
    clear Hk Hl Hnd Hlook. induction Hts as [|[k0 v0] l H0 Hts IH];
      cbn [odict_set].
    + apply Forall_cons_2; [exact He|apply Forall_nil_2].
    + destruct (bool_decide (k0 = query)).
      * apply Forall_cons_2; [exact He|exact Hts].
      * apply Forall_cons_2; [exact H0|exact IH].
  - pose proof (proj1 (odict_lookup_None query cache) Hlook) as Hnot.
    rewrite (odict_set_new query e cache Hlook).
    rewrite List.map_app, length_app. cbn [map fst length].
    split; [|split; [lia|split]].
    + apply NoDup_app. split; [exact Hnd|]. split.
      * intros k Hk Hk'. apply list_elem_of_singleton in Hk'. subst k.
        contradiction.
      * apply NoDup_singleton.
    + apply Forall_app. split; [exact Hts|].
      apply Forall_cons_2; [exact He|apply Forall_nil_2].
    + intros _. split; [reflexivity|exact Hnot].
Qed.

Lemma store_in_cache_ok cfg query (d : data) w :
  cache_ok w ->
  cache_ok (store_in_cache cfg query d w)
  /\ (ENABLE_CACHE cfg = true ->
      odict_lookup query (query_cache (store_in_cache cfg query d w))
      = Some {| entry_data := d; timestamp := now w |}).
Proof.
  intros (Hnd & Hlen & Hts). unfold store_in_cache.
  destruct (ENABLE_CACHE cfg); [|split; [repeat split; assumption|discriminate]].
  set (e := {| entry_data := d; timestamp := now w |}).
  destruct (odict_set_ok query e (query_cache w) (now w) Hnd Hts)
    as (Hnd1 & Hlen1 & Hts1 & Hnew); [cbn; lia|].
  cbv zeta. destruct (100 <? _) eqn:Hbig.
  - apply Z.ltb_lt in Hbig.
    destruct Hnew as [Hset Hnot]; [lia|].
    assert (Hl : length (query_cache w) = 100%nat).
    { rewrite Hset, length_app in Hbig. cbn [length] in Hbig. lia. }
    assert (Hsorted : sorted_keys (odict_set query e (query_cache w))
                      = sorted_keys (query_cache w) ++ [query]).
    { rewrite Hset. apply (sorted_keys_newest (query_cache w) (query, e)).
      exact Hts. }
    assert (Htake : take 10 (sorted_keys (odict_set query e (query_cache w)))
                    = take 10 (sorted_keys (query_cache w))).
    { rewrite Hsorted. apply take_app_le.
      rewrite (Permutation_length (sorted_keys_perm (query_cache w))).
      rewrite length_map. lia. }
    rewrite Htake.
    set (old := take 10 (sorted_keys (query_cache w))).
    assert (Hold_sub : forall k, k ∈ old -> k ∈ map fst (query_cache w)).
    { intros k Hk. rewrite <- (sorted_keys_perm (query_cache w)).
      apply (subseteq_take 10). exact Hk. }
    assert (Hold_nd : NoDup old).
    { apply (sublist_NoDup _ (sorted_keys (query_cache w))).
      - rewrite (sorted_keys_perm (query_cache w)). exact Hnd.
      - apply sublist_take. }
    assert (Hold_len : length old = 10%nat).
    { unfold old. rewrite length_take.
      rewrite (Permutation_length (sorted_keys_perm (query_cache w))).
      rewrite length_map. lia. }
    destruct (delete_keys old (odict_set query e (query_cache w)))
      as (H1 & H2 & H3 & H4).
    + exact Hnd1.
    + exact Hold_nd.
    + intros k Hk. rewrite Hset, List.map_app. apply elem_of_app. left.
      apply Hold_sub. exact Hk.
    + unfold cache_ok. cbn [query_cache now]. split; [split; [exact H1|split]|].
      * assert (Hl1 : length (odict_set query e (query_cache w)) = 101%nat).
        { rewrite Hset, length_app. cbn [length]. lia. }
        rewrite Hold_len, Hl1 in H2. lia.
      * apply Forall_forall. intros kv Hkv. apply H4 in Hkv.
        rewrite Forall_forall in Hts1. apply Hts1. exact Hkv.
      * intros _. rewrite H3; [apply odict_lookup_set_eq|].
        intros Hin. apply Hnot. apply Hold_sub. exact Hin.
  - apply Z.ltb_ge in Hbig. unfold cache_ok. cbn [query_cache now].
    split; [split; [exact Hnd1|split; [lia|exact Hts1]]|].
    intros _. apply odict_lookup_set_eq.
Qed.

Lemma cache_ok_later (w w' : world data) :
  cache_ok w -> query_cache w' = query_cache w -> now w <= now w' ->
  cache_ok w'.
Proof.
  intros (Hnd & Hlen & Hts) Hc Hn. unfold cache_ok. rewrite Hc.
  split; [exact Hnd|split; [exact Hlen|]].
  eapply Forall_impl; [exact Hts|]. cbv beta. intros kv H. lia.
Qed.

Lemma query_overpass_cases cfg (ask : server data) w query :
  (exists e, ENABLE_CACHE cfg = true
             /\ odict_lookup query (query_cache w) = Some e
             /\ now w - timestamp e < CACHE_TTL cfg
             /\ query_overpass cfg ask w query = (Ok (Some (entry_data e)), w))
  \/ query_overpass cfg ask w query
     = retry_loop cfg ask query (Z.to_nat (MAX_RETRIES cfg)) w.
Proof.
  unfold query_overpass. destruct (ENABLE_CACHE cfg); [|right; reflexivity].
  destruct (odict_lookup query (query_cache w)) as [e|]; [|right; reflexivity].
  destruct (_ <? _) eqn:Hlt; [|right; reflexivity].
  left. exists e. apply Z.ltb_lt in Hlt. repeat split. exact Hlt.
Qed.

(** X14.  Whatever the server does and whatever the world holds, one
    call posts at most [MAX_RETRIES] requests, pauses fewer times than it
    posts (so never without a request), only adds to the log of pauses, and
    the clock never runs back. *)
Theorem query_overpass_request_budget cfg (ask : server data) w query :
  (requests w <= requests (query_overpass cfg ask w query).2
   <= requests w + Z.to_nat (MAX_RETRIES cfg))%nat
  /\ (exists ws,
        slept (query_overpass cfg ask w query).2 = slept w ++ ws
        /\ (length ws
            <= Nat.pred (requests (query_overpass cfg ask w query).2
                         - requests w))%nat)
  /\ now w <= now (query_overpass cfg ask w query).2.
Proof.
  destruct (query_overpass_cases cfg ask w query) as [(e & _ & _ & _ & ->)| ->].
  - cbn [snd]. split; [lia|]. split; [|lia].
    exists []. rewrite app_nil_r. split; [reflexivity|cbn; lia].
  - destruct (retry_loop cfg ask query (Z.to_nat (MAX_RETRIES cfg)) w)
      as [r w'] eqn:Hrun.
    destruct (retry_loop_effects cfg ask query _ _ _ _ Hrun)
      as (Hnow & Hreq & (ws & Hws & H0 & HS) & _).
    cbn [snd]. split; [exact Hreq|]. split; [|exact Hnow].
    exists ws. split; [exact Hws|].
    destruct (Z.to_nat (MAX_RETRIES cfg)) as [|n].
    + destruct H0 as [-> ->]; [reflexivity|]. cbn. lia.
    + specialize (HS ltac:(discriminate)). lia.
Qed.

(** X15.  The cache changes only when the call returns data and caching
    is on: a call that returns [None] or raises, and any call with caching
    off, leaves it as it was. *)
Theorem query_overpass_caches_only_data cfg (ask : server data) w query :
  (forall d, (query_overpass cfg ask w query).1 <> Ok (Some d)) \/
  ENABLE_CACHE cfg = false ->
  query_cache (query_overpass cfg ask w query).2 = query_cache w.
Proof.
  intros Hwhy.
  destruct (query_overpass_cases cfg ask w query) as [(e & _ & _ & _ & ->)|Heq];
    [reflexivity|].
  rewrite Heq in *.
  destruct (retry_loop cfg ask query (Z.to_nat (MAX_RETRIES cfg)) w)
    as [r w'] eqn:Hrun.
  destruct (retry_loop_effects cfg ask query _ _ _ _ Hrun)
    as (_ & _ & _ & Hc).
  cbn [fst snd] in *.
  destruct r as [[d|]|ex]; try exact Hc.
  destruct Hc as (w0 & Hc0 & _ & ->).
  destruct Hwhy as [Hno|Hoff]; [exfalso; apply (Hno d); reflexivity|].
  rewrite store_in_cache_off by exact Hoff. exact Hc0.
Qed.

(** X16.  A cache with one entry per query, at most 100 entries and no
    timestamp in the future stays so after any call: the eviction of the
    ten oldest entries keeps it within 100. *)
Theorem query_overpass_keeps_cache_ok cfg (ask : server data) w query :
  cache_ok w -> cache_ok (query_overpass cfg ask w query).2.
Proof.
  intros Hok.
  destruct (query_overpass_cases cfg ask w query) as [(e & _ & _ & _ & ->)| ->];
    [exact Hok|].
  destruct (retry_loop cfg ask query (Z.to_nat (MAX_RETRIES cfg)) w)
    as [r w'] eqn:Hrun.
  destruct (retry_loop_effects cfg ask query _ _ _ _ Hrun)
    as (Hnow & _ & _ & Hc).
  cbn [snd].
  destruct r as [[d|]|ex];
    try (apply (cache_ok_later w w' Hok Hc Hnow)).
  destruct Hc as (w0 & Hc0 & Hn0 & ->).
  apply store_in_cache_ok.
  apply (cache_ok_later w w0 Hok Hc0). lia.
Qed.

(** X17.  With caching on, a positive time to live and a cache as in
    X16, the data a call returns is what a second call for the same query
    returns at once: no request, no pause, the world unchanged, whatever
    the server would answer.  (The entry just stored is never among the
    ten evicted.) *)
Theorem query_overpass_cache_round_trip
    cfg (ask ask' : server data) w query d w' :
  ENABLE_CACHE cfg = true -> 0 < CACHE_TTL cfg -> cache_ok w ->
  query_overpass cfg ask w query = (Ok (Some d), w') ->
  query_overpass cfg ask' w' query = (Ok (Some d), w').
Proof.
  intros Hon Httl Hok Hrun.
  assert (Hhit : forall e, odict_lookup query (query_cache w') = Some e ->
            now w' - timestamp e < CACHE_TTL cfg ->
            query_overpass cfg ask' w' query = (Ok (Some (entry_data e)), w')).
  { intros e Hlook Hfresh. unfold query_overpass. rewrite Hon, Hlook.
    rewrite (proj2 (Z.ltb_lt _ _) Hfresh). reflexivity. }
  destruct (query_overpass_cases cfg ask w query)
    as [(e & _ & Hlook & Hfresh & Heq)|Heq]; rewrite Heq in Hrun.
  - injection Hrun as Hd <-. rewrite <- Hd. apply Hhit; assumption.
  - destruct (retry_loop_effects cfg ask query _ _ _ _ Hrun)
      as (Hnow & _ & _ & (w0 & Hc0 & Hn0 & ->)).
    assert (Hok0 : cache_ok w0) by (apply (cache_ok_later w w0 Hok Hc0); lia).
    destruct (store_in_cache_ok cfg query d w0 Hok0) as [_ Hlook].
    specialize (Hlook Hon).
    apply (Hhit _ Hlook). cbn [timestamp].
    destruct (store_in_cache_frame cfg query d w0) as (-> & _). lia.
Qed.

End Cache.

(** A request that fails on a process with an empty cache. *)
Lemma query_overpass_caches_only_data_witness :
  query_cache (query_overpass defaults (fun _ => Fails) fresh_world "q").2
  = query_cache fresh_world.
Proof.
  apply (query_overpass_caches_only_data defaults (fun _ => Fails)
           fresh_world "q").
  left. intros d. vm_compute. discriminate.
Defined.

Lemma cache_ok_fresh_world : cache_ok fresh_world.
Proof.
  split; [apply NoDup_nil_2|]. split; [cbn; lia|apply Forall_nil_2].
Qed.

(** A first answer stored in an empty cache. *)
Lemma query_overpass_keeps_cache_ok_witness :
  cache_ok (query_overpass defaults (fun _ => Responds "body") fresh_world "q").2.
Proof.
  apply (query_overpass_keeps_cache_ok defaults (fun _ => Responds "body")
           fresh_world "q").
  split; [apply NoDup_nil_2|]. split; [cbn; lia|apply Forall_nil_2].
Defined.

(** The body stored by a first call is returned by the second one,
    although the server now fails. *)
Lemma query_overpass_cache_round_trip_witness :
  query_overpass defaults (fun _ => Fails)
    (query_overpass defaults (fun _ => Responds "body") fresh_world "q").2 "q"
  = (Ok (Some "body"),
     (query_overpass defaults (fun _ => Responds "body") fresh_world "q").2).
Proof.
  apply (query_overpass_cache_round_trip defaults (fun _ => Responds "body")
           (fun _ => Fails) fresh_world "q" "body").
  - reflexivity.
  - vm_compute. reflexivity.
  - split; [apply NoDup_nil_2|]. split; [cbn; lia|apply Forall_nil_2].
  - vm_compute. reflexivity.
Defined.

End OverpassCacheFacts.

(** ** [services/overpass_service.py]: [extract_overpass_query] *)

Module QueryTextFacts.

Import PyNum QueryText QueryTextSpec.

Lemma piece_refl s : piece s s.
Proof. exists [], []. rewrite app_nil_r. reflexivity. Qed.

Lemma piece_trans q s t : piece q s -> piece s t -> piece q t.
Proof.
  intros (a & b & ->) (c & d & ->). exists (c ++ a), (b ++ d).
  rewrite <- !app_assoc. reflexivity.
Qed.

Lemma piece_take i s : piece (take i s) s.
Proof. exists [], (drop i s). cbn. symmetry. apply take_drop. Qed.

Lemma piece_drop i s : piece (drop i s) s.
Proof.
  exists (take i s), []. rewrite app_nil_r. symmetry. apply take_drop.
Qed.

Lemma lstrip_suffix s : exists a, s = a ++ lstrip s.
Proof.
  induction s as [|c s [a IH]]; [exists []; reflexivity|].
  cbn [lstrip]. destruct (is_whitespace c).
  - exists (c :: a). cbn. f_equal. exact IH.
  - exists []. reflexivity.
Qed.

Lemma piece_strip s : piece (strip s) s.
Proof.
  unfold strip. destruct (lstrip_suffix s) as [a Ha].
  destruct (lstrip_suffix (rev (lstrip s))) as [b Hb].
  exists a, (rev b). rewrite Ha at 1. f_equal.
  apply (f_equal (@rev N)) in Hb.
  rewrite rev_involutive, rev_app_distr in Hb. exact Hb.
Qed.

Lemma startswith_app sub rest : startswith sub (sub ++ rest) = true.
Proof.
  induction sub as [|a sub IH]; [reflexivity|]. cbn [startswith app].
  rewrite N.eqb_refl. exact IH.
Qed.

Lemma startswith_prefix sub s :
  startswith sub s = true -> s = sub ++ drop (length sub) s.
Proof.
  revert s. induction sub as [|a sub IH]; intros s H; [reflexivity|].
  destruct s as [|b s]; [discriminate|]. cbn [startswith] in H.
  apply andb_true_iff in H as [Hab H]. apply N.eqb_eq in Hab. subst b.
  cbn [length drop app]. f_equal. apply IH. exact H.
Qed.

Lemma startswith_head a sub c s :
  c <> a -> startswith (a :: sub) (c :: s) = false.
Proof.
  intros Hne. cbn [startswith].
  rewrite (proj2 (N.eqb_neq a c)) by congruence. reflexivity.
Qed.

Lemma startswith_weaken sub sub' s :
  startswith (sub ++ sub') s = true -> startswith sub s = true.
Proof.
  revert s. induction sub as [|a sub IH]; intros s H; [reflexivity|].
  destruct s as [|b s]; [discriminate|]. cbn [startswith app] in *.
  apply andb_true_iff in H as [Hab H]. rewrite Hab. apply (IH s H).
Qed.

(** [find] gives the first occurrence. *)
Lemma find_Some sub s i :
  find sub s = Some i ->
  startswith sub (drop i s) = true
  /\ (i <= length s)%nat
  /\ (forall j, (j < i)%nat -> startswith sub (drop j s) = false).
Proof.
  revert i. induction s as [|c s IH]; intros i; cbn [find].
  - destruct (startswith sub []) eqn:Hs; [|discriminate].
    intros [= <-]. split; [exact Hs|]. split; [lia|]. intros j Hj. lia.
  - destruct (startswith sub (c :: s)) eqn:Hs.
    + intros [= <-]. split; [exact Hs|]. split; [lia|]. intros j Hj. lia.
    + destruct (find sub s) as [k|]; [|discriminate]. cbn. intros [= <-].
      destruct (IH k eq_refl) as (H1 & H2 & H3).
      split; [exact H1|]. split; [cbn [length]; lia|].
      intros [|j] Hj; [exact Hs|]. cbn [drop]. apply H3. lia.
Qed.

Lemma find_None sub s :
  find sub s = None -> forall j, startswith sub (drop j s) = false.
Proof.
  induction s as [|c s IH]; cbn [find].
  - destruct (startswith sub []) eqn:Hs; [discriminate|].
    intros _ j. rewrite drop_nil. exact Hs.
  - destruct (startswith sub (c :: s)) eqn:Hs; [discriminate|].
    destruct (find sub s) as [k|]; [discriminate|]. intros _ [|j]; [exact Hs|].
    cbn [drop]. apply IH. reflexivity.
Qed.

Lemma find_at sub s i :
  startswith sub (drop i s) = true ->
  (forall j, (j < i)%nat -> startswith sub (drop j s) = false) ->
  find sub s = Some (Nat.min i (length s)).
Proof.
  intros Hat Hbefore. destruct (find sub s) as [k|] eqn:Hfind.
  - destruct (find_Some sub s k Hfind) as (H1 & H2 & H3). f_equal.
    destruct (Nat.lt_trichotomy k i) as [Hlt | [-> | Hgt]].
    + rewrite (Hbefore k Hlt) in H1. discriminate.
    + lia.
    + destruct (le_lt_dec i (length s)) as [Hle|Hgt'].
      * rewrite (H3 i Hgt) in Hat. discriminate.
      * lia.
  - rewrite (find_None sub s Hfind i) in Hat. discriminate.
Qed.

Lemma find_occurs sub s i :
  startswith sub (drop i s) = true -> is_Some (find sub s).
Proof.
  intros Hat. destruct (find sub s) eqn:Hfind; [eauto|].
  rewrite (find_None sub s Hfind i) in Hat. discriminate.
Qed.

Lemma find_here sub s i :
  find sub s = Some i -> s = take i s ++ sub ++ drop (i + length sub) s.
Proof.
  intros (H & _ & _)%find_Some. apply startswith_prefix in H.
  rewrite <- (take_drop i s) at 1. f_equal. rewrite H at 1. f_equal.
  rewrite drop_drop. reflexivity.
Qed.

Lemma split_rounds_nonempty rounds sep s : split_rounds rounds sep s <> [].
Proof.
  destruct rounds; cbn [split_rounds]; [discriminate|].
  destruct (find sep s); discriminate.
Qed.

Lemma split_rounds_pieces rounds sep : forall s p,
  p ∈ split_rounds rounds sep s -> piece p s.
Proof.
  induction rounds as [|rounds IH]; intros s p; cbn [split_rounds].
  - intros ->%list_elem_of_singleton. apply piece_refl.
  - destruct (find sep s) as [i|].
    + intros [-> | Hp]%elem_of_cons; [apply piece_take|].
      apply (piece_trans _ (drop (i + length sep) s)); [|apply piece_drop].
      apply IH. exact Hp.
    + intros ->%list_elem_of_singleton. apply piece_refl.
Qed.

(** More rounds than [length s + 1] change nothing. *)
Lemma split_rounds_enough sep : sep <> [] -> forall n m s,
  (length s < n)%nat -> (length s < m)%nat ->
  split_rounds n sep s = split_rounds m sep s.
Proof.
  intros Hsep n. induction n as [|n IH]; intros m s Hn Hm; [lia|].
  destruct m as [|m]; [lia|]. cbn [split_rounds].
  destruct (find sep s) as [i|] eqn:Hfind; [|reflexivity]. f_equal.
  assert (Hshort : (length (drop (i + length sep) s) < length s)%nat).
  { pose proof (find_here sep s i Hfind) as Hs.
    apply (f_equal length) in Hs. rewrite !length_app in Hs.
    destruct sep; [contradiction|]. cbn [length] in *. lia. }
  apply IH; lia.
Qed.

Lemma getitem_Ok {A} (l : list A) (i : nat) x :
  l !! i = Some x -> list_getitem_Z l (Z.of_nat i) = Ok x.
Proof.
  intros Hx. pose proof (lookup_lt_Some _ _ _ Hx) as Hlt.
  unfold list_getitem_Z.
  rewrite (proj2 (Z.leb_le 0 _)) by lia.
  rewrite (proj2 (Z.ltb_lt _ _)) by lia.
  cbn [andb]. unfold list_getitem. rewrite Nat2Z.id, Hx. reflexivity.
Qed.

Lemma getitem_0 {A} (l : list A) x :
  l !! 0%nat = Some x -> list_getitem_Z l 0 = Ok x.
Proof. apply (getitem_Ok l 0). Qed.

Lemma getitem_1 {A} (l : list A) x :
  l !! 1%nat = Some x -> list_getitem_Z l 1 = Ok x.
Proof. apply (getitem_Ok l 1). Qed.

Lemma split_rounds_head n sep s :
  split_rounds (S n) sep s !! 0%nat
  = Some (match find sep s with Some i => take i s | None => s end).
Proof. cbn [split_rounds]. destruct (find sep s); reflexivity. Qed.

Lemma split_on_first sep s :
  split_on sep s !! 0%nat
  = Some (match find sep s with Some i => take i s | None => s end).
Proof. apply split_rounds_head. Qed.

Lemma split_on_second sep s i :
  sep <> [] -> find sep s = Some i ->
  split_on sep s !! 1%nat
  = Some (match find sep (drop (i + length sep) s) with
          | Some k => take k (drop (i + length sep) s)
          | None => drop (i + length sep) s
          end).
Proof.
  intros Hsep Hfind. unfold split_on.
  destruct (length s) as [|n] eqn:Hlen.
  - exfalso. pose proof (find_here sep s i Hfind) as Hs.
    apply (f_equal length) in Hs. rewrite !length_app in Hs.
    destruct sep; [contradiction|]. cbn [length] in Hs. lia.
  - change (split_rounds (S (S n)) sep s)
      with (match find sep s with
            | None => [s]
            | Some i => take i s
                        :: split_rounds (S n) sep (drop (i + length sep) s)
            end).
    rewrite Hfind. apply (split_rounds_head n).
Qed.

Lemma split_on_length sep s i :
  find sep s = Some i -> (2 <= length (split_on sep s))%nat.
Proof.
  intros Hfind. unfold split_on. cbn [split_rounds]. rewrite Hfind.
  cbn [length].
  pose proof (split_rounds_nonempty (length s) sep (drop (i + length sep) s)).
  destruct (split_rounds _ _ _); [contradiction|cbn [length]; lia].
Qed.

Lemma getitem_elem {A} (l : list A) (i : Z) x :
  list_getitem_Z l i = Ok x -> x ∈ l.
Proof.
  unfold list_getitem_Z, list_getitem.
  destruct (_ && _).
  - destruct (l !! _) eqn:H; [|discriminate]. intros [= <-].
    apply (list_elem_of_lookup_2 _ _ _ H).
  - destruct (_ && _); [|discriminate].
    destruct (l !! _) eqn:H; [|discriminate]. intros [= <-].
    apply (list_elem_of_lookup_2 _ _ _ H).
Qed.

Lemma split_on_piece sep s (i : Z) p :
  list_getitem_Z (split_on sep s) i = Ok p -> piece p s.
Proof.
  intros H%getitem_elem. apply (split_rounds_pieces _ _ _ _ H).
Qed.

Lemma occurs_find sub s :
  occurs sub s = true <-> exists i, find sub s = Some i.
Proof.
  unfold occurs. rewrite bool_decide_eq_true. reflexivity.
Qed.

Lemma occurs_false sub s : occurs sub s = false <-> find sub s = None.
Proof.
  unfold occurs. rewrite bool_decide_eq_false.
  destruct (find sub s) as [i|]; split.
  - intros H. exfalso. apply H. eauto.
  - discriminate.
  - reflexivity.
  - intros _ [x Hx]. discriminate.
Qed.

Lemma search_out_json_piece text q :
  search_out_json text = Some q ->
  piece q text
  /\ exists mid, q = lit "[out:json];" ++ mid ++ lit "out skel".
Proof.
  unfold search_out_json.
  destruct (find (lit "[out:json];") text) as [i|] eqn:Hi; [|discriminate].
  cbn [mbind option_bind].
  destruct (find (lit "out skel") (drop (i + 11) text)) as [j|] eqn:Hj;
    [|discriminate].
  cbn [mbind option_bind]. intros [= <-]. split.
  - apply (piece_trans _ (drop i text)); [apply piece_take|apply piece_drop].
  - exists (take j (drop (i + 11) text)).
    pose proof (find_here _ _ _ Hi) as Htext.
    pose proof (find_here _ _ _ Hj) as Hrest.
    change (length (lit "[out:json];")) with 11%nat in Htext.
    change (length (lit "out skel")) with 8%nat in Hrest.
    destruct (find_Some _ _ _ Hj) as (_ & Hjlen & _).
    rewrite Htext at 1. rewrite drop_app_length'.
    2:{ rewrite length_take. destruct (find_Some _ _ _ Hi) as (_ & Hilen & _). lia. }
    rewrite Hrest at 1.
    rewrite (app_assoc (take j _)), (app_assoc (lit "[out:json];")).
    rewrite (app_assoc (lit "[out:json];")).
    rewrite take_app_length'; [rewrite <- !app_assoc; reflexivity|].
    rewrite !length_app, length_take.
    change (length (lit "[out:json];")) with 11%nat.
    change (length (lit "out skel")) with 8%nat. lia.
Qed.

Lemma lstrip_head s c : head (lstrip s) = Some c -> is_whitespace c = false.
Proof.
  induction s as [|c' s IH]; cbn [lstrip]; [discriminate|].
  destruct (is_whitespace c') eqn:Hc; [exact IH|]. intros [= <-]. exact Hc.
Qed.

Lemma rev_is_reverse {A} (l : list A) : rev l = reverse l.
Proof. rewrite rev_alt. reflexivity. Qed.

Lemma strip_trimmed s : trimmed (strip s).
Proof.
  unfold trimmed, strip. intros c. rewrite rev_is_reverse.
  rewrite head_reverse, last_reverse. intros [Hlast | Hhead].
  - destruct (lstrip_suffix (rev (lstrip s))) as [a Ha].
    assert (Hl : last (rev (lstrip s)) = Some c).
    { rewrite Ha, last_app, Hlast. reflexivity. }
    rewrite rev_is_reverse, last_reverse in Hl.
    apply (lstrip_head s c Hl).
  - apply (lstrip_head _ c Hhead).
Qed.

(** Lines 119-135, as they stand in [extract_overpass_query]. *)
Lemma generic_block text :
  exists found,
    (if occurs (lit "```") text then
       let parts := split_on (lit "```") text in
       if 3 <=? Z.of_nat (length parts) then
         part ← list_getitem_Z parts 1;
         let code_block := strip part in
         if existsb (fun indicator => occurs indicator code_block)
              overpass_indicators
         then Ok (Some code_block)
         else Ok None
       else Ok None
     else Ok None) = Ok found
    /\ (forall q, found = Some q -> piece q text /\ trimmed q)
    /\ (occurs (lit "```") text = false -> found = None).
Proof.
  destruct (occurs (lit "```") text) eqn:HT.
  2:{ exists None. split; [reflexivity|]. split; [discriminate|reflexivity]. }
  cbv zeta. destruct (3 <=? _) eqn:Hlen.
  2:{ exists None. split; [reflexivity|]. split; discriminate. }
  apply Z.leb_le in Hlen.
  destruct (lookup_lt_is_Some_2 (split_on (lit "```") text) 1) as [part Hpart];
    [lia|].
  rewrite (getitem_1 (A:=str) _ _ Hpart). cbn [mbind result_bind].
  destruct (existsb _ _).
  - exists (Some (strip part)). split; [reflexivity|]. split; [|discriminate].
    intros q [= <-]. split; [|apply strip_trimmed].
    apply (piece_trans _ part); [apply piece_strip|].
    apply (split_rounds_pieces _ _ _ _ (list_elem_of_lookup_2 _ _ _ Hpart)).
  - exists None. split; [reflexivity|]. split; discriminate.
Qed.

Lemma fence_nonempty : lit "```overpass" <> [].
Proof. discriminate. Qed.

Lemma ticks_nonempty : lit "```" <> [].
Proof. discriminate. Qed.

Lemma fence_has_ticks text :
  occurs (lit "```") text = false ->
  occurs (lit "```overpass") text = false.
Proof.
  intros Hno. apply occurs_false in Hno. apply occurs_false.
  destruct (find (lit "```overpass") text) as [i|] eqn:Hi; [|reflexivity].
  exfalso. apply find_Some in Hi as (Hat & _ & _).
  apply (startswith_weaken (lit "```") (lit "overpass")) in Hat.
  rewrite (find_None _ _ Hno i) in Hat. discriminate.
Qed.

(** X18.  [extract_overpass_query] never raises.  What it returns is a
    stretch of consecutive characters of the text: without white space at
    either end when it comes from a fenced block, and of the form
    [[out:json]; ... out skel] otherwise.  On a text without a fence the
    result is the regular-expression match alone, so a text with neither a
    fence nor [[out:json];] gives [None]. *)
Theorem extract_overpass_query_piece (text : str) :
  exists r,
    extract_overpass_query text = Ok r
    /\ (forall q, r = Some q ->
          piece q text
          /\ (trimmed q
              \/ exists mid, q = lit "[out:json];" ++ mid ++ lit "out skel"))
    /\ (occurs (lit "```") text = false ->
        r = search_out_json text
        /\ (occurs (lit "[out:json];") text = false -> r = None)).
Proof.
  unfold extract_overpass_query.
  assert (Hgeneric : forall fenced,
            (fenced = true -> occurs (lit "```") text = true) ->
            fenced = false ->
            exists r,
              (if fenced then
                 part ← list_getitem_Z (split_on (lit "```overpass") text) 1;
                 block ← list_getitem_Z (split_on (lit "```") part) 0;
                 Ok (Some (strip block))
               else
                 found ←
                   (if occurs (lit "```") text then
                      let parts := split_on (lit "```") text in
                      if 3 <=? Z.of_nat (length parts) then
                        part ← list_getitem_Z parts 1;
                        let code_block := strip part in
                        if existsb
                             (fun indicator => occurs indicator code_block)
                             overpass_indicators
                        then Ok (Some code_block)
                        else Ok None
                      else Ok None
                    else Ok None);
                 match found with
                 | Some code_block => Ok (Some code_block)
                 | None => Ok (search_out_json text)
                 end) = Ok r
              /\ (forall q, r = Some q ->
                    piece q text
                    /\ (trimmed q
                        \/ exists mid,
                             q = lit "[out:json];" ++ mid ++ lit "out skel"))
              /\ (occurs (lit "```") text = false ->
                  r = search_out_json text
                  /\ (occurs (lit "[out:json];") text = false -> r = None))).
  { intros fenced _ ->.
    destruct (generic_block text) as (found & -> & Hfound & Hplain).
    cbn [mbind result_bind]. destruct found as [q|].
    - exists (Some q). split; [reflexivity|]. split.
      + intros q' [= <-]. destruct (Hfound q eq_refl) as [H1 H2].
        split; [exact H1|left; exact H2].
      + intros Hno. specialize (Hplain Hno). discriminate.
    - exists (search_out_json text). split; [reflexivity|]. split.
      + intros q Hq. destruct (search_out_json_piece text q Hq) as [H1 H2].
        split; [exact H1|right; exact H2].
      + intros _. split; [reflexivity|]. intros Hno.
        apply occurs_false in Hno. unfold search_out_json.
        rewrite Hno. reflexivity. }
  destruct (occurs (lit "```overpass") text) eqn:HF.
  - apply occurs_find in HF as [i Hi].
    rewrite (getitem_1 (A:=str) _ _ (split_on_second _ _ _ fence_nonempty Hi)).
    cbn [mbind result_bind].
    set (part := match find (lit "```overpass") _ with
                 | Some k => _ | None => _ end).
    assert (Hpart : piece part text).
    { unfold part. destruct (find (lit "```overpass") (drop _ text)).
      - apply (piece_trans _ (drop (i + length (lit "```overpass")) text));
          [apply piece_take|apply piece_drop].
      - apply piece_drop. }
    destruct (occurs (lit "```") part) eqn:HT.
    + rewrite (getitem_0 (A:=str) _ _ (split_on_first _ _)).
      cbn [mbind result_bind].
      eexists. split; [reflexivity|]. split.
      * intros q [= <-]. split; [|left; apply strip_trimmed].
        apply (piece_trans _ part); [|exact Hpart].
        eapply piece_trans; [apply piece_strip|].
        destruct (find _ part); [apply piece_take|apply piece_refl].
      * intros Hno. apply fence_has_ticks in Hno.
        apply occurs_false in Hno. congruence.
    + apply (Hgeneric false); [discriminate|reflexivity].
  - cbn [mbind result_bind].
    apply (Hgeneric false); [discriminate|reflexivity].
Qed.

Lemma find_after_clean a sub pre rest :
  a ∉ pre -> find (a :: sub) (pre ++ (a :: sub) ++ rest) = Some (length pre).
Proof.
  intros Hclean.
  rewrite (find_at (a :: sub) _ (length pre)).
  - f_equal. rewrite length_app. lia.
  - rewrite drop_app_length. apply startswith_app.
  - intros j Hj. rewrite drop_app_le by lia.
    destruct (lookup_lt_is_Some_2 pre j Hj) as [c Hc].
    rewrite (drop_S _ _ _ Hc). cbn [app]. apply startswith_head.
    intros ->. apply Hclean. apply (list_elem_of_lookup_2 _ _ _ Hc).
Qed.

Lemma fence_not_early body post k :
  backtick ∉ body -> head post <> Some backtick ->
  startswith (lit "overpass") post = false ->
  find (lit "```overpass") (body ++ lit "```" ++ post) = Some k ->
  (length body + 3 <= k)%nat.
Proof.
  intros Hbody Hhead Hover Hfind.
  apply find_Some in Hfind as (Hat & _ & _).
  destruct (le_lt_dec (length body + 3) k) as [Hle|Hlt]; [exact Hle|].
  exfalso. destruct (le_lt_dec (length body) k) as [Hge|Hin].
  - replace k with (length body + (k - length body))%nat in Hat by lia.
    rewrite <- drop_drop, drop_app_length in Hat.
    assert (Hpost : forall s, startswith (backtick :: s) post = false).
    { intros s. destruct post as [|c post]; [reflexivity|].
      apply startswith_head. intros ->. apply Hhead. reflexivity. }
    destruct (k - length body)%nat as [|[|[|n]]] eqn:Hk; [| | |lia].
    + cbn in Hat. cbn in Hover. rewrite Hover in Hat. discriminate.
    + change (startswith (lit "```overpass") (drop 1 (lit "```" ++ post)))
        with (startswith (backtick :: lit "overpass") post) in Hat.
      rewrite Hpost in Hat. discriminate.
    + change (startswith (lit "```overpass") (drop 2 (lit "```" ++ post)))
        with (startswith (backtick :: backtick :: lit "overpass") post) in Hat.
      rewrite Hpost in Hat. discriminate.
  - rewrite drop_app_le in Hat by lia.
    destruct (lookup_lt_is_Some_2 body k Hin) as [c Hc].
    rewrite (drop_S _ _ _ Hc) in Hat. cbn [app] in Hat.
    change (lit "```overpass") with (backtick :: lit "``overpass") in Hat.
    rewrite startswith_head in Hat; [discriminate|].
    intros ->. apply Hbody. apply (list_elem_of_lookup_2 _ _ _ Hc).
Qed.

(** X19.  A text with an [```overpass] fence, where neither the text
    before the fence nor the block has a backtick and the text after the
    closing fence starts neither with a backtick nor with [overpass], gives
    the block without the white space around it. *)
Theorem extract_overpass_query_fenced (pre body post : str) :
  backtick ∉ pre -> backtick ∉ body ->
  head post <> Some backtick ->
  startswith (lit "overpass") post = false ->
  extract_overpass_query
    (pre ++ lit "```overpass" ++ body ++ lit "```" ++ post)
  = Ok (Some (strip body)).
Proof.
  intros Hpre Hbody Hhead Hover.
  set (text := pre ++ lit "```overpass" ++ body ++ lit "```" ++ post).
  assert (Hfence : find (lit "```overpass") text = Some (length pre))
    by (apply (find_after_clean backtick (lit "``overpass")); exact Hpre).
  assert (Hrest : drop (length pre + length (lit "```overpass")) text
                  = body ++ lit "```" ++ post).
  { unfold text. rewrite <- drop_drop, drop_app_length.
    apply drop_app_length. }
  pose proof (split_on_second _ _ _ fence_nonempty Hfence) as Hpart.
  rewrite Hrest in Hpart.
  set (part := match find (lit "```overpass") (body ++ lit "```" ++ post) with
               | Some k => take k (body ++ lit "```" ++ post)
               | None => body ++ lit "```" ++ post
               end) in Hpart.
  assert (Hshape : exists post', part = body ++ lit "```" ++ post').
  { unfold part.
    destruct (find (lit "```overpass") (body ++ lit "```" ++ post))
      as [k|] eqn:Hk; [|eauto].
    pose proof (fence_not_early body post k Hbody Hhead Hover Hk) as Hle.
    exists (take (k - length body - 3) post).
    rewrite take_app_ge by lia. f_equal.
    rewrite take_app_ge by (cbn [length lit]; cbn; lia).
    reflexivity. }
  destruct Hshape as [post' Hshape].
  assert (Hticks : find (lit "```") part = Some (length body)).
  { rewrite Hshape.
    apply (find_after_clean backtick (lit "``")). exact Hbody. }
  unfold extract_overpass_query. fold text.
  assert (HF : occurs (lit "```overpass") text = true)
    by (apply occurs_find; eauto).
  assert (HT : occurs (lit "```") part = true)
    by (apply occurs_find; eauto).
  rewrite HF. rewrite (getitem_1 (A:=str) _ _ Hpart).
  cbn [mbind result_bind]. rewrite HT.
  rewrite (getitem_0 (A:=str) _ _ (split_on_first _ _)).
  cbn [mbind result_bind]. rewrite Hticks.
  rewrite Hshape, take_app_length. reflexivity.
Qed.

(** A fenced query inside a sentence. *)
Lemma extract_overpass_query_fenced_witness :
  extract_overpass_query
    (lit "Query: ```overpass node[a=b];out body; ``` done")
  = Ok (Some (lit "node[a=b];out body;")).
Proof.
  apply (extract_overpass_query_fenced
           (lit "Query: ") (lit " node[a=b];out body; ") (lit " done")).
  - intros H. apply list_elem_of_In in H. vm_compute in H.
    intuition discriminate.
  - intros H. apply list_elem_of_In in H. vm_compute in H.
    intuition discriminate.
  - discriminate.
  - reflexivity.
Defined.

End QueryTextFacts.

(** ** [models/geo_data.py]: bounds *)

Module GeoBoundsFacts.

Import PyNum GeoData GeoDataSpec GeoDataFacts.
Import GeoBounds GeoBoundsSpec.

Lemma SFcompare_rank x y :
  SFcompare x y =
  match rank x, rank y with
  | Some a, Some b => Some (rank_compare a b)
  | _, _ => None
  end.
Proof.
  destruct x as [sx|sx| |sx mx ex], y as [sy|sy| |sy my ey];
    try destruct sx; try destruct sy; try reflexivity.
  cbn [SFcompare rank]. unfold rank_compare. cbn [fst snd].
  change (-1 ?= -1) with Eq. cbv iota.
  rewrite Z.compare_opp. rewrite (Z.compare_antisym ey ex).
  destruct (ey ?= ex) eqn:E; cbn [CompOpp]; reflexivity.
Qed.

Lemma rank_compare_le a b :
  (rank_compare a b = Lt \/ rank_compare a b = Eq) <-> rank_le a b.
Proof.
  unfold rank_compare, rank_le.
  destruct (Z.compare_spec a.1.1 b.1.1), (Z.compare_spec a.1.2 b.1.2),
    (Z.compare_spec a.2 b.2); split; intros; try lia;
    try (left; reflexivity); try (right; reflexivity);
    try (destruct H2; discriminate); try (destruct H1; discriminate);
    try (destruct H0; discriminate).
Qed.

Lemma rank_compare_lt a b : rank_compare a b = Lt <-> rank_lt a b.
Proof.
  unfold rank_compare, rank_lt.
  destruct (Z.compare_spec a.1.1 b.1.1), (Z.compare_spec a.1.2 b.1.2),
    (Z.compare_spec a.2 b.2); split; intros; try lia;
    try reflexivity; try discriminate.
Qed.

Lemma leb_rank x y :
  (x <=? y)%float = true <->
  exists a b, rank (Prim2SF x) = Some a /\ rank (Prim2SF y) = Some b
              /\ rank_le a b.
Proof.
  rewrite FloatAxioms.leb_spec. unfold SFleb. rewrite SFcompare_rank.
  destruct (rank (Prim2SF x)) as [a|], (rank (Prim2SF y)) as [b|].
  - pose proof (rank_compare_le a b) as H.
    destruct (rank_compare a b); split.
    + intros _. exists a, b. split; [reflexivity|]. split; [reflexivity|].
      apply H. right. reflexivity.
    + reflexivity.
    + intros _. exists a, b. split; [reflexivity|]. split; [reflexivity|].
      apply H. left. reflexivity.
    + reflexivity.
    + discriminate.
    + intros (a' & b' & [= <-] & [= <-] & Hle).
      apply H in Hle. destruct Hle; discriminate.
  - split; [discriminate|]. intros (a' & b' & _ & [=] & _).
  - split; [discriminate|]. intros (a' & b' & [=] & _).
  - split; [discriminate|]. intros (a' & b' & [=] & _).
Qed.

Lemma ltb_rank x y :
  (x <? y)%float = true <->
  exists a b, rank (Prim2SF x) = Some a /\ rank (Prim2SF y) = Some b
              /\ rank_lt a b.
Proof.
  rewrite FloatAxioms.ltb_spec. unfold SFltb. rewrite SFcompare_rank.
  destruct (rank (Prim2SF x)) as [a|], (rank (Prim2SF y)) as [b|].
  - pose proof (rank_compare_lt a b) as H.
    destruct (rank_compare a b); split.
    + discriminate.
    + intros (a' & b' & [= <-] & [= <-] & Hlt). apply H in Hlt. discriminate.
    + intros _. exists a, b. split; [reflexivity|]. split; [reflexivity|].
      apply H. reflexivity.
    + reflexivity.
    + discriminate.
    + intros (a' & b' & [= <-] & [= <-] & Hlt). apply H in Hlt. discriminate.
  - split; [discriminate|]. intros (a' & b' & _ & [=] & _).
  - split; [discriminate|]. intros (a' & b' & [=] & _).
  - split; [discriminate|]. intros (a' & b' & [=] & _).
Qed.

Lemma is_nan_rank x :
  is_nan x = false <-> exists a, rank (Prim2SF x) = Some a.
Proof.
  unfold is_nan. rewrite FloatAxioms.eqb_spec. unfold SFeqb. rewrite SFcompare_rank.
  destruct (rank (Prim2SF x)) as [a|].
  - split; [intros _; exists a; reflexivity|]. intros _.
    assert (rank_compare a a = Eq) as ->; [|reflexivity].
    unfold rank_compare. rewrite !Z.compare_refl. reflexivity.
  - split; [discriminate|]. intros [a [=]].
Qed.

Lemma leb_refl x : is_nan x = false -> (x <=? x)%float = true.
Proof.
  intros [a Ha]%is_nan_rank. apply leb_rank. exists a, a.
  split; [exact Ha|]. split; [exact Ha|]. unfold rank_le. lia.
Qed.

Lemma leb_trans x y z :
  (x <=? y)%float = true -> (y <=? z)%float = true -> (x <=? z)%float = true.
Proof.
  intros (a & b & Ha & Hb & Hab)%leb_rank (b' & c & Hb' & Hc & Hbc)%leb_rank.
  rewrite Hb in Hb'. injection Hb' as <-.
  apply leb_rank. exists a, c. split; [exact Ha|]. split; [exact Hc|].
  unfold rank_le in *. lia.
Qed.

Lemma ltb_leb x y : (x <? y)%float = true -> (x <=? y)%float = true.
Proof.
  intros (a & b & Ha & Hb & Hab)%ltb_rank. apply leb_rank. exists a, b.
  split; [exact Ha|]. split; [exact Hb|]. unfold rank_le, rank_lt in *. lia.
Qed.

Lemma not_ltb_leb x y :
  is_nan x = false -> is_nan y = false ->
  (x <? y)%float = false -> (y <=? x)%float = true.
Proof.
  intros [a Ha]%is_nan_rank [b Hb]%is_nan_rank Hlt.
  apply leb_rank. exists b, a. split; [exact Hb|]. split; [exact Ha|].
  destruct (decide (rank_lt a b)) as [H|H].
  - exfalso. assert ((x <? y)%float = true); [|congruence].
    apply ltb_rank. exists a, b. auto.
  - unfold rank_le, rank_lt in *. lia.
Qed.

Lemma leb_not_nan x y :
  (x <=? y)%float = true -> is_nan x = false /\ is_nan y = false.
Proof.
  intros (a & b & Ha & Hb & _)%leb_rank.
  split; apply is_nan_rank; eauto.
Qed.

Lemma float_min_from_spec values : forall best,
  is_nan best = false -> Forall (fun v => is_nan v = false) values ->
  (float_min_from best values <=? best)%float = true
  /\ Forall (fun v => (float_min_from best values <=? v)%float = true) values
  /\ (float_min_from best values = best \/ float_min_from best values ∈ values).
Proof.
  induction values as [|v rest IH]; intros best Hbest Hvalues; cbn [float_min_from].
  - split; [apply leb_refl; exact Hbest|]. split; [apply Forall_nil_2|].
    left. reflexivity.
  - apply Forall_cons in Hvalues as [Hv Hrest].
    destruct (v <? best)%float eqn:Hlt.
    + destruct (IH v Hv Hrest) as (H1 & H2 & H3).
      split; [apply (leb_trans _ v); [exact H1|apply ltb_leb; exact Hlt]|].
      split; [apply Forall_cons_2; [exact H1|exact H2]|].
      right. destruct H3 as [-> | H3]; [left|right; exact H3].
    + destruct (IH best Hbest Hrest) as (H1 & H2 & H3).
      split; [exact H1|].
      split; [apply Forall_cons_2; [|exact H2]|].
      * apply (leb_trans _ best); [exact H1|].
        apply not_ltb_leb; assumption.
      * destruct H3 as [H3 | H3]; [left; exact H3|right; right; exact H3].
Qed.

Lemma float_max_from_spec values : forall best,
  is_nan best = false -> Forall (fun v => is_nan v = false) values ->
  (best <=? float_max_from best values)%float = true
  /\ Forall (fun v => (v <=? float_max_from best values)%float = true) values
  /\ (float_max_from best values = best \/ float_max_from best values ∈ values).
Proof.
  induction values as [|v rest IH]; intros best Hbest Hvalues; cbn [float_max_from].
  - split; [apply leb_refl; exact Hbest|]. split; [apply Forall_nil_2|].
    left. reflexivity.
  - apply Forall_cons in Hvalues as [Hv Hrest].
    destruct (best <? v)%float eqn:Hlt.
    + destruct (IH v Hv Hrest) as (H1 & H2 & H3).
      split; [apply (leb_trans _ v); [apply ltb_leb; exact Hlt|exact H1]|].
      split; [apply Forall_cons_2; [exact H1|exact H2]|].
      right. destruct H3 as [-> | H3]; [left|right; exact H3].
    + destruct (IH best Hbest Hrest) as (H1 & H2 & H3).
      split; [exact H1|].
      split; [apply Forall_cons_2; [|exact H2]|].
      * apply (leb_trans _ best); [|exact H1].
        apply not_ltb_leb; assumption.
      * destruct H3 as [H3 | H3]; [left; exact H3|right; right; exact H3].
Qed.

Lemma no_nan_lon coords :
  no_nan coords -> Forall (fun v => is_nan v = false) (map lon coords).
Proof.
  intros H. apply Forall_fmap. eapply Forall_impl; [exact H|].
  cbv beta. intros c [Hc _]. exact Hc.
Qed.

Lemma no_nan_lat coords :
  no_nan coords -> Forall (fun v => is_nan v = false) (map lat coords).
Proof.
  intros H. apply Forall_fmap. eapply Forall_impl; [exact H|].
  cbv beta. intros c [_ Hc]. exact Hc.
Qed.

Lemma get_bounds_eq self coord rest :
  all_coords self = coord :: rest ->
  get_bounds self
  = {| min_lon := float_min_from (lon coord) (map lon rest);
       min_lat := float_min_from (lat coord) (map lat rest);
       max_lon := float_max_from (lon coord) (map lon rest);
       max_lat := float_max_from (lat coord) (map lat rest) |}.
Proof. unfold get_bounds. intros ->. reflexivity. Qed.

Lemma attained (f : Coordinate -> float) m coord rest :
  m = f coord \/ m ∈ map f rest -> exists c, c ∈ coord :: rest /\ f c = m.
Proof.
  intros [-> | H].
  - exists coord. split; [left|reflexivity].
  - apply list_elem_of_fmap in H as (c & -> & Hc).
    exists c. split; [right; exact Hc|reflexivity].
Qed.

Lemma filter_none {A} (f : A -> bool) (l : list A) :
  (forall x, x ∈ l -> f x = false) -> List.filter f l = [].
Proof.
  induction l as [|x l IH]; intros H; [reflexivity|]. cbn [List.filter].
  rewrite (H x) by left. apply IH. intros y Hy. apply H. right. exact Hy.
Qed.

Lemma filter_all {A} (f : A -> bool) (l : list A) :
  (forall x, x ∈ l -> f x = true) -> List.filter f l = l.
Proof.
  induction l as [|x l IH]; intros H; [reflexivity|]. cbn [List.filter].
  rewrite (H x) by left. f_equal. apply IH. intros y Hy. apply H. right. exact Hy.
Qed.

Lemma filter_same {A} (f g : A -> bool) (l : list A) :
  (forall x, x ∈ l -> f x = g x) -> List.filter f l = List.filter g l.
Proof.
  intros H. apply filter_ext_in. intros x Hx. apply H.
  apply list_elem_of_In. exact Hx.
Qed.

Lemma elem_of_flat_map {A B} (f : A -> list B) (l : list A) x y :
  x ∈ l -> y ∈ f x -> y ∈ flat_map f l.
Proof.
  intros Hx Hy. apply list_elem_of_In, in_flat_map. exists x.
  split; apply list_elem_of_In; assumption.
Qed.

Lemma any_in_bounds_located bounds coords (all : list Coordinate) :
  (forall c, c ∈ all -> contains bounds c = true) ->
  (forall c, c ∈ coords -> c ∈ all) ->
  any_in_bounds bounds coords = negb (bool_decide (coords = [])).
Proof.
  intros Hall Hsub. destruct coords as [|c coords]; [reflexivity|].
  rewrite bool_decide_eq_false_2 by discriminate.
  cbn [any_in_bounds existsb negb]. unfold in_bounds.
  rewrite (Hall c); [reflexivity|]. apply Hsub. left.
Qed.

Lemma contains_proper bounds coord :
  contains bounds coord = true ->
  (min_lon bounds <=? max_lon bounds)%float = true
  /\ (min_lat bounds <=? max_lat bounds)%float = true.
Proof.
  unfold contains. rewrite !andb_true_iff. intros [[H1 H2] [H3 H4]].
  split; [apply (leb_trans _ (lon coord))|apply (leb_trans _ (lat coord))];
    assumption.
Qed.

Lemma get_bounds_spec (self : GeoDataCollection) :
  no_nan (all_coords self) ->
  (forall coord, coord ∈ all_coords self ->
     contains (get_bounds self) coord = true)
  /\ (all_coords self <> [] ->
      (exists c, c ∈ all_coords self /\ lon c = min_lon (get_bounds self))
      /\ (exists c, c ∈ all_coords self /\ lat c = min_lat (get_bounds self))
      /\ (exists c, c ∈ all_coords self /\ lon c = max_lon (get_bounds self))
      /\ (exists c, c ∈ all_coords self /\ lat c = max_lat (get_bounds self))).
Proof.
  intros Hnan. destruct (all_coords self) as [|coord rest] eqn:Hall.
  - split; [intros c Hc; inversion Hc|]. intros H. contradiction.
  - rewrite (get_bounds_eq self coord rest Hall).
    apply Forall_cons in Hnan as [[Hlon Hlat] Hrest].
    destruct (float_min_from_spec (map lon rest) (lon coord) Hlon (no_nan_lon _ Hrest))
      as (A1 & A2 & A3).
    destruct (float_min_from_spec (map lat rest) (lat coord) Hlat (no_nan_lat _ Hrest))
      as (B1 & B2 & B3).
    destruct (float_max_from_spec (map lon rest) (lon coord) Hlon (no_nan_lon _ Hrest))
      as (C1 & C2 & C3).
    destruct (float_max_from_spec (map lat rest) (lat coord) Hlat (no_nan_lat _ Hrest))
      as (D1 & D2 & D3).
    split.
    + intros c Hc. unfold contains. cbn [min_lon min_lat max_lon max_lat].
      apply elem_of_cons in Hc as [-> | Hc].
      * rewrite A1, B1, C1, D1. reflexivity.
      * rewrite Forall_forall in A2, B2, C2, D2.
        rewrite (A2 (lon c)), (C2 (lon c)) by
          (apply list_elem_of_fmap; exists c; split; [reflexivity|exact Hc]).
        rewrite (B2 (lat c)), (D2 (lat c)) by
          (apply list_elem_of_fmap; exists c; split; [reflexivity|exact Hc]).
        reflexivity.
    + intros _. cbn [min_lon min_lat max_lon max_lat].
      split; [apply (attained lon); exact A3|].
      split; [apply (attained lat); exact B3|].
      split; [apply (attained lon); exact C3|apply (attained lat); exact D3].
Qed.

(** X20.  When no coordinate is a NaN, the box [get_bounds] returns
    contains every coordinate of the collection, and each of its four sides
    passes through one of them. *)
Theorem get_bounds_contains_all (self : GeoDataCollection) :
  no_nan (all_coords self) ->
  (forall coord, coord ∈ all_coords self ->
     contains (get_bounds self) coord = true)
  /\ (all_coords self <> [] ->
      (exists c, c ∈ all_coords self /\ lon c = min_lon (get_bounds self))
      /\ (exists c, c ∈ all_coords self /\ lat c = min_lat (get_bounds self))
      /\ (exists c, c ∈ all_coords self /\ lon c = max_lon (get_bounds self))
      /\ (exists c, c ∈ all_coords self /\ lat c = max_lat (get_bounds self))).
Proof. apply get_bounds_spec. Qed.

(** X21.  When no coordinate is a NaN, filtering a collection by its own
    bounds keeps every feature that has a coordinate, in order, and drops
    exactly the buildings, roads and polygons without any; a collection
    whose features all have coordinates comes back as it is. *)
Theorem filter_by_own_bounds (self : GeoDataCollection) :
  no_nan (all_coords self) ->
  filter_by_bounds self (get_bounds self) = located self
  /\ (Forall (fun b => building_coordinates b <> []) (buildings self) ->
      Forall (fun r => road_coordinates r <> []) (roads self) ->
      Forall (fun p => polygon_coordinates p <> []) (polygons self) ->
      filter_by_bounds self (get_bounds self) = self).
Proof.
  intros Hnan.
  pose proof (proj1 (get_bounds_spec self Hnan)) as Hin.
  assert (Hloc : filter_by_bounds self (get_bounds self) = located self).
  { unfold filter_by_bounds, located. f_equal.
    - apply filter_same. intros b Hb.
      apply (any_in_bounds_located _ _ (all_coords self) Hin).
      intros c Hc. unfold all_coords. apply elem_of_app. left.
      apply (elem_of_flat_map _ _ b); assumption.
    - apply filter_same. intros r Hr.
      apply (any_in_bounds_located _ _ (all_coords self) Hin).
      intros c Hc. unfold all_coords. apply elem_of_app. right.
      apply elem_of_app. left. apply (elem_of_flat_map _ _ r); assumption.
    - apply filter_all. intros p Hp. unfold in_bounds. apply Hin.
      unfold all_coords. apply elem_of_app. right. apply elem_of_app. right.
      apply elem_of_app. left. apply list_elem_of_fmap. exists p.
      split; [reflexivity|exact Hp].
    - apply filter_same. intros p Hp.
      apply (any_in_bounds_located _ _ (all_coords self) Hin).
      intros c Hc. unfold all_coords. apply elem_of_app. right.
      apply elem_of_app. right. apply elem_of_app. right.
      apply (elem_of_flat_map _ _ p); assumption. }
  split; [exact Hloc|]. intros Hb Hr Hp. rewrite Hloc.
  destruct self as [bs rs ps gs t]. unfold located.
  cbn [buildings roads points polygons terrain_elevation] in *.
  f_equal; apply filter_all; intros x Hx.
  - rewrite Forall_forall in Hb. rewrite bool_decide_eq_false_2; [reflexivity|].
    apply Hb. exact Hx.
  - rewrite Forall_forall in Hr. rewrite bool_decide_eq_false_2; [reflexivity|].
    apply Hr. exact Hx.
  - rewrite Forall_forall in Hp. rewrite bool_decide_eq_false_2; [reflexivity|].
    apply Hp. exact Hx.
Qed.

(** X22.  A box that is inverted on one axis, or has a NaN side, contains
    no coordinate: filtering by it leaves no feature at all (and keeps the
    terrain elevation). *)
Theorem filter_by_bounds_improper_box (self : GeoDataCollection) bounds :
  (min_lon bounds <=? max_lon bounds)%float = false
  \/ (min_lat bounds <=? max_lat bounds)%float = false ->
  filter_by_bounds self bounds = without_features self.
Proof.
  intros Hbox.
  assert (Hout : forall c, contains bounds c = false).
  { intros c. destruct (contains bounds c) eqn:Hc; [|reflexivity].
    apply contains_proper in Hc as [H1 H2]. destruct Hbox; congruence. }
  assert (Hany : forall coords, any_in_bounds bounds coords = false).
  { intros coords. unfold any_in_bounds.
    induction coords as [|c coords IH]; [reflexivity|].
    cbn [existsb]. unfold in_bounds at 1. rewrite Hout, IH. reflexivity. }
  unfold filter_by_bounds, without_features.
  f_equal; apply filter_none; intros x _; [apply Hany|apply Hany| |apply Hany].
  apply Hout.
Qed.

Lemma filter_comm {A} (f g : A -> bool) (l : list A) :
  List.filter f (List.filter g l) = List.filter g (List.filter f l).
Proof.
  induction l as [|x l IH]; [reflexivity|]. cbn [List.filter].
  destruct (f x) eqn:Hf, (g x) eqn:Hg; cbn [List.filter];
    rewrite ?Hf, ?Hg, IH; reflexivity.
Qed.

Lemma filter_idem {A} (f : A -> bool) (l : list A) :
  List.filter f (List.filter f l) = List.filter f l.
Proof.
  induction l as [|x l IH]; [reflexivity|]. cbn [List.filter].
  destruct (f x) eqn:Hf; cbn [List.filter]; rewrite ?Hf, IH; reflexivity.
Qed.

(** X23.  The two filters can be applied in any order, and applying one
    of them twice is applying it once. *)
Theorem filters_commute (self : GeoDataCollection)
    (tags tags' : gmap string string) (bounds bounds' : BoundingBox) :
  filter_by_tags (filter_by_tags self tags) tags'
  = filter_by_tags (filter_by_tags self tags') tags
  /\ filter_by_bounds (filter_by_bounds self bounds) bounds'
     = filter_by_bounds (filter_by_bounds self bounds') bounds
  /\ filter_by_bounds (filter_by_tags self tags) bounds
     = filter_by_tags (filter_by_bounds self bounds) tags
  /\ filter_by_tags (filter_by_tags self tags) tags = filter_by_tags self tags
  /\ filter_by_bounds (filter_by_bounds self bounds) bounds
     = filter_by_bounds self bounds.
Proof.
  unfold filter_by_tags, filter_by_bounds.
  cbn [buildings roads points polygons terrain_elevation].
  repeat split; f_equal; first [apply filter_comm | apply filter_idem].
Qed.

Lemma no_nan_two_places : no_nan (all_coords two_places).
Proof. repeat constructor. Qed.

(** The point of interest of [two_places] is inside its bounds. *)
Lemma get_bounds_contains_all_witness :
  contains (get_bounds two_places)
    {| lon := float_of_Z 3; lat := float_of_Z 53 |} = true.
Proof.
  apply (proj1 (get_bounds_contains_all two_places no_nan_two_places)).
  vm_compute. right. right. left.
Defined.

(** [two_places] filtered by its own bounds. *)
Lemma filter_by_own_bounds_witness :
  filter_by_bounds two_places (get_bounds two_places) = located two_places.
Proof.
  apply (proj1 (filter_by_own_bounds two_places no_nan_two_places)).
Defined.

(** A box from longitude 5 to longitude 3. *)
Lemma filter_by_bounds_improper_box_witness :
  filter_by_bounds two_places
    {| min_lon := float_of_Z 5; min_lat := float_of_Z 0;
       max_lon := float_of_Z 3; max_lat := float_of_Z 90 |}
  = without_features two_places.
Proof.
  apply (filter_by_bounds_improper_box two_places).
  left. vm_compute. reflexivity.
Defined.

End GeoBoundsFacts.

(** ** [utils/visualization.py]: palettes *)

Module PalettesFacts.

Import PyNum Visualization VisualizationSpec VisualizationFacts.
Import Binary64Places Binary64Rounding.
Import GeoBounds Palettes PalettesSpec.

(** The clamp gives the int 0, the int 1, or a float strictly between
    them. *)
Lemma clamp_cases (n : float) :
  max_0 (min_1 n) = Int 0
  \/ max_0 (min_1 n) = Int 1
  \/ exists x, max_0 (min_1 n) = Float x /\ finite x /\ 0 < pl x < 2 ^ 1074.
Proof.
  unfold min_1. destruct (n <? 1)%float eqn:H1; [|right; left; reflexivity].
  cbn [max_0]. destruct (0 <? n)%float eqn:H0; [|left; reflexivity].
  right. right. exists n. split; [reflexivity|].
  apply ltb_true in H1 as (Nn & _ & H1). apply ltb_true in H0 as (_ & _ & H0).
  rewrite pl_one in H1. rewrite pl_zero in H0.
  split; [|lia]. apply place_finite; [exact Nn|].
  pose proof one_lt_infinity_place. pose proof infinity_place_pos. lia.
Qed.

Lemma position_cases value min_value max_value :
  position value min_value max_value = Int 0
  \/ position value min_value max_value = Int 1
  \/ exists x, position value min_value max_value = Float x
               /\ finite x /\ 0 < pl x < 2 ^ 1074.
Proof. unfold position. apply clamp_cases. Qed.

(** [int] of a finite float that is not negative: the whole units of its
    place. *)
Lemma int_of_float_place x :
  finite x -> 0 <= pl x -> int_of_float x = Ok (pl x / 2 ^ 1074).
Proof.
  unfold finite, pl, int_of_float. intros Fx H0.
  pose proof (FloatAxioms.Prim2SF_valid x) as Hv.
  destruct (Prim2SF x) as [s|s| |s m e]; try contradiction.
  - reflexivity.
  - pose proof (valid_finite _ _ _ Hv) as (He & _).
    pose proof (finite_place_bounds s m e Hv) as [Hpos _].
    cbn [place] in *. destruct s; cbn [cond_Zopp] in *; [lia|].
    f_equal. destruct (Z.leb_spec 0 e) as [Hle|Hgt].
    + replace (e + 1074) with (e + 1074)%Z by reflexivity.
      rewrite Z.pow_add_r, Z.mul_assoc by lia.
      rewrite Z.div_mul; [reflexivity|].
      assert (0 < 2 ^ 1074) by (apply Z.pow_pos_nonneg; lia). lia.
    + replace 1074 with ((- e) + (e + 1074)) at 2 by lia.
      rewrite (Z.pow_add_r 2 (- e)) by lia.
      rewrite Z.div_mul_cancel_r; [reflexivity| |].
      * assert (0 < 2 ^ (- e)) by (apply Z.pow_pos_nonneg; lia). lia.
      * assert (0 < 2 ^ (e + 1074)) by (apply Z.pow_pos_nonneg; lia). lia.
Qed.

Lemma int_of_float_finite x : finite x -> exists z, int_of_float x = Ok z.
Proof.
  unfold finite, int_of_float.
  destruct (Prim2SF x); try contradiction; intros _; eexists; reflexivity.
Qed.

Lemma colors_getitem_in_range colors i :
  0 <= i < Z.of_nat (length colors) ->
  exists c, colors_getitem colors i = Ok c /\ c ∈ colors.
Proof.
  intros Hi. unfold colors_getitem, list_getitem_Z.
  replace ((0 <=? i) && (i <? Z.of_nat (length colors))) with true
    by (symmetry; apply andb_true_iff; split;
        [apply Z.leb_le; lia|apply Z.ltb_lt; lia]).
  unfold list_getitem.
  destruct (colors !! Z.to_nat i) as [c|] eqn:Hc.
  - exists c. split; [reflexivity|]. apply (list_elem_of_lookup_2 _ _ _ Hc).
  - apply lookup_ge_None in Hc. lia.
Qed.

Lemma colors_getitem_empty i : colors_getitem [] i = Raise IndexError.
Proof.
  unfold colors_getitem, list_getitem_Z. cbn [length].
  change (Z.of_nat 0) with 0. change (- 0) with 0.
  destruct (Z.leb_spec 0 i), (Z.ltb_spec i 0); try lia; reflexivity.
Qed.

(** The arithmetic of one mixed channel: with each of the three roundings
    within [2^-53] of its value, the sum stays within 255.5. *)
Lemma mix_bound D one half W U T1 T2 a b :
  0 < D -> (D + 1) * (D + 1) * 510 <= D * D * 511 ->
  one = 2 * half -> 0 < half ->
  0 <= W <= one -> 0 <= U -> D * U <= (D + 1) * (one - W) ->
  0 <= a <= 255 -> 0 <= b <= 255 ->
  D * T1 <= (D + 1) * (U * a) -> D * T2 <= (D + 1) * (W * b) ->
  T1 + T2 <= 511 * half.
Proof.
  intros HD HK Hone Hhalf HW HU HUW Ha Hb HT1 HT2.
  set (E := D + 1) in *.
  assert (HE : 0 < E) by (unfold E; lia).
  assert (H1 : D * (D * T1) <= E * 255 * (E * (one - W))).
  { assert (U * a <= U * 255) by (apply Z.mul_le_mono_nonneg_l; lia).
    assert (E * (U * a) <= E * (U * 255))
      by (apply Z.mul_le_mono_nonneg_l; lia).
    assert (D * (D * T1) <= D * (E * (U * 255)))
      by (apply Z.mul_le_mono_nonneg_l; lia).
    assert (E * 255 * (D * U) <= E * 255 * (E * (one - W)))
      by (apply Z.mul_le_mono_nonneg_l; lia).
    replace (D * (E * (U * 255))) with (E * 255 * (D * U)) in * by ring.
    lia. }
  assert (H2 : D * (D * T2) <= E * (E * (W * 255))).
  { assert (W * b <= W * 255) by (apply Z.mul_le_mono_nonneg_l; lia).
    assert (E * (W * b) <= E * (W * 255))
      by (apply Z.mul_le_mono_nonneg_l; lia).
    assert (D * (D * T2) <= D * (E * (W * 255)))
      by (apply Z.mul_le_mono_nonneg_l; lia).
    assert (0 <= E * (W * 255)).
    { apply Z.mul_nonneg_nonneg; [lia|]. apply Z.mul_nonneg_nonneg; lia. }
    assert (D * (E * (W * 255)) <= E * (E * (W * 255)))
      by (apply Z.mul_le_mono_nonneg_r; unfold E; lia).
    lia. }
  assert (H3 : D * D * (T1 + T2) <= E * E * 510 * half).
  { replace (D * D * (T1 + T2)) with (D * (D * T1) + D * (D * T2)) by ring.
    replace (E * E * 510 * half)
      with (E * 255 * (E * (one - W)) + E * (E * (W * 255)))
      by (subst one; ring).
    lia. }
  assert (H4 : E * E * 510 * half <= D * D * 511 * half)
    by (apply Z.mul_le_mono_nonneg_r; lia).
  assert (H5 : D * D * (T1 + T2) <= D * D * (511 * half)).
  { replace (D * D * (511 * half)) with (D * D * 511 * half) by ring. lia. }
  apply Z.mul_le_mono_pos_l in H5; [exact H5|].
  apply Z.mul_pos_pos; lia.
Qed.

Lemma pl_255_5 : finite 255.5 /\ pl 255.5 = 511 * 2 ^ 1073.
Proof. split; [exact I|reflexivity]. Qed.

Lemma one_double : 2 ^ 1074 = 2 * 2 ^ 1073.
Proof. reflexivity. Qed.

Lemma channel_small a : channel a -> 0 <= a < 2 ^ 53.
Proof. unfold channel. intros H. split; [lia|]. assert (255 < 2 ^ 53) by reflexivity. lia. Qed.

(** One channel mixed with a float weight from 0 to 1 is a channel. *)
Lemma mix_Float_channel w a b :
  finite w -> 0 <= pl w <= 2 ^ 1074 -> channel a -> channel b ->
  exists c, mix (Float w) a b = Ok c /\ channel c.
Proof.
  intros Fw HW Ha Hb. cbn [mix].
  pose proof one_double as Hdouble.
  assert (Hhalf : 0 < 2 ^ 1073) by (apply Z.pow_pos_nonneg; lia).
  set (one := 2 ^ 1074) in *. set (half := 2 ^ 1073) in *.
  destruct (pl_float_of_Z a (channel_small a Ha)) as [FA PA].
  destruct (pl_float_of_Z b (channel_small b Hb)) as [FB PB].
  assert (F0 : finite 0) by exact I. assert (F1 : finite 1) by exact I.
  (* 1 - w *)
  destruct (sub_finite 1 w F1 Fw) as [Nu Pu]. rewrite pl_one in Pu.
  fold one in Pu.
  pose proof (RNZ_between 0 1 (one - pl w) F0 F1) as Bu.
  rewrite pl_zero, pl_one in Bu. fold one in Bu.
  specialize (Bu ltac:(lia)). rewrite <- Pu in Bu.
  pose proof (RNZ_relative (one - pl w) ltac:(lia)) as [_ Ru].
  rewrite <- Pu in Ru.
  assert (Fu : finite (1 - w)).
  { apply (finite_between 0 1); [exact F0|exact F1|exact Nu|].
    rewrite pl_zero, pl_one. exact Bu. }
  set (u := (1 - w)%float) in *.
  (* the channels as floats *)
  destruct (pl_float_of_Z 255 ltac:(split; [lia|reflexivity])) as [F255 P255].
  fold one in PA, PB, P255.
  (* u * a *)
  assert (HUa : 0 <= pl u * a <= 255 * one).
  { split; [apply Z.mul_nonneg_nonneg; unfold channel in *; lia|].
    rewrite (Z.mul_comm 255 one). apply Z.mul_le_mono_nonneg; unfold channel in *; lia. }
  destruct (mul_finite u (float_of_Z a) (pl u * a) Fu FA) as [N1 P1].
  { rewrite PA. fold one. ring. }
  pose proof (RNZ_between 0 (float_of_Z 255) (pl u * a) F0 F255) as B1.
  rewrite pl_zero, P255 in B1. specialize (B1 HUa). rewrite <- P1 in B1.
  pose proof (RNZ_relative (pl u * a) ltac:(lia)) as [_ R1]. rewrite <- P1 in R1.
  assert (Ft1 : finite (u * float_of_Z a)).
  { apply (finite_between 0 (float_of_Z 255)); [exact F0|exact F255|exact N1|].
    rewrite pl_zero, P255. exact B1. }
  set (t1 := (u * float_of_Z a)%float) in *.
  (* w * b *)
  assert (HWb : 0 <= pl w * b <= 255 * one).
  { split; [apply Z.mul_nonneg_nonneg; unfold channel in *; lia|].
    rewrite (Z.mul_comm 255 one). apply Z.mul_le_mono_nonneg; unfold channel in *; lia. }
  destruct (mul_finite w (float_of_Z b) (pl w * b) Fw FB) as [N2 P2].
  { rewrite PB. fold one. ring. }
  pose proof (RNZ_between 0 (float_of_Z 255) (pl w * b) F0 F255) as B2.
  rewrite pl_zero, P255 in B2. specialize (B2 HWb). rewrite <- P2 in B2.
  pose proof (RNZ_relative (pl w * b) ltac:(lia)) as [_ R2]. rewrite <- P2 in R2.
  assert (Ft2 : finite (w * float_of_Z b)).
  { apply (finite_between 0 (float_of_Z 255)); [exact F0|exact F255|exact N2|].
    rewrite pl_zero, P255. exact B2. }
  set (t2 := (w * float_of_Z b)%float) in *.
  (* the sum *)
  assert (Hsum : pl t1 + pl t2 <= 511 * half).
  { apply (mix_bound (2 ^ 53) one half (pl w) (pl u) (pl t1) (pl t2) a b);
      unfold channel in *; try lia; assumption. }
  destruct (add_finite t1 t2 Ft1 Ft2) as [Ns Ps].
  destruct pl_255_5 as [F2555 P2555]. fold half in P2555.
  pose proof (RNZ_between 0 255.5 (pl t1 + pl t2) F0 F2555) as Bs.
  rewrite pl_zero, P2555 in Bs. specialize (Bs ltac:(lia)). rewrite <- Ps in Bs.
  assert (Fs : finite (t1 + t2)).
  { apply (finite_between 0 255.5); [exact F0|exact F2555|exact Ns|].
    rewrite pl_zero, P2555. exact Bs. }
  rewrite (int_of_float_place _ Fs) by lia. fold one.
  eexists. split; [reflexivity|]. unfold channel. split.
  - apply Z.div_pos; lia.
  - assert (pl (t1 + t2) / one < 256); [|lia].
    apply Z.div_lt_upper_bound; lia.
Qed.

(** Interpolation at a float position strictly between 0 and 1: an
    opaque colour. *)
Lemma interpolate_Float x colors :
  finite x -> 0 < pl x < 2 ^ 1074 ->
  colors <> [] -> palette colors -> Z.of_nat (length colors) <= 2 ^ 53 ->
  exists c, interpolate (Float x) colors = Ok c /\ opaque_rgba c.
Proof.
  intros Fx Hx Hne Hpal Hlen.
  assert (Hone : 0 < 2 ^ 1074) by (apply Z.pow_pos_nonneg; lia).
  set (one := 2 ^ 1074) in *.
  assert (Hn : 1 <= Z.of_nat (length colors))
    by (destruct colors; [contradiction|cbn [length]; lia]).
  set (n := Z.of_nat (length colors)) in *.
  assert (F0 : finite 0) by exact I. assert (F1 : finite 1) by exact I.
  destruct (pl_float_of_Z (n - 1) ltac:(lia)) as [FF PF]. fold one in PF.
  unfold interpolate. fold n. cbn [mul_int py_int_of].
  (* the index *)
  assert (HXn : 0 <= pl x * (n - 1) <= (n - 1) * one).
  { split; [apply Z.mul_nonneg_nonneg; lia|].
    rewrite (Z.mul_comm (n - 1) one). apply Z.mul_le_mono_nonneg_r; lia. }
  destruct (mul_finite x (float_of_Z (n - 1)) (pl x * (n - 1)) Fx FF) as [Nc Pc].
  { rewrite PF. fold one. ring. }
  pose proof (RNZ_between 0 (float_of_Z (n - 1)) (pl x * (n - 1)) F0 FF) as Bc.
  rewrite pl_zero, PF in Bc. specialize (Bc HXn). rewrite <- Pc in Bc.
  assert (Fc : finite (x * float_of_Z (n - 1))).
  { apply (finite_between 0 (float_of_Z (n - 1))); [exact F0|exact FF|exact Nc|].
    rewrite pl_zero, PF. exact Bc. }
  set (ci := (x * float_of_Z (n - 1))%float) in *.
  rewrite (int_of_float_place ci Fc) by lia. fold one.
  cbn [mbind result_bind].
  set (lower := pl ci / one).
  assert (Hlower : 0 <= lower <= n - 1).
  { unfold lower. split; [apply Z.div_pos; lia|].
    apply Z.div_le_upper_bound; lia. }
  destruct (colors_getitem_in_range colors lower ltac:(fold n; lia))
    as (cl & Hcl & Hinl).
  destruct (colors_getitem_in_range colors (Z.min (lower + 1) (n - 1))
              ltac:(fold n; lia)) as (cu & Hcu & Hinu).
  rewrite Hcl. cbn [mbind result_bind]. rewrite Hcu. cbn [mbind result_bind].
  (* the weight *)
  cbn [sub_int].
  destruct (pl_float_of_Z lower ltac:(lia)) as [Fl Pl]. fold one in Pl.
  destruct (sub_finite ci (float_of_Z lower) Fc Fl) as [Nw Pw].
  assert (Hmod : 0 <= pl ci - pl (float_of_Z lower) <= one).
  { rewrite Pl. unfold lower.
    pose proof (Z.div_mod (pl ci) one ltac:(lia)).
    pose proof (Z.mod_pos_bound (pl ci) one Hone). lia. }
  pose proof (RNZ_between 0 1 _ F0 F1 Hmod) as Bw. rewrite <- Pw in Bw.
  rewrite pl_zero, pl_one in Bw. fold one in Bw.
  assert (Fw : finite (ci - float_of_Z lower)).
  { apply (finite_between 0 1); [exact F0|exact F1|exact Nw|].
    rewrite pl_zero, pl_one. exact Bw. }
  set (w := (ci - float_of_Z lower)%float) in *.
  unfold palette in Hpal. rewrite Forall_forall in Hpal.
  destruct (Hpal cl Hinl) as (Hr1 & Hg1 & Hb1).
  destruct (Hpal cu Hinu) as (Hr2 & Hg2 & Hb2).
  destruct (mix_Float_channel w (red cl) (red cu) Fw Bw Hr1 Hr2) as (r & -> & Hr).
  destruct (mix_Float_channel w (green cl) (green cu) Fw Bw Hg1 Hg2) as (g & -> & Hg).
  destruct (mix_Float_channel w (blue cl) (blue cu) Fw Bw Hb1 Hb2) as (b & -> & Hb).
  cbn [mbind result_bind].
  eexists. split; [reflexivity|]. exists r, g, b. auto.
Qed.

Lemma channel_int64 c :
  channel (red c) /\ channel (green c) /\ channel (blue c) -> int64_color c.
Proof.
  unfold channel, int64_color. intros (Hr & Hg & Hb).
  assert (255 < 2 ^ 63) by reflexivity.
  assert (0 < 2 ^ 63) by reflexivity. lia.
Qed.

Lemma rgba_opaque c :
  channel (red c) /\ channel (green c) /\ channel (blue c) ->
  opaque_rgba (rgba c).
Proof. intros (Hr & Hg & Hb). exists (red c), (green c), (blue c). auto. Qed.

Lemma palette_head colors :
  colors <> [] -> palette colors ->
  exists c, head colors = Some c
            /\ channel (red c) /\ channel (green c) /\ channel (blue c).
Proof.
  intros Hne Hpal. destruct colors as [|c colors]; [contradiction|].
  exists c. split; [reflexivity|]. apply (Forall_inv Hpal).
Qed.

Lemma palette_last colors :
  colors <> [] -> palette colors ->
  exists c, last colors = Some c
            /\ channel (red c) /\ channel (green c) /\ channel (blue c).
Proof.
  intros Hne Hpal. destruct (last colors) as [c|] eqn:Hl.
  - exists c. split; [reflexivity|].
    unfold palette in Hpal. rewrite Forall_forall in Hpal. apply Hpal.
    rewrite last_lookup in Hl. apply (list_elem_of_lookup_2 _ _ _ Hl).
  - apply last_None in Hl. contradiction.
Qed.

(** Interpolation at any clamped position on a palette: an opaque
    colour. *)
Lemma get_color_for_value_opaque value min_value max_value colors :
  colors <> [] -> palette colors -> Z.of_nat (length colors) <= 2 ^ 53 ->
  exists c, get_color_for_value value min_value max_value colors = Ok c
            /\ opaque_rgba c.
Proof.
  intros Hne Hpal Hlen. rewrite get_color_for_value_unfold.
  destruct (position_cases value min_value max_value)
    as [-> | [-> | (x & -> & Fx & Hx)]].
  - destruct (palette_head colors Hne Hpal) as (c & Hc & Hch).
    exists (rgba c). split; [|apply rgba_opaque, Hch].
    apply interpolate_0; [exact Hc|apply channel_int64, Hch].
  - destruct (palette_last colors Hne Hpal) as (c & Hc & Hch).
    exists (rgba c). split; [|apply rgba_opaque, Hch].
    apply interpolate_1; [exact Hc|apply channel_int64, Hch].
  - apply interpolate_Float; assumption.
Qed.

Lemma pl_float_of_Z_minus_1 :
  finite (float_of_Z (-1)) /\ pl (float_of_Z (-1)) = - 2 ^ 1074.
Proof. split; [exact I|reflexivity]. Qed.

(** On an empty array the first index raises [IndexError]. *)
Lemma get_color_for_value_empty value min_value max_value :
  get_color_for_value value min_value max_value [] = Raise IndexError.
Proof.
  rewrite get_color_for_value_unfold.
  destruct (position_cases value min_value max_value)
    as [-> | [-> | (x & -> & Fx & Hx)]]; [reflexivity|reflexivity|].
  unfold interpolate. cbn [length mul_int py_int_of].
  change (Z.of_nat 0 - 1) with (-1).
  destruct pl_float_of_Z_minus_1 as [Fm Pm].
  destruct (mul_finite x (float_of_Z (-1)) (- pl x) Fx Fm) as [Nc Pc].
  { rewrite Pm. ring. }
  assert (Fc : finite (x * float_of_Z (-1))).
  { apply (finite_between (float_of_Z (-1)) 0); [exact Fm|exact I|exact Nc|].
    rewrite Pc, Pm, pl_zero. rewrite RNZ_opp, (RNZ_pl x Fx). lia. }
  destruct (int_of_float_finite _ Fc) as [z ->].
  cbn [mbind result_bind]. rewrite (colors_getitem_empty z). reflexivity.
Qed.

Lemma palette_terrain_colors : palette terrain_colors.
Proof.
  unfold palette, channel, terrain_colors.
  repeat (apply Forall_cons_2; [cbn; lia|]). apply Forall_nil_2.
Qed.

(** X24.  For a non-empty palette of colours with channels from 0 to 255
    (of at most [2^53] colours), any value and any scale bounds, NaN and
    the infinities too, [get_color_for_value] returns, without an error,
    four integers [[r, g, b, 255]] with each channel from 0 to 255; so does
    [elevation_to_color], whose palette is such; on an empty palette
    [get_color_for_value] raises [IndexError]. *)
Theorem get_color_for_value_is_colour (value min_value max_value : float) :
  (forall colors,
     colors <> [] -> palette colors -> Z.of_nat (length colors) <= 2 ^ 53 ->
     exists c, get_color_for_value value min_value max_value colors = Ok c
               /\ opaque_rgba c)
  /\ (exists c, elevation_to_color value min_value max_value = Ok c
                /\ opaque_rgba c)
  /\ get_color_for_value value min_value max_value [] = Raise IndexError.
Proof.
  split; [|split].
  - intros colors. apply get_color_for_value_opaque.
  - apply get_color_for_value_opaque;
      [discriminate|apply palette_terrain_colors|].
    cbn. assert (9 <= 2 ^ 53) by (apply Z.leb_le; reflexivity). lia.
  - apply get_color_for_value_empty.
Qed.

Lemma float_min_from_place values : forall best,
  not_nan best -> Forall not_nan values ->
  (float_min_from best values = best \/ float_min_from best values ∈ values)
  /\ pl (float_min_from best values) <= pl best
  /\ Forall (fun v => pl (float_min_from best values) <= pl v) values.
Proof.
  induction values as [|v rest IH]; intros best Nb Hall; cbn [float_min_from].
  - split; [left; reflexivity|]. split; [lia|apply Forall_nil_2].
  - pose proof (Forall_inv Hall) as Nv. pose proof (Forall_inv_tail Hall) as Nrest.
    rewrite (ltb_place v best Nv Nb).
    destruct (Z.ltb_spec (pl v) (pl best)) as [Hlt|Hge].
    + destruct (IH v Nv Nrest) as (H1 & H2 & H3).
      split; [right; destruct H1 as [-> | H1]; [left|right; exact H1]|].
      split; [lia|]. apply Forall_cons_2; assumption.
    + destruct (IH best Nb Nrest) as (H1 & H2 & H3).
      split; [destruct H1 as [H1 | H1]; [left; exact H1|right; right; exact H1]|].
      split; [exact H2|]. apply Forall_cons_2; [lia|exact H3].
Qed.

Lemma float_max_from_place values : forall best,
  not_nan best -> Forall not_nan values ->
  (float_max_from best values = best \/ float_max_from best values ∈ values)
  /\ pl best <= pl (float_max_from best values)
  /\ Forall (fun v => pl v <= pl (float_max_from best values)) values.
Proof.
  induction values as [|v rest IH]; intros best Nb Hall; cbn [float_max_from].
  - split; [left; reflexivity|]. split; [lia|apply Forall_nil_2].
  - pose proof (Forall_inv Hall) as Nv. pose proof (Forall_inv_tail Hall) as Nrest.
    rewrite (ltb_place best v Nb Nv).
    destruct (Z.ltb_spec (pl best) (pl v)) as [Hlt|Hge].
    + destruct (IH v Nv Nrest) as (H1 & H2 & H3).
      split; [right; destruct H1 as [-> | H1]; [left|right; exact H1]|].
      split; [lia|]. apply Forall_cons_2; assumption.
    + destruct (IH best Nb Nrest) as (H1 & H2 & H3).
      split; [destruct H1 as [H1 | H1]; [left; exact H1|right; right; exact H1]|].
      split; [exact H2|]. apply Forall_cons_2; [lia|exact H3].
Qed.

Lemma py_min_float_total data :
  data <> [] -> exists m, py_min_float data = Ok m.
Proof. destruct data; [contradiction|]. intros _. eexists. reflexivity. Qed.

Lemma py_max_float_total data :
  data <> [] -> exists m, py_max_float data = Ok m.
Proof. destruct data; [contradiction|]. intros _. eexists. reflexivity. Qed.

Lemma py_min_float_least data :
  data <> [] -> Forall not_nan data ->
  exists m, py_min_float data = Ok m /\ m ∈ data
            /\ Forall (fun v => pl m <= pl v) data.
Proof.
  destruct data as [|v rest]; [contradiction|]. intros _ Hall.
  destruct (float_min_from_place rest v (Forall_inv Hall) (Forall_inv_tail Hall))
    as (H1 & H2 & H3).
  exists (float_min_from v rest). split; [reflexivity|]. split.
  - destruct H1 as [-> | H1]; [left|right; exact H1].
  - apply Forall_cons_2; assumption.
Qed.

Lemma py_max_float_greatest data :
  data <> [] -> Forall not_nan data ->
  exists m, py_max_float data = Ok m /\ m ∈ data
            /\ Forall (fun v => pl v <= pl m) data.
Proof.
  destruct data as [|v rest]; [contradiction|]. intros _ Hall.
  destruct (float_max_from_place rest v (Forall_inv Hall) (Forall_inv_tail Hall))
    as (H1 & H2 & H3).
  exists (float_max_from v rest). split; [reflexivity|]. split.
  - destruct H1 as [-> | H1]; [left|right; exact H1].
  - apply Forall_cons_2; assumption.
Qed.

Lemma mapM_Ok {A B} (f : A -> result B) (P : B -> Prop) (l : list A) :
  (forall x, x ∈ l -> exists y, f x = Ok y /\ P y) ->
  exists ys, mapM f l = Ok ys /\ length ys = length l /\ Forall P ys
             /\ (forall i x, l !! i = Some x ->
                   exists y, ys !! i = Some y /\ f x = Ok y).
Proof.
  induction l as [|x l IH]; intros Hf.
  - exists []. cbn. split; [reflexivity|]. split; [reflexivity|].
    split; [apply Forall_nil_2|]. intros i x H. rewrite lookup_nil in H.
    discriminate.
  - destruct (Hf x) as (y & Hy & HP); [left|].
    destruct IH as (ys & Hys & Hlen & HPs & Hlook).
    { intros x' Hx'. apply Hf. right. exact Hx'. }
    exists (y :: ys). cbn [mapM]. rewrite Hy. cbn [mbind result_bind].
    rewrite Hys. cbn [mbind result_bind mret result_ret].
    split; [reflexivity|]. split; [cbn [length]; lia|].
    split; [apply Forall_cons_2; assumption|].
    intros [|i] x' Hx'; cbn in Hx'.
    + injection Hx' as <-. exists y. split; [reflexivity|exact Hy].
    + apply (Hlook i x' Hx').
Qed.

Lemma scheme_colors_palette color_scheme :
  scheme_colors color_scheme <> []
  /\ palette (scheme_colors color_scheme)
  /\ Z.of_nat (length (scheme_colors color_scheme)) <= 2 ^ 53.
Proof.
  assert (H9 : 9 <= 2 ^ 53) by (apply Z.leb_le; reflexivity).
  unfold scheme_colors.
  destruct (color_schemes !! color_scheme) as [colors|] eqn:Hlook.
  - apply elem_of_list_to_map_2 in Hlook. cbn [default].
    repeat (apply elem_of_cons in Hlook as [[= _ ->] | Hlook];
            [split; [discriminate|]; split;
             [unfold palette, channel;
              repeat (apply Forall_cons_2; [cbn; lia|]); apply Forall_nil_2
             |cbn; lia]|]).
    inversion Hlook.
  - cbn [default]. split; [discriminate|]. split; [|cbn; lia].
    unfold palette, channel, viridis.
    repeat (apply Forall_cons_2; [cbn; lia|]). apply Forall_nil_2.
Qed.

Lemma scheme_colors_unknown color_scheme :
  color_scheme ∉ scheme_names -> scheme_colors color_scheme = viridis.
Proof.
  intros Hnot. unfold scheme_colors, color_schemes.
  rewrite (not_elem_of_list_to_map_1 _ color_scheme); [reflexivity|].
  exact Hnot.
Qed.

Lemma generate_heatmap_colors_unfold data color_scheme :
  generate_heatmap_colors data color_scheme
  = (min_val ← py_min_float data;
     max_val ← py_max_float data;
     mapM (fun val =>
             get_color_for_value val min_val max_val
               (scheme_colors color_scheme)) data).
Proof. reflexivity. Qed.

(** X25.  [generate_heatmap_colors] raises [ValueError] on an empty list;
    on any other list of floats (NaN and the infinities too) it returns,
    without an error, one opaque colour with channels from 0 to 255 for
    each entry; and a scheme name that the table does not have ("inferno"
    and "magma" among them) gives what "viridis" gives. *)
Theorem generate_heatmap_colors_total
    (data : list float) (color_scheme : string) :
  (data = [] -> generate_heatmap_colors data color_scheme = Raise ValueError)
  /\ (data <> [] ->
      exists cs, generate_heatmap_colors data color_scheme = Ok cs
                 /\ length cs = length data /\ Forall opaque_rgba cs)
  /\ (color_scheme ∉ scheme_names ->
      generate_heatmap_colors data color_scheme
      = generate_heatmap_colors data "viridis").
Proof.
  split; [|split].
  - intros ->. reflexivity.
  - intros Hne. rewrite generate_heatmap_colors_unfold.
    destruct (py_min_float_total data Hne) as (lo & ->).
    destruct (py_max_float_total data Hne) as (hi & ->).
    cbn [mbind result_bind].
    destruct (scheme_colors_palette color_scheme) as (Hcol & Hpal & Hlen9).
    destruct (mapM_Ok
                (fun val => get_color_for_value val lo hi
                              (scheme_colors color_scheme))
                opaque_rgba data) as (cs & Hcs & Hlen & Hall & _).
    { intros x _. apply get_color_for_value_opaque; assumption. }
    exists cs. split; [exact Hcs|]. split; assumption.
  - intros Hnot. rewrite !generate_heatmap_colors_unfold.
    rewrite (scheme_colors_unknown _ Hnot). reflexivity.
Qed.

(** X26.  For finite data that are not all equal, every entry equal to
    the least one gets the first colour of the scheme and every entry equal
    to the greatest one the last colour; when they are all equal, every
    entry gets the colour of the middle of the scheme. *)
Theorem generate_heatmap_colors_ends
    (data : list float) (color_scheme : string) (lo hi : float)
    (first_color last_color : rgb) :
  Forall finite data ->
  lo ∈ data -> hi ∈ data ->
  Forall (fun v => (lo <=? v)%float = true /\ (v <=? hi)%float = true) data ->
  head (scheme_colors color_scheme) = Some first_color ->
  last (scheme_colors color_scheme) = Some last_color ->
  exists cs,
    generate_heatmap_colors data color_scheme = Ok cs
    /\ ((lo <? hi)%float = true ->
        forall i v, data !! i = Some v ->
          ((v =? lo)%float = true -> cs !! i = Some (rgba first_color))
          /\ ((v =? hi)%float = true -> cs !! i = Some (rgba last_color)))
    /\ ((lo =? hi)%float = true ->
        forall c, c ∈ cs ->
          Ok c = interpolate (Float 0.5) (scheme_colors color_scheme)).
Proof.
  intros Hfin Hlo Hhi Hall Hfirst Hlast.
  assert (Hne : data <> []) by (intros ->; inversion Hlo).
  assert (Hnn : Forall not_nan data).
  { eapply Forall_impl; [exact Hfin|]. intros x. apply finite_not_nan. }
  rewrite generate_heatmap_colors_unfold.
  destruct (py_min_float_least data Hne Hnn) as (m & -> & Hm & Hmall).
  destruct (py_max_float_greatest data Hne Hnn) as (M & -> & HM & HMall).
  cbn [mbind result_bind].
  rewrite Forall_forall in Hall, Hmall, HMall, Hfin.
  assert (Em : pl m = pl lo).
  { pose proof (Hmall lo Hlo). destruct (Hall m Hm) as [H1 _].
    apply leb_true in H1 as (_ & _ & H1). lia. }
  assert (EM : pl M = pl hi).
  { pose proof (HMall hi Hhi). destruct (Hall M HM) as [_ H1].
    apply leb_true in H1 as (_ & _ & H1). lia. }
  pose proof (Hfin m Hm) as Fm. pose proof (Hfin M HM) as FM.
  destruct (scheme_colors_palette color_scheme) as (Hcol & Hpal & Hlen9).
  assert (Hfirst64 : int64_color first_color).
  { destruct (palette_head _ Hcol Hpal) as (c & Hc & Hch).
    rewrite Hfirst in Hc. injection Hc as <-. apply channel_int64, Hch. }
  assert (Hlast64 : int64_color last_color).
  { destruct (palette_last _ Hcol Hpal) as (c & Hc & Hch).
    rewrite Hlast in Hc. injection Hc as <-. apply channel_int64, Hch. }
  destruct (mapM_Ok
              (fun val => get_color_for_value val m M
                            (scheme_colors color_scheme))
              opaque_rgba data) as (cs & Hcs & Hlen & _ & Hlook).
  { intros x _. apply get_color_for_value_opaque; assumption. }
  exists cs. split; [exact Hcs|]. split.
  - intros Hlt i v Hv. apply ltb_true in Hlt as (_ & _ & Hlt).
    destruct (Hlook i v Hv) as (c & Hc & Hget).
    pose proof (Hfin v (list_elem_of_lookup_2 _ _ _ Hv)) as Fv.
    rewrite get_color_for_value_unfold in Hget. split; intros Ev.
    + apply eqb_true in Ev.
      rewrite position_low in Hget by (auto; lia).
      rewrite (interpolate_0 _ _ Hfirst Hfirst64) in Hget. congruence.
    + apply eqb_true in Ev.
      rewrite position_high in Hget by (auto using finite_not_nan; lia).
      rewrite (interpolate_1 _ _ Hlast Hlast64) in Hget. congruence.
  - intros Eq c Hc. apply eqb_true in Eq.
    apply list_elem_of_lookup_1 in Hc as [i Hi].
    assert (Hi' : is_Some (data !! i)).
    { apply lookup_lt_is_Some. rewrite <- Hlen.
      apply (lookup_lt_Some _ _ _ Hi). }
    destruct Hi' as [v Hv]. destruct (Hlook i v Hv) as (c' & Hc' & Hget).
    rewrite get_color_for_value_unfold in Hget.
    rewrite position_equal in Hget by (auto; lia). congruence.
Qed.

(** The data [[3, 1, 2]] on the plasma scheme: 1 gets the first colour, 3
    the last one. *)
Lemma generate_heatmap_colors_ends_witness :
  exists cs,
    generate_heatmap_colors [3; 1; 2]%float "plasma" = Ok cs
    /\ cs !! 1%nat = Some (rgba (color 13 8 135))
    /\ cs !! 0%nat = Some (rgba (color 240 249 33)).
Proof.
  destruct (generate_heatmap_colors_ends [3; 1; 2]%float "plasma" 1 3
              (color 13 8 135) (color 240 249 33))
    as (cs & Hcs & Hends & _).
  - repeat (apply Forall_cons_2; [exact I|]). apply Forall_nil_2.
  - right. left.
  - left.
  - repeat (apply Forall_cons_2; [split; reflexivity|]).
    apply Forall_nil_2.
  - reflexivity.
  - reflexivity.
  - exists cs. split; [exact Hcs|].
    assert (Hlt : (1 <? 3)%float = true) by reflexivity.
    split.
    + apply (proj1 (Hends Hlt 1%nat 1%float eq_refl)). reflexivity.
    + apply (proj2 (Hends Hlt 0%nat 3%float eq_refl)). reflexivity.
Defined.

End PalettesFacts.
